(** * GraphEmitter: the particle lifecycle core of IPS Lite for Torque3D

    A shallow embedding of [ImprovedParticle/graphEmitter.cpp]: the
    free-list backed particle pool, the time-sliced spawn scheduler
    ([emitParticles]), the ageing pass ([advanceTime], [update],
    [updateKeyData]) and the entry of the vertex builder
    ([prepRenderImage], [copyToVB]).

    Conventions.
    - [U32] and [S32] values are integers of [Z]; every arithmetic result
      the source stores in such a variable is wrapped by [u32] or [s32].
      The two pool counters [n_parts] and [n_part_capacity] count slots
      that exist in memory, they are kept unwrapped.
    - Single precision numbers, colours, the random generator and the
      engine's vector library are not part of graphEmitter.cpp: they are
      the fields of the classes [EngineTypes] and [EngineHost].
    - A [Particle*] is [option nat]: the index of a slot of [part_store]
      (the chunks laid end to end), [None] for NULL.  The list head
      [part_list_head] is a sentinel of which only the [next] field is
      used; the emitter field [part_list_head] is that [next] field.
    - Every method is a computation of the monad [M]: it threads the
      [Machine] and ends in [Done], in [Crash] (a fatal assertion of a
      build with assertions, a NULL dereference, an integer division by
      zero) or in [OutOfFuel] (a loop that was cut off). *)

From Stdlib Require Import ZArith List Bool Lia String SpecFloat.
From stdpp Require Import base tactics option list.

Local Open Scope Z_scope.

(** ** Fixed-width integers *)

Definition u32 (z : Z) : Z := z mod 2 ^ 32.
Definition s32 (z : Z) : Z := (z + 2 ^ 31) mod 2 ^ 32 - 2 ^ 31.

(** ** What the engine provides: scalar types and the math library *)

Class EngineTypes := {
  F32 : Type;
  ColorF : Type;
  Rng : Type;                     (* state of gRandGen *)
  NodeGraph : Type;               (* the node's function parsers and transform *)
  Quad : Type;                    (* four ParticleVertexType *)
  f_add : F32 -> F32 -> F32;
  f_sub : F32 -> F32 -> F32;
  f_mul : F32 -> F32 -> F32;
  f_div : F32 -> F32 -> F32;
  f_ltb : F32 -> F32 -> bool;
  f_leb : F32 -> F32 -> bool;
  f_eqb : F32 -> F32 -> bool;
  f_abs : F32 -> F32;             (* mFabs *)
  f_of_int : Z -> F32;            (* F32(n) *)
  f_to_int : F32 -> Z;            (* truncation toward zero of an integer cast *)
  f_dec : Z -> Z -> F32;          (* the decimal literal m * 10^e *)
  F32_MIN : F32;
  PDC_NUM_KEYS : nat              (* ParticleData::PDC_NUM_KEYS *)
}.

Section GraphEmitter.

Context {ET : EngineTypes}.

Record Point3F := mkPoint3F { px : F32; py : F32; pz : F32 }.

Definition p3_add (a b : Point3F) : Point3F :=
  mkPoint3F (f_add (px a) (px b)) (f_add (py a) (py b)) (f_add (pz a) (pz b)).
Definition p3_sub (a b : Point3F) : Point3F :=
  mkPoint3F (f_sub (px a) (px b)) (f_sub (py a) (py b)) (f_sub (pz a) (pz b)).
Definition p3_scale (a : Point3F) (s : F32) : Point3F :=
  mkPoint3F (f_mul (px a) s) (f_mul (py a) s) (f_mul (pz a) s).
Definition p3_neg (a : Point3F) : Point3F :=
  p3_sub (mkPoint3F (f_dec 0 0) (f_dec 0 0) (f_dec 0 0)) a.
Definition p3_zero : Point3F := mkPoint3F (f_dec 0 0) (f_dec 0 0) (f_dec 0 0).

(** ** Data model *)

(** The fields of the engine's [ParticleData] that graphEmitter.cpp reads. *)
Record ParticleData := {
  dataBlockId : Z;
  dragCoefficient : F32;
  windCoefficient : F32;
  gravityCoefficient : F32;
  pd_lifetimeMS : Z;
  pd_lifetimeVarianceMS : Z;
  times : nat -> F32;
  pd_sizes : nat -> F32;
  pd_colors : nat -> ColorF
}.

Record Particle := {
  pos : Point3F;
  vel : Point3F;
  acc : Point3F;
  orientDir : Point3F;
  relPos : Point3F;
  totalLifetime : Z;              (* U32 *)
  dataBlock : option ParticleData;
  currentAge : Z;                 (* U32 *)
  color : ColorF;
  size : F32;
  spinSpeed : F32;
  next : option nat
}.

Definition set_pos (v : Point3F) (p : Particle) : Particle :=
  {| pos := v; vel := vel p; acc := acc p; orientDir := orientDir p; relPos := relPos p;
     totalLifetime := totalLifetime p; dataBlock := dataBlock p; currentAge := currentAge p;
     color := color p; size := size p; spinSpeed := spinSpeed p; next := next p |}.

Definition set_vel (v : Point3F) (p : Particle) : Particle :=
  {| pos := pos p; vel := v; acc := acc p; orientDir := orientDir p; relPos := relPos p;
     totalLifetime := totalLifetime p; dataBlock := dataBlock p; currentAge := currentAge p;
     color := color p; size := size p; spinSpeed := spinSpeed p; next := next p |}.

Definition set_acc (v : Point3F) (p : Particle) : Particle :=
  {| pos := pos p; vel := vel p; acc := v; orientDir := orientDir p; relPos := relPos p;
     totalLifetime := totalLifetime p; dataBlock := dataBlock p; currentAge := currentAge p;
     color := color p; size := size p; spinSpeed := spinSpeed p; next := next p |}.

Definition set_orientDir (v : Point3F) (p : Particle) : Particle :=
  {| pos := pos p; vel := vel p; acc := acc p; orientDir := v; relPos := relPos p;
     totalLifetime := totalLifetime p; dataBlock := dataBlock p; currentAge := currentAge p;
     color := color p; size := size p; spinSpeed := spinSpeed p; next := next p |}.

Definition set_relPos (v : Point3F) (p : Particle) : Particle :=
  {| pos := pos p; vel := vel p; acc := acc p; orientDir := orientDir p; relPos := v;
     totalLifetime := totalLifetime p; dataBlock := dataBlock p; currentAge := currentAge p;
     color := color p; size := size p; spinSpeed := spinSpeed p; next := next p |}.

Definition set_totalLifetime (v : Z) (p : Particle) : Particle :=
  {| pos := pos p; vel := vel p; acc := acc p; orientDir := orientDir p; relPos := relPos p;
     totalLifetime := v; dataBlock := dataBlock p; currentAge := currentAge p;
     color := color p; size := size p; spinSpeed := spinSpeed p; next := next p |}.

Definition set_currentAge (v : Z) (p : Particle) : Particle :=
  {| pos := pos p; vel := vel p; acc := acc p; orientDir := orientDir p; relPos := relPos p;
     totalLifetime := totalLifetime p; dataBlock := dataBlock p; currentAge := v;
     color := color p; size := size p; spinSpeed := spinSpeed p; next := next p |}.

Definition set_color (v : ColorF) (p : Particle) : Particle :=
  {| pos := pos p; vel := vel p; acc := acc p; orientDir := orientDir p; relPos := relPos p;
     totalLifetime := totalLifetime p; dataBlock := dataBlock p; currentAge := currentAge p;
     color := v; size := size p; spinSpeed := spinSpeed p; next := next p |}.

Definition set_size (v : F32) (p : Particle) : Particle :=
  {| pos := pos p; vel := vel p; acc := acc p; orientDir := orientDir p; relPos := relPos p;
     totalLifetime := totalLifetime p; dataBlock := dataBlock p; currentAge := currentAge p;
     color := color p; size := v; spinSpeed := spinSpeed p; next := next p |}.

Definition set_next (v : option nat) (p : Particle) : Particle :=
  {| pos := pos p; vel := vel p; acc := acc p; orientDir := orientDir p; relPos := relPos p;
     totalLifetime := totalLifetime p; dataBlock := dataBlock p; currentAge := currentAge p;
     color := color p; size := size p; spinSpeed := spinSpeed p; next := v |}.

(** [GraphEmitterData]: the emission template.  Only [partListInitSize]
    changes after loading ([allocPrimBuffer]). *)
Record GraphEmitterData := {
  ejectionPeriodMS : Z;           (* S32 *)
  periodVarianceMS : Z;           (* S32 *)
  ejectionVelocity : F32;
  velocityVariance : F32;
  ejectionOffset : F32;
  thetaMin : F32;
  thetaMax : F32;
  phiReferenceVel : F32;
  phiVariance : F32;
  lifetimeMS : Z;                 (* S32 *)
  lifetimeVarianceMS : Z;         (* S32 *)
  overrideAdvance : bool;
  useEmitterSizes : bool;
  useEmitterColors : bool;
  sortParticles : bool;
  orientParticles : bool;
  alignParticles : bool;
  reverseOrder : bool;
  renderReflection : bool;
  particleDataBlocks : list ParticleData;
  partListInitSize : Z            (* U32 *)
}.

Definition set_partListInitSize (v : Z) (d : GraphEmitterData) : GraphEmitterData :=
  {| ejectionPeriodMS := ejectionPeriodMS d; periodVarianceMS := periodVarianceMS d;
     ejectionVelocity := ejectionVelocity d; velocityVariance := velocityVariance d;
     ejectionOffset := ejectionOffset d; thetaMin := thetaMin d; thetaMax := thetaMax d;
     phiReferenceVel := phiReferenceVel d; phiVariance := phiVariance d;
     lifetimeMS := lifetimeMS d; lifetimeVarianceMS := lifetimeVarianceMS d;
     overrideAdvance := overrideAdvance d; useEmitterSizes := useEmitterSizes d;
     useEmitterColors := useEmitterColors d; sortParticles := sortParticles d;
     orientParticles := orientParticles d; alignParticles := alignParticles d;
     reverseOrder := reverseOrder d; renderReflection := renderReflection d;
     particleDataBlocks := particleDataBlocks d; partListInitSize := v |}.

Inductive EnumProgressMode := byParticleCount | byTime.

(** The fields of [GraphEmitterNode] that the emitter reads or writes. *)
Record GraphEmitterNode := {
  standAloneEmitter : bool;
  sa_ejectionPeriodMS : Z;
  sa_periodVarianceMS : Z;
  sa_ejectionVelocity : F32;
  sa_velocityVariance : F32;
  sa_ejectionOffset : F32;
  sa_thetaMin : F32;
  sa_thetaMax : F32;
  sa_phiReferenceVel : F32;
  sa_phiVariance : F32;
  shuttingDown : bool;            (* currentlyShuttingDown() *)
  particleProg : F32;
  funcMax : F32;
  funcMin : F32;
  timeScale : F32;
  Loop : bool;
  Reverse : bool;
  ProgressMode : EnumProgressMode;
  graph : NodeGraph
}.

Definition set_particleProg (v : F32) (n : GraphEmitterNode) : GraphEmitterNode :=
  {| standAloneEmitter := standAloneEmitter n; sa_ejectionPeriodMS := sa_ejectionPeriodMS n;
     sa_periodVarianceMS := sa_periodVarianceMS n; sa_ejectionVelocity := sa_ejectionVelocity n;
     sa_velocityVariance := sa_velocityVariance n; sa_ejectionOffset := sa_ejectionOffset n;
     sa_thetaMin := sa_thetaMin n; sa_thetaMax := sa_thetaMax n;
     sa_phiReferenceVel := sa_phiReferenceVel n; sa_phiVariance := sa_phiVariance n;
     shuttingDown := shuttingDown n; particleProg := v; funcMax := funcMax n;
     funcMin := funcMin n; timeScale := timeScale n; Loop := Loop n; Reverse := Reverse n;
     ProgressMode := ProgressMode n; graph := graph n |}.

Definition set_graph (v : NodeGraph) (n : GraphEmitterNode) : GraphEmitterNode :=
  {| standAloneEmitter := standAloneEmitter n; sa_ejectionPeriodMS := sa_ejectionPeriodMS n;
     sa_periodVarianceMS := sa_periodVarianceMS n; sa_ejectionVelocity := sa_ejectionVelocity n;
     sa_velocityVariance := sa_velocityVariance n; sa_ejectionOffset := sa_ejectionOffset n;
     sa_thetaMin := sa_thetaMin n; sa_thetaMax := sa_thetaMax n;
     sa_phiReferenceVel := sa_phiReferenceVel n; sa_phiVariance := sa_phiVariance n;
     shuttingDown := shuttingDown n; particleProg := particleProg n; funcMax := funcMax n;
     funcMin := funcMin n; timeScale := timeScale n; Loop := Loop n; Reverse := Reverse n;
     ProgressMode := ProgressMode n; graph := v |}.

(** The [GraphEmitterNode*] argument of the spawn entry points. *)
Inductive NodePtr := NodeNull | NodeObj.

(** The emitter instance. *)
Record Emitter := {
  part_store : list Particle;
  part_freelist : option nat;
  part_list_head : option nat;    (* part_list_head.next *)
  n_part_capacity : Z;
  n_parts : Z;
  mDead : bool;
  mDeleteWhenEmpty : bool;
  mDeleteOnTick : bool;
  mInternalClock : Z;             (* U32 *)
  mNextParticleTime : Z;          (* U32 *)
  mLastPosition : Point3F;
  mHasLastPosition : bool;
  mLifetimeMS : Z;                (* S32 *)
  mElapsedTimeMS : Z;             (* S32 *)
  oldTime : Z;                    (* U32 *)
  parentNodePos : Point3F;
  sticky : bool;
  sizes : nat -> F32;
  colors : nat -> ColorF;
  mCurBuffSize : Z;
  mVertBuff : option (list Quad);
  inScene : bool                  (* getSceneManager() != NULL *)
}.
Definition set_part_store (v : list Particle) (e : Emitter) : Emitter :=
  {| part_store := v; part_freelist := part_freelist e;
     part_list_head := part_list_head e; n_part_capacity := n_part_capacity e;
     n_parts := n_parts e; mDead := mDead e; mDeleteWhenEmpty := mDeleteWhenEmpty e;
     mDeleteOnTick := mDeleteOnTick e; mInternalClock := mInternalClock e;
     mNextParticleTime := mNextParticleTime e; mLastPosition := mLastPosition e;
     mHasLastPosition := mHasLastPosition e; mLifetimeMS := mLifetimeMS e;
     mElapsedTimeMS := mElapsedTimeMS e; oldTime := oldTime e;
     parentNodePos := parentNodePos e; sticky := sticky e; sizes := sizes e;
     colors := colors e; mCurBuffSize := mCurBuffSize e; mVertBuff := mVertBuff e;
     inScene := inScene e |}.

Definition set_part_freelist (v : option nat) (e : Emitter) : Emitter :=
  {| part_store := part_store e; part_freelist := v; part_list_head := part_list_head e;
     n_part_capacity := n_part_capacity e; n_parts := n_parts e; mDead := mDead e;
     mDeleteWhenEmpty := mDeleteWhenEmpty e; mDeleteOnTick := mDeleteOnTick e;
     mInternalClock := mInternalClock e; mNextParticleTime := mNextParticleTime e;
     mLastPosition := mLastPosition e; mHasLastPosition := mHasLastPosition e;
     mLifetimeMS := mLifetimeMS e; mElapsedTimeMS := mElapsedTimeMS e;
     oldTime := oldTime e; parentNodePos := parentNodePos e; sticky := sticky e;
     sizes := sizes e; colors := colors e; mCurBuffSize := mCurBuffSize e;
     mVertBuff := mVertBuff e; inScene := inScene e |}.

Definition set_part_list_head (v : option nat) (e : Emitter) : Emitter :=
  {| part_store := part_store e; part_freelist := part_freelist e; part_list_head := v;
     n_part_capacity := n_part_capacity e; n_parts := n_parts e; mDead := mDead e;
     mDeleteWhenEmpty := mDeleteWhenEmpty e; mDeleteOnTick := mDeleteOnTick e;
     mInternalClock := mInternalClock e; mNextParticleTime := mNextParticleTime e;
     mLastPosition := mLastPosition e; mHasLastPosition := mHasLastPosition e;
     mLifetimeMS := mLifetimeMS e; mElapsedTimeMS := mElapsedTimeMS e;
     oldTime := oldTime e; parentNodePos := parentNodePos e; sticky := sticky e;
     sizes := sizes e; colors := colors e; mCurBuffSize := mCurBuffSize e;
     mVertBuff := mVertBuff e; inScene := inScene e |}.

Definition set_n_part_capacity (v : Z) (e : Emitter) : Emitter :=
  {| part_store := part_store e; part_freelist := part_freelist e;
     part_list_head := part_list_head e; n_part_capacity := v; n_parts := n_parts e;
     mDead := mDead e; mDeleteWhenEmpty := mDeleteWhenEmpty e;
     mDeleteOnTick := mDeleteOnTick e; mInternalClock := mInternalClock e;
     mNextParticleTime := mNextParticleTime e; mLastPosition := mLastPosition e;
     mHasLastPosition := mHasLastPosition e; mLifetimeMS := mLifetimeMS e;
     mElapsedTimeMS := mElapsedTimeMS e; oldTime := oldTime e;
     parentNodePos := parentNodePos e; sticky := sticky e; sizes := sizes e;
     colors := colors e; mCurBuffSize := mCurBuffSize e; mVertBuff := mVertBuff e;
     inScene := inScene e |}.

Definition set_n_parts (v : Z) (e : Emitter) : Emitter :=
  {| part_store := part_store e; part_freelist := part_freelist e;
     part_list_head := part_list_head e; n_part_capacity := n_part_capacity e;
     n_parts := v; mDead := mDead e; mDeleteWhenEmpty := mDeleteWhenEmpty e;
     mDeleteOnTick := mDeleteOnTick e; mInternalClock := mInternalClock e;
     mNextParticleTime := mNextParticleTime e; mLastPosition := mLastPosition e;
     mHasLastPosition := mHasLastPosition e; mLifetimeMS := mLifetimeMS e;
     mElapsedTimeMS := mElapsedTimeMS e; oldTime := oldTime e;
     parentNodePos := parentNodePos e; sticky := sticky e; sizes := sizes e;
     colors := colors e; mCurBuffSize := mCurBuffSize e; mVertBuff := mVertBuff e;
     inScene := inScene e |}.

Definition set_mDead (v : bool) (e : Emitter) : Emitter :=
  {| part_store := part_store e; part_freelist := part_freelist e;
     part_list_head := part_list_head e; n_part_capacity := n_part_capacity e;
     n_parts := n_parts e; mDead := v; mDeleteWhenEmpty := mDeleteWhenEmpty e;
     mDeleteOnTick := mDeleteOnTick e; mInternalClock := mInternalClock e;
     mNextParticleTime := mNextParticleTime e; mLastPosition := mLastPosition e;
     mHasLastPosition := mHasLastPosition e; mLifetimeMS := mLifetimeMS e;
     mElapsedTimeMS := mElapsedTimeMS e; oldTime := oldTime e;
     parentNodePos := parentNodePos e; sticky := sticky e; sizes := sizes e;
     colors := colors e; mCurBuffSize := mCurBuffSize e; mVertBuff := mVertBuff e;
     inScene := inScene e |}.

Definition set_mDeleteOnTick (v : bool) (e : Emitter) : Emitter :=
  {| part_store := part_store e; part_freelist := part_freelist e;
     part_list_head := part_list_head e; n_part_capacity := n_part_capacity e;
     n_parts := n_parts e; mDead := mDead e; mDeleteWhenEmpty := mDeleteWhenEmpty e;
     mDeleteOnTick := v; mInternalClock := mInternalClock e;
     mNextParticleTime := mNextParticleTime e; mLastPosition := mLastPosition e;
     mHasLastPosition := mHasLastPosition e; mLifetimeMS := mLifetimeMS e;
     mElapsedTimeMS := mElapsedTimeMS e; oldTime := oldTime e;
     parentNodePos := parentNodePos e; sticky := sticky e; sizes := sizes e;
     colors := colors e; mCurBuffSize := mCurBuffSize e; mVertBuff := mVertBuff e;
     inScene := inScene e |}.

Definition set_mInternalClock (v : Z) (e : Emitter) : Emitter :=
  {| part_store := part_store e; part_freelist := part_freelist e;
     part_list_head := part_list_head e; n_part_capacity := n_part_capacity e;
     n_parts := n_parts e; mDead := mDead e; mDeleteWhenEmpty := mDeleteWhenEmpty e;
     mDeleteOnTick := mDeleteOnTick e; mInternalClock := v;
     mNextParticleTime := mNextParticleTime e; mLastPosition := mLastPosition e;
     mHasLastPosition := mHasLastPosition e; mLifetimeMS := mLifetimeMS e;
     mElapsedTimeMS := mElapsedTimeMS e; oldTime := oldTime e;
     parentNodePos := parentNodePos e; sticky := sticky e; sizes := sizes e;
     colors := colors e; mCurBuffSize := mCurBuffSize e; mVertBuff := mVertBuff e;
     inScene := inScene e |}.

Definition set_mNextParticleTime (v : Z) (e : Emitter) : Emitter :=
  {| part_store := part_store e; part_freelist := part_freelist e;
     part_list_head := part_list_head e; n_part_capacity := n_part_capacity e;
     n_parts := n_parts e; mDead := mDead e; mDeleteWhenEmpty := mDeleteWhenEmpty e;
     mDeleteOnTick := mDeleteOnTick e; mInternalClock := mInternalClock e;
     mNextParticleTime := v; mLastPosition := mLastPosition e;
     mHasLastPosition := mHasLastPosition e; mLifetimeMS := mLifetimeMS e;
     mElapsedTimeMS := mElapsedTimeMS e; oldTime := oldTime e;
     parentNodePos := parentNodePos e; sticky := sticky e; sizes := sizes e;
     colors := colors e; mCurBuffSize := mCurBuffSize e; mVertBuff := mVertBuff e;
     inScene := inScene e |}.

Definition set_mLastPosition (v : Point3F) (e : Emitter) : Emitter :=
  {| part_store := part_store e; part_freelist := part_freelist e;
     part_list_head := part_list_head e; n_part_capacity := n_part_capacity e;
     n_parts := n_parts e; mDead := mDead e; mDeleteWhenEmpty := mDeleteWhenEmpty e;
     mDeleteOnTick := mDeleteOnTick e; mInternalClock := mInternalClock e;
     mNextParticleTime := mNextParticleTime e; mLastPosition := v;
     mHasLastPosition := mHasLastPosition e; mLifetimeMS := mLifetimeMS e;
     mElapsedTimeMS := mElapsedTimeMS e; oldTime := oldTime e;
     parentNodePos := parentNodePos e; sticky := sticky e; sizes := sizes e;
     colors := colors e; mCurBuffSize := mCurBuffSize e; mVertBuff := mVertBuff e;
     inScene := inScene e |}.

Definition set_mHasLastPosition (v : bool) (e : Emitter) : Emitter :=
  {| part_store := part_store e; part_freelist := part_freelist e;
     part_list_head := part_list_head e; n_part_capacity := n_part_capacity e;
     n_parts := n_parts e; mDead := mDead e; mDeleteWhenEmpty := mDeleteWhenEmpty e;
     mDeleteOnTick := mDeleteOnTick e; mInternalClock := mInternalClock e;
     mNextParticleTime := mNextParticleTime e; mLastPosition := mLastPosition e;
     mHasLastPosition := v; mLifetimeMS := mLifetimeMS e;
     mElapsedTimeMS := mElapsedTimeMS e; oldTime := oldTime e;
     parentNodePos := parentNodePos e; sticky := sticky e; sizes := sizes e;
     colors := colors e; mCurBuffSize := mCurBuffSize e; mVertBuff := mVertBuff e;
     inScene := inScene e |}.

Definition set_mLifetimeMS (v : Z) (e : Emitter) : Emitter :=
  {| part_store := part_store e; part_freelist := part_freelist e;
     part_list_head := part_list_head e; n_part_capacity := n_part_capacity e;
     n_parts := n_parts e; mDead := mDead e; mDeleteWhenEmpty := mDeleteWhenEmpty e;
     mDeleteOnTick := mDeleteOnTick e; mInternalClock := mInternalClock e;
     mNextParticleTime := mNextParticleTime e; mLastPosition := mLastPosition e;
     mHasLastPosition := mHasLastPosition e; mLifetimeMS := v;
     mElapsedTimeMS := mElapsedTimeMS e; oldTime := oldTime e;
     parentNodePos := parentNodePos e; sticky := sticky e; sizes := sizes e;
     colors := colors e; mCurBuffSize := mCurBuffSize e; mVertBuff := mVertBuff e;
     inScene := inScene e |}.

Definition set_mElapsedTimeMS (v : Z) (e : Emitter) : Emitter :=
  {| part_store := part_store e; part_freelist := part_freelist e;
     part_list_head := part_list_head e; n_part_capacity := n_part_capacity e;
     n_parts := n_parts e; mDead := mDead e; mDeleteWhenEmpty := mDeleteWhenEmpty e;
     mDeleteOnTick := mDeleteOnTick e; mInternalClock := mInternalClock e;
     mNextParticleTime := mNextParticleTime e; mLastPosition := mLastPosition e;
     mHasLastPosition := mHasLastPosition e; mLifetimeMS := mLifetimeMS e;
     mElapsedTimeMS := v; oldTime := oldTime e; parentNodePos := parentNodePos e;
     sticky := sticky e; sizes := sizes e; colors := colors e;
     mCurBuffSize := mCurBuffSize e; mVertBuff := mVertBuff e; inScene := inScene e |}.

Definition set_oldTime (v : Z) (e : Emitter) : Emitter :=
  {| part_store := part_store e; part_freelist := part_freelist e;
     part_list_head := part_list_head e; n_part_capacity := n_part_capacity e;
     n_parts := n_parts e; mDead := mDead e; mDeleteWhenEmpty := mDeleteWhenEmpty e;
     mDeleteOnTick := mDeleteOnTick e; mInternalClock := mInternalClock e;
     mNextParticleTime := mNextParticleTime e; mLastPosition := mLastPosition e;
     mHasLastPosition := mHasLastPosition e; mLifetimeMS := mLifetimeMS e;
     mElapsedTimeMS := mElapsedTimeMS e; oldTime := v; parentNodePos := parentNodePos e;
     sticky := sticky e; sizes := sizes e; colors := colors e;
     mCurBuffSize := mCurBuffSize e; mVertBuff := mVertBuff e; inScene := inScene e |}.

Definition set_parentNodePos (v : Point3F) (e : Emitter) : Emitter :=
  {| part_store := part_store e; part_freelist := part_freelist e;
     part_list_head := part_list_head e; n_part_capacity := n_part_capacity e;
     n_parts := n_parts e; mDead := mDead e; mDeleteWhenEmpty := mDeleteWhenEmpty e;
     mDeleteOnTick := mDeleteOnTick e; mInternalClock := mInternalClock e;
     mNextParticleTime := mNextParticleTime e; mLastPosition := mLastPosition e;
     mHasLastPosition := mHasLastPosition e; mLifetimeMS := mLifetimeMS e;
     mElapsedTimeMS := mElapsedTimeMS e; oldTime := oldTime e; parentNodePos := v;
     sticky := sticky e; sizes := sizes e; colors := colors e;
     mCurBuffSize := mCurBuffSize e; mVertBuff := mVertBuff e; inScene := inScene e |}.

Definition set_mCurBuffSize (v : Z) (e : Emitter) : Emitter :=
  {| part_store := part_store e; part_freelist := part_freelist e;
     part_list_head := part_list_head e; n_part_capacity := n_part_capacity e;
     n_parts := n_parts e; mDead := mDead e; mDeleteWhenEmpty := mDeleteWhenEmpty e;
     mDeleteOnTick := mDeleteOnTick e; mInternalClock := mInternalClock e;
     mNextParticleTime := mNextParticleTime e; mLastPosition := mLastPosition e;
     mHasLastPosition := mHasLastPosition e; mLifetimeMS := mLifetimeMS e;
     mElapsedTimeMS := mElapsedTimeMS e; oldTime := oldTime e;
     parentNodePos := parentNodePos e; sticky := sticky e; sizes := sizes e;
     colors := colors e; mCurBuffSize := v; mVertBuff := mVertBuff e;
     inScene := inScene e |}.

Definition set_mVertBuff (v : option (list Quad)) (e : Emitter) : Emitter :=
  {| part_store := part_store e; part_freelist := part_freelist e;
     part_list_head := part_list_head e; n_part_capacity := n_part_capacity e;
     n_parts := n_parts e; mDead := mDead e; mDeleteWhenEmpty := mDeleteWhenEmpty e;
     mDeleteOnTick := mDeleteOnTick e; mInternalClock := mInternalClock e;
     mNextParticleTime := mNextParticleTime e; mLastPosition := mLastPosition e;
     mHasLastPosition := mHasLastPosition e; mLifetimeMS := mLifetimeMS e;
     mElapsedTimeMS := mElapsedTimeMS e; oldTime := oldTime e;
     parentNodePos := parentNodePos e; sticky := sticky e; sizes := sizes e;
     colors := colors e; mCurBuffSize := mCurBuffSize e; mVertBuff := v;
     inScene := inScene e |}.

Definition set_inScene (v : bool) (e : Emitter) : Emitter :=
  {| part_store := part_store e; part_freelist := part_freelist e;
     part_list_head := part_list_head e; n_part_capacity := n_part_capacity e;
     n_parts := n_parts e; mDead := mDead e; mDeleteWhenEmpty := mDeleteWhenEmpty e;
     mDeleteOnTick := mDeleteOnTick e; mInternalClock := mInternalClock e;
     mNextParticleTime := mNextParticleTime e; mLastPosition := mLastPosition e;
     mHasLastPosition := mHasLastPosition e; mLifetimeMS := mLifetimeMS e;
     mElapsedTimeMS := mElapsedTimeMS e; oldTime := oldTime e;
     parentNodePos := parentNodePos e; sticky := sticky e; sizes := sizes e;
     colors := colors e; mCurBuffSize := mCurBuffSize e; mVertBuff := mVertBuff e;
     inScene := v |}.

(** What the emitter tells its collaborators, in order.  [EvSpawn] is the
    history of [addParticle] calls: the position argument of each. *)
Inductive Event :=
| EvSpawn (p : Point3F)
| EvConsole (msg : string)            (* Con::errorf *)
| EvParentAdvanceTime (dt : F32)      (* Parent::advanceTime *)
| EvAllocPrimBuffer (size : Z)        (* the index buffer is rebuilt *)
| EvBoundaryLimit (upper : bool)      (* node->onBoundaryLimit *)
| EvUpdateBBox
| EvResetWorldBox
| EvAddToScene
| EvRenderInst (count : Z).           (* renderManager->addInst *)

(** The emitter with the objects it shares: its datablock, the node that
    drives it, the global random generator and the event history. *)
Record Machine := {
  emitter : Emitter;
  datablock : GraphEmitterData;
  node : GraphEmitterNode;
  gRandGen : Rng;
  console : list Event
}.

Definition set_emitter (v : Emitter) (m : Machine) : Machine :=
  {| emitter := v; datablock := datablock m; node := node m; gRandGen := gRandGen m; console
     := console m |}.

Definition set_datablock (v : GraphEmitterData) (m : Machine) : Machine :=
  {| emitter := emitter m; datablock := v; node := node m; gRandGen := gRandGen m; console
     := console m |}.

Definition set_node (v : GraphEmitterNode) (m : Machine) : Machine :=
  {| emitter := emitter m; datablock := datablock m; node := v; gRandGen := gRandGen m;
     console := console m |}.

Definition set_gRandGen (v : Rng) (m : Machine) : Machine :=
  {| emitter := emitter m; datablock := datablock m; node := node m; gRandGen := v; console
     := console m |}.

Definition set_console (v : list Event) (m : Machine) : Machine :=
  {| emitter := emitter m; datablock := datablock m; node := node m; gRandGen := gRandGen m;
     console := v |}.


(** ** What the engine provides: collaborators of the emitter

    None of these is defined in graphEmitter.cpp.  [uninitialized] is the
    content of a slot fresh from [new Particle[n]]; [defaultNode] is the
    default of the last parameter of the path-segment [emitParticles],
    declared in graphEmitter.h. *)
Class EngineHost := {
  TORQUE_ENABLE_ASSERTS : bool;
  randI : Rng -> Z * Rng;
  randF : Rng -> F32 * Rng;
  mWindVelocity : Point3F;
  uninitialized : Particle;
  defaultNode : NodePtr;
  mCross : Point3F -> Point3F -> Point3F;
  mDot : Point3F -> Point3F -> F32;
  p3_len : Point3F -> F32;
  p3_isZero : Point3F -> bool;
  normalize : Point3F -> Point3F;
  interpolate : Point3F -> Point3F -> F32 -> Point3F;
  angAxisRotate : Point3F -> F32 -> Point3F -> Point3F;
  deg2rad : F32 -> F32;
  colorInterpolate : ColorF -> ColorF -> F32 -> ColorF;
  initializeParticle : ParticleData -> Particle -> Point3F -> Rng -> Particle * Rng;
  getTransform : GraphEmitterNode -> nat -> F32;
  evalGraph : GraphEmitterNode -> Point3F -> Point3F * NodeGraph;
  attractionForce : Point3F -> Point3F -> Point3F;
  castRay : Point3F -> Point3F -> option Point3F;
  viewDepth : Point3F -> F32;
  dQsort : (nat * F32 -> nat * F32 -> Z) -> list (nat * F32) -> list (nat * F32);
  setupBillboard : Particle -> Quad;
  setupOriented : Particle -> Quad;
  setupAligned : Particle -> Quad
}.

Context {EH : EngineHost}.

(** ** The monad of emitter methods *)

Inductive Fault :=
| AssertFatal (msg : string)
| NullDereference
| OutOfBounds
| DivisionByZero.

Inductive Outcome (A : Type) :=
| Done (a : A) (m : Machine)
| Crash (f : Fault) (m : Machine)
| OutOfFuel (m : Machine).

Arguments Done {A} a m.
Arguments Crash {A} f m.
Arguments OutOfFuel {A} m.

Definition M (A : Type) : Type := Machine -> Outcome A.

Definition ret {A} (a : A) : M A := fun m => Done a m.

Definition bind {A B} (c : M A) (k : A -> M B) : M B :=
  fun m => match c m with
           | Done a m' => k a m'
           | Crash f m' => Crash f m'
           | OutOfFuel m' => OutOfFuel m'
           end.

Notation "'let*' x ':=' c 'in' k" := (bind c (fun x => k))
  (at level 10, x name, c at level 100, k at level 200, only parsing).
Notation "c1 >> c2" := (bind c1 (fun _ => c2))
  (at level 100, c2 at level 200, right associativity, only parsing).

Definition stateOf {A} (o : Outcome A) : Machine :=
  match o with Done _ m => m | Crash _ m => m | OutOfFuel m => m end.

Definition crash {A} (f : Fault) : M A := fun m => Crash f m.
Definition outOfFuel {A} : M A := fun m => OutOfFuel m.

Definition getE : M Emitter := fun m => Done (emitter m) m.
Definition getD : M GraphEmitterData := fun m => Done (datablock m) m.
Definition getN : M GraphEmitterNode := fun m => Done (node m) m.
Definition modE (f : Emitter -> Emitter) : M unit :=
  fun m => Done tt (set_emitter (f (emitter m)) m).
Definition modD (f : GraphEmitterData -> GraphEmitterData) : M unit :=
  fun m => Done tt (set_datablock (f (datablock m)) m).
Definition modN (f : GraphEmitterNode -> GraphEmitterNode) : M unit :=
  fun m => Done tt (set_node (f (node m)) m).
Definition emit (e : Event) : M unit :=
  fun m => Done tt (set_console (console m ++ [e]) m).

Definition rand_I : M Z :=
  fun m => let (x, r) := randI (gRandGen m) in Done x (set_gRandGen r m).
Definition rand_F : M F32 :=
  fun m => let (x, r) := randF (gRandGen m) in Done x (set_gRandGen r m).

(** [AssertFatal(c, msg)]: fatal in a build with assertions, absent otherwise. *)
Definition assertFatal (c : bool) (msg : string) : M unit :=
  if TORQUE_ENABLE_ASSERTS && negb c then crash (AssertFatal msg) else ret tt.

Definition when (c : bool) (body : M unit) : M unit := if c then body else ret tt.

Fixpoint forEach {A} (l : list A) (body : A -> M unit) : M unit :=
  match l with
  | [] => ret tt
  | x :: l' => body x >> forEach l' body
  end.

(** Reading and writing through a [Particle*]. *)
Definition deref (p : option nat) : M Particle :=
  match p with
  | None => crash NullDereference
  | Some i => let* e := getE in
              match part_store e !! i with
              | Some x => ret x
              | None => crash OutOfBounds
              end
  end.

Definition store (p : option nat) (f : Particle -> Particle) : M unit :=
  let* x := deref p in
  match p with
  | None => crash NullDereference
  | Some i => modE (fun e => set_part_store (<[i := f x]> (part_store e)) e)
  end.

(** The node behind a [GraphEmitterNode*]. *)
Definition derefNode (n : NodePtr) : M GraphEmitterNode :=
  match n with
  | NodeNull => crash NullDereference
  | NodeObj => getN
  end.


(** ** GraphEmitterData::allocPrimBuffer *)

Definition maxPartLife (p0 : ParticleData) (rest : list ParticleData) : Z :=
  fold_left
    (fun acc p => let mpl := u32 (pd_lifetimeMS p + pd_lifetimeVarianceMS p) in
                  if mpl >? acc then mpl else acc)
    rest (u32 (pd_lifetimeMS p0 + pd_lifetimeVarianceMS p0)).

Definition allocPrimBuffer (overrideSize : Z) : M unit :=
  let* d := getD in
  assertFatal (negb (bool_decide (particleDataBlocks d = [])))
              "Error, no particles found." >>
  match particleDataBlocks d with
  | [] => crash OutOfBounds
  | p0 :: rest =>
      let denom := u32 (ejectionPeriodMS d - periodVarianceMS d) in
      if denom =? 0 then crash DivisionByZero
      else
        let estimate := u32 (maxPartLife p0 rest / denom + 8) in
        let size := if overrideSize =? -1 then estimate else u32 overrideSize in
        modD (set_partListInitSize size) >>
        emit (EvAllocPrimBuffer size)
  end.

(** ** GraphEmitter::onNewDataBlock: the pool is created *)

Definition linkBlock (xs : list Particle) : list Particle :=
  imap (fun i x => set_next (if bool_decide (S i < length xs)%nat then Some (S i) else None) x) xs.

(** S32(gRandGen.randI() % (2 * v + 1)) - S32(v) *)
Definition variance (v : Z) : M Z :=
  let* r := rand_I in
  let m := u32 (s32 (2 * v + 1)) in
  if m =? 0 then crash DivisionByZero
  else ret (s32 (s32 (u32 r mod m) - v)).

Definition onNewDataBlock : M unit :=
  let* d := getD in
  modE (set_mLifetimeMS (lifetimeMS d)) >>
  when (negb (lifetimeVarianceMS d =? 0))
    (let* dv := variance (lifetimeVarianceMS d) in
     modE (fun e => set_mLifetimeMS (s32 (mLifetimeMS e + dv)) e)) >>
  when (0 <? partListInitSize d)
    (let n := Z.to_nat (partListInitSize d) in
     modE (set_part_store (linkBlock (replicate n uninitialized))) >>
     modE (set_n_part_capacity (partListInitSize d)) >>
     modE (set_part_freelist (Some 0%nat)) >>
     modE (set_part_list_head None) >>
     modE (set_n_parts 0)).

(** ** GraphEmitter::updateKeyData *)

Fixpoint keyLoop (remaining i : nat) (part : option nat) (t : F32) : M unit :=
  match remaining with
  | O => ret tt
  | S r =>
      let* p := deref part in
      match dataBlock p with
      | None => crash NullDereference
      | Some pd =>
          if f_leb t (times pd i) then
            let firstPart :=
              f_div (f_sub t (times pd (i - 1)%nat))
                    (f_sub (times pd i) (times pd (i - 1)%nat)) in
            let* e := getE in
            let* d := getD in
            store part (set_color
              (if useEmitterColors d
               then colorInterpolate (colors e (i - 1)%nat) (colors e i) firstPart
               else colorInterpolate (pd_colors pd (i - 1)%nat) (pd_colors pd i) firstPart)) >>
            store part (set_size
              (if useEmitterSizes d
               then f_add (f_mul (sizes e (i - 1)%nat) (f_sub (f_dec 1 0) firstPart))
                          (f_mul (sizes e i) firstPart)
               else f_add (f_mul (pd_sizes pd (i - 1)%nat) (f_sub (f_dec 1 0) firstPart))
                          (f_mul (pd_sizes pd i) firstPart)))
          else keyLoop r (S i) part t
      end
  end.

Definition normalizedAge (p : Particle) : F32 :=
  f_div (f_of_int (currentAge p)) (f_of_int (totalLifetime p)).

Definition updateKeyData (part : option nat) : M unit :=
  store part (fun q => if totalLifetime q <? 1 then set_totalLifetime 1 q else q) >>
  let* p := deref part in
  let t := normalizedAge p in
  assertFatal (f_leb t (f_dec 1 0)) "Out out bounds filter function for particle." >>
  keyLoop (PDC_NUM_KEYS - 1) 1 part t.

(** ** GraphEmitter::addParticle *)

(** Sixteen more slots, each pushed on the free list (lines 1261-1269 and
    1322-1330). *)
Definition pushFree (slot : nat) : M unit :=
  let* e := getE in
  store (Some slot) (set_next (part_freelist e)) >>
  modE (set_part_freelist (Some slot)).

Definition growPool : M unit :=
  let* e := getE in
  let base := length (part_store e) in
  modE (set_part_store (part_store e ++ replicate 16 uninitialized)) >>
  modE (fun e => set_n_part_capacity (n_part_capacity e + 16) e) >>
  forEach (seq 0 16) (fun i => pushFree (base + i)) >>
  let* e := getE in
  allocPrimBuffer (n_part_capacity e).

(** Pop the free list, push on the live list (lines 1271-1274 and
    1332-1335). *)
Definition takeSlot : M (option nat) :=
  let* e := getE in
  let pNew := part_freelist e in
  let* x := deref pNew in
  modE (set_part_freelist (next x)) >>
  let* e := getE in
  store pNew (set_next (part_list_head e)) >>
  modE (set_part_list_head pNew) >>
  ret pNew.

(** The head of both overloads (lines 1256-1274 and 1317-1335): count,
    grow if needed, take a slot. *)
Definition allocParticle : M (option nat) :=
  modE (fun e => set_n_parts (n_parts e + 1) e) >>
  let* e := getE in
  let* d := getD in
  when ((n_parts e >? n_part_capacity e) || (u32 (n_parts e) >? partListInitSize d))
       growPool >>
  takeSlot.

(** The tail of both overloads (lines 1302-1307 and 1470-1475).  The
    engine's [initializeParticle] fills the slot and draws from the random
    generator; it leaves the intrusive link alone, which the model states
    by writing the old link back. *)
Definition chooseDataBlock (pNew : option nat) (vel : Point3F) : M unit :=
  let* r := rand_I in
  let* d := getD in
  let count := Z.of_nat (length (particleDataBlocks d)) in
  if count =? 0 then crash DivisionByZero
  else
    match particleDataBlocks d !! Z.to_nat (u32 r mod count) with
    | None => crash OutOfBounds
    | Some pd =>
        let* x := deref pNew in
        (fun m =>
           let g := gRandGen m in
           store pNew (fun q => set_next (next q) (fst (initializeParticle pd q vel g)))
                 (set_gRandGen (snd (initializeParticle pd x vel g)) m)) >>
        updateKeyData pNew
    end.

Definition ejection (axis axisx : Point3F) (theta phi : F32) : Point3F :=
  angAxisRotate axis (deg2rad phi) (angAxisRotate axisx (deg2rad theta) axis).

(** Lines 1276-1307: the new particle is aimed and initialised. *)
Definition launch (pNew : option nat) (pos axis vel axisx : Point3F) : M unit :=
  let* d := getD in
  let* e := getE in
  let* r1 := rand_F in
  let theta := f_add (f_mul (f_sub (thetaMax d) (thetaMin d)) r1) (thetaMin d) in
  let ref := f_mul (f_div (f_of_int (mInternalClock e)) (f_dec 1000 0)) (phiReferenceVel d) in
  let* r2 := rand_F in
  let phi := f_add ref (f_mul r2 (phiVariance d)) in
  let ejectionAxis := ejection axis axisx theta phi in
  let* r3 := rand_F in
  let initialVel :=
    f_add (ejectionVelocity d)
          (f_sub (f_mul (f_mul (velocityVariance d) (f_dec 2 0)) r3) (velocityVariance d)) in
  store pNew (set_pos (p3_add pos (p3_scale ejectionAxis (ejectionOffset d)))) >>
  store pNew (set_vel (p3_scale ejectionAxis initialVel)) >>
  store pNew (set_orientDir ejectionAxis) >>
  store pNew (set_acc p3_zero) >>
  store pNew (set_currentAge 0) >>
  chooseDataBlock pNew vel.

Definition addParticle (pos axis vel axisx : Point3F) : M unit :=
  emit (EvConsole "Unproper!") >>
  let* pNew := allocParticle in
  emit (EvSpawn pos) >>
  launch pNew pos axis vel axisx.

(** GraphEmitter::rotate *)
Definition rotate (trans : nat -> F32) (p : Point3F) : Point3F :=
  mkPoint3F
    (f_add (f_add (f_mul (px p) (trans 0%nat)) (f_mul (py p) (trans 1%nat))) (f_mul (pz p) (trans 2%nat)))
    (f_add (f_add (f_mul (px p) (trans 4%nat)) (f_mul (py p) (trans 5%nat))) (f_mul (pz p) (trans 6%nat)))
    (f_add (f_add (f_mul (px p) (trans 8%nat)) (f_mul (py p) (trans 9%nat))) (f_mul (pz p) (trans 10%nat))).

(** The body of [if(!nodeDat->currentlyShuttingDown())], lines 1387-1475. *)
Definition placeOnGraph (pNew : option nat) (pos vel ejectionAxis : Point3F)
    (initialVel : F32) : M unit :=
  let* e := getE in
  let dt := u32 (mInternalClock e - oldTime e) in
  modE (set_oldTime (mInternalClock e)) >>
  let* n := getN in
  when (f_ltb (funcMax n) (particleProg n))
       (when (Loop n) (modN (set_particleProg (funcMin n))) >>
        emit (EvBoundaryLimit true)) >>
  let* n := getN in
  when (f_ltb (particleProg n) (funcMin n))
       (when (Loop n) (modN (set_particleProg (funcMax n))) >>
        emit (EvBoundaryLimit false)) >>
  let* n := getN in
  when (f_eqb (particleProg n) (f_dec 0 0)) (modN (set_particleProg F32_MIN)) >>
  let* n := getN in
  let funcPos := fst (evalGraph n pos) in
  modN (set_graph (snd (evalGraph n pos))) >>
  let p := rotate (getTransform n) funcPos in
  store pNew (set_pos (p3_add pos (p3_scale p (sa_ejectionOffset n)))) >>
  store pNew (set_relPos (p3_scale p (sa_ejectionOffset n))) >>
  let step := match ProgressMode n with
              | byParticleCount => f_mul (f_dec 1 0) (timeScale n)
              | byTime => f_mul (f_of_int dt) (timeScale n)
              end in
  modN (set_particleProg (if Reverse n then f_sub (particleProg n) step
                          else f_add (particleProg n) step)) >>
  modE (set_parentNodePos pos) >>
  store pNew (set_vel (p3_scale ejectionAxis initialVel)) >>
  store pNew (set_orientDir ejectionAxis) >>
  store pNew (set_acc p3_zero) >>
  store pNew (set_currentAge 0) >>
  chooseDataBlock pNew vel.

(** Lines 1338-1476. *)
Definition launch_node (pNew : option nat) (pos axis vel axisx : Point3F)
    (nodeDat : NodePtr) : M unit :=
  let* d := getD in
  let* e := getE in
  let* n := derefNode nodeDat in
  let tMin := if standAloneEmitter n then sa_thetaMin n else thetaMin d in
  let tMax := if standAloneEmitter n then sa_thetaMax n else thetaMax d in
  let pRef := if standAloneEmitter n then sa_phiReferenceVel n else phiReferenceVel d in
  let pVar := if standAloneEmitter n then sa_phiVariance n else phiVariance d in
  let* r1 := rand_F in
  let theta := f_add (f_mul (f_sub tMax tMin) r1) tMin in
  let ref := f_mul (f_div (f_of_int (mInternalClock e)) (f_dec 1000 0)) pRef in
  let* r2 := rand_F in
  let phi := f_add ref (f_mul r2 pVar) in
  let ejectionAxis := ejection axis axisx theta phi in
  let eVel := if standAloneEmitter n then sa_ejectionVelocity n else ejectionVelocity d in
  let vVar := if standAloneEmitter n then sa_velocityVariance n else velocityVariance d in
  let* r3 := rand_F in
  let initialVel := f_add eVel (f_sub (f_mul (f_mul vVar (f_dec 2 0)) r3) vVar) in
  let eOff := if standAloneEmitter n then sa_ejectionOffset n else ejectionOffset d in
  store pNew (set_pos (p3_add pos (p3_scale ejectionAxis eOff))) >>
  when (negb (shuttingDown n)) (placeOnGraph pNew pos vel ejectionAxis initialVel).

Definition addParticle_node (pos axis vel axisx : Point3F) (nodeDat : NodePtr) : M unit :=
  let* pNew := allocParticle in
  emit (EvSpawn pos) >>
  launch_node pNew pos axis vel axisx nodeDat.


(** ** GraphEmitter::emitParticles, along a path segment *)

(** The ejection period of one spawn, lines 1057-1076. *)
Definition choosePeriod (nodeArg : NodePtr) : M Z :=
  let* n := derefNode nodeArg in
  let* d := getD in
  let period := if standAloneEmitter n then sa_ejectionPeriodMS n else ejectionPeriodMS d in
  let var := if standAloneEmitter n then sa_periodVarianceMS n else periodVarianceMS d in
  if var =? 0 then ret period
  else let* dv := variance var in ret (s32 (period + dv)).

(** Drag, wind and gravity on one particle. *)
Definition acceleration (p : Particle) (pd : ParticleData) : Point3F :=
  p3_add
    (p3_sub (p3_sub (acc p) (p3_scale (vel p) (dragCoefficient pd)))
            (p3_scale mWindVelocity (windCoefficient pd)))
    (p3_scale (mkPoint3F (f_dec 0 0) (f_dec 0 0) (f_dec (-981) (-2))) (gravityCoefficient pd)).

(** The override-advance block, lines 1107-1131. *)
Definition advanceNewest (advanceMS : Z) : M unit :=
  let* e := getE in
  let last_part := part_list_head e in
  let* p := deref last_part in
  if advanceMS >? totalLifetime p then
    modE (set_part_list_head (next p)) >>
    modE (fun e => set_n_parts (n_parts e - 1) e) >>
    let* e := getE in
    store last_part (set_next (part_freelist e)) >>
    modE (set_part_freelist last_part)
  else
    when (negb (advanceMS =? 0))
      (let t := f_div (f_of_int advanceMS) (f_dec 1000 0) in
       match dataBlock p with
       | None => crash NullDereference
       | Some pd =>
           let a := acceleration p pd in
           store last_part (fun q => set_vel (p3_add (vel q) (p3_scale a t)) q) >>
           store last_part (fun q => set_pos (p3_add (pos q) (p3_scale (vel q) t)) q) >>
           updateKeyData last_part
       end).

(** updateBBox recomputes [mObjBox] and [mBBObjToWorld] from the live
    particles; the two boxes are not part of the modelled state. *)
Definition updateBBox : M unit := emit EvUpdateBBox.

Definition joinScene : M unit :=
  let* e := getE in
  when ((0 <? n_parts e) && negb (inScene e))
       (emit EvAddToScene >> modE (set_inScene true)).

Fixpoint emitLoop (fuel : nat) (start end_ axis velocity axisx : Point3F)
    (numMilliseconds : Z) (nodeArg : NodePtr) (currTime : Z) (particlesAdded : bool)
    : M bool :=
  if currTime <? numMilliseconds then
    match fuel with
    | O => outOfFuel
    | S fuel' =>
        let* nextTime := choosePeriod nodeArg in
        assertFatal (0 <? nextTime)
          "Error, next particle ejection time must always be greater than 0" >>
        if u32 (currTime + nextTime) >? numMilliseconds then
          modE (set_mNextParticleTime (u32 (currTime + nextTime - numMilliseconds))) >>
          modE (fun e => set_mInternalClock
                           (u32 (mInternalClock e + (numMilliseconds - currTime))) e) >>
          let* e := getE in
          assertFatal (0 <? mNextParticleTime e)
            "Error, should not have deferred this particle!" >>
          ret particlesAdded
        else
          let currTime' := u32 (currTime + nextTime) in
          modE (fun e => set_mInternalClock (u32 (mInternalClock e + nextTime)) e) >>
          let pos := interpolate start end_
                       (f_div (f_of_int currTime') (f_of_int numMilliseconds)) in
          addParticle_node pos axis velocity axisx nodeArg >>
          let advanceMS := u32 (numMilliseconds - currTime') in
          let* d := getD in
          when (negb (overrideAdvance d) && negb (advanceMS =? 0))
               (advanceNewest advanceMS) >>
          emitLoop fuel' start end_ axis velocity axisx numMilliseconds nodeArg
                   currTime' true
    end
  else ret particlesAdded.

Definition timeBoxed (e : Emitter) : bool :=
  (0 <? mLifetimeMS e) && (mLifetimeMS e <? mElapsedTimeMS e).

(** Lines 1016-1021. *)
Definition axisxOf (axis : Point3F) : Point3F :=
  normalize (if f_ltb (f_abs (pz axis)) (f_dec 9 (-1))
             then mCross axis (mkPoint3F (f_dec 0 0) (f_dec 0 0) (f_dec 1 0))
             else mCross axis (mkPoint3F (f_dec 0 0) (f_dec 1 0) (f_dec 0 0))).

(** Lines 1041-1051: the spawn that a pending remainder is owed. *)
Definition spawnPending (start end_ axis velocity axisx : Point3F)
    (numMilliseconds : Z) (nodeArg : NodePtr) : M Z :=
  let* e := getE in
  let currTime := u32 (0 + mNextParticleTime e) in
  modE (fun e => set_mInternalClock (u32 (mInternalClock e + mNextParticleTime e)) e) >>
  let pos := interpolate start end_
               (f_div (f_of_int currTime) (f_of_int numMilliseconds)) in
  addParticle_node pos axis velocity axisx nodeArg >>
  modE (set_mNextParticleTime 0) >>
  ret currTime.

(** Lines 1055-1147: the period loop from [currTime] and what follows it. *)
Definition emitFrom (fuel : nat) (start end_ axis velocity axisx : Point3F)
    (numMilliseconds : Z) (nodeArg : NodePtr) (currTime : Z) (particlesAdded : bool)
    : M unit :=
  let* particlesAdded :=
    emitLoop fuel start end_ axis velocity axisx numMilliseconds nodeArg
             currTime particlesAdded in
  when particlesAdded updateBBox >>
  joinScene >>
  modE (set_mLastPosition end_) >>
  modE (set_mHasLastPosition true).

Definition emitParticles (fuel : nat) (start end_ axis velocity : Point3F)
    (numMilliseconds : Z) (nodeArg : NodePtr) : M unit :=
  let* e := getE in
  if mDead e then ret tt else
  let* d := getD in
  if bool_decide (particleDataBlocks d = []) then ret tt else
  if timeBoxed e then ret tt else
  let axisx := axisxOf axis in
  if negb (mNextParticleTime e =? 0) && (mNextParticleTime e >? numMilliseconds) then
    modE (set_mNextParticleTime (u32 (mNextParticleTime e - numMilliseconds))) >>
    modE (fun e => set_mInternalClock (u32 (mInternalClock e + numMilliseconds)) e) >>
    modE (set_mLastPosition end_) >>
    modE (set_mHasLastPosition true)
  else
    let* currTime :=
      (if negb (mNextParticleTime e =? 0)
       then spawnPending start end_ axis velocity axisx numMilliseconds nodeArg
       else ret 0) in
    emitFrom fuel start end_ axis velocity axisx numMilliseconds nodeArg
             currTime (negb (mNextParticleTime e =? 0)).

(** ** GraphEmitter::emitParticles, at a point *)

Definition emitParticles_point (fuel : nat) (point : Point3F) (useLastPosition : bool)
    (axis velocity : Point3F) (numMilliseconds : Z) : M unit :=
  emit (EvConsole "Noo!") >>
  let* e := getE in
  if mDead e then ret tt else
  if timeBoxed e then ret tt else
  let realStart := if useLastPosition && mHasLastPosition e then mLastPosition e else point in
  emitParticles fuel realStart point axis velocity numMilliseconds defaultNode.

(** ** GraphEmitter::emitParticles, within a hemisphere *)

Definition emitParticles_hemisphere (rCenter rNormal : Point3F) (radius : F32)
    (velocity : Point3F) (count : Z) : M unit :=
  emit (EvConsole "Nooo!") >>
  let* e := getE in
  if mDead e then ret tt else
  if timeBoxed e then ret tt else
  let axisz := if p3_isZero rNormal
               then mkPoint3F (f_dec 0 0) (f_dec 0 0) (f_dec 1 0) else rNormal in
  let axisy :=
    normalize (if f_ltb (f_abs (pz axisz)) (f_dec 98 (-2))
               then mCross axisz (mkPoint3F (f_dec 0 0) (f_dec 0 0) (f_dec 1 0))
               else mCross axisz (mkPoint3F (f_dec 0 0) (f_dec 1 0) (f_dec 0 0))) in
  let axisx := normalize (mCross axisz axisy) in
  forEach (seq 0 (Z.to_nat count)) (fun _ =>
    let* r1 := rand_F in
    let* r2 := rand_F in
    let* r3 := rand_F in
    let one_minus_twice r := f_sub (f_dec 1 0) (f_mul (f_dec 2 0) r) in
    let pos := p3_add (p3_add (p3_scale axisx (f_mul radius (one_minus_twice r1)))
                              (p3_scale axisy (f_mul radius (one_minus_twice r2))))
                      (p3_scale axisz (f_mul radius r3)) in
    let axis := normalize pos in
    addParticle (p3_add pos rCenter) axis velocity axisz) >>
  emit EvResetWorldBox >>
  joinScene >>
  modE (set_mHasLastPosition false).


(** ** GraphEmitter::advanceTime *)

(** [last_part] of the eviction walk: the sentinel head or a slot. *)
Inductive PartRef := ListHead | Slot (i : nat).

Definition nextOf (r : PartRef) : M (option nat) :=
  match r with
  | ListHead => let* e := getE in ret (part_list_head e)
  | Slot i => let* p := deref (Some i) in ret (next p)
  end.

Definition setNextOf (r : PartRef) (v : option nat) : M unit :=
  match r with
  | ListHead => modE (set_part_list_head v)
  | Slot i => store (Some i) (set_next v)
  end.

(** The walk of lines 1524-1540, entered at the loop test with the
    current [last_part] and [part].  After an eviction the source sets
    [part = last_part] and the loop increment reads [last_part->next]. *)
Fixpoint evictLoop (fuel : nat) (ms : Z) (last_part : PartRef) (part : option nat)
    : M unit :=
  match part with
  | None => ret tt
  | Some i =>
      match fuel with
      | O => outOfFuel
      | S fuel' =>
          store part (fun q => set_currentAge (u32 (currentAge q + ms)) q) >>
          let* p := deref part in
          if currentAge p >? totalLifetime p then
            modE (fun e => set_n_parts (n_parts e - 1) e) >>
            setNextOf last_part (next p) >>
            let* e := getE in
            store part (set_next (part_freelist e)) >>
            modE (set_part_freelist part) >>
            let* nxt := nextOf last_part in
            evictLoop fuel' ms last_part nxt
          else
            let* nxt := nextOf (Slot i) in
            evictLoop fuel' ms (Slot i) nxt
      end
  end.

(** [for (Particle* part = from; part != NULL; part = part->next) body] *)
Fixpoint forParts (fuel : nat) (part : option nat) (body : option nat -> M unit)
    : M unit :=
  match part with
  | None => ret tt
  | Some _ =>
      match fuel with
      | O => outOfFuel
      | S fuel' =>
          body part >>
          let* p := deref part in
          forParts fuel' (next p) body
      end
  end.

(** A list walk visits every slot at most once or never ends: the number
    of slots bounds the steps of every walk that ends. *)
Definition walkFuel : M nat :=
  let* e := getE in ret (length (part_store e)).

(** ** GraphEmitter::update *)

Definition updateParticle (ms : Z) (part : option nat) : M unit :=
  let t := f_div (f_of_int ms) (f_dec 1000 0) in
  store part (fun q => set_acc (attractionForce (pos q) (acc q)) q) >>
  let* p := deref part in
  match dataBlock p with
  | None => crash NullDereference
  | Some pd =>
      let a := acceleration p pd in
      store part (fun q => set_vel (p3_add (vel q) (p3_scale a t)) q) >>
      let* p := deref part in
      match castRay (pos p) (p3_add (pos p) (p3_scale (vel p) t)) with
      | None => ret tt
      | Some normal =>
          let proj := p3_scale normal
                        (f_div (mDot (vel p) normal)
                               (f_mul (p3_len normal) (p3_len normal))) in
          let between := p3_sub (vel p) proj in
          store part (set_vel
            (p3_neg (p3_sub (vel p)
                            (p3_scale (p3_scale between (f_dec 2 0)) (f_dec 8 (-1))))))
      end >>
      store part (fun q => set_pos (p3_add (pos q) (p3_scale (vel q) t)) q) >>
      let* e := getE in
      when (sticky e)
           (store part (fun q => set_pos (p3_add (parentNodePos e) (relPos q)) q)) >>
      updateKeyData part
  end.

Definition update (ms : Z) : M unit :=
  let* fuel := walkFuel in
  let* e := getE in
  forParts fuel (part_list_head e) (updateParticle ms).

(** Lines 1521-1553: the eviction walk, then the physics. *)
Definition agePass (numMSToUpdate : Z) : M unit :=
  let* fuel := walkFuel in
  let* e := getE in
  evictLoop fuel numMSToUpdate ListHead (part_list_head e) >>
  let* e := getE in
  assertFatal (0 <=? n_parts e) "GraphEmitter: negative part count!" >>
  if (n_parts e <? 1) && mDeleteWhenEmpty e then modE (set_mDeleteOnTick true)
  else when (negb (numMSToUpdate =? 0) && (0 <? n_parts e)) (update numMSToUpdate).

(** Lines 1514-1553, with the delta already clamped. *)
Definition tick (dt : F32) : M unit :=
  let* e := getE in
  if mDead e then ret tt else
  modE (fun e => set_mElapsedTimeMS
                   (s32 (mElapsedTimeMS e + s32 (f_to_int (f_mul dt (f_dec 1000 0))))) e) >>
  let numMSToUpdate := u32 (f_to_int (f_mul dt (f_dec 1000 0))) in
  if numMSToUpdate =? 0 then ret tt else agePass numMSToUpdate.

Definition advanceTime (dt : F32) : M unit :=
  if f_ltb dt (f_dec 1 (-5)) then ret tt else
  emit (EvParentAdvanceTime dt) >>
  tick (if f_ltb (f_dec 5 (-1)) dt then f_dec 5 (-1) else dt).

(** ** GraphEmitter::copyToVB and GraphEmitter::prepRenderImage *)

Definition g_cmpSortParticles (sp1 sp2 : nat * F32) : Z :=
  if f_ltb (snd sp1) (snd sp2) then 1
  else if f_eqb (snd sp2) (snd sp1) then 0
  else -1.

Fixpoint collectParts (fuel : nat) (part : option nat) : M (list (nat * Particle)) :=
  match part with
  | None => ret []
  | Some i =>
      match fuel with
      | O => outOfFuel
      | S fuel' =>
          let* p := deref part in
          let* rest := collectParts fuel' (next p) in
          ret ((i, p) :: rest)
      end
  end.

Definition copyToVB : M unit :=
  let* d := getD in
  let* fuel := walkFuel in
  let* e := getE in
  let* live := collectParts fuel (part_list_head e) in
  let* ordered :=
    (if sortParticles d then
       let orderedVector :=
         dQsort g_cmpSortParticles (map (fun ip => (fst ip, viewDepth (pos (snd ip)))) live) in
       if Z.of_nat (length orderedVector) <? n_parts e then crash OutOfBounds
       else
         let* e := getE in
         let slots := map fst (take (Z.to_nat (n_parts e)) orderedVector) in
         match mapM (fun i => part_store e !! i) slots with
         | Some ps => ret ps
         | None => crash OutOfBounds
         end
     else ret (map snd live)) in
  let setup := if orientParticles d then setupOriented
               else if alignParticles d then setupAligned
               else setupBillboard in
  let quads := map setup ordered in
  let tempBuff := if reverseOrder d then rev quads else quads in
  let* e := getE in
  when (bool_decide (mVertBuff e = None) || (mCurBuffSize e <? n_parts e))
       (modE (set_mCurBuffSize (n_parts e))) >>
  modE (set_mVertBuff (Some tempBuff)).

Definition prepRenderImage (isReflectPass isShadowPass : bool) : M unit :=
  let* d := getD in
  if isReflectPass && negb (renderReflection d) then ret tt else
  if isShadowPass then ret tt else
  let* e := getE in
  if mDead e || (n_parts e =? 0) || bool_decide (part_list_head e = None) then ret tt else
  copyToVB >>
  let* e := getE in
  if bool_decide (mVertBuff e = None) then ret tt else
  emit (EvRenderInst (n_parts e)).

End GraphEmitter.

Arguments Done {ET A} a m.
Arguments Crash {ET A} f m.
Arguments OutOfFuel {ET A} m.

(** * The datablock's loading, and the end of an emitter's life

    GraphEmitterData::onAdd, preload, reload and the index loop of
    allocPrimBuffer; GraphEmitter::deleteWhenEmpty, processTick and
    getCollectiveColor.  They use members of the datablock and services
    of the engine that the methods above do not: the members are the
    record [DataMembers], the services the class [EngineSim]. *)

(** ParticleRenderInst::BlendStyle with the three values preload names,
    the lookups of Sim::findObject, the two fields of ParticleData that
    preload reads, the tokenisers, the texture loader and the arithmetic
    of ColorF.  [dStrtok s] is the list of tokens that dStrtok(s, " \t")
    and then dStrtok(NULL, " \t") return before NULL; [defaultOverrideSize]
    is the default of allocPrimBuffer's parameter, declared in
    graphEmitter.h; [freshIndex] is an element of [new U16[n]]. *)
Class EngineSim {ET : EngineTypes} := {
  BlendStyle : Type;
  BlendUndefined : BlendStyle;
  BlendNormal : BlendStyle;
  BlendAdditive : BlendStyle;
  blendIsUndefined : BlendStyle -> bool;
  findObjectByName : string -> option ParticleData;
  findObjectById : Z -> option ParticleData;
  pd_textureName : ParticleData -> string;
  pd_useInvAlpha : ParticleData -> bool;
  dStrtok : string -> list string;
  getUnitCount : string -> Z;
  getUnit : string -> Z -> string;
  loadTexture : string -> bool;
  defaultOverrideSize : Z;
  freshIndex : Z;
  c_black : ColorF;                       (* ColorF(0.0f, 0.0f, 0.0f) *)
  c_add : ColorF -> ColorF -> ColorF;     (* operator+= *)
  c_div : ColorF -> F32 -> ColorF         (* operator/= *)
}.

Section Lifecycle.

Context {ET : EngineTypes} {EH : EngineHost} {ES : EngineSim}.

Notation "'let*' x ':=' c 'in' k" := (bind c (fun x => k))
  (at level 10, x name, c at level 100, k at level 200, only parsing).
Notation "c1 >> c2" := (bind c1 (fun _ => c2))
  (at level 100, c2 at level 200, right associativity, only parsing).

(** What the datablock reports: Con::warnf, Con::errorf, the [errorStr]
    of preload, mReloadSignal.trigger(). *)
Inductive DataEvent :=
| Warnf (msg : string)
| Errorf (msg : string)
| ErrorStr (msg : string)
| ReloadSignal.

(** The members of [GraphEmitterData] beside those of the record
    [GraphEmitterData]. *)
Record DataMembers := {
  softnessDistance : F32;
  particleString : option string;     (* NULL, or the string *)
  dataBlockIds : list Z;
  textureName : option string;        (* 0, or the name *)
  textureHandle : bool;               (* whether the handle is valid *)
  blendStyle : BlendStyle;
  dataLog : list DataEvent
}.

Definition set_softnessDistance (v : F32) (x : DataMembers) : DataMembers :=
  {| softnessDistance := v; particleString := particleString x;
     dataBlockIds := dataBlockIds x; textureName := textureName x;
     textureHandle := textureHandle x; blendStyle := blendStyle x; dataLog := dataLog x |}.

Definition set_dataBlockIds (v : list Z) (x : DataMembers) : DataMembers :=
  {| softnessDistance := softnessDistance x; particleString := particleString x;
     dataBlockIds := v; textureName := textureName x;
     textureHandle := textureHandle x; blendStyle := blendStyle x; dataLog := dataLog x |}.

Definition set_textureHandle (v : bool) (x : DataMembers) : DataMembers :=
  {| softnessDistance := softnessDistance x; particleString := particleString x;
     dataBlockIds := dataBlockIds x; textureName := textureName x;
     textureHandle := v; blendStyle := blendStyle x; dataLog := dataLog x |}.

Definition set_blendStyle (v : BlendStyle) (x : DataMembers) : DataMembers :=
  {| softnessDistance := softnessDistance x; particleString := particleString x;
     dataBlockIds := dataBlockIds x; textureName := textureName x;
     textureHandle := textureHandle x; blendStyle := v; dataLog := dataLog x |}.

Definition set_dataLog (v : list DataEvent) (x : DataMembers) : DataMembers :=
  {| softnessDistance := softnessDistance x; particleString := particleString x;
     dataBlockIds := dataBlockIds x; textureName := textureName x;
     textureHandle := textureHandle x; blendStyle := blendStyle x; dataLog := v |}.

Definition report (ev : DataEvent) (x : DataMembers) : DataMembers :=
  set_dataLog (dataLog x ++ [ev]) x.

Definition set_ejectionPeriodMS (v : Z) (d : GraphEmitterData) : GraphEmitterData :=
  {| ejectionPeriodMS := v; periodVarianceMS := periodVarianceMS d;
     ejectionVelocity := ejectionVelocity d; velocityVariance := velocityVariance d;
     ejectionOffset := ejectionOffset d; thetaMin := thetaMin d; thetaMax := thetaMax d;
     phiReferenceVel := phiReferenceVel d; phiVariance := phiVariance d;
     lifetimeMS := lifetimeMS d; lifetimeVarianceMS := lifetimeVarianceMS d;
     overrideAdvance := overrideAdvance d; useEmitterSizes := useEmitterSizes d;
     useEmitterColors := useEmitterColors d; sortParticles := sortParticles d;
     orientParticles := orientParticles d; alignParticles := alignParticles d;
     reverseOrder := reverseOrder d; renderReflection := renderReflection d;
     particleDataBlocks := particleDataBlocks d; partListInitSize := partListInitSize d |}.

Definition set_periodVarianceMS (v : Z) (d : GraphEmitterData) : GraphEmitterData :=
  {| ejectionPeriodMS := ejectionPeriodMS d; periodVarianceMS := v;
     ejectionVelocity := ejectionVelocity d; velocityVariance := velocityVariance d;
     ejectionOffset := ejectionOffset d; thetaMin := thetaMin d; thetaMax := thetaMax d;
     phiReferenceVel := phiReferenceVel d; phiVariance := phiVariance d;
     lifetimeMS := lifetimeMS d; lifetimeVarianceMS := lifetimeVarianceMS d;
     overrideAdvance := overrideAdvance d; useEmitterSizes := useEmitterSizes d;
     useEmitterColors := useEmitterColors d; sortParticles := sortParticles d;
     orientParticles := orientParticles d; alignParticles := alignParticles d;
     reverseOrder := reverseOrder d; renderReflection := renderReflection d;
     particleDataBlocks := particleDataBlocks d; partListInitSize := partListInitSize d |}.

Definition set_ejectionVelocity (v : F32) (d : GraphEmitterData) : GraphEmitterData :=
  {| ejectionPeriodMS := ejectionPeriodMS d; periodVarianceMS := periodVarianceMS d;
     ejectionVelocity := v; velocityVariance := velocityVariance d;
     ejectionOffset := ejectionOffset d; thetaMin := thetaMin d; thetaMax := thetaMax d;
     phiReferenceVel := phiReferenceVel d; phiVariance := phiVariance d;
     lifetimeMS := lifetimeMS d; lifetimeVarianceMS := lifetimeVarianceMS d;
     overrideAdvance := overrideAdvance d; useEmitterSizes := useEmitterSizes d;
     useEmitterColors := useEmitterColors d; sortParticles := sortParticles d;
     orientParticles := orientParticles d; alignParticles := alignParticles d;
     reverseOrder := reverseOrder d; renderReflection := renderReflection d;
     particleDataBlocks := particleDataBlocks d; partListInitSize := partListInitSize d |}.

Definition set_velocityVariance (v : F32) (d : GraphEmitterData) : GraphEmitterData :=
  {| ejectionPeriodMS := ejectionPeriodMS d; periodVarianceMS := periodVarianceMS d;
     ejectionVelocity := ejectionVelocity d; velocityVariance := v;
     ejectionOffset := ejectionOffset d; thetaMin := thetaMin d; thetaMax := thetaMax d;
     phiReferenceVel := phiReferenceVel d; phiVariance := phiVariance d;
     lifetimeMS := lifetimeMS d; lifetimeVarianceMS := lifetimeVarianceMS d;
     overrideAdvance := overrideAdvance d; useEmitterSizes := useEmitterSizes d;
     useEmitterColors := useEmitterColors d; sortParticles := sortParticles d;
     orientParticles := orientParticles d; alignParticles := alignParticles d;
     reverseOrder := reverseOrder d; renderReflection := renderReflection d;
     particleDataBlocks := particleDataBlocks d; partListInitSize := partListInitSize d |}.

Definition set_ejectionOffset (v : F32) (d : GraphEmitterData) : GraphEmitterData :=
  {| ejectionPeriodMS := ejectionPeriodMS d; periodVarianceMS := periodVarianceMS d;
     ejectionVelocity := ejectionVelocity d; velocityVariance := velocityVariance d;
     ejectionOffset := v; thetaMin := thetaMin d; thetaMax := thetaMax d;
     phiReferenceVel := phiReferenceVel d; phiVariance := phiVariance d;
     lifetimeMS := lifetimeMS d; lifetimeVarianceMS := lifetimeVarianceMS d;
     overrideAdvance := overrideAdvance d; useEmitterSizes := useEmitterSizes d;
     useEmitterColors := useEmitterColors d; sortParticles := sortParticles d;
     orientParticles := orientParticles d; alignParticles := alignParticles d;
     reverseOrder := reverseOrder d; renderReflection := renderReflection d;
     particleDataBlocks := particleDataBlocks d; partListInitSize := partListInitSize d |}.

Definition set_thetaMin (v : F32) (d : GraphEmitterData) : GraphEmitterData :=
  {| ejectionPeriodMS := ejectionPeriodMS d; periodVarianceMS := periodVarianceMS d;
     ejectionVelocity := ejectionVelocity d; velocityVariance := velocityVariance d;
     ejectionOffset := ejectionOffset d; thetaMin := v; thetaMax := thetaMax d;
     phiReferenceVel := phiReferenceVel d; phiVariance := phiVariance d;
     lifetimeMS := lifetimeMS d; lifetimeVarianceMS := lifetimeVarianceMS d;
     overrideAdvance := overrideAdvance d; useEmitterSizes := useEmitterSizes d;
     useEmitterColors := useEmitterColors d; sortParticles := sortParticles d;
     orientParticles := orientParticles d; alignParticles := alignParticles d;
     reverseOrder := reverseOrder d; renderReflection := renderReflection d;
     particleDataBlocks := particleDataBlocks d; partListInitSize := partListInitSize d |}.

Definition set_thetaMax (v : F32) (d : GraphEmitterData) : GraphEmitterData :=
  {| ejectionPeriodMS := ejectionPeriodMS d; periodVarianceMS := periodVarianceMS d;
     ejectionVelocity := ejectionVelocity d; velocityVariance := velocityVariance d;
     ejectionOffset := ejectionOffset d; thetaMin := thetaMin d; thetaMax := v;
     phiReferenceVel := phiReferenceVel d; phiVariance := phiVariance d;
     lifetimeMS := lifetimeMS d; lifetimeVarianceMS := lifetimeVarianceMS d;
     overrideAdvance := overrideAdvance d; useEmitterSizes := useEmitterSizes d;
     useEmitterColors := useEmitterColors d; sortParticles := sortParticles d;
     orientParticles := orientParticles d; alignParticles := alignParticles d;
     reverseOrder := reverseOrder d; renderReflection := renderReflection d;
     particleDataBlocks := particleDataBlocks d; partListInitSize := partListInitSize d |}.

Definition set_phiVariance (v : F32) (d : GraphEmitterData) : GraphEmitterData :=
  {| ejectionPeriodMS := ejectionPeriodMS d; periodVarianceMS := periodVarianceMS d;
     ejectionVelocity := ejectionVelocity d; velocityVariance := velocityVariance d;
     ejectionOffset := ejectionOffset d; thetaMin := thetaMin d; thetaMax := thetaMax d;
     phiReferenceVel := phiReferenceVel d; phiVariance := v; lifetimeMS := lifetimeMS d;
     lifetimeVarianceMS := lifetimeVarianceMS d; overrideAdvance := overrideAdvance d;
     useEmitterSizes := useEmitterSizes d; useEmitterColors := useEmitterColors d;
     sortParticles := sortParticles d; orientParticles := orientParticles d;
     alignParticles := alignParticles d; reverseOrder := reverseOrder d;
     renderReflection := renderReflection d; particleDataBlocks := particleDataBlocks d;
     partListInitSize := partListInitSize d |}.

Definition set_lifetimeMS (v : Z) (d : GraphEmitterData) : GraphEmitterData :=
  {| ejectionPeriodMS := ejectionPeriodMS d; periodVarianceMS := periodVarianceMS d;
     ejectionVelocity := ejectionVelocity d; velocityVariance := velocityVariance d;
     ejectionOffset := ejectionOffset d; thetaMin := thetaMin d; thetaMax := thetaMax d;
     phiReferenceVel := phiReferenceVel d; phiVariance := phiVariance d; lifetimeMS := v;
     lifetimeVarianceMS := lifetimeVarianceMS d; overrideAdvance := overrideAdvance d;
     useEmitterSizes := useEmitterSizes d; useEmitterColors := useEmitterColors d;
     sortParticles := sortParticles d; orientParticles := orientParticles d;
     alignParticles := alignParticles d; reverseOrder := reverseOrder d;
     renderReflection := renderReflection d; particleDataBlocks := particleDataBlocks d;
     partListInitSize := partListInitSize d |}.

Definition set_lifetimeVarianceMS (v : Z) (d : GraphEmitterData) : GraphEmitterData :=
  {| ejectionPeriodMS := ejectionPeriodMS d; periodVarianceMS := periodVarianceMS d;
     ejectionVelocity := ejectionVelocity d; velocityVariance := velocityVariance d;
     ejectionOffset := ejectionOffset d; thetaMin := thetaMin d; thetaMax := thetaMax d;
     phiReferenceVel := phiReferenceVel d; phiVariance := phiVariance d;
     lifetimeMS := lifetimeMS d; lifetimeVarianceMS := v; overrideAdvance := overrideAdvance d;
     useEmitterSizes := useEmitterSizes d; useEmitterColors := useEmitterColors d;
     sortParticles := sortParticles d; orientParticles := orientParticles d;
     alignParticles := alignParticles d; reverseOrder := reverseOrder d;
     renderReflection := renderReflection d; particleDataBlocks := particleDataBlocks d;
     partListInitSize := partListInitSize d |}.

Definition set_particleDataBlocks (v : list ParticleData) (d : GraphEmitterData) : GraphEmitterData :=
  {| ejectionPeriodMS := ejectionPeriodMS d; periodVarianceMS := periodVarianceMS d;
     ejectionVelocity := ejectionVelocity d; velocityVariance := velocityVariance d;
     ejectionOffset := ejectionOffset d; thetaMin := thetaMin d; thetaMax := thetaMax d;
     phiReferenceVel := phiReferenceVel d; phiVariance := phiVariance d;
     lifetimeMS := lifetimeMS d; lifetimeVarianceMS := lifetimeVarianceMS d;
     overrideAdvance := overrideAdvance d; useEmitterSizes := useEmitterSizes d;
     useEmitterColors := useEmitterColors d; sortParticles := sortParticles d;
     orientParticles := orientParticles d; alignParticles := alignParticles d;
     reverseOrder := reverseOrder d; renderReflection := renderReflection d;
     particleDataBlocks := v; partListInitSize := partListInitSize d |}.

Definition set_mDeleteWhenEmpty (v : bool) (e : Emitter) : Emitter :=
  {| part_store := part_store e; part_freelist := part_freelist e;
     part_list_head := part_list_head e; n_part_capacity := n_part_capacity e;
     n_parts := n_parts e; mDead := mDead e; mDeleteWhenEmpty := v;
     mDeleteOnTick := mDeleteOnTick e; mInternalClock := mInternalClock e;
     mNextParticleTime := mNextParticleTime e; mLastPosition := mLastPosition e;
     mHasLastPosition := mHasLastPosition e; mLifetimeMS := mLifetimeMS e;
     mElapsedTimeMS := mElapsedTimeMS e; oldTime := oldTime e;
     parentNodePos := parentNodePos e; sticky := sticky e; sizes := sizes e;
     colors := colors e; mCurBuffSize := mCurBuffSize e; mVertBuff := mVertBuff e;
     inScene := inScene e |}.

(** ** GraphEmitterData::onAdd *)

(** [if (c) { Con::warnf(msg); field = value; }] on a field of the record
    [GraphEmitterData]. *)
Definition check (c : GraphEmitterData -> bool) (msg : string)
    (assign : GraphEmitterData -> GraphEmitterData)
    (s : GraphEmitterData * DataMembers) : GraphEmitterData * DataMembers :=
  if c (fst s) then (assign (fst s), report (Warnf msg) (snd s)) else s.

(** Lines 462-466. *)
Definition checkSoftness (s : GraphEmitterData * DataMembers)
    : GraphEmitterData * DataMembers :=
  if f_ltb (softnessDistance (snd s)) (f_dec 0 0)
  then (fst s, set_softnessDistance (f_dec 0 0)
                 (report (Warnf "GraphEmitterData(%s) invalid softnessDistance") (snd s)))
  else s.

(** One statement after the other. *)
Definition inOrder {S : Type} (steps : list (S -> S)) (s : S) : S :=
  fold_left (fun s step => step s) steps s.

(** Lines 411-466. *)
Definition validate : GraphEmitterData * DataMembers -> GraphEmitterData * DataMembers :=
  inOrder
    [check (fun d => ejectionPeriodMS d <? 1)
       "GraphEmitterData(%s) period < 1 ms" (set_ejectionPeriodMS 1);
     check (fun d => ejectionPeriodMS d <=? periodVarianceMS d)
       "GraphEmitterData(%s) periodVariance >= period"
       (fun d => set_periodVarianceMS (s32 (ejectionPeriodMS d - 1)) d);
     check (fun d => f_ltb (ejectionVelocity d) (f_dec 0 0))
       "GraphEmitterData(%s) ejectionVelocity < 0.0f" (set_ejectionVelocity (f_dec 0 0));
     check (fun d => f_ltb (velocityVariance d) (f_dec 0 0))
       "GraphEmitterData(%s) velocityVariance < 0.0f" (set_velocityVariance (f_dec 0 0));
     check (fun d => f_ltb (ejectionVelocity d) (velocityVariance d))
       "GraphEmitterData(%s) velocityVariance > ejectionVelocity"
       (fun d => set_velocityVariance (ejectionVelocity d) d);
     check (fun d => f_ltb (ejectionOffset d) (f_dec 0 0))
       "GraphEmitterData(%s) ejectionOffset < 0" (set_ejectionOffset (f_dec 0 0));
     check (fun d => f_ltb (thetaMin d) (f_dec 0 0))
       "GraphEmitterData(%s) thetaMin < 0.0" (set_thetaMin (f_dec 0 0));
     check (fun d => f_ltb (f_dec 180 0) (thetaMax d))
       "GraphEmitterData(%s) thetaMax > 180.0" (set_thetaMax (f_dec 180 0));
     check (fun d => f_ltb (thetaMax d) (thetaMin d))
       "GraphEmitterData(%s) thetaMin > thetaMax" (fun d => set_thetaMin (thetaMax d) d);
     check (fun d => f_ltb (phiVariance d) (f_dec 0 0) || f_ltb (f_dec 360 0) (phiVariance d))
       "GraphEmitterData(%s) invalid phiVariance"
       (fun d => set_phiVariance
                   (if f_ltb (phiVariance d) (f_dec 0 0) then f_dec 0 0 else f_dec 360 0) d);
     checkSoftness].

(** Lines 484-493. *)
Definition validateLifetime
    : GraphEmitterData * DataMembers -> GraphEmitterData * DataMembers :=
  inOrder
    [check (fun d => lifetimeMS d <? 0)
       "GraphEmitterData(%s) lifetimeMS < 0.0f" (set_lifetimeMS 0);
     check (fun d => lifetimeMS d <? lifetimeVarianceMS d)
       "GraphEmitterData(%s) lifetimeVarianceMS >= lifetimeMS"
       (fun d => set_lifetimeVarianceMS (lifetimeMS d) d)].

(** The loop of lines 525-537: every name that Sim::findObject resolves
    adds its datablock and its id, every other name a warning. *)
Definition resolveNames (report_missing : string -> DataEvent) (names : list string)
    (s : GraphEmitterData * DataMembers) : GraphEmitterData * DataMembers :=
  fold_left
    (fun s name =>
       match findObjectByName name with
       | None => (fst s, report (report_missing name) (snd s))
       | Some pData =>
           (set_particleDataBlocks (particleDataBlocks (fst s) ++ [pData]) (fst s),
            set_dataBlockIds (dataBlockIds (snd s) ++ [dataBlockId pData]) (snd s))
       end)
    names s.

(** particleDataBlocks.clear(); dataBlockIds.clear(); *)
Definition clearParticles (s : GraphEmitterData * DataMembers)
    : GraphEmitterData * DataMembers :=
  (set_particleDataBlocks [] (fst s), set_dataBlockIds [] (snd s)).

Definition onAdd_body (d : GraphEmitterData) (x : DataMembers)
    : bool * (GraphEmitterData * DataMembers) :=
  let s := validate (d, x) in
  let invalid := "GraphEmitterData(%s) no particleString, invalid datablock"%string in
  match particleString (snd s) with
  | None =>
      if bool_decide (dataBlockIds (snd s) = [])
      then (false, (fst s, report (Warnf invalid) (snd s)))
      else (true, validateLifetime s)
  | Some str =>
      if String.eqb str EmptyString
      then (false, (fst s, report (Warnf invalid) (snd s)))
      else if (255 <? Z.of_nat (String.length str))
      then (false, (fst s, report
                             (Errorf "GraphEmitterData(%s) particle string too long [> 255 chars]")
                             (snd s)))
      else
        let s := validateLifetime s in
        match dStrtok str with
        | [] =>
            (false, (fst s, report
                              (Warnf "GraphEmitterData(%s) invalid particles string.  No datablocks found")
                              (snd s)))
        | names =>
            let s := resolveNames
                       (fun _ => Warnf "GraphEmitterData(%s) unable to find particle datablock: %s")
                       names (clearParticles s) in
            if bool_decide (particleDataBlocks (fst s) = [])
            then (false, (fst s, report
                                   (Warnf "GraphEmitterData(%s) unable to find any particle datablocks")
                                   (snd s)))
            else (true, s)
        end
  end.

(** [parentOnAdd] is the result of Parent::onAdd(). *)
Definition GraphEmitterData_onAdd (parentOnAdd : bool) (x : DataMembers)
    : M (bool * DataMembers) :=
  if negb parentOnAdd then ret (false, x) else
  let* d := getD in
  let r := onAdd_body d x in
  modD (fun _ => fst (snd r)) >>
  ret (fst r, snd (snd r)).

(** ** GraphEmitterData::reload *)

Definition reload_body (d : GraphEmitterData) (x : DataMembers)
    : bool * (GraphEmitterData * DataMembers) :=
  let s := clearParticles (d, x) in
  let numUnits := match particleString x with
                  | Some str => u32 (getUnitCount str)
                  | None => 0
                  end in
  let empty := match particleString x with
               | Some str => String.eqb str EmptyString
               | None => true
               end in
  if empty || (numUnits =? 0)
  then (false, (fst s, report ReloadSignal
                         (report (Errorf "GraphEmitterData(%s) has an empty particles string.")
                                 (snd s))))
  else
    let names := match particleString x with
                 | Some str => map (fun i => getUnit str (Z.of_nat i)) (seq 0 (Z.to_nat numUnits))
                 | None => []
                 end in
    let s := resolveNames
               (fun _ => Errorf "GraphEmitterData(%s) unable to find particle datablock: %s")
               names s in
    if bool_decide (particleDataBlocks (fst s) = [])
    then (false, (fst s, report ReloadSignal
                           (report (Errorf "GraphEmitterData(%s) unable to find any particle datablocks")
                                   (snd s))))
    else (true, (fst s, report ReloadSignal (snd s))).

Definition GraphEmitterData_reload (x : DataMembers) : M (bool * DataMembers) :=
  let* d := getD in
  let r := reload_body d x in
  modD (fun _ => fst (snd r)) >>
  ret (fst r, snd (snd r)).

(** ** GraphEmitterData::preload *)

(** Lines 561-569. *)
Definition resolveIds (ids : list Z) (s : GraphEmitterData * DataMembers)
    : GraphEmitterData * DataMembers :=
  fold_left
    (fun s id =>
       match findObjectById id with
       | None =>
           (fst s, report (Warnf "GraphEmitterData(%s) unable to find particle datablock: %d")
                          (snd s))
       | Some pData =>
           (set_particleDataBlocks (particleDataBlocks (fst s) ++ [pData]) (fst s), snd s)
       end)
    ids s.

(** Lines 583-596: one warning if a template names another texture than
    the first. *)
Definition checkTextures (d : GraphEmitterData) (x : DataMembers) : DataMembers :=
  match particleDataBlocks d with
  | p0 :: rest =>
      if existsb (fun p => negb (String.eqb (pd_textureName p) (pd_textureName p0))) rest
      then report (Warnf "GraphEmitterData(%s) particles reference different textures.") x
      else x
  | [] => x
  end.

(** Lines 600-613. *)
Definition legacyBlend (d : GraphEmitterData) (x : DataMembers) : DataMembers :=
  match particleDataBlocks d with
  | p0 :: rest =>
      if blendIsUndefined (blendStyle x) then
        let x := if existsb (fun p => negb (eqb (pd_useInvAlpha p) (pd_useInvAlpha p0))) rest
                 then report (Warnf "GraphEmitterData(%s) particles have inconsistent useInvAlpha settings.") x
                 else x in
        set_blendStyle (if pd_useInvAlpha p0 then BlendNormal else BlendAdditive) x
      else x
  | [] => x
  end.

(** [parentPreload] is the result of Parent::preload(server, errorStr). *)
Definition GraphEmitterData_preload (parentPreload server : bool) (x : DataMembers)
    : M (bool * DataMembers) :=
  if negb parentPreload then ret (false, x) else
  let* d := getD in
  let s := resolveIds (dataBlockIds x) (set_particleDataBlocks [] d, x) in
  modD (fun _ => fst s) >>
  let d := fst s in
  let x := snd s in
  let texture :=
    if server then (true, x)
    else match textureName x with
         | Some name =>
             if String.eqb name EmptyString then (true, checkTextures d x)
             else if loadTexture name then (true, set_textureHandle true x)
             else (false, report (ErrorStr "Missing particle emitter texture: %s")
                                 (set_textureHandle false x))
         | None => (true, checkTextures d x)
         end in
  if negb (fst texture) then ret (false, snd texture) else
  let x := legacyBlend d (snd texture) in
  (if server then ret tt else allocPrimBuffer defaultOverrideSize) >>
  ret (true, x).

(** ** The index buffer of allocPrimBuffer (lines 649-664) *)

Definition u16 (z : Z) : Z := z mod 2 ^ 16.

(** [idx[k] = v] with [U16 *idx = &indices[i*6]]; a write past the end of
    the array has no result. *)
Definition writeIndex (i k v : Z) (indices : list Z) : option (list Z) :=
  let at_ := Z.to_nat (u32 (i * 6) + k) in
  if bool_decide (at_ < length indices)%nat then Some (<[at_ := u16 v]> indices) else None.

Definition writeQuad (i : Z) (indices : list Z) : option (list Z) :=
  let offset := u32 (i * 4) in
  indices ← writeIndex i 0 (0 + offset) indices;
  indices ← writeIndex i 1 (1 + offset) indices;
  indices ← writeIndex i 2 (3 + offset) indices;
  indices ← writeIndex i 3 (1 + offset) indices;
  indices ← writeIndex i 4 (3 + offset) indices;
  writeIndex i 5 (2 + offset) indices.

(** [for (U32 i = first; i < partListInitSize; i++)], with [todo] rounds
    left. *)
Fixpoint indexLoop (todo : nat) (i : Z) (indices : list Z) : option (list Z) :=
  match todo with
  | O => Some indices
  | S todo' => indices ← writeQuad i indices; indexLoop todo' (u32 (i + 1)) indices
  end.

Definition primIndices (partListInitSize : Z) : option (list Z) :=
  let indexListSize := u32 (partListInitSize * 6) in
  indexLoop (Z.to_nat partListInitSize) 0 (replicate (Z.to_nat indexListSize) freshIndex).

(** ** GraphEmitter::deleteWhenEmpty and GraphEmitter::processTick *)

(** isProperlyAdded(), isDeleted() and isRemoved() of the SimObject. *)
Record SimFlags := {
  isProperlyAdded : bool;
  isDeleted : bool;
  isRemoved : bool
}.

(** The result tells whether deleteObject() was called. *)
Definition deleteWhenEmpty (sim : SimFlags) : M bool :=
  let* e := getE in
  assertFatal (isProperlyAdded sim)
    "GraphEmitter must be registed before calling deleteWhenEmpty" >>
  assertFatal (negb (mDead e)) "GraphEmitter already deleted" >>
  assertFatal (negb (isDeleted sim)) "GraphEmitter already deleted" >>
  assertFatal (negb (isRemoved sim)) "GraphEmitter already removed" >>
  let okToDelete :=
    negb (mDead e) && isProperlyAdded sim && negb (isDeleted sim) && negb (isRemoved sim) in
  if okToDelete then
    modE (set_mDeleteWhenEmpty true) >>
    if n_parts e =? 0 then
      modE (set_mDead true) >>
      ret true
    else
      assertFatal (inScene e)
        "GraphEmitter not on process list and won't get ticked to death" >>
      ret false
  else ret false.

(** The result tells whether deleteObject() was called. *)
Definition processTick : M bool :=
  let* e := getE in
  if mDeleteOnTick e then
    modE (set_mDead true) >>
    ret true
  else ret false.

(** ** GraphEmitter::getCollectiveColor *)

Fixpoint sumColors (fuel : nat) (part : option nat) (color_ : ColorF) : M ColorF :=
  match part with
  | None => ret color_
  | Some _ =>
      match fuel with
      | O => outOfFuel
      | S fuel' =>
          let* p := deref part in
          sumColors fuel' (next p) (c_add color_ (color p))
      end
  end.

Definition getCollectiveColor : M ColorF :=
  let* e := getE in
  let count := u32 (n_parts e) in
  let* fuel := walkFuel in
  let* color_ := sumColors fuel (part_list_head e) c_black in
  ret (if 0 <? count then c_div color_ (f_of_int count) else color_).

End Lifecycle.

(** ** A concrete engine

    Single precision is IEEE binary32 as specified by [SpecFloat]
    (precision 24, maximal exponent 128); the random generator is the
    multiplicative congruential generator of the engine's [MRandomLCG].
    The geometry of the sample host is kept elementary: it serves to run
    the emitter on concrete inputs. *)

Module Sample.

Definition prec : Z := 24.
Definition emax : Z := 128.

Definition b32_of_int (z : Z) : spec_float := binary_normalize prec emax z 0 false.

Definition b32_to_int (x : spec_float) : Z :=
  match x with
  | S754_finite s m e =>
      let magnitude := if 0 <=? e then Zpos m * 2 ^ e else Zpos m / 2 ^ (- e) in
      if s then - magnitude else magnitude
  | _ => 0
  end.

Definition b32_dec (m e : Z) : spec_float :=
  if 0 <=? e then b32_of_int (m * 10 ^ e)
  else SFdiv prec emax (b32_of_int m) (b32_of_int (10 ^ (- e))).

#[local] Instance binary32 : EngineTypes := {|
  F32 := spec_float;
  ColorF := spec_float * spec_float * spec_float * spec_float;
  Rng := Z;
  NodeGraph := unit;
  Quad := spec_float * spec_float * spec_float;
  f_add := SFadd prec emax;
  f_sub := SFsub prec emax;
  f_mul := SFmul prec emax;
  f_div := SFdiv prec emax;
  f_ltb := SFltb;
  f_leb := SFleb;
  f_eqb := SFeqb;
  f_abs := SFabs;
  f_of_int := b32_of_int;
  f_to_int := b32_to_int;
  f_dec := b32_dec;
  F32_MIN := S754_finite false (2 ^ 23) (-149);
  PDC_NUM_KEYS := 4
|}.

Definition lcg (seed : Z) : Z := (seed * 16807) mod 2147483647.

Definition lerp (a b f : spec_float) : spec_float :=
  f_add (f_mul a (f_sub (f_dec 1 0) f)) (f_mul b f).

Definition blank : Particle :=
  {| pos := p3_zero; vel := p3_zero; acc := p3_zero; orientDir := p3_zero;
     relPos := p3_zero; totalLifetime := 0; dataBlock := None; currentAge := 0;
     color := (f_dec 0 0, f_dec 0 0, f_dec 0 0, f_dec 0 0); size := f_dec 0 0;
     spinSpeed := f_dec 0 0; next := None |}.

Fixpoint insertBy {A} (cmp : A -> A -> Z) (x : A) (l : list A) : list A :=
  match l with
  | [] => [x]
  | y :: l' => if cmp x y <=? 0 then x :: l else y :: insertBy cmp x l'
  end.

#[local] Instance host : EngineHost := {|
  TORQUE_ENABLE_ASSERTS := true;
  randI := fun s => (lcg s, lcg s);
  randF := fun s => (f_div (f_of_int (lcg s)) (f_of_int 2147483647), lcg s);
  mWindVelocity := p3_zero;
  uninitialized := blank;
  defaultNode := NodeNull;
  mCross := fun a b =>
    mkPoint3F (f_sub (f_mul (py a) (pz b)) (f_mul (pz a) (py b)))
              (f_sub (f_mul (pz a) (px b)) (f_mul (px a) (pz b)))
              (f_sub (f_mul (px a) (py b)) (f_mul (py a) (px b)));
  mDot := fun a b =>
    f_add (f_add (f_mul (px a) (px b)) (f_mul (py a) (py b))) (f_mul (pz a) (pz b));
  p3_len := fun a =>
    SFsqrt prec emax
      (f_add (f_add (f_mul (px a) (px a)) (f_mul (py a) (py a))) (f_mul (pz a) (pz a)));
  p3_isZero := fun a =>
    f_eqb (px a) (f_dec 0 0) && f_eqb (py a) (f_dec 0 0) && f_eqb (pz a) (f_dec 0 0);
  normalize := fun a =>
    let len := SFsqrt prec emax
      (f_add (f_add (f_mul (px a) (px a)) (f_mul (py a) (py a))) (f_mul (pz a) (pz a))) in
    if f_eqb len (f_dec 0 0) then a else p3_scale a (f_div (f_dec 1 0) len);
  interpolate := fun a b f =>
    mkPoint3F (lerp (px a) (px b) f) (lerp (py a) (py b) f) (lerp (pz a) (pz b) f);
  angAxisRotate := fun _ _ v => v;
  deg2rad := fun x => f_mul x (f_dec 17453292 (-9));
  colorInterpolate := fun a b f =>
    let '(ar, ag, ab, aa) := a in
    let '(br, bg, bb, ba) := b in
    (lerp ar br f, lerp ag bg f, lerp ab bb f, lerp aa ba f);
  initializeParticle := fun pd p inherit s =>
    ({| pos := pos p; vel := vel p; acc := p3_zero; orientDir := orientDir p;
        relPos := relPos p;
        totalLifetime := u32 (pd_lifetimeMS pd); dataBlock := Some pd;
        currentAge := currentAge p; color := color p; size := size p;
        spinSpeed := f_dec 0 0; next := next p |}, s);
  getTransform := fun _ i =>
    if bool_decide (i = 0 \/ i = 5 \/ i = 10)%nat then f_dec 1 0 else f_dec 0 0;
  evalGraph := fun _ _ => (p3_zero, tt);
  attractionForce := fun _ a => a;
  castRay := fun _ _ => None;
  viewDepth := fun p => py p;
  dQsort := fun cmp l => foldr (insertBy cmp) [] l;
  setupBillboard := fun p => (px (pos p), py (pos p), pz (pos p));
  setupOriented := fun p => (px (pos p), py (pos p), pz (pos p));
  setupAligned := fun p => (px (pos p), py (pos p), pz (pos p))
|}.

(** A visual template of 1000 ms lifetime with keys at 0, 1/3, 2/3, 1. *)
Definition smoke : ParticleData :=
  {| dataBlockId := 1;
     dragCoefficient := f_dec 0 0; windCoefficient := f_dec 0 0;
     gravityCoefficient := f_dec 0 0;
     pd_lifetimeMS := 1000; pd_lifetimeVarianceMS := 0;
     times := fun i => f_div (f_of_int (Z.of_nat i)) (f_of_int 3);
     pd_sizes := fun _ => f_dec 1 0;
     pd_colors := fun _ => (f_dec 1 0, f_dec 1 0, f_dec 1 0, f_dec 1 0) |}.

(** A datablock with the constructor's period of 100 ms and no variance. *)
Definition emitterData (templates : list ParticleData) (advance : bool) : GraphEmitterData :=
  {| ejectionPeriodMS := 100; periodVarianceMS := 0;
     ejectionVelocity := f_dec 2 0; velocityVariance := f_dec 1 0;
     ejectionOffset := f_dec 0 0; thetaMin := f_dec 0 0; thetaMax := f_dec 90 0;
     phiReferenceVel := f_dec 0 0; phiVariance := f_dec 360 0;
     lifetimeMS := 0; lifetimeVarianceMS := 0;
     overrideAdvance := advance; useEmitterSizes := false; useEmitterColors := false;
     sortParticles := false; orientParticles := false; alignParticles := false;
     reverseOrder := false; renderReflection := true;
     particleDataBlocks := templates; partListInitSize := 18 |}.

Definition plainNode : GraphEmitterNode :=
  {| standAloneEmitter := false; sa_ejectionPeriodMS := 0; sa_periodVarianceMS := 0;
     sa_ejectionVelocity := f_dec 0 0; sa_velocityVariance := f_dec 0 0;
     sa_ejectionOffset := f_dec 0 0; sa_thetaMin := f_dec 0 0; sa_thetaMax := f_dec 0 0;
     sa_phiReferenceVel := f_dec 0 0; sa_phiVariance := f_dec 0 0;
     shuttingDown := false; particleProg := f_dec 0 0; funcMax := f_dec 1 0;
     funcMin := f_dec 0 0; timeScale := f_dec 1 0; Loop := true; Reverse := false;
     ProgressMode := byParticleCount; graph := tt |}.

(** The emitter as its constructor leaves it. *)
Definition newEmitter : Emitter :=
  {| part_store := []; part_freelist := None; part_list_head := None;
     n_part_capacity := 0; n_parts := 0; mDead := false; mDeleteWhenEmpty := false;
     mDeleteOnTick := false; mInternalClock := 0; mNextParticleTime := 0;
     mLastPosition := p3_zero; mHasLastPosition := false; mLifetimeMS := 0;
     mElapsedTimeMS := 0; oldTime := 0; parentNodePos := p3_zero; sticky := false;
     sizes := fun _ => f_dec 1 0;
     colors := fun _ => (f_dec 1 0, f_dec 1 0, f_dec 1 0, f_dec 1 0);
     mCurBuffSize := 0; mVertBuff := None; inScene := false |}.

Definition boot (templates : list ParticleData) (advance : bool) : Machine :=
  {| emitter := newEmitter; datablock := emitterData templates advance;
     node := plainNode; gRandGen := 42; console := [] |}.

(** The machine after [onNewDataBlock]. *)
Definition ready (templates : list ParticleData) (advance : bool) : Machine :=
  stateOf (onNewDataBlock (boot templates advance)).

(** The services of [EngineSim]: one datablock is registered, under the
    name smoke and the id 1; tokens and units are split at blanks and
    tabs; one texture exists, smoke.png. *)
Definition isDelim (c : Ascii.ascii) : bool :=
  Ascii.eqb c (Ascii.ascii_of_nat 32) || Ascii.eqb c (Ascii.ascii_of_nat 9).

Fixpoint splitUnits (s : string) (unit_ : string) : list string :=
  match s with
  | EmptyString => [unit_]
  | String c s' =>
      if isDelim c then unit_ :: splitUnits s' EmptyString
      else splitUnits s' (unit_ ++ String c EmptyString)
  end.

Definition tokensOf (s : string) : list string :=
  List.filter (fun t => negb (String.eqb t EmptyString)) (splitUnits s EmptyString).

Definition unitCountOf (s : string) : Z :=
  match s with
  | EmptyString => 0
  | _ =>
      let units := splitUnits s EmptyString in
      if String.eqb (List.last units EmptyString) EmptyString
      then Z.of_nat (length units) - 1 else Z.of_nat (length units)
  end.

#[local] Instance sim : EngineSim := {|
  BlendStyle := Z;
  BlendUndefined := 0;
  BlendNormal := 1;
  BlendAdditive := 2;
  blendIsUndefined := fun b => b =? 0;
  findObjectByName := fun name => if String.eqb name "smoke" then Some smoke else None;
  findObjectById := fun id => if id =? 1 then Some smoke else None;
  pd_textureName := fun _ => "smoke.png"%string;
  pd_useInvAlpha := fun _ => true;
  dStrtok := tokensOf;
  getUnitCount := unitCountOf;
  getUnit := fun s i => nth (Z.to_nat i) (splitUnits s EmptyString) EmptyString;
  loadTexture := fun name => String.eqb name "smoke.png";
  defaultOverrideSize := -1;
  freshIndex := 0;
  c_black := (f_dec 0 0, f_dec 0 0, f_dec 0 0, f_dec 1 0);
  c_add := fun a b =>
    let '(ar, ag, ab, aa) := a in
    let '(br, bg, bb, ba) := b in
    (f_add ar br, f_add ag bg, f_add ab bb, f_add aa ba);
  c_div := fun a f =>
    let '(ar, ag, ab, aa) := a in
    (f_div ar f, f_div ag f, f_div ab f, f_div aa f)
|}.

(** The members of a datablock whose particles field names [str]. *)
Definition members (str : option string) (ids : list Z) : DataMembers :=
  {| softnessDistance := f_dec 1 0; particleString := str; dataBlockIds := ids;
     textureName := None; textureHandle := false; blendStyle := 0; dataLog := [] |}.

End Sample.

(** * Specification

    What the properties of the emitter are stated with: walks over the
    intrusive lists, the pool invariant, the outcomes of a computation,
    the views of a machine that a computation leaves alone. *)

Section Links.

Implicit Types (ns : list (option nat)) (p q : option nat) (l : list nat).

(** [lsegTo ns p l q]: following the links from [p] visits the slots [l]
    and arrives at [q]. *)
Fixpoint lsegTo ns p l q : Prop :=
  match l with
  | [] => p = q
  | i :: l' => p = Some i /\ exists n, ns !! i = Some n /\ lsegTo ns n l' q
  end.

Definition lseg ns p l : Prop := lsegTo ns p l None.

(** The walk the code performs, cut off after [fuel] steps. *)
Fixpoint listFrom (fuel : nat) ns p : option (list nat) :=
  match p with
  | None => Some []
  | Some i =>
      match fuel with
      | O => None
      | S fuel' =>
          match ns !! i with
          | None => None
          | Some n => cons i <$> listFrom fuel' ns n
          end
      end
  end.

Definition shape ns (hd fl : option nat) (live free : list nat) : Prop :=
  lseg ns hd live /\ lseg ns fl free /\ NoDup (live ++ free) /\
  length ns = (length live + length free)%nat.

End Links.

Section Specification.

Context {ET : EngineTypes} {EH : EngineHost}.

(** [wp c m QD QC QF]: the outcome of [c] from [m] satisfies [QD] if it
    is a return, [QC] if it is a fault, [QF] if the steps ran out. *)
Definition wp {A} (c : M A) (m : Machine)
    (QD : A -> Machine -> Prop) (QC : Fault -> Machine -> Prop) (QF : Machine -> Prop)
    : Prop :=
  match c m with
  | Done a m' => QD a m'
  | Crash f m' => QC f m'
  | OutOfFuel m' => QF m'
  end.

(** Every outcome of [c], whatever its kind, is [R]-related to the start. *)
Definition steps {A} (R : Machine -> Machine -> Prop) (c : M A) : Prop :=
  forall m, R m (stateOf (c m)).

(** Two machines with the same view. *)
Definition viewEq {V} (view : Machine -> V) (m m' : Machine) : Prop := view m' = view m.

(** The shape of the pool: every link, the two list heads, the counters. *)
Definition linksView (m : Machine) :=
  (map next (part_store (emitter m)), part_freelist (emitter m),
   part_list_head (emitter m), n_parts (emitter m), n_part_capacity (emitter m)).

Definition nodeConfig (n : GraphEmitterNode) :=
  (standAloneEmitter n, sa_ejectionPeriodMS n, sa_periodVarianceMS n,
   (sa_ejectionVelocity n, sa_velocityVariance n, sa_ejectionOffset n),
   (sa_thetaMin n, sa_thetaMax n, sa_phiReferenceVel n, sa_phiVariance n),
   shuttingDown n, (funcMax n, funcMin n, timeScale n), (Loop n, Reverse n, ProgressMode n)).

(** What scheduling reads: clocks, flags, the template, the node's settings. *)
Definition schedView (m : Machine) :=
  (mDead (emitter m), mDeleteWhenEmpty (emitter m), mDeleteOnTick (emitter m),
   (mInternalClock (emitter m), mNextParticleTime (emitter m)),
   (mLastPosition (emitter m), mHasLastPosition (emitter m)),
   (mLifetimeMS (emitter m), mElapsedTimeMS (emitter m)),
   (sticky (emitter m), sizes (emitter m), colors (emitter m)),
   (mCurBuffSize (emitter m), mVertBuff (emitter m), inScene (emitter m)),
   set_partListInitSize 0 (datablock m), nodeConfig (node m)).

(** The positions of the calls of addParticle, in their order. *)
Definition spawnsOf (l : list Event) : list Point3F :=
  omap (fun e => match e with EvSpawn p => Some p | _ => None end) l.

Definition isSpawn (e : Event) : bool :=
  match e with EvSpawn _ => true | _ => false end.

Definition spawnView (m : Machine) := spawnsOf (console m).

(** The age of every slot. *)
Definition agesView (m : Machine) := map currentAge (part_store (emitter m)).

Definition bodyView (m : Machine) := (linksView m, schedView m, spawnView m).

Definition sideView (m : Machine) := (schedView m, spawnView m).

(** Everything outside the pool. *)
Definition hostView (m : Machine) :=
  (schedView m, (oldTime (emitter m), parentNodePos (emitter m)),
   datablock m, node m, gRandGen m, console m).

(** The pool's shape with everything outside the pool: what a pass over
    the payloads leaves alone. *)
Definition poolView (m : Machine) := (linksView m, hostView m).

(** The link of every slot. *)
Definition nexts (m : Machine) : list (option nat) := map next (part_store (emitter m)).

(** The pool of [m] is well formed with live list [live] and free list
    [free]: the two lists are walks from the two heads, they share no slot
    and repeat none, together they are all the slots, and the two counters
    are their lengths. *)
Definition pool_at (m : Machine) (live free : list nat) : Prop :=
  shape (nexts m) (part_list_head (emitter m)) (part_freelist (emitter m)) live free /\
  n_parts (emitter m) = Z.of_nat (length live) /\
  n_part_capacity (emitter m) = Z.of_nat (length live + length free).

Definition pool_inv (m : Machine) : Prop := exists live free, pool_at m live free.

(** [never bad fuel c]: [c] never ends in a fault that [bad] selects and,
    unless [fuel] allows it, never runs out of fuel. *)
Definition never (bad : Fault -> bool) (fuel : bool) {A} (c : M A) : Prop :=
  forall m, match c m with
            | Done _ _ => True
            | Crash f _ => bad f = false
            | OutOfFuel _ => fuel = true
            end.

(** Straight-line code does not run out of fuel. *)
Definition fueled {A} (c : M A) : Prop := never (fun _ => false) false c.

(** The faults that are failed assertions. *)
Definition isAssert (f : Fault) : bool :=
  match f with AssertFatal _ => true | _ => false end.

(** What one call of addParticle at [pos] has done to a pool with live
    list [live]. *)
Definition spawned (pos : Point3F) (live : list nat) (m : Machine) (m' : Machine) : Prop :=
  (exists i free', pool_at m' (i :: live) free' /\ part_list_head (emitter m') = Some i) /\
  schedView m' = schedView m /\
  spawnView m' = spawnView m ++ [pos].

(** A particle without its link. *)
Definition payload (x : Particle) : Particle := set_next None x.

(** [part->currentAge += ms] *)
Definition ageBy (ms : Z) (x : Particle) : Particle :=
  set_currentAge (u32 (currentAge x + ms)) x.

(** The eviction test on the aged particle: [currentAge > totalLifetime]. *)
Definition expires (ms : Z) (x : Particle) : bool :=
  u32 (currentAge x + ms) >? totalLifetime x.

(** The eviction test on slot [i] of the store [st]. *)
Definition expiresAt (st : list Particle) (ms : Z) (i : nat) : bool :=
  match st !! i with Some x => expires ms x | None => false end.

(** [st'] is [st] with the payload of every slot [k] changed by [g k]. *)
Definition ptw (g : nat -> Particle -> Particle) (st st' : list Particle) : Prop :=
  length st' = length st /\
  forall k x, st !! k = Some x -> exists y, st' !! k = Some y /\ payload y = payload (g k x).

(** [h] does not read the links. *)
Definition respectful (h : nat -> Particle -> Particle) : Prop :=
  forall k a b, payload a = payload b -> payload (h k a) = payload (h k b).

(** The machine with slot [i] overwritten by [y]. *)
Definition putSlot (i : nat) (y : Particle) (m : Machine) : Machine :=
  set_emitter (set_part_store (<[i := y]> (part_store (emitter m))) (emitter m)) m.

(** [last_part] after the walk has kept the slots [done]. *)
Definition lastRef (done : list nat) : PartRef :=
  match last done with None => ListHead | Some j => Slot j end.

(** The slots of [rest] aged by [ms], the others as they are. *)
Definition agedSlots (ms : Z) (rest : list nat) (k : nat) (x : Particle) : Particle :=
  if bool_decide (k ∈ rest) then ageBy ms x else x.

(** What the walk over [rest] achieves, started after the kept prefix [done]. *)
Record evicted (ms : Z) (rest done free : list nat) (m m' : Machine) : Prop := {
  ev_shape :
    shape (nexts m') (part_list_head (emitter m')) (part_freelist (emitter m'))
      (done ++ List.filter (fun i => negb (expiresAt (part_store (emitter m)) ms i)) rest)
      (rev (List.filter (expiresAt (part_store (emitter m)) ms) rest) ++ free);
  ev_count :
    n_parts (emitter m') =
    n_parts (emitter m)
    - Z.of_nat (length (List.filter (expiresAt (part_store (emitter m)) ms) rest));
  ev_cap : n_part_capacity (emitter m') = n_part_capacity (emitter m);
  ev_host : hostView m' = hostView m;
  ev_store : ptw (agedSlots ms rest) (part_store (emitter m)) (part_store (emitter m'))
}.

(** A slot keeps its age; its lifetime is kept or raised from below 1 to 1. *)
Definition lifeRel (a b : Z) : Prop := b = a \/ (a < 1 /\ b = 1).

(** The same age, and a lifetime related by [lifeRel]. *)
Definition slotRel (x y : Particle) : Prop :=
  currentAge y = currentAge x /\ lifeRel (totalLifetime x) (totalLifetime y).

(** Slot by slot, [m'] has the ages of [m]. *)
Definition agesKept (m m' : Machine) : Prop :=
  Forall2 slotRel (part_store (emitter m)) (part_store (emitter m')).

(** The outcome of a walk that was cut off. *)
Definition ranOut {A} (o : Outcome A) : Prop :=
  match o with OutOfFuel _ => True | _ => False end.

(** The store after a pass of [ms] milliseconds over the slots [live]. *)
Definition agedStore (ms : Z) (live : list nat) (st st' : list Particle) : Prop :=
  length st' = length st /\
  forall k x, st !! k = Some x ->
    exists z, st' !! k = Some z /\
      currentAge z = (if bool_decide (k ∈ live) then u32 (currentAge x + ms) else currentAge x) /\
      lifeRel (totalLifetime x) (totalLifetime z).

(** The live slots that a pass of [ms] milliseconds keeps, and those it
    evicts. *)
Definition keptOf (m : Machine) (ms : Z) (live : list nat) : list nat :=
  List.filter (fun i => negb (expiresAt (part_store (emitter m)) ms i)) live.

Definition goneOf (m : Machine) (ms : Z) (live : list nat) : list nat :=
  List.filter (expiresAt (part_store (emitter m)) ms) live.

(** The period the loop draws when the variance is zero. *)
Definition periodOf (m : Machine) : Z :=
  if standAloneEmitter (node m) then sa_ejectionPeriodMS (node m)
  else ejectionPeriodMS (datablock m).

(** The period variance the loop reads. *)
Definition varianceOf (m : Machine) : Z :=
  if standAloneEmitter (node m) then sa_periodVarianceMS (node m)
  else periodVarianceMS (datablock m).

(** The number of calls of addParticle so far. *)
Definition spawnCount (m : Machine) : Z := Z.of_nat (length (spawnView m)).

(** What decides whether and how often the scheduler spawns. *)
Definition configView (m : Machine) :=
  (mDead (emitter m), (mLifetimeMS (emitter m), mElapsedTimeMS (emitter m)),
   set_partListInitSize 0 (datablock m), nodeConfig (node m)).

Definition tailView (m : Machine) :=
  (spawnView m, mNextParticleTime (emitter m), configView m).

Definition pendingAfter (D P r : Z) : Z :=
  if (D - r) mod P =? 0 then 0 else P - (D - r) mod P.

(** [keeps c]: whenever [c] returns from a machine with a well-formed
    pool, the pool is well formed again. *)
Definition keeps {A} (c : M A) : Prop :=
  forall m, pool_inv m ->
    wp c m (fun _ m' => pool_inv m') (fun _ _ => True) (fun _ => True).

Inductive Call :=
  | CallAddParticle (pos axis vel axisx : Point3F)
  | CallAddParticleNode (pos axis vel axisx : Point3F) (nodeDat : NodePtr)
  | CallEmitParticles (fuel : nat) (start end_ axis velocity : Point3F)
      (numMilliseconds : Z) (nodeArg : NodePtr)
  | CallEmitParticlesPoint (fuel : nat) (point : Point3F) (useLastPosition : bool)
      (axis velocity : Point3F) (numMilliseconds : Z)
  | CallEmitParticlesHemisphere (rCenter rNormal : Point3F) (radius : F32)
      (velocity : Point3F) (count : Z)
  | CallAdvanceTime (dt : F32)
  | CallPrepRenderImage (isReflectPass isShadowPass : bool).

Definition call (c : Call) : M unit :=
  match c with
  | CallAddParticle pos axis vel axisx => addParticle pos axis vel axisx
  | CallAddParticleNode pos axis vel axisx n => addParticle_node pos axis vel axisx n
  | CallEmitParticles fuel s e a v ms n => emitParticles fuel s e a v ms n
  | CallEmitParticlesPoint fuel p u a v ms => emitParticles_point fuel p u a v ms
  | CallEmitParticlesHemisphere c n r v k => emitParticles_hemisphere c n r v k
  | CallAdvanceTime dt => advanceTime dt
  | CallPrepRenderImage r s => prepRenderImage r s
  end.

Definition session (cs : list Call) : M unit := forEach cs call.

(** A decision procedure for the pool invariant. *)
Definition pool_ok (m : Machine) : bool :=
  let e := emitter m in
  let fuel := length (part_store e) in
  match listFrom fuel (nexts m) (part_list_head e), listFrom fuel (nexts m) (part_freelist e) with
  | Some live, Some free =>
      bool_decide (NoDup (live ++ free)) &&
      (length (part_store e) =? length live + length free)%nat &&
      (n_parts e =? Z.of_nat (length live)) &&
      (n_part_capacity e =? Z.of_nat (length live + length free))
  | _, _ => false
  end.

Definition logged (ev : Event) (m : Machine) : Machine :=
  set_console (console m ++ [ev]) m.

(** The delta after [if (dt > 0.5) dt = 0.5]. *)
Definition clampDt (dt : F32) : F32 :=
  if f_ltb (f_dec 5 (-1)) dt then f_dec 5 (-1) else dt.

(** [numMSToUpdate] of a call with delta [dt]. *)
Definition msOf (dt : F32) : Z := u32 (f_to_int (f_mul (clampDt dt) (f_dec 1000 0))).

(** The machine when the ageing pass starts: the parent's advanceTime has
    run and the elapsed time has been advanced. *)
Definition ticked (dt : F32) (m : Machine) : Machine :=
  let m1 := logged (EvParentAdvanceTime dt) m in
  set_emitter
    (set_mElapsedTimeMS
       (s32 (mElapsedTimeMS (emitter m1)
             + s32 (f_to_int (f_mul (clampDt dt) (f_dec 1000 0))))) (emitter m1)) m1.

(** The emitter after a call that defers its pending spawn. *)
Definition deferred (D : Z) (end_ : Point3F) (m : Machine) : Machine :=
  set_emitter
    (set_mHasLastPosition true
       (set_mLastPosition end_
          (set_mInternalClock (u32 (mInternalClock (emitter m) + D))
             (set_mNextParticleTime (mNextParticleTime (emitter m) - D) (emitter m))))) m.

(** The test [t <= 1.0f] of updateKeyData on a slot with the age and the
    lifetime of [x]; the lifetime is first raised to 1 if it is below. *)
Definition keyOK (x : Particle) : bool :=
  f_leb (f_div (f_of_int (currentAge x)) (f_of_int (Z.max 1 (totalLifetime x)))) (f_dec 1 0).

(** The test holds for every slot of [live] other than [i] that the pass
    of [ms] milliseconds keeps. *)
Definition othersOK (ms : Z) (st : list Particle) (i : nat) (live : list nat) : bool :=
  forallb (fun j =>
             (j =? i)%nat ||
             match st !! j with
             | Some y => expires ms y || keyOK (ageBy ms y)
             | None => true
             end) live.

Definition noAssert {A} (o : Outcome A) : Prop :=
  match o with Crash (AssertFatal _) _ => False | _ => True end.

(** [careful m1 c]: from a store with the ages of [m1], [c] ends without
    a failed assertion, and when it returns the ages are those of [m1]. *)
Definition careful (m1 : Machine) {A} (c : M A) : Prop :=
  forall m, agesKept m1 m ->
    wp c m (fun _ m' => agesKept m1 m') (fun f _ => isAssert f = false) (fun _ => False).

(** The template list and the count of live particles. *)
Definition tplView (m : Machine) := (particleDataBlocks (datablock m), n_parts (emitter m)).

(** [dooms c]: with no template, [c] ends in a fault, and the template
    list and the count are those of the start. *)
Definition dooms {A} (c : M A) : Prop :=
  forall m, particleDataBlocks (datablock m) = [] ->
    wp c m (fun _ _ => False) (fun _ m' => tplView m' = tplView m) (fun _ => False).

(** [doomed c]: with no template, [c] ends in a fault with the count of
    live particles grown by one. *)
Definition doomed {A} (c : M A) : Prop :=
  forall m, particleDataBlocks (datablock m) = [] ->
    wp c m (fun _ _ => False)
       (fun _ m' => n_parts (emitter m') = n_parts (emitter m) + 1) (fun _ => False).

(** The pool after the newest particle [x], in slot [i], has been
    collapsed (lines 1110-1113). *)
Definition collapsed (i : nat) (x : Particle) (m : Machine) : Machine :=
  let e := emitter m in
  set_emitter
    (set_part_freelist (Some i)
       (set_part_store (<[i := set_next (part_freelist e) x]> (part_store e))
          (set_n_parts (n_parts e - 1) (set_part_list_head (next x) e)))) m.

(** The particle [x] after the forward integration by [ms] milliseconds
    (lines 1119-1127): acceleration, then velocity, then position. *)
Definition integrated (ms : Z) (pd : ParticleData) (x : Particle) : Particle :=
  let t := f_div (f_of_int ms) (f_dec 1000 0) in
  let x1 := set_vel (p3_add (vel x) (p3_scale (acceleration x pd) t)) x in
  set_pos (p3_add (pos x1) (p3_scale (vel x1) t)) x1.

(** What only the tail of a call may change. *)
Definition storeView (m : Machine) := (part_store (emitter m), linksView m).

Definition isDone {A} (o : Outcome A) : bool :=
  match o with Done _ _ => true | _ => false end.

(** The two lists of a machine, by walking them. *)
Definition liveOf (m : Machine) : list nat :=
  default [] (listFrom (length (part_store (emitter m))) (nexts m)
                (part_list_head (emitter m))).

Definition freeOf (m : Machine) : list nat :=
  default [] (listFrom (length (part_store (emitter m))) (nexts m)
                (part_freelist (emitter m))).

Definition clockView (m : Machine) := mInternalClock (emitter m).

(** The two assertions of the period loop (lines 1077 and 1083). *)
Definition schedulerAssert (f : Fault) : bool :=
  match f with
  | AssertFatal msg =>
      String.eqb msg "Error, next particle ejection time must always be greater than 0"
      || String.eqb msg "Error, should not have deferred this particle!"
  | _ => false
  end.

(** The point of the segment that the loop computes for the time [t] of a
    call of duration [D] (lines 1047 and 1092). *)
Definition spawnAt (start end_ : Point3F) (D t : Z) : Point3F :=
  interpolate start end_ (f_div (f_of_int t) (f_of_int D)).

(** The points at the times [c + P], [c + 2 P], ... up to [D]. *)
Definition spawnsFrom (start end_ : Point3F) (D P c : Z) : list Point3F :=
  map (fun k => spawnAt start end_ D (c + Z.of_nat k * P))
      (seq 1 (Z.to_nat ((D - c) / P))).

(** Every slot but slot [i], and the datablock. *)
Definition exceptView (i : nat) (m : Machine) :=
  (<[i := uninitialized]> (part_store (emitter m)), datablock m).

(** The slots below [base], the number of slots, and what a new block
    of slots does not touch. *)
Definition prefixView (base : nat) (m : Machine) :=
  (take base (part_store (emitter m)), length (part_store (emitter m)),
   n_part_capacity (emitter m), datablock m, console m).

(** The machine with the delete-on-tick mark cleared. *)
Definition unmarked (m : Machine) : Machine :=
  set_emitter (set_mDeleteOnTick false (emitter m)) m.

Definition hemiView (m : Machine) :=
  (linksView m, mInternalClock (emitter m), mNextParticleTime (emitter m), spawnView m).

(** The particles in the slots [l], in the order of [l]. *)
Definition particlesOf (m : Machine) (l : list nat) : list Particle :=
  omap (fun i => part_store (emitter m) !! i) l.


(** The longest life of a particle of template [p], as the U32 that
    allocPrimBuffer computes. *)
Definition lifeOf (p : ParticleData) : Z := u32 (pd_lifetimeMS p + pd_lifetimeVarianceMS p).

(** Every field of a slot but its colour and its size. *)
Definition keyRel (x y : Particle) : Prop :=
  pos y = pos x /\ vel y = vel x /\ acc y = acc x /\ orientDir y = orientDir x /\
  relPos y = relPos x /\ totalLifetime y = totalLifetime x /\ dataBlock y = dataBlock x /\
  currentAge y = currentAge x /\ spinSpeed y = spinSpeed x /\ next y = next x.

Definition keysOnly (m m' : Machine) : Prop :=
  Forall2 keyRel (part_store (emitter m)) (part_store (emitter m')).

End Specification.

Section LoadingSpecification.

Context {ET : EngineTypes} {EH : EngineHost} {ES : EngineSim}.

(** The fields of the datablock that are not single precision numbers. *)
Definition countsOf (d : GraphEmitterData) :=
  (ejectionPeriodMS d, periodVarianceMS d, lifetimeMS d, lifetimeVarianceMS d,
   particleDataBlocks d, partListInitSize d).

(** The fields of the datablock that the validation of the period and of
    the lifetime leaves alone. *)
Definition restOf (d : GraphEmitterData) :=
  (particleDataBlocks d, partListInitSize d,
   (overrideAdvance d, useEmitterSizes d, useEmitterColors d),
   (sortParticles d, orientParticles d, alignParticles d, reverseOrder d, renderReflection d)).

(** The members that say where the templates come from. *)
Definition sourcesOf (x : DataMembers) :=
  (particleString x, dataBlockIds x, textureName x, textureHandle x, blendStyle x).

(** The templates that the names of the particles field resolve to. *)
Definition namedParticles (x : DataMembers) : list ParticleData :=
  match particleString x with
  | Some str => omap findObjectByName (dStrtok str)
  | None => []
  end.

(** Whether GraphEmitterData::onAdd accepts the datablock. *)
Definition accepted (x : DataMembers) : bool :=
  match particleString x with
  | None => negb (bool_decide (dataBlockIds x = []))
  | Some str =>
      negb (String.eqb str EmptyString) && (Z.of_nat (String.length str) <=? 255)
      && negb (bool_decide (namedParticles x = []))
  end.

Definition loadView (s : GraphEmitterData * DataMembers) := (countsOf (fst s), sourcesOf (snd s)).

(** The units of the particles field that reload looks up: none without a
    string or with the empty string. *)
Definition reloadNames (x : DataMembers) : list string :=
  match particleString x with
  | Some str =>
      if String.eqb str EmptyString then []
      else map (fun i => getUnit str (Z.of_nat i)) (seq 0 (Z.to_nat (u32 (getUnitCount str))))
  | None => []
  end.

(** Whether preload gets past the texture on a client: no texture is
    named, or the named texture loads. *)
Definition textureOk (x : DataMembers) : bool :=
  match textureName x with
  | Some name => String.eqb name EmptyString || loadTexture name
  | None => true
  end.

(** The corners of a quad in the order of lines 658-663. *)
Definition quadOrder : list Z := [0; 1; 3; 1; 3; 2].

(** The indices of the quads of [n] particles, as 16 bit numbers. *)
Definition quadIndices (n : nat) : list Z :=
  flat_map (fun i => map (fun c => u16 (c + 4 * Z.of_nat i)) quadOrder) (seq 0 n).

(** The last quad that starts below 2^32: its last index does not. *)
Definition lastQuad : Z := 715827882.

End LoadingSpecification.

(** ** Concrete machines *)

Module Scenario.
Import Sample.
#[local] Existing Instance binary32.
#[local] Existing Instance host.

Definition origin : Point3F := p3_zero.
Definition ex : Point3F := mkPoint3F (f_dec 1 0) (f_dec 0 0) (f_dec 0 0).
Definition ez : Point3F := mkPoint3F (f_dec 0 0) (f_dec 0 0) (f_dec 1 0).

(** An emitter with that datablock, bound to one template, its pool
    created. *)
Definition fresh : Machine := ready [smoke] false.

(** 250 ms along the x axis, then 100 ms more. *)
Definition first : Machine := stateOf (emitParticles 8 origin ex ez origin 250 NodeObj fresh).
Definition second : Machine := stateOf (emitParticles 8 ex origin ez origin 100 NodeObj first).

(** The three particles at half of their lifetime. *)
Definition halfway : Machine := stateOf (advanceTime (f_dec 12 (-1)) second).

Definition boxed : Machine :=
  set_emitter (set_mElapsedTimeMS 1500 (set_mLifetimeMS 1000 (emitter second))) second.

Definition dead : Machine := set_emitter (set_mDead true (emitter second)) second.

(** No template bound. *)
Definition bare : Machine := ready [] false.

(** One more particle among the three, and half a second later: three
    particles at the end of their lifetime, one at half of it. *)
Definition mixed : Machine :=
  stateOf (advanceTime (f_dec 5 (-1))
             (stateOf (addParticle_node origin ez origin ex NodeObj halfway))).

Definition half : F32 := f_dec 5 (-1).

Definition samePos (a b : option Particle) : bool :=
  match a, b with
  | Some x, Some y =>
      f_eqb (px (pos x)) (px (pos y)) && f_eqb (py (pos x)) (py (pos y))
      && f_eqb (pz (pos x)) (pz (pos y))
  | _, _ => false
  end.

Definition demo : list Call :=
  [CallEmitParticles 8 origin ex ez origin 250 NodeObj;
   CallEmitParticlesHemisphere origin ez (f_dec 1 0) origin 20;
   CallAdvanceTime (f_dec 12 (-1));
   CallPrepRenderImage false false;
   CallEmitParticles 8 ex origin ez origin 100 NodeObj;
   CallAdvanceTime (f_dec 5 (-1));
   CallAddParticle origin ez origin ex;
   CallAdvanceTime (f_dec 5 (-1))].

End Scenario.

Module Scenario2.
Import Sample.
Import Scenario.
#[local] Existing Instance binary32.
#[local] Existing Instance host.
#[local] Existing Instance sim.

(** The emitter before onNewDataBlock. *)
Definition unbound : Machine := boot [smoke] false.

(** A period of 100 ms that varies by up to 20 ms. *)
Definition varied : Machine := set_datablock (set_periodVarianceMS 20 (datablock fresh)) fresh.

(** The node while it shuts down. *)
Definition closingNode : GraphEmitterNode :=
  {| standAloneEmitter := false; sa_ejectionPeriodMS := 0; sa_periodVarianceMS := 0;
     sa_ejectionVelocity := f_dec 0 0; sa_velocityVariance := f_dec 0 0;
     sa_ejectionOffset := f_dec 0 0; sa_thetaMin := f_dec 0 0; sa_thetaMax := f_dec 0 0;
     sa_phiReferenceVel := f_dec 0 0; sa_phiVariance := f_dec 0 0;
     shuttingDown := true; particleProg := f_dec 0 0; funcMax := f_dec 1 0;
     funcMin := f_dec 0 0; timeScale := f_dec 1 0; Loop := true; Reverse := false;
     ProgressMode := byParticleCount; graph := tt |}.

Definition closing : Machine := set_node closingNode second.

(** A datablock with a period of 0 ms and a variance of 5 ms. *)
Definition sloppy : Machine :=
  set_datablock (set_periodVarianceMS 5 (set_ejectionPeriodMS 0 (datablock fresh))) fresh.

(** The templates of [fresh], bound to the datablocks [found]. *)
Definition bound (found : list ParticleData) : Machine :=
  set_datablock (set_particleDataBlocks found (datablock fresh)) fresh.

(** Members that name a texture that does not exist. *)
Definition fogged : DataMembers :=
  {| softnessDistance := f_dec 1 0; particleString := None; dataBlockIds := [1];
     textureName := Some "fog.png"%string; textureHandle := false; blendStyle := 0;
     dataLog := [] |}.

(** A registered object. *)
Definition registered : SimFlags :=
  {| isProperlyAdded := true; isDeleted := false; isRemoved := false |}.

(** The three particles at the end of their lifetime. *)
Definition aged : Machine := stateOf (advanceTime half halfway).

End Scenario2.

(** * Proofs *)

Section LinkFacts.

Implicit Types (ns : list (option nat)) (p q : option nat) (l : list nat).

Lemma lsegTo_app ns p l1 l2 q :
  lsegTo ns p (l1 ++ l2) q <-> exists r, lsegTo ns p l1 r /\ lsegTo ns r l2 q.
Proof.
  revert p. induction l1 as [|i l1 IH]; intros p; simpl.
  - split; [intros H; exists p; auto | intros (r & -> & H); exact H].
  - split.
    + intros (-> & n & Hn & H). apply IH in H as (r & H1 & H2).
      exists r. eauto 6.
    + intros (r & (-> & n & Hn & H1) & H2). split; [reflexivity|].
      exists n. split; [exact Hn|]. apply IH. eauto.
Qed.

Lemma lsegTo_frame ns p l q i v :
  i ∉ l -> lsegTo ns p l q -> lsegTo (<[i := v]> ns) p l q.
Proof.
  revert p. induction l as [|j l IH]; intros p Hi; simpl; [auto|].
  intros (-> & n & Hn & H). split; [reflexivity|]. exists n.
  apply not_elem_of_cons in Hi as [Hij Hi].
  split; [rewrite list_lookup_insert_ne by congruence; exact Hn | auto].
Qed.

Lemma lsegTo_grow ns ns' p l q :
  lsegTo ns p l q -> lsegTo (ns ++ ns') p l q.
Proof.
  revert p. induction l as [|j l IH]; intros p; simpl; [auto|].
  intros (-> & n & Hn & H). split; [reflexivity|]. exists n.
  split; [apply lookup_app_l_Some; exact Hn | auto].
Qed.

Lemma lsegTo_bound ns p l q i : lsegTo ns p l q -> i ∈ l -> (i < length ns)%nat.
Proof.
  revert p. induction l as [|j l IH]; intros p; simpl; [intros _ H; inversion H|].
  intros (-> & n & Hn & H) Hi. apply elem_of_cons in Hi as [->|Hi].
  - eapply lookup_lt_Some; eauto.
  - eauto.
Qed.

Lemma lseg_functional ns p l1 l2 : lseg ns p l1 -> lseg ns p l2 -> l1 = l2.
Proof.
  unfold lseg. revert p l2. induction l1 as [|i l1 IH]; intros p [|j l2]; simpl; auto.
  - intros -> [? _]. discriminate.
  - intros [-> _] ?. discriminate.
  - intros (-> & n & Hn & H1) (E & n' & Hn' & H2). injection E as <-.
    rewrite Hn in Hn'. injection Hn' as <-. f_equal. eauto.
Qed.

Lemma listFrom_lseg fuel ns p l : listFrom fuel ns p = Some l -> lseg ns p l.
Proof.
  unfold lseg. revert p l. induction fuel as [|fuel IH]; intros [i|] l; simpl;
    try discriminate; try (intros [= <-]; reflexivity).
  destruct (ns !! i) as [n|] eqn:E; [|discriminate].
  destruct (listFrom fuel ns n) as [l'|] eqn:E'; [|discriminate].
  intros [= <-]. simpl. eauto.
Qed.

Lemma lseg_listFrom fuel ns p l :
  lseg ns p l -> (length l <= fuel)%nat -> listFrom fuel ns p = Some l.
Proof.
  unfold lseg. revert p fuel. induction l as [|i l IH]; intros p fuel; simpl.
  - intros -> _. destruct fuel; reflexivity.
  - intros (-> & n & Hn & H) Hf. destruct fuel as [|fuel]; [lia|]. simpl.
    rewrite Hn. rewrite (IH n fuel H) by lia. reflexivity.
Qed.

(** ** The pool: a live list and a free list that share the slots *)

Lemma NoDup_length_le l (n : nat) :
  NoDup l -> (forall i, i ∈ l -> (i < n)%nat) -> (length l <= n)%nat.
Proof.
  intros Hnd Hb.
  assert (l ⊆+ seq 0 n) as Hs.
  { apply NoDup_submseteq; [exact Hnd|]. intros i Hi. apply elem_of_seq. split; [lia|].
    simpl. auto. }
  apply submseteq_length in Hs. rewrite length_seq in Hs. exact Hs.
Qed.

Lemma shape_live_fuel ns hd fl live free :
  shape ns hd fl live free -> (length live <= length ns)%nat /\ (length free <= length ns)%nat.
Proof. intros (_ & _ & _ & ->). lia. Qed.

(** Pop the head of one list and push it on the other. *)
Lemma shape_transfer ns hd i nx src dst :
  lseg ns (Some i) (i :: src) -> ns !! i = Some nx -> lseg ns hd dst ->
  NoDup ((i :: src) ++ dst) ->
  lseg (<[i := hd]> ns) nx src /\ lseg (<[i := hd]> ns) (Some i) (i :: dst).
Proof.
  unfold lseg. simpl. intros (_ & n & Hn & Hs) Hnx Hd Hnd.
  rewrite Hn in Hnx. injection Hnx as ->.
  apply NoDup_cons in Hnd as [Hi Hnd].
  apply not_elem_of_app in Hi as [His Hid].
  split.
  - apply lsegTo_frame; auto.
  - split; [reflexivity|]. exists hd. split.
    + apply list_lookup_insert_eq. eapply lookup_lt_Some; eauto.
    + apply lsegTo_frame; auto.
Qed.

Lemma shape_take ns hd i live free nx :
  shape ns hd (Some i) live (i :: free) -> ns !! i = Some nx ->
  shape (<[i := hd]> ns) (Some i) nx (i :: live) free.
Proof.
  intros (Hl & Hf & Hnd & Hlen) Hnx.
  assert (NoDup ((i :: free) ++ live)) as Hnd'.
  { eapply NoDup_Permutation_proper; [|exact Hnd]. apply Permutation_app_comm. }
  destruct (shape_transfer ns hd i nx free live Hf Hnx Hl Hnd') as [H1 H2].
  split; [exact H2 | split; [exact H1 | split]].
  - eapply NoDup_Permutation_proper; [|exact Hnd].
    simpl. rewrite <- Permutation_middle. reflexivity.
  - rewrite length_insert. simpl in *. lia.
Qed.

Lemma shape_release ns fl i live free nx :
  shape ns (Some i) fl (i :: live) free -> ns !! i = Some nx ->
  shape (<[i := fl]> ns) nx (Some i) live (i :: free).
Proof.
  intros (Hl & Hf & Hnd & Hlen) Hnx.
  destruct (shape_transfer ns fl i nx live free Hl Hnx Hf Hnd) as [H1 H2].
  split; [exact H1 | split; [exact H2 | split]].
  - eapply NoDup_Permutation_proper; [|exact Hnd].
    simpl. rewrite <- Permutation_middle. reflexivity.
  - rewrite length_insert. simpl in *. lia.
Qed.

End LinkFacts.

Section Proofs.

Context {ET : EngineTypes} {EH : EngineHost}.

Arguments deref : simpl never.

Arguments store : simpl never.

Arguments bind : simpl never.

Arguments ret : simpl never.

Arguments crash : simpl never.

Arguments outOfFuel : simpl never.

Arguments getE : simpl never.

Arguments getD : simpl never.

Arguments getN : simpl never.

Arguments modE : simpl never.

Arguments modD : simpl never.

Arguments modN : simpl never.

Arguments emit : simpl never.

Arguments rand_I : simpl never.

Arguments rand_F : simpl never.

Arguments assertFatal : simpl never.

Arguments derefNode : simpl never.

Arguments when : simpl never.

Arguments u32 : simpl never.

Arguments s32 : simpl never.

(** ** Outcomes *)

#[local] Instance viewEq_preorder {V} (view : Machine -> V) : PreOrder (viewEq view).
Proof. split; unfold viewEq; [intros m; reflexivity | intros a b c H1 H2; congruence]. Qed.

Section Steps.

Context (R : Machine -> Machine -> Prop) {HR : PreOrder R}.

Lemma steps_ret {A} (a : A) : steps R (ret a).
Proof. intros m. reflexivity. Qed.

Lemma steps_bind {A B} (c : M A) (k : A -> M B) :
  steps R c -> (forall a, steps R (k a)) -> steps R (bind c k).
Proof.
  intros Hc Hk m. unfold bind. specialize (Hc m).
  destruct (c m) as [a m'| |]; simpl in *; auto.
  etransitivity; [exact Hc | apply Hk].
Qed.

Lemma steps_crash {A} f : steps R (@crash _ A f).
Proof. intros m. reflexivity. Qed.

Lemma steps_outOfFuel {A} : steps R (@outOfFuel _ A).
Proof. intros m. reflexivity. Qed.

Lemma steps_getE : steps R getE.
Proof. intros m. reflexivity. Qed.

Lemma steps_getD : steps R getD.
Proof. intros m. reflexivity. Qed.

Lemma steps_getN : steps R getN.
Proof. intros m. reflexivity. Qed.

Lemma steps_derefNode n : steps R (derefNode n).
Proof. destruct n; [apply steps_crash | apply steps_getN]. Qed.

Lemma steps_deref p : steps R (deref p).
Proof.
  destruct p as [i|]; unfold deref; [|apply steps_crash].
  apply steps_bind; [apply steps_getE|]. intros e.
  destruct (part_store e !! i); [apply steps_ret | apply steps_crash].
Qed.

Lemma steps_assertFatal c msg : steps R (assertFatal c msg).
Proof.
  unfold assertFatal. destruct (TORQUE_ENABLE_ASSERTS && negb c);
    [apply steps_crash | apply steps_ret].
Qed.

Lemma steps_when c body : steps R body -> steps R (when c body).
Proof. intros H. destruct c; unfold when; [exact H | apply steps_ret]. Qed.

Lemma steps_forEach {A} (l : list A) body :
  (forall x, steps R (body x)) -> steps R (forEach l body).
Proof.
  intros H. induction l as [|x l IH]; simpl; [apply steps_ret|].
  apply steps_bind; [apply H | intros _; exact IH].
Qed.

Lemma steps_forParts fuel part body :
  (forall p, steps R (body p)) -> steps R (forParts fuel part body).
Proof.
  intros H. revert part. induction fuel as [|fuel IH]; intros [i|]; simpl;
    try apply steps_ret; try apply steps_outOfFuel.
  apply steps_bind; [apply H | intros _].
  apply steps_bind; [apply steps_deref | intros p; apply IH].
Qed.

Lemma steps_modE f :
  (forall m, R m (set_emitter (f (emitter m)) m)) -> steps R (modE f).
Proof. intros H m. apply H. Qed.

Lemma steps_modD f :
  (forall m, R m (set_datablock (f (datablock m)) m)) -> steps R (modD f).
Proof. intros H m. apply H. Qed.

Lemma steps_modN f :
  (forall m, R m (set_node (f (node m)) m)) -> steps R (modN f).
Proof. intros H m. apply H. Qed.

Lemma steps_emit e :
  (forall m, R m (set_console (console m ++ [e]) m)) -> steps R (emit e).
Proof. intros H m. apply H. Qed.

Lemma steps_rand_I :
  (forall m r, R m (set_gRandGen r m)) -> steps R rand_I.
Proof. intros H m. unfold rand_I. destruct (randI (gRandGen m)). apply H. Qed.

Lemma steps_rand_F :
  (forall m r, R m (set_gRandGen r m)) -> steps R rand_F.
Proof. intros H m. unfold rand_F. destruct (randF (gRandGen m)). apply H. Qed.

Lemma steps_store p f :
  (forall m i x, part_store (emitter m) !! i = Some x ->
     R m (set_emitter (set_part_store (<[i := f x]> (part_store (emitter m))) (emitter m)) m)) ->
  steps R (store p f).
Proof.
  intros H m. destruct p as [i|]; [|reflexivity].
  cbv [store bind deref getE ret crash modE].
  destruct (part_store (emitter m) !! i) as [x|] eqn:E; simpl; [|reflexivity].
  apply H. exact E.
Qed.

End Steps.

(** ** Views of the machine *)

Arguments spawnsOf : simpl never.

Lemma spawnsOf_app l1 l2 : spawnsOf (l1 ++ l2) = spawnsOf l1 ++ spawnsOf l2.
Proof. unfold spawnsOf. apply omap_app. Qed.

Lemma spawnsOf_snoc l e : isSpawn e = false -> spawnsOf (l ++ [e]) = spawnsOf l.
Proof.
  intros H. rewrite spawnsOf_app. destruct e; try discriminate; simpl;
    apply app_nil_r.
Qed.

Lemma map_insert_same {B} (g : Particle -> B) (st : list Particle) i x y :
  st !! i = Some x -> g y = g x -> map g (<[i := y]> st) = map g st.
Proof.
  intros Hx Hg. rewrite list_fmap_insert. rewrite Hg.
  apply list_insert_id. rewrite list_lookup_fmap, Hx. reflexivity.
Qed.

Ltac view_leaf :=
  intros; unfold viewEq, bodyView, sideView, poolView, hostView, linksView, schedView, spawnView, agesView; cbn;
  repeat match goal with
  | |- context [spawnsOf (_ ++ [_])] => rewrite spawnsOf_snoc by reflexivity
  | H : ?st !! ?i = Some ?x |- context [map ?g (<[?i := ?y]> ?st)] =>
      rewrite (map_insert_same g st i x y H) by (try reflexivity; try (destruct (totalLifetime x <? 1); reflexivity))
  end;
  try reflexivity.

Ltac steps_step leaf :=
  lazymatch goal with
  | |- PreOrder _ => apply _
  | |- steps _ (ret _) => apply steps_ret
  | |- steps _ (crash _) => apply steps_crash
  | |- steps _ outOfFuel => apply steps_outOfFuel
  | |- steps _ getE => apply steps_getE
  | |- steps _ getD => apply steps_getD
  | |- steps _ getN => apply steps_getN
  | |- steps _ (deref _) => apply steps_deref
  | |- steps _ (derefNode _) => apply steps_derefNode
  | |- steps _ (assertFatal _ _) => apply steps_assertFatal
  | |- steps _ (bind _ _) => apply steps_bind; [apply _ .. | | intros ?]
  | |- steps _ (when _ _) => apply steps_when; [apply _ .. | ]
  | |- steps _ (forEach _ _) => apply steps_forEach; [apply _ .. | intros ?]
  | |- steps _ (forParts _ _ _) => apply steps_forParts; [apply _ .. | intros ?]
  | |- steps _ (modE _) => apply steps_modE; [apply _ .. | leaf]
  | |- steps _ (modD _) => apply steps_modD; [apply _ .. | leaf]
  | |- steps _ (modN _) => apply steps_modN; [apply _ .. | leaf]
  | |- steps _ (emit _) => apply steps_emit; [apply _ .. | leaf]
  | |- steps _ rand_I => apply steps_rand_I; [apply _ .. | leaf]
  | |- steps _ rand_F => apply steps_rand_F; [apply _ .. | leaf]
  | |- steps _ (store _ _) => apply steps_store; [apply _ .. | leaf]
  | |- steps _ (if ?b then _ else _) => destruct b
  | |- steps _ (match ?x with _ => _ end) => destruct x
  end.

Ltac steps_go := repeat (steps_step view_leaf).

Lemma keyLoop_body remaining i part t : steps (viewEq bodyView) (keyLoop remaining i part t).
Proof.
  revert i. induction remaining as [|r IH]; intros i; simpl; steps_go. apply IH.
Qed.

Lemma keyLoop_ages remaining i part t : steps (viewEq agesView) (keyLoop remaining i part t).
Proof.
  revert i. induction remaining as [|r IH]; intros i; simpl; steps_go. apply IH.
Qed.

Lemma updateKeyData_body part : steps (viewEq bodyView) (updateKeyData part).
Proof. unfold updateKeyData. steps_go. apply keyLoop_body. Qed.

Lemma updateKeyData_ages part : steps (viewEq agesView) (updateKeyData part).
Proof. unfold updateKeyData. steps_go. apply keyLoop_ages. Qed.

Lemma initialize_store V (view : Machine -> V) pNew pd x vel :
  (forall m r, view (set_gRandGen r m) = view m) ->
  (forall g, steps (viewEq view)
     (store pNew (fun q => set_next (next q) (fst (initializeParticle pd q vel g))))) ->
  steps (viewEq view)
    (fun m =>
       let g := gRandGen m in
       store pNew (fun q => set_next (next q) (fst (initializeParticle pd q vel g)))
             (set_gRandGen (snd (initializeParticle pd x vel g)) m)).
Proof.
  intros Hr Hs m. cbv zeta.
  etransitivity; [| apply Hs]. apply Hr.
Qed.

Lemma chooseDataBlock_body pNew vel : steps (viewEq bodyView) (chooseDataBlock pNew vel).
Proof.
  unfold chooseDataBlock. steps_go.
  - apply initialize_store; [reflexivity | intros g; steps_go].
  - apply updateKeyData_body.
Qed.

Lemma placeOnGraph_body pNew pos vel ax iv :
  steps (viewEq bodyView) (placeOnGraph pNew pos vel ax iv).
Proof. unfold placeOnGraph. steps_go. apply chooseDataBlock_body. Qed.

Lemma launch_body pNew pos axis vel axisx :
  steps (viewEq bodyView) (launch pNew pos axis vel axisx).
Proof. unfold launch. steps_go. apply chooseDataBlock_body. Qed.

Lemma launch_node_body pNew pos axis vel axisx n :
  steps (viewEq bodyView) (launch_node pNew pos axis vel axisx n).
Proof. unfold launch_node. steps_go. apply placeOnGraph_body. Qed.

(** ** The pool of a machine *)

Lemma pool_at_links m m' live free :
  linksView m' = linksView m -> pool_at m live free -> pool_at m' live free.
Proof.
  unfold linksView, pool_at, nexts. intros [= -> -> -> -> ->]. auto.
Qed.

Lemma nexts_lookup m i n :
  nexts m !! i = Some n -> exists x, part_store (emitter m) !! i = Some x /\ next x = n.
Proof.
  unfold nexts. rewrite list_lookup_fmap. intros H.
  destruct (part_store (emitter m) !! i) as [x|]; [|discriminate].
  injection H as <-. eauto.
Qed.

Ltac mrun :=
  cbv [bind ret getE getD getN modE modD modN emit crash outOfFuel when deref store
       derefNode assertFatal];
  cbn.

Lemma takeSlot_done m i x :
  part_freelist (emitter m) = Some i -> part_store (emitter m) !! i = Some x ->
  exists m', takeSlot m = Done (Some i) m' /\
    linksView m' = (<[i := part_list_head (emitter m)]> (nexts m), next x, Some i,
                    n_parts (emitter m), n_part_capacity (emitter m)).
Proof.
  intros Hf Hx. unfold takeSlot. mrun. rewrite Hf. cbn. rewrite Hx. cbn. rewrite Hx. cbn.
  eexists. split; [reflexivity|]. unfold linksView, nexts. cbn.
  rewrite list_fmap_insert. reflexivity.
Qed.

(** ** Rules for [wp] *)

Lemma wp_bind {A B} (c : M A) (k : A -> M B) m QD QC QF :
  wp c m (fun a m' => wp (k a) m' QD QC QF) QC QF -> wp (bind c k) m QD QC QF.
Proof. unfold wp, bind. destruct (c m); auto. Qed.

Lemma wp_done {A} (c : M A) m a m' (QD : A -> Machine -> Prop) QC QF :
  c m = Done a m' -> QD a m' -> wp c m QD QC QF.
Proof. unfold wp. intros ->. auto. Qed.

Lemma wp_mono {A} (c : M A) m (QD QD' : A -> Machine -> Prop) (QC QC' : Fault -> Machine -> Prop)
    (QF QF' : Machine -> Prop) :
  wp c m QD QC QF ->
  (forall a m', QD a m' -> QD' a m') -> (forall f m', QC f m' -> QC' f m') ->
  (forall m', QF m' -> QF' m') -> wp c m QD' QC' QF'.
Proof. unfold wp. destruct (c m); auto. Qed.

Lemma wp_bind_done {A B} (c : M A) (k : A -> M B) m a m' QD QC QF :
  c m = Done a m' -> wp (k a) m' QD QC QF -> wp (bind c k) m QD QC QF.
Proof. unfold wp, bind. intros ->. auto. Qed.

Ltac wp_prim := eapply wp_bind_done; [reflexivity|].

Lemma wp_steps {A} R (c : M A) m (QD : A -> Machine -> Prop) QC (QF : Machine -> Prop) :
  steps R c ->
  (forall a m', R m m' -> QD a m') -> (forall f m', R m m' -> QC f m') ->
  (forall m', R m m' -> QF m') ->
  wp c m QD QC QF.
Proof.
  intros Hs HD HC HF. unfold wp. specialize (Hs m). destruct (c m); simpl in Hs; auto.
Qed.

Lemma pushFree_done m slot x :
  part_store (emitter m) !! slot = Some x ->
  exists m', pushFree slot m = Done tt m' /\
    linksView m' = (<[slot := part_freelist (emitter m)]> (nexts m), Some slot,
                    part_list_head (emitter m), n_parts (emitter m),
                    n_part_capacity (emitter m)).
Proof.
  intros Hx. unfold pushFree. mrun. rewrite Hx. cbn.
  eexists. split; [reflexivity|]. unfold linksView, nexts. cbn.
  rewrite list_fmap_insert. reflexivity.
Qed.

Lemma linksView_inv m ns fl hd n cap :
  linksView m = (ns, fl, hd, n, cap) ->
  nexts m = ns /\ part_freelist (emitter m) = fl /\ part_list_head (emitter m) = hd /\
  n_parts (emitter m) = n /\ n_part_capacity (emitter m) = cap.
Proof. unfold linksView, nexts. intros [= <- <- <- <- <-]. auto. Qed.

Lemma pushAll_done l : forall m live free,
  lseg (nexts m) (part_list_head (emitter m)) live ->
  lseg (nexts m) (part_freelist (emitter m)) free ->
  NoDup l -> (forall j, j ∈ l -> (j ∉ live) /\ (j ∉ free) /\ (j < length (nexts m))%nat) ->
  exists m', forEach l pushFree m = Done tt m' /\
    lseg (nexts m') (part_list_head (emitter m')) live /\
    lseg (nexts m') (part_freelist (emitter m')) (rev l ++ free) /\
    length (nexts m') = length (nexts m) /\
    part_list_head (emitter m') = part_list_head (emitter m) /\
    n_parts (emitter m') = n_parts (emitter m) /\
    n_part_capacity (emitter m') = n_part_capacity (emitter m).
Proof.
  induction l as [|j l IH]; intros m live free Hl Hf Hnd Hfresh.
  - exists m. simpl. auto 10.
  - apply NoDup_cons in Hnd as [Hj Hnd].
    destruct (Hfresh j) as (Hjl & Hjf & Hjb); [left|].
    destruct (lookup_lt_is_Some_2 (nexts m) j Hjb) as [n Hn].
    apply nexts_lookup in Hn as (x & Hx & _).
    destruct (pushFree_done m j x Hx) as (m1 & E1 & V1).
    apply linksView_inv in V1 as (Hns & Hfl & Hhd & Hn1 & Hc1).
    destruct (IH m1 live (j :: free)) as (m' & E & H1 & H2 & H3 & H4 & H5 & H6).
    + rewrite Hns, Hhd. apply lsegTo_frame; auto.
    + rewrite Hns, Hfl. simpl. split; [reflexivity|].
      exists (part_freelist (emitter m)). split.
      * apply list_lookup_insert_eq. exact Hjb.
      * apply lsegTo_frame; auto.
    + exact Hnd.
    + intros k Hk. destruct (Hfresh k) as (? & ? & ?); [right; exact Hk|].
      split; [auto|]. split.
      * rewrite not_elem_of_cons. split; [intros ->; contradiction | auto].
      * rewrite Hns, length_insert. auto.
    + exists m'. simpl. unfold bind. rewrite E1.
      split; [exact E|]. split; [exact H1|]. split.
      * rewrite <- app_assoc. exact H2.
      * rewrite H3, H4, H5, H6, Hns, length_insert. auto.
Qed.

Lemma forEach_map {A B} (g : A -> B) (body : B -> M unit) l m :
  forEach l (fun x => body (g x)) m = forEach (map g l) body m.
Proof.
  revert m. induction l as [|x l IH]; intros m; simpl; [reflexivity|].
  unfold bind. destruct (body (g x) m); auto.
Qed.

Lemma allocPrimBuffer_links size : steps (viewEq linksView) (allocPrimBuffer size).
Proof. unfold allocPrimBuffer. steps_go. Qed.

Lemma growPool_spec m live free :
  shape (nexts m) (part_list_head (emitter m)) (part_freelist (emitter m)) live free ->
  wp growPool m
    (fun _ m' =>
       shape (nexts m') (part_list_head (emitter m')) (part_freelist (emitter m')) live
             (rev (seq (length (nexts m)) 16) ++ free) /\
       n_parts (emitter m') = n_parts (emitter m) /\
       n_part_capacity (emitter m') = n_part_capacity (emitter m) + 16)
    (fun _ _ => True) (fun _ => False).
Proof.
  intros (Hl & Hf & Hnd & Hlen).
  unfold growPool.
  set (m2 := set_emitter
               (set_n_part_capacity (n_part_capacity (emitter m) + 16)
                  (set_part_store (part_store (emitter m) ++ replicate 16 uninitialized)
                     (emitter m))) m).
  assert (Hns2 : nexts m2 = nexts m ++ replicate 16 (next uninitialized)).
  { unfold nexts, m2.
    cbn [emitter set_emitter part_store set_n_part_capacity set_part_store].
    rewrite map_app. f_equal. }
  destruct (pushAll_done (seq (length (nexts m)) 16) m2 live free) as
    (m3 & E3 & H1 & H2 & H3 & H4 & H5 & H6).
  { rewrite Hns2. apply lsegTo_grow. exact Hl. }
  { rewrite Hns2. apply lsegTo_grow. exact Hf. }
  { apply NoDup_seq. }
  { intros j Hj. apply elem_of_seq in Hj.
    assert (forall i, i ∈ live ++ free -> (i < length (nexts m))%nat) as Hb.
    { intros i Hi. apply elem_of_app in Hi as [Hi|Hi];
        [exact (lsegTo_bound _ _ _ _ _ Hl Hi) | exact (lsegTo_bound _ _ _ _ _ Hf Hi)]. }
    split; [|split].
    - intros Hin. assert (j < length (nexts m))%nat by (apply Hb, elem_of_app; auto). lia.
    - intros Hin. assert (j < length (nexts m))%nat by (apply Hb, elem_of_app; auto). lia.
    - rewrite Hns2, length_app, length_replicate. lia. }
  assert (Hrun : forEach (seq 0 16) (fun i => pushFree (length (part_store (emitter m)) + i))
                   m2 = Done tt m3).
  { rewrite (forEach_map (fun i => (length (part_store (emitter m)) + i)%nat) pushFree).
    replace (map (fun i => (length (part_store (emitter m)) + i)%nat) (seq 0 16))
      with (seq (length (nexts m)) 16); [exact E3|].
    unfold nexts. rewrite length_map.
    rewrite <- (Nat.add_0_r (length (part_store (emitter m)))) at 1.
    rewrite <- fmap_add_seq. reflexivity. }
  wp_prim. wp_prim. wp_prim.
  eapply wp_bind_done; [exact Hrun|].
  wp_prim.
  pose proof (allocPrimBuffer_links (n_part_capacity (emitter m3)) m3) as Hv.
  unfold wp.
  assert (Hnofuel : match allocPrimBuffer (n_part_capacity (emitter m3)) m3 with
                    | OutOfFuel _ => False | _ => True end).
  { unfold allocPrimBuffer. mrun.
    destruct (TORQUE_ENABLE_ASSERTS && _); cbn; [exact I|].
    destruct (particleDataBlocks (datablock m3)); cbn; [exact I|].
    destruct (u32 _ =? 0); cbn; exact I. }
  destruct (allocPrimBuffer (n_part_capacity (emitter m3)) m3) as [a m4|f m4|m4];
    simpl in Hv; [|exact I|contradiction].
  apply linksView_inv in Hv as (Hv1 & Hv2 & Hv3 & Hv4 & Hv5).
  rewrite Hv1, Hv2, Hv3, Hv4, Hv5.
  change (map next (part_store (emitter m3))) with (nexts m3).
  assert (forall i, i ∈ live ++ free -> (i < length (nexts m))%nat) as Hb.
  { intros i Hi. apply elem_of_app in Hi as [Hi|Hi];
      [exact (lsegTo_bound _ _ _ _ _ Hl Hi) | exact (lsegTo_bound _ _ _ _ _ Hf Hi)]. }
  split; [|split].
  - split; [exact H1 | split; [exact H2 | split]].
    + apply (NoDup_Permutation_proper
               (seq (length (nexts m)) 16 ++ (live ++ free))).
      * rewrite <- Permutation_rev. apply Permutation_app_swap_app.
      * apply NoDup_app. split; [apply NoDup_seq | split; [|exact Hnd]].
        intros j Hj Hin. apply elem_of_seq in Hj. apply Hb in Hin. lia.
    + rewrite H3, Hns2. rewrite !length_app, length_replicate, length_rev, length_seq.
      lia.
  - rewrite H5. reflexivity.
  - rewrite H6. reflexivity.
Qed.

Lemma takeSlot_spec m live i free :
  shape (nexts m) (part_list_head (emitter m)) (part_freelist (emitter m)) live (i :: free) ->
  exists m', takeSlot m = Done (Some i) m' /\
    shape (nexts m') (part_list_head (emitter m')) (part_freelist (emitter m'))
          (i :: live) free /\
    part_list_head (emitter m') = Some i /\
    n_parts (emitter m') = n_parts (emitter m) /\
    n_part_capacity (emitter m') = n_part_capacity (emitter m).
Proof.
  intros Hs. pose proof Hs as (Hl & Hf & Hnd & Hlen).
  destruct Hf as (Hfl & nx & Hnx & Hrest).
  destruct (nexts_lookup m i nx Hnx) as (x & Hx & Hnext).
  destruct (takeSlot_done m i x Hfl Hx) as (m' & E & V).
  apply linksView_inv in V as (V1 & V2 & V3 & V4 & V5).
  exists m'. split; [exact E|].
  rewrite V1, V2, V3, V4, V5, Hnext. split; [|auto].
  apply shape_take; [|exact Hnx]. rewrite <- Hfl. exact Hs.
Qed.

Lemma allocParticle_spec m live free :
  pool_at m live free ->
  wp allocParticle m
    (fun p m' => exists i free',
       p = Some i /\ pool_at m' (i :: live) free' /\
       part_list_head (emitter m') = Some i)
    (fun _ _ => True) (fun _ => False).
Proof.
  intros (Hs & Hn & Hc). unfold allocParticle.
  wp_prim. wp_prim. wp_prim.
  set (m1 := set_emitter (set_n_parts (n_parts (emitter m) + 1) (emitter m)) m).
  assert (Hs1 : shape (nexts m1) (part_list_head (emitter m1)) (part_freelist (emitter m1))
                      live free) by exact Hs.
  assert (Hn1 : n_parts (emitter m1) = Z.of_nat (length live) + 1).
  { unfold m1. cbn. rewrite Hn. reflexivity. }
  assert (Hc1 : n_part_capacity (emitter m1) = Z.of_nat (length live + length free))
    by exact Hc.
  cbn [emitter set_emitter datablock].
  fold m1. clearbody m1.
  destruct ((n_parts (emitter m1) >? n_part_capacity (emitter m1))
            || (u32 (n_parts (emitter m1)) >? partListInitSize (datablock m1))) eqn:Hgrow.
  - unfold when. apply wp_bind.
    eapply wp_mono; [apply (growPool_spec m1 live free Hs1) | | auto | auto].
    intros _ m2 (Hs2 & Hn2 & Hc2). cbv beta.
    replace (seq (length (nexts m1)) 16)
      with (seq (length (nexts m1)) 15 ++ [(length (nexts m1) + 15)%nat]) in Hs2
      by (symmetry; apply (seq_S 15 (length (nexts m1)))).
    rewrite rev_app_distr in Hs2.
    destruct (takeSlot_spec m2 live (length (nexts m1) + 15)%nat
                (rev (seq (length (nexts m1)) 15) ++ free) Hs2)
      as (m3 & E & Hs3 & Hh3 & Hn3 & Hc3).
    eapply wp_done; [exact E|].
    eexists _, _. split; [reflexivity|]. split; [|exact Hh3].
    split; [exact Hs3|]. rewrite Hn3, Hc3, Hn2, Hc2, Hn1, Hc1.
    rewrite !length_app, length_rev, length_seq. simpl length. lia.
  - unfold when. wp_prim.
    apply orb_false_iff in Hgrow as [Hg _].
    destruct free as [|i free].
    { exfalso. rewrite Hn1, Hc1, Z.gtb_ltb in Hg. apply Z.ltb_ge in Hg.
      simpl in Hg. lia. }
    destruct (takeSlot_spec m1 live i free Hs1) as (m3 & E & Hs3 & Hh3 & Hn3 & Hc3).
    eapply wp_done; [exact E|].
    eexists _, _. split; [reflexivity|]. split; [|exact Hh3].
    split; [exact Hs3|]. rewrite Hn3, Hc3, Hn1, Hc1. simpl length. lia.
Qed.

(** ** Rules for [never] *)

Section Never.

Context (bad : Fault -> bool) (fuel : bool).

Lemma never_ret {A} (a : A) : never bad fuel (ret a).
Proof. intros m. exact I. Qed.

Lemma never_crash {A} f : bad f = false -> never bad fuel (@crash _ A f).
Proof. intros H m. exact H. Qed.

Lemma never_outOfFuel {A} : fuel = true -> never bad fuel (@outOfFuel _ A).
Proof. intros H m. exact H. Qed.

Lemma never_bind {A B} (c : M A) (k : A -> M B) :
  never bad fuel c -> (forall a, never bad fuel (k a)) -> never bad fuel (bind c k).
Proof.
  intros Hc Hk m. unfold bind. specialize (Hc m).
  destruct (c m) as [a m'| |]; auto. apply Hk.
Qed.

Lemma never_getE : never bad fuel getE.
Proof. intros m. exact I. Qed.

Lemma never_getD : never bad fuel getD.
Proof. intros m. exact I. Qed.

Lemma never_getN : never bad fuel getN.
Proof. intros m. exact I. Qed.

Lemma never_modE f : never bad fuel (modE f).
Proof. intros m. exact I. Qed.

Lemma never_modD f : never bad fuel (modD f).
Proof. intros m. exact I. Qed.

Lemma never_modN f : never bad fuel (modN f).
Proof. intros m. exact I. Qed.

Lemma never_emit e : never bad fuel (emit e).
Proof. intros m. exact I. Qed.

Lemma never_rand_I : never bad fuel rand_I.
Proof. intros m. unfold rand_I. destruct (randI (gRandGen m)). exact I. Qed.

Lemma never_rand_F : never bad fuel rand_F.
Proof. intros m. unfold rand_F. destruct (randF (gRandGen m)). exact I. Qed.

Lemma never_derefNode n : bad NullDereference = false -> never bad fuel (derefNode n).
Proof. intros H. destruct n; intros m; [exact H | exact I]. Qed.

Lemma never_deref p :
  bad NullDereference = false -> bad OutOfBounds = false -> never bad fuel (deref p).
Proof.
  intros H1 H2 m. destruct p as [i|]; [|exact H1]. cbv [deref bind getE ret crash].
  destruct (part_store (emitter m) !! i); [exact I | exact H2].
Qed.

Lemma never_store p f :
  bad NullDereference = false -> bad OutOfBounds = false -> never bad fuel (store p f).
Proof.
  intros H1 H2 m. destruct p as [i|]; [|exact H1].
  cbv [store deref bind getE ret crash modE].
  destruct (part_store (emitter m) !! i); [exact I | exact H2].
Qed.

Lemma never_assertFatal c msg :
  bad (AssertFatal msg) = false \/ c = true -> never bad fuel (assertFatal c msg).
Proof.
  intros H m. unfold assertFatal.
  destruct (TORQUE_ENABLE_ASSERTS && negb c) eqn:E; [|exact I].
  destruct H as [H| ->]; [exact H|]. rewrite andb_false_r in E. discriminate.
Qed.

Lemma never_when c body : never bad fuel body -> never bad fuel (when c body).
Proof. intros H. destruct c; [exact H | apply never_ret]. Qed.

Lemma never_forEach {A} (l : list A) body :
  (forall x, never bad fuel (body x)) -> never bad fuel (forEach l body).
Proof.
  intros H. induction l as [|x l IH]; simpl; [apply never_ret|].
  apply never_bind; [apply H | intros _; exact IH].
Qed.

End Never.

Ltac never_step :=
  lazymatch goal with
  | |- fueled _ => unfold fueled
  | |- never _ _ (ret _) => apply never_ret
  | |- never _ _ (crash _) => apply never_crash; reflexivity
  | |- never _ _ outOfFuel => apply never_outOfFuel; reflexivity
  | |- never _ _ getE => apply never_getE
  | |- never _ _ getD => apply never_getD
  | |- never _ _ getN => apply never_getN
  | |- never _ _ (deref _) => apply never_deref; reflexivity
  | |- never _ _ (derefNode _) => apply never_derefNode; reflexivity
  | |- never _ _ (assertFatal _ _) => apply never_assertFatal; left; reflexivity
  | |- never _ _ (bind _ _) => apply never_bind; [| intros ?]
  | |- never _ _ (when _ _) => apply never_when
  | |- never _ _ (forEach _ _) => apply never_forEach; intros ?
  | |- never _ _ (modE _) => apply never_modE
  | |- never _ _ (modD _) => apply never_modD
  | |- never _ _ (modN _) => apply never_modN
  | |- never _ _ (emit _) => apply never_emit
  | |- never _ _ rand_I => apply never_rand_I
  | |- never _ _ rand_F => apply never_rand_F
  | |- never _ _ (store _ _) => apply never_store; reflexivity
  | |- never _ _ (if ?b then _ else _) => destruct b
  | |- never _ _ (match ?x with _ => _ end) => destruct x
  end.

Ltac fueled_go := repeat never_step.

Lemma keyLoop_fueled remaining i part t : fueled (keyLoop remaining i part t).
Proof. revert i. induction remaining as [|r IH]; intros i; simpl; fueled_go. apply IH. Qed.

Lemma updateKeyData_fueled part : fueled (updateKeyData part).
Proof. unfold updateKeyData. fueled_go. apply keyLoop_fueled. Qed.

Lemma chooseDataBlock_fueled pNew vel : fueled (chooseDataBlock pNew vel).
Proof.
  unfold chooseDataBlock. fueled_go.
  - intros m. cbv zeta. apply never_store; reflexivity.
  - apply updateKeyData_fueled.
Qed.

Lemma launch_fueled pNew pos axis vel axisx : fueled (launch pNew pos axis vel axisx).
Proof. unfold launch. fueled_go. apply chooseDataBlock_fueled. Qed.

Lemma launch_node_fueled pNew pos axis vel axisx n :
  fueled (launch_node pNew pos axis vel axisx n).
Proof.
  unfold launch_node. fueled_go. unfold placeOnGraph. fueled_go.
  apply chooseDataBlock_fueled.
Qed.

Lemma wp_body {A} V (view : Machine -> V) (c : M A) m (QD : A -> Machine -> Prop) :
  steps (viewEq view) c -> fueled c ->
  (forall a m', view m' = view m -> QD a m') ->
  wp c m QD (fun _ _ => True) (fun _ => False).
Proof.
  intros Hs Hf HD. unfold wp. specialize (Hs m). specialize (Hf m).
  destruct (c m); simpl in *; auto. discriminate.
Qed.

(** ** addParticle keeps the pool and the schedule, and logs one spawn *)

Lemma allocPrimBuffer_side size : steps (viewEq sideView) (allocPrimBuffer size).
Proof. unfold allocPrimBuffer. steps_go. Qed.

Lemma allocParticle_side : steps (viewEq sideView) allocParticle.
Proof.
  unfold allocParticle, growPool, takeSlot, pushFree. steps_go.
  apply allocPrimBuffer_side.
Qed.

Lemma spawn_tail (tail : option nat -> M unit) pos m live free :
  pool_at m live free ->
  (forall p, steps (viewEq bodyView) (tail p)) -> (forall p, fueled (tail p)) ->
  wp (bind allocParticle (fun pNew => bind (emit (EvSpawn pos)) (fun _ => tail pNew))) m
     (fun _ m' => spawned pos live m m') (fun _ _ => True) (fun _ => False).
Proof.
  intros Hp Hs Hf. apply wp_bind.
  pose proof (allocParticle_side m) as Hside.
  pose proof (allocParticle_spec m live free Hp) as Hspec.
  unfold wp in *. destruct (allocParticle m) as [p m1| |]; auto.
  destruct Hspec as (i & free' & -> & Hp1 & Hh1). simpl in Hside.
  apply pair_equal_spec in Hside as [Hsched Hspawn].
  eapply wp_bind_done; [reflexivity|].
  eapply (wp_body _ bodyView); [apply Hs | apply Hf |].
  intros _ m' Hv. apply pair_equal_spec in Hv as [Hv Hsp].
  apply pair_equal_spec in Hv as [Hlinks Hsch].
  split; [|split].
  - exists i, free'. split.
    + eapply pool_at_links; [exact Hlinks|]. exact Hp1.
    + apply linksView_inv in Hlinks as (_ & _ & -> & _). exact Hh1.
  - rewrite Hsch. exact Hsched.
  - rewrite Hsp. unfold spawnView. cbn. rewrite spawnsOf_app.
    unfold spawnView in Hspawn. rewrite Hspawn. reflexivity.
Qed.

Lemma addParticle_node_spec pos axis vel axisx n m live free :
  pool_at m live free ->
  wp (addParticle_node pos axis vel axisx n) m
     (fun _ m' => spawned pos live m m') (fun _ _ => True) (fun _ => False).
Proof.
  intros Hp. unfold addParticle_node.
  apply (spawn_tail (fun pNew => launch_node pNew pos axis vel axisx n) pos m live free);
    auto.
  - intros p. apply launch_node_body.
  - intros p. apply launch_node_fueled.
Qed.

Lemma addParticle_spec pos axis vel axisx m live free :
  pool_at m live free ->
  wp (addParticle pos axis vel axisx) m
     (fun _ m' => spawned pos live m m') (fun _ _ => True) (fun _ => False).
Proof.
  intros Hp. unfold addParticle.
  eapply wp_bind_done; [reflexivity|].
  set (m0 := set_console _ m).
  assert (Hp0 : pool_at m0 live free) by exact Hp.
  pose proof (spawn_tail (fun pNew => launch pNew pos axis vel axisx) pos m0 live free Hp0
                (fun p => launch_body p pos axis vel axisx)
                (fun p => launch_fueled p pos axis vel axisx)) as H.
  eapply wp_mono; [exact H | | auto | auto].
  intros _ m' (H1 & H2 & H3). split; [exact H1|]. split.
  - rewrite H2. reflexivity.
  - rewrite H3. unfold spawnView, m0. cbn. rewrite spawnsOf_snoc by reflexivity.
    reflexivity.
Qed.

(** ** Unlinking a slot from the middle of the live list *)

Lemma lseg_cons_inv (ns : list (option nat)) (r : option nat) i rest q :
  lsegTo ns r (i :: rest) q ->
  r = Some i /\ exists nx, ns !! i = Some nx /\ lsegTo ns nx rest q.
Proof. simpl. auto. Qed.

Lemma shape_unlink_head (ns : list (option nat)) fl i nx rest free :
  shape ns (Some i) fl (i :: rest) free -> ns !! i = Some nx ->
  shape (<[i := fl]> ns) nx (Some i) rest (i :: free).
Proof. apply shape_release. Qed.

Lemma shape_unlink_after (ns : list (option nat)) hd fl done j i nx rest free :
  shape ns hd fl ((done ++ [j]) ++ i :: rest) free -> ns !! i = Some nx ->
  shape (<[i := fl]> (<[j := nx]> ns)) hd (Some i) ((done ++ [j]) ++ rest) (i :: free) /\
  <[i := fl]> (<[j := nx]> ns) !! j = Some nx.
Proof.
  intros (Hl & Hf & Hnd & Hlen) Hnx.
  assert (Hb : (j < length ns)%nat /\ (i < length ns)%nat).
  { split; eapply (lsegTo_bound _ _ _ _ _ Hl); rewrite !elem_of_app, ?elem_of_cons;
      [left; right; left | right; left]; reflexivity. }
  destruct Hb as [Hjb Hib].
  unfold lseg in Hl. rewrite <- app_assoc in Hl.
  apply lsegTo_app in Hl as (r & Hdone & Hl). simpl in Hl.
  destruct Hl as (-> & n1 & Hj & -> & n2 & Hi & Hrest).
  rewrite Hnx in Hi. injection Hi as <-.
  rewrite <- !app_assoc in Hnd. simpl in Hnd.
  assert (Hnd1 := Hnd).
  apply NoDup_app in Hnd1 as (Hnd_done & Hdis1 & Hnd2).
  apply NoDup_cons in Hnd2 as [Hj2 Hnd2].
  apply NoDup_cons in Hnd2 as [Hi2 Hnd2].
  rewrite not_elem_of_cons in Hj2. destruct Hj2 as [Hji Hj2].
  apply not_elem_of_app in Hj2 as [Hj_rest Hj_free].
  apply not_elem_of_app in Hi2 as [Hi_rest Hi_free].
  assert (Hi_done : i ∉ done).
  { intros Hin. apply (Hdis1 i Hin). right. left. }
  assert (Hj_done : j ∉ done).
  { intros Hin. apply (Hdis1 j Hin). left. }
  split; [split; [|split; [|split]]|].
  - unfold lseg. rewrite <- app_assoc. apply lsegTo_app. exists (Some j). split.
    + apply lsegTo_frame; [exact Hi_done|]. apply lsegTo_frame; [exact Hj_done|].
      exact Hdone.
    + simpl. split; [reflexivity|]. exists nx. split.
      * rewrite list_lookup_insert_ne by congruence.
        apply list_lookup_insert_eq. exact Hjb.
      * apply lsegTo_frame; [exact Hi_rest|]. apply lsegTo_frame; [exact Hj_rest|].
        exact Hrest.
  - unfold lseg. simpl. split; [reflexivity|]. exists fl. split.
    + apply list_lookup_insert_eq. rewrite length_insert. exact Hib.
    + apply lsegTo_frame; [exact Hi_free|]. apply lsegTo_frame; [exact Hj_free|].
      exact Hf.
  - rewrite <- !app_assoc. simpl.
    apply (NoDup_Permutation_proper (done ++ j :: i :: rest ++ free)); [|exact Hnd].
    apply Permutation_app_head. apply perm_skip. apply Permutation_middle.
  - rewrite !length_insert. rewrite Hlen. rewrite !length_app. simpl. lia.
  - rewrite list_lookup_insert_ne by congruence.
    apply list_lookup_insert_eq. exact Hjb.
Qed.

(** ** Slots up to their links *)

Lemma ptw_refl st : ptw (fun _ x => x) st st.
Proof. split; [reflexivity|]. intros k x H. eauto. Qed.

Lemma ptw_ext g g' st st' :
  (forall k x, st !! k = Some x -> g k x = g' k x) -> ptw g st st' -> ptw g' st st'.
Proof.
  intros He [Hlen H]. split; [exact Hlen|]. intros k x Hk.
  destruct (H k x Hk) as (y & Hy & Hp). exists y. rewrite <- (He k x Hk). auto.
Qed.

Lemma ptw_trans g h st st1 st2 :
  respectful h -> ptw g st st1 -> ptw h st1 st2 -> ptw (fun k x => h k (g k x)) st st2.
Proof.
  intros Hh [Hlen1 H1] [Hlen2 H2]. split; [congruence|]. intros k x Hk.
  destruct (H1 k x Hk) as (y & Hy & Hp1). destruct (H2 k y Hy) as (z & Hz & Hp2).
  exists z. split; [exact Hz|]. rewrite Hp2. apply Hh. exact Hp1.
Qed.

Lemma ptw_insert (st : list Particle) i x y :
  st !! i = Some x ->
  ptw (fun k z => if bool_decide (k = i) then y else z) st (<[i := y]> st).
Proof.
  intros Hx. split; [apply length_insert|]. intros k z Hk.
  destruct (decide (k = i)) as [->|Hne].
  - rewrite bool_decide_eq_true_2 by reflexivity. exists y. split; [|reflexivity].
    apply list_lookup_insert_eq. eapply lookup_lt_Some; eauto.
  - rewrite bool_decide_eq_false_2 by exact Hne. exists z. split; [|reflexivity].
    rewrite list_lookup_insert_ne by congruence. exact Hk.
Qed.

(** Rewriting a link leaves every payload as it was. *)
Lemma ptw_relink (st : list Particle) i x v :
  st !! i = Some x -> ptw (fun _ z => z) st (<[i := set_next v x]> st).
Proof.
  intros Hx. eapply ptw_ext; [|split; [apply length_insert|]].
  { intros k z _. reflexivity. }
  intros k z Hk. destruct (decide (k = i)) as [->|Hne].
  - exists (set_next v x). split.
    + apply list_lookup_insert_eq. eapply lookup_lt_Some; eauto.
    + rewrite Hx in Hk. injection Hk as <-. reflexivity.
  - exists z. split; [|reflexivity].
    rewrite list_lookup_insert_ne by congruence. exact Hk.
Qed.

Lemma ptw_id_trans g st st1 st2 :
  ptw g st st1 -> ptw (fun _ z => z) st1 st2 -> ptw g st st2.
Proof.
  intros H1 H2. eapply ptw_ext; [|eapply ptw_trans; [|exact H1|exact H2]].
  - intros k x _. reflexivity.
  - intros k a b Hab. exact Hab.
Qed.

Lemma expires_payload ms a b : payload a = payload b -> expires ms a = expires ms b.
Proof.
  intros H. unfold expires.
  assert (currentAge a = currentAge b) as -> by exact (f_equal currentAge H).
  assert (totalLifetime a = totalLifetime b) as -> by exact (f_equal totalLifetime H).
  reflexivity.
Qed.

Lemma ageBy_payload ms a b : payload a = payload b -> payload (ageBy ms a) = payload (ageBy ms b).
Proof.
  intros H. unfold ageBy, payload in *. destruct a, b. cbn in *.
  injection H. intros. subst. reflexivity.
Qed.

(** ** Machine steps with a known result *)

Lemma store_done m i x f :
  part_store (emitter m) !! i = Some x -> store (Some i) f m = Done tt (putSlot i (f x) m).
Proof. intros H. cbv [store deref bind getE ret crash modE]. rewrite H. reflexivity. Qed.

Lemma deref_done m i x :
  part_store (emitter m) !! i = Some x -> deref (Some i) m = Done x m.
Proof. intros H. cbv [deref bind getE ret crash]. rewrite H. reflexivity. Qed.

Lemma nexts_putSlot i y m : nexts (putSlot i y m) = <[i := next y]> (nexts m).
Proof. unfold nexts, putSlot. cbn. apply list_fmap_insert. Qed.

Lemma nexts_putSlot_same i x y m :
  part_store (emitter m) !! i = Some x -> next y = next x -> nexts (putSlot i y m) = nexts m.
Proof.
  intros Hx Hn. rewrite nexts_putSlot. apply list_insert_id.
  unfold nexts. rewrite list_lookup_fmap, Hx, Hn. reflexivity.
Qed.

Lemma lseg_head (ns : list (option nat)) p l : lseg ns p l -> p = head l.
Proof. destruct l; simpl; [auto | intros [-> _]; reflexivity]. Qed.

(** ** The eviction walk *)

Lemma bind_done {A B} (c : M A) (k : A -> M B) m a m' :
  c m = Done a m' -> bind c k m = k a m'.
Proof. unfold bind. intros ->. reflexivity. Qed.

Lemma respectful_agedSlots ms rest : respectful (agedSlots ms rest).
Proof.
  intros k a b H. unfold agedSlots. destruct (bool_decide (k ∈ rest)); [|exact H].
  apply ageBy_payload. exact H.
Qed.

Lemma filter_expires_ext ms (st st2 : list Particle) g rest :
  ptw g st st2 -> (forall k x, k ∈ rest -> g k x = x) ->
  (forall k, k ∈ rest -> is_Some (st !! k)) ->
  forall P : bool -> bool,
  List.filter (fun i => P (expiresAt st2 ms i)) rest =
  List.filter (fun i => P (expiresAt st ms i)) rest.
Proof.
  intros [Hlen Hp] Hg Hin P. apply List.filter_ext_in. intros k Hk.
  apply list_elem_of_In in Hk. destruct (Hin k Hk) as [x Hx].
  destruct (Hp k x Hx) as (y & Hy & Hpay). rewrite (Hg k x Hk) in Hpay.
  unfold expiresAt. rewrite Hx, Hy. f_equal. apply expires_payload. exact Hpay.
Qed.

Lemma evict_keep fuel ms ref i x m :
  part_store (emitter m) !! i = Some x -> expires ms x = false ->
  evictLoop (S fuel) ms ref (Some i) m =
  evictLoop fuel ms (Slot i) (next x) (putSlot i (ageBy ms x) m).
Proof.
  intros Hx He. cbn [evictLoop].
  erewrite bind_done by (apply store_done; exact Hx).
  assert (Hx1 : part_store (emitter (putSlot i (ageBy ms x) m)) !! i = Some (ageBy ms x)).
  { cbn. apply list_lookup_insert_eq. eapply lookup_lt_Some; eauto. }
  erewrite bind_done by (apply deref_done; exact Hx1).
  change (currentAge (ageBy ms x) >? totalLifetime (ageBy ms x)) with (expires ms x).
  rewrite He. cbn [nextOf].
  erewrite bind_done; [reflexivity|].
  erewrite bind_done by (apply deref_done; exact Hx1). reflexivity.
Qed.

Lemma evict_head fuel ms i x m :
  part_store (emitter m) !! i = Some x -> expires ms x = true ->
  exists m2,
    evictLoop (S fuel) ms ListHead (Some i) m = evictLoop fuel ms ListHead (next x) m2 /\
    linksView m2 = (<[i := part_freelist (emitter m)]> (nexts m), Some i, next x,
                    n_parts (emitter m) - 1, n_part_capacity (emitter m)) /\
    hostView m2 = hostView m /\
    part_store (emitter m2) =
      <[i := set_next (part_freelist (emitter m)) (ageBy ms x)]> (part_store (emitter m)).
Proof.
  intros Hx He. cbn [evictLoop].
  erewrite bind_done by (apply store_done; exact Hx).
  assert (Hx1 : part_store (emitter (putSlot i (ageBy ms x) m)) !! i = Some (ageBy ms x)).
  { cbn. apply list_lookup_insert_eq. eapply lookup_lt_Some; eauto. }
  erewrite bind_done by (apply deref_done; exact Hx1).
  change (currentAge (ageBy ms x) >? totalLifetime (ageBy ms x)) with (expires ms x).
  rewrite He. cbn [setNextOf nextOf].
  erewrite bind_done by reflexivity.
  erewrite bind_done by reflexivity.
  erewrite bind_done by reflexivity.
  erewrite bind_done.
  2:{ apply store_done. cbn. apply list_lookup_insert_eq. eapply lookup_lt_Some; eauto. }
  erewrite bind_done by reflexivity.
  erewrite bind_done by reflexivity.
  eexists. split; [reflexivity|].
  split; [|split].
  - unfold linksView, nexts. cbn. rewrite list_insert_insert_eq, list_fmap_insert.
    reflexivity.
  - reflexivity.
  - cbn. rewrite list_insert_insert_eq. reflexivity.
Qed.

Lemma evict_after fuel ms j xj i x m :
  j <> i ->
  part_store (emitter m) !! i = Some x -> part_store (emitter m) !! j = Some xj ->
  expires ms x = true ->
  exists m2,
    evictLoop (S fuel) ms (Slot j) (Some i) m = evictLoop fuel ms (Slot j) (next x) m2 /\
    linksView m2 = (<[i := part_freelist (emitter m)]> (<[j := next x]> (nexts m)), Some i,
                    part_list_head (emitter m),
                    n_parts (emitter m) - 1, n_part_capacity (emitter m)) /\
    hostView m2 = hostView m /\
    part_store (emitter m2) =
      <[i := set_next (part_freelist (emitter m)) (ageBy ms x)]>
        (<[j := set_next (next x) xj]> (part_store (emitter m))).
Proof.
  intros Hji Hx Hj He. cbn [evictLoop].
  assert (Hib : (i < length (part_store (emitter m)))%nat) by (eapply lookup_lt_Some; eauto).
  assert (Hjb : (j < length (part_store (emitter m)))%nat) by (eapply lookup_lt_Some; eauto).
  erewrite bind_done by (apply store_done; exact Hx).
  assert (Hx1 : part_store (emitter (putSlot i (ageBy ms x) m)) !! i = Some (ageBy ms x)).
  { cbn. apply list_lookup_insert_eq. exact Hib. }
  erewrite bind_done by (apply deref_done; exact Hx1).
  change (currentAge (ageBy ms x) >? totalLifetime (ageBy ms x)) with (expires ms x).
  rewrite He. cbn [setNextOf nextOf].
  erewrite bind_done by reflexivity.
  erewrite bind_done.
  2:{ apply store_done. cbn. rewrite list_lookup_insert_ne by congruence. exact Hj. }
  erewrite bind_done by reflexivity.
  erewrite bind_done.
  2:{ apply store_done. cbn. rewrite list_lookup_insert_ne by congruence.
      apply list_lookup_insert_eq. exact Hib. }
  erewrite bind_done by reflexivity.
  erewrite bind_done.
  2:{ erewrite bind_done; [reflexivity|]. apply deref_done. cbn.
      rewrite list_lookup_insert_ne by congruence.
      apply list_lookup_insert_eq. rewrite length_insert. exact Hjb. }
  eexists. split; [reflexivity|].
  split; [|split].
  - unfold linksView, nexts. cbn.
    rewrite (list_insert_insert_ne _ j i) by congruence.
    rewrite list_insert_insert_eq. rewrite !list_fmap_insert. reflexivity.
  - reflexivity.
  - cbn. rewrite (list_insert_insert_ne _ j i) by congruence.
    rewrite list_insert_insert_eq. reflexivity.
Qed.

Lemma ptw_insert_payload (st : list Particle) i x y y0 :
  st !! i = Some x -> payload y = payload y0 ->
  ptw (fun k z => if bool_decide (k = i) then y0 else z) st (<[i := y]> st).
Proof.
  intros Hx Hp. split; [apply length_insert|]. intros k z Hk.
  destruct (decide (k = i)) as [->|Hne].
  - rewrite bool_decide_eq_true_2 by reflexivity. exists y. split; [|exact Hp].
    apply list_lookup_insert_eq. eapply lookup_lt_Some; eauto.
  - rewrite bool_decide_eq_false_2 by exact Hne. exists z. split; [|reflexivity].
    rewrite list_lookup_insert_ne by congruence. exact Hk.
Qed.

(** One slot aged, then the walk over [rest]: the walk over [i :: rest]. *)
Lemma ptw_aged_cons ms i x rest (st st1 st' : list Particle) :
  st !! i = Some x -> i ∉ rest ->
  ptw (fun k z => if bool_decide (k = i) then ageBy ms x else z) st st1 ->
  ptw (agedSlots ms rest) st1 st' ->
  ptw (agedSlots ms (i :: rest)) st st'.
Proof.
  intros Hx Hi H1 H2.
  eapply ptw_ext; [|eapply ptw_trans; [apply (respectful_agedSlots ms rest)|exact H1|exact H2]].
  intros k z Hk. cbv beta. unfold agedSlots.
  destruct (decide (k = i)) as [->|Hne].
  - rewrite (bool_decide_eq_true_2 (i = i)) by reflexivity.
    rewrite (bool_decide_eq_false_2 (i ∈ rest)) by exact Hi.
    rewrite (bool_decide_eq_true_2 (i ∈ i :: rest)) by (left).
    rewrite Hx in Hk. injection Hk as <-. reflexivity.
  - rewrite (bool_decide_eq_false_2 (k = i)) by exact Hne.
    destruct (decide (k ∈ rest)) as [Hin|Hnin].
    + rewrite !bool_decide_eq_true_2; [reflexivity | right; exact Hin | exact Hin].
    + rewrite !bool_decide_eq_false_2; [reflexivity | | exact Hnin].
      rewrite not_elem_of_cons. auto.
Qed.

Lemma filter_after_age ms i x (st st1 : list Particle) rest (P : bool -> bool) :
  ptw (fun k z => if bool_decide (k = i) then ageBy ms x else z) st st1 ->
  i ∉ rest -> (forall k, k ∈ rest -> is_Some (st !! k)) ->
  List.filter (fun k => P (expiresAt st1 ms k)) rest =
  List.filter (fun k => P (expiresAt st ms k)) rest.
Proof.
  intros Hp Hi Hin. eapply filter_expires_ext; [exact Hp | | exact Hin].
  intros k z Hk. cbv beta. rewrite bool_decide_eq_false_2; [reflexivity|].
  intros ->. contradiction.
Qed.

Lemma filter_after_age_id ms i x (st st1 : list Particle) rest :
  ptw (fun k z => if bool_decide (k = i) then ageBy ms x else z) st st1 ->
  i ∉ rest -> (forall k, k ∈ rest -> is_Some (st !! k)) ->
  List.filter (expiresAt st1 ms) rest = List.filter (expiresAt st ms) rest.
Proof. intros Hp Hi Hin. exact (filter_after_age ms i x st st1 rest (fun b => b) Hp Hi Hin). Qed.

Lemma evictLoop_spec ms rest : forall done free m fuel,
  shape (nexts m) (part_list_head (emitter m)) (part_freelist (emitter m))
        (done ++ rest) free ->
  (length rest <= fuel)%nat ->
  exists m', evictLoop fuel ms (lastRef done) (head rest) m = Done tt m' /\
             evicted ms rest done free m m'.
Proof.
  induction rest as [|i rest IH]; intros done free m fuel Hs Hfuel.
  - exists m. split; [destruct fuel; reflexivity|].
    rewrite app_nil_r in Hs.
    split; simpl; rewrite ?app_nil_r, ?Z.sub_0_r; auto.
    eapply ptw_ext; [|apply ptw_refl]. intros k x _. unfold agedSlots.
    rewrite bool_decide_eq_false_2; [reflexivity | apply not_elem_of_nil].
  - destruct fuel as [|fuel]; [simpl in Hfuel; lia|]. simpl in Hfuel.
    pose proof Hs as (Hl & Hf & Hnd & Hlen).
    unfold lseg in Hl. apply lsegTo_app in Hl as (r & Hdone & Hl).
    apply lseg_cons_inv in Hl as (-> & nx & Hnx & Hrest).
    destruct (nexts_lookup m i nx Hnx) as (x & Hx & <-).
    assert (Hnd' := Hnd). rewrite <- app_assoc in Hnd'.
    apply NoDup_app in Hnd' as (Hnd_done & Hdis & Hnd2). simpl in Hnd2.
    apply NoDup_cons in Hnd2 as [Hi2 Hnd2].
    apply not_elem_of_app in Hi2 as [Hi_rest Hi_free].
    assert (Hi_done : i ∉ done).
    { intros Hin. apply (Hdis i Hin). left. }
    assert (Hrest_in : forall k, k ∈ rest -> is_Some (part_store (emitter m) !! k)).
    { intros k Hk. apply lookup_lt_is_Some_2.
      assert (k < length (nexts m))%nat as Hb.
      { eapply (lsegTo_bound _ _ _ _ _ Hrest). exact Hk. }
      unfold nexts in Hb. rewrite length_map in Hb. exact Hb. }
    assert (Hhead : next x = head rest) by (apply (lseg_head (nexts m)); exact Hrest).
    assert (HexAt : expiresAt (part_store (emitter m)) ms i = expires ms x).
    { unfold expiresAt. rewrite Hx. reflexivity. }
    change (head (i :: rest)) with (Some i).
    destruct (expires ms x) eqn:Hex.
    + (* the slot is evicted *)
      destruct (decide (done = [])) as [->|Hne].
      * destruct (evict_head fuel ms i x m Hx Hex) as (m2 & E2 & V2 & Hh2 & Hst2).
        apply linksView_inv in V2 as (Vn & Vf & Vh & Vc & Vcap).
        simpl in Hdone.
        destruct (IH [] (i :: free) m2 fuel) as (m' & E & Hev).
        { rewrite Vn, Vf, Vh. simpl.
          apply shape_unlink_head; [|exact Hnx].
          rewrite <- Hdone. exact Hs. }
        { lia. }
        exists m'. change (lastRef []) with ListHead in *.
        rewrite E2. rewrite Hhead. split; [exact E|].
        destruct Hev as [H1 H2 H3 H4 H5].
        assert (Hp2 : ptw (fun k z => if bool_decide (k = i) then ageBy ms x else z)
                          (part_store (emitter m)) (part_store (emitter m2))).
        { rewrite Hst2. eapply ptw_insert_payload; [exact Hx | reflexivity]. }
        rewrite (filter_after_age ms i x _ _ rest negb Hp2 Hi_rest Hrest_in) in H1.
        rewrite (filter_after_age_id ms i x _ _ rest Hp2 Hi_rest Hrest_in) in H1, H2.
        split.
        -- simpl List.filter. rewrite HexAt. simpl negb. cbv iota.
           simpl rev. rewrite <- app_assoc. exact H1.
        -- simpl List.filter. rewrite HexAt. simpl length. rewrite H2, Vc. lia.
        -- rewrite H3. exact Vcap.
        -- rewrite H4. exact Hh2.
        -- eapply ptw_aged_cons; eauto.
      * destruct (exists_last Hne) as (done' & j & ->).
        apply lsegTo_app in Hdone as (r & Hdone' & Hj).
        simpl in Hj. destruct Hj as (-> & nj & Hnj & Hnj2).
        destruct (nexts_lookup m j nj Hnj) as (xj & Hxj & _).
        assert (Hji : j <> i).
        { intros ->. apply Hi_done. apply elem_of_app. right. left. }
        destruct (evict_after fuel ms j xj i x m Hji Hx Hxj Hex)
          as (m2 & E2 & V2 & Hh2 & Hst2).
        apply linksView_inv in V2 as (Vn & Vf & Vh & Vc & Vcap).
        destruct (shape_unlink_after (nexts m) (part_list_head (emitter m))
                    (part_freelist (emitter m)) done' j i (next x) rest free Hs Hnx)
          as [Hs2 _].
        destruct (IH (done' ++ [j]) (i :: free) m2 fuel) as (m' & E & Hev).
        { rewrite Vn, Vf, Vh. exact Hs2. }
        { lia. }
        exists m'. unfold lastRef in *. rewrite last_snoc in *.
        rewrite E2. rewrite Hhead. split; [exact E|].
        destruct Hev as [H1 H2 H3 H4 H5].
        assert (Hp2 : ptw (fun k z => if bool_decide (k = i) then ageBy ms x else z)
                          (part_store (emitter m)) (part_store (emitter m2))).
        { rewrite Hst2.
          eapply ptw_ext; [|eapply ptw_trans;
            [| apply (ptw_relink _ j xj (next x) Hxj)
             | eapply (ptw_insert_payload _ i x _ (ageBy ms x))]].
          - intros k z _. reflexivity.
          - intros k a b Hab. destruct (bool_decide (k = i)); [reflexivity | exact Hab].
          - rewrite list_lookup_insert_ne by congruence. exact Hx.
          - reflexivity. }
        rewrite (filter_after_age ms i x _ _ rest negb Hp2 Hi_rest Hrest_in) in H1.
        rewrite (filter_after_age_id ms i x _ _ rest Hp2 Hi_rest Hrest_in) in H1, H2.
        split.
        -- simpl List.filter. rewrite HexAt. simpl negb. cbv iota.
           simpl rev. rewrite <- (app_assoc _ [i] free). exact H1.
        -- simpl List.filter. rewrite HexAt. simpl length. rewrite H2, Vc. lia.
        -- rewrite H3. exact Vcap.
        -- rewrite H4. exact Hh2.
        -- eapply ptw_aged_cons; eauto.
    + (* the slot is kept *)
      rewrite (evict_keep fuel ms (lastRef done) i x m Hx Hex).
      set (m1 := putSlot i (ageBy ms x) m).
      assert (Hn1 : nexts m1 = nexts m).
      { apply (nexts_putSlot_same i x); [exact Hx | reflexivity]. }
      destruct (IH (done ++ [i]) free m1 fuel) as (m' & E & Hev).
      { rewrite Hn1. rewrite <- app_assoc. exact Hs. }
      { lia. }
      exists m'. unfold lastRef in E. rewrite last_snoc in E.
      rewrite Hhead. split; [exact E|].
      destruct Hev as [H1 H2 H3 H4 H5].
      assert (Hp2 : ptw (fun k z => if bool_decide (k = i) then ageBy ms x else z)
                        (part_store (emitter m)) (part_store (emitter m1))).
      { unfold m1. cbn. eapply ptw_insert_payload; [exact Hx | reflexivity]. }
      rewrite (filter_after_age ms i x _ _ rest negb Hp2 Hi_rest Hrest_in) in H1.
      rewrite (filter_after_age_id ms i x _ _ rest Hp2 Hi_rest Hrest_in) in H1, H2.
      split.
      * simpl List.filter. rewrite HexAt. simpl negb. cbv iota.
        rewrite <- app_assoc in H1. exact H1.
      * simpl List.filter. rewrite HexAt. exact H2.
      * exact H3.
      * exact H4.
      * eapply ptw_aged_cons; eauto.
Qed.

(** ** The physics pass changes payloads only *)

Lemma slotRel_refl x : slotRel x x.
Proof. split; [reflexivity | left; reflexivity]. Qed.

Lemma slotRel_trans x y z : slotRel x y -> slotRel y z -> slotRel x z.
Proof.
  unfold slotRel, lifeRel. intros [Ha Hl] [Ha' Hl']. split; [congruence|]. lia.
Qed.

#[local] Instance agesKept_preorder : PreOrder agesKept.
Proof.
  split.
  - intros m. unfold agesKept. apply Forall2_same_length_lookup_2; [reflexivity|].
    intros i x y Hx Hy. rewrite Hx in Hy. injection Hy as <-. apply slotRel_refl.
  - intros a b c H1 H2. unfold agesKept in *.
    eapply Forall2_trans; [|exact H1|exact H2]. intros x y z. apply slotRel_trans.
Qed.

Lemma agesKept_insert (st : list Particle) i x y :
  st !! i = Some x -> slotRel x y -> Forall2 slotRel st (<[i := y]> st).
Proof.
  intros Hx Hr. apply Forall2_same_length_lookup_2; [rewrite length_insert; reflexivity|].
  intros k a b Ha Hb. destruct (decide (k = i)) as [->|Hne].
  - rewrite list_lookup_insert_eq in Hb by (eapply lookup_lt_Some; eauto).
    rewrite Hx in Ha. injection Ha as <-. injection Hb as <-. exact Hr.
  - rewrite list_lookup_insert_ne in Hb by congruence.
    rewrite Ha in Hb. injection Hb as <-. apply slotRel_refl.
Qed.

Ltac ages_leaf :=
  intros; unfold agesKept; cbn;
  first
    [ apply agesKept_preorder
    | eapply agesKept_insert; [eassumption|];
      split; cbn;
      [ try reflexivity;
        match goal with |- context [totalLifetime ?x <? 1] =>
          destruct (totalLifetime x <? 1); reflexivity end
      | unfold lifeRel;
        try (left; reflexivity);
        match goal with |- context [totalLifetime ?x <? 1] =>
          destruct (Z.ltb_spec (totalLifetime x) 1); cbn; [right; auto | left; reflexivity]
        end ] ].

Ltac ages_go := repeat (steps_step ages_leaf).

Lemma keyLoop_agesKept remaining i part t : steps agesKept (keyLoop remaining i part t).
Proof. revert i. induction remaining as [|r IH]; intros i; simpl; ages_go. apply IH. Qed.

Lemma updateKeyData_agesKept part : steps agesKept (updateKeyData part).
Proof. unfold updateKeyData. ages_go. apply keyLoop_agesKept. Qed.

Lemma updateParticle_agesKept ms part : steps agesKept (updateParticle ms part).
Proof. unfold updateParticle. ages_go; apply updateKeyData_agesKept. Qed.

Lemma update_agesKept ms : steps agesKept (update ms).
Proof. unfold update, walkFuel. ages_go. apply updateParticle_agesKept. Qed.

Lemma keyLoop_pool remaining i part t : steps (viewEq poolView) (keyLoop remaining i part t).
Proof. revert i. induction remaining as [|r IH]; intros i; simpl; steps_go. apply IH. Qed.

Lemma updateKeyData_pool part : steps (viewEq poolView) (updateKeyData part).
Proof. unfold updateKeyData. steps_go. apply keyLoop_pool. Qed.

Lemma updateParticle_pool ms part : steps (viewEq poolView) (updateParticle ms part).
Proof. unfold updateParticle. steps_go; apply updateKeyData_pool. Qed.

Lemma update_pool ms : steps (viewEq poolView) (update ms).
Proof. unfold update, walkFuel. steps_go. apply updateParticle_pool. Qed.

Lemma updateParticle_fueled ms part : fueled (updateParticle ms part).
Proof. unfold updateParticle. fueled_go; apply updateKeyData_fueled. Qed.

Lemma forParts_ends body l : forall fuel part m,
  lseg (nexts m) part l -> (length l <= fuel)%nat ->
  (forall p, steps (viewEq poolView) (body p)) -> (forall p, fueled (body p)) ->
  ~ ranOut (forParts fuel part body m).
Proof.
  induction l as [|i l IH]; intros fuel part m Hl Hfuel Hs Hf.
  - unfold lseg in Hl. simpl in Hl. subst part. destruct fuel; simpl; auto.
  - destruct Hl as (-> & nx & Hnx & Hrest).
    destruct fuel as [|fuel]; [simpl in Hfuel; lia|]. simpl in Hfuel.
    cbn [forParts]. unfold bind at 1.
    pose proof (Hs (Some i) m) as Hv. pose proof (Hf (Some i) m) as Hnf.
    destruct (body (Some i) m) as [a m1|f m1|m1]; simpl in *; auto; [|discriminate].
    apply pair_equal_spec in Hv as [Hv _].
    apply linksView_inv in Hv as (Hns & _).
    change (map next (part_store (emitter m))) with (nexts m) in Hns.
    rewrite <- Hns in Hnx, Hrest.
    destruct (nexts_lookup m1 i nx Hnx) as (x & Hx & <-).
    rewrite (bind_done _ _ _ _ _ (deref_done m1 i x Hx)).
    apply IH; auto. lia.
Qed.

Lemma agedStore_of ms live (st st1 st2 : list Particle) :
  ptw (agedSlots ms live) st st1 -> Forall2 slotRel st1 st2 -> agedStore ms live st st2.
Proof.
  intros [Hlen Hp] H2. split.
  - rewrite <- Hlen. symmetry. eapply Forall2_length; eauto.
  - intros k x Hx. destruct (Hp k x Hx) as (y & Hy & Hpay).
    destruct (Forall2_lookup_l _ _ _ _ _ H2 Hy) as (z & Hz & Ha & Hl).
    exists z. split; [exact Hz|]. split.
    + rewrite Ha. rewrite (f_equal currentAge Hpay : currentAge y = _).
      unfold agedSlots. destruct (bool_decide (k ∈ live)); reflexivity.
    + rewrite (f_equal totalLifetime Hpay : totalLifetime y = _) in Hl.
      unfold agedSlots in Hl. destruct (bool_decide (k ∈ live)); exact Hl.
Qed.

(** The ageing pass ends; its last state, reached by a return or by a
    fault inside [update], has the expired slots on the free list, the
    others on the live list in their old order, and every live age
    advanced by [ms]. *)
Lemma agePass_spec ms m live free :
  pool_at m live free ->
  ~ ranOut (agePass ms m) /\
  pool_at (stateOf (agePass ms m)) (keptOf m ms live) (rev (goneOf m ms live) ++ free) /\
  agedStore ms live (part_store (emitter m)) (part_store (emitter (stateOf (agePass ms m)))) /\
  spawnView (stateOf (agePass ms m)) = spawnView m.
Proof.
  intros (Hs & Hn & Hc). unfold agePass, walkFuel.
  rewrite (bind_done _ _ m (length (part_store (emitter m))) m) by reflexivity.
  rewrite (bind_done _ _ m (emitter m) m) by reflexivity.
  assert (Hhd : part_list_head (emitter m) = head live).
  { apply (lseg_head (nexts m)). apply Hs. }
  destruct (evictLoop_spec ms live [] free m (length (part_store (emitter m)))) as
    (m1 & E1 & [H1 H2 H3 H4 H5]).
  { exact Hs. }
  { destruct (shape_live_fuel _ _ _ _ _ Hs) as [Hle _]. unfold nexts in Hle.
    rewrite length_map in Hle. exact Hle. }
  change (lastRef []) with ListHead in E1. rewrite <- Hhd in E1.
  rewrite (bind_done _ _ _ _ _ E1).
  rewrite (bind_done _ _ m1 (emitter m1) m1) by reflexivity.
  simpl app in H1. fold (keptOf m ms live) in H1. fold (goneOf m ms live) in H1, H2.
  assert (Hp1 : pool_at m1 (keptOf m ms live) (rev (goneOf m ms live) ++ free)).
  { split; [exact H1|]. split.
    - rewrite H2, Hn. unfold keptOf, goneOf.
      pose proof (List.filter_length (expiresAt (part_store (emitter m)) ms) live) as Hfl.
      lia.
    - rewrite H3, Hc. rewrite length_app, length_rev. unfold keptOf, goneOf.
      pose proof (List.filter_length (expiresAt (part_store (emitter m)) ms) live) as Hfl.
      lia. }
  assert (Hsp1 : spawnView m1 = spawnView m).
  { unfold hostView in H4. unfold spawnView. congruence. }
  assert (Hassert : assertFatal (0 <=? n_parts (emitter m1))
                      "GraphEmitter: negative part count!" m1 = Done tt m1).
  { unfold assertFatal. destruct Hp1 as (_ & -> & _).
    replace (0 <=? Z.of_nat (length (keptOf m ms live))) with true
      by (symmetry; apply Z.leb_le; lia).
    rewrite andb_false_r. reflexivity. }
  rewrite (bind_done _ _ _ _ _ Hassert).
  assert (Hst1 : agedStore ms live (part_store (emitter m)) (part_store (emitter m1))).
  { eapply agedStore_of; [exact H5|]. apply agesKept_preorder. }
  destruct ((n_parts (emitter m1) <? 1) && mDeleteWhenEmpty (emitter m1)).
  { cbv [modE stateOf ranOut]. split; [tauto|]. split; [exact Hp1|]. split; assumption. }
  unfold when. destruct (negb (ms =? 0) && (0 <? n_parts (emitter m1))).
  2:{ cbv [ret stateOf ranOut]. split; [tauto|]. split; [exact Hp1|]. split; assumption. }
  pose proof (update_pool ms m1) as Hv. pose proof (update_agesKept ms m1) as Ha.
  assert (Hends : ~ ranOut (update ms m1)).
  { unfold update, walkFuel.
    rewrite (bind_done _ _ m1 (length (part_store (emitter m1))) m1) by reflexivity.
    rewrite (bind_done _ _ m1 (emitter m1) m1) by reflexivity.
    apply (forParts_ends _ (keptOf m ms live)).
    - apply H1.
    - destruct (shape_live_fuel _ _ _ _ _ H1) as [Hle _]. unfold nexts in Hle.
      rewrite length_map in Hle. exact Hle.
    - intros p. apply updateParticle_pool.
    - intros p. apply updateParticle_fueled. }
  split; [exact Hends|].
  unfold viewEq in Hv. apply pair_equal_spec in Hv as [Hlinks Hhost].
  split; [|split].
  - eapply pool_at_links; [exact Hlinks | exact Hp1].
  - eapply agedStore_of; [exact H5 | exact Ha].
  - rewrite <- Hsp1. unfold hostView in Hhost. unfold spawnView. congruence.
Qed.

(** ** Spawns are counted by the history *)

Lemma steps_view_map {A V W} (v : Machine -> V) (w : Machine -> W) (c : M A) :
  (forall m m', v m' = v m -> w m' = w m) -> steps (viewEq v) c -> steps (viewEq w) c.
Proof. intros H Hs m. apply H. apply Hs. Qed.

Lemma bodyView_side m m' : bodyView m' = bodyView m -> sideView m' = sideView m.
Proof. unfold bodyView, sideView. intros H. congruence. Qed.

Lemma updateKeyData_side part : steps (viewEq sideView) (updateKeyData part).
Proof. eapply steps_view_map; [apply bodyView_side | apply updateKeyData_body]. Qed.

Lemma advanceNewest_side ms : steps (viewEq sideView) (advanceNewest ms).
Proof. unfold advanceNewest. steps_go. apply updateKeyData_side. Qed.

Lemma advanceNewest_fueled ms : fueled (advanceNewest ms).
Proof. unfold advanceNewest. fueled_go. apply updateKeyData_fueled. Qed.

Lemma allocPrimBuffer_fueled size : fueled (allocPrimBuffer size).
Proof. unfold allocPrimBuffer. fueled_go. Qed.

Lemma allocParticle_fueled : fueled allocParticle.
Proof.
  unfold allocParticle, growPool, takeSlot, pushFree. fueled_go.
  apply allocPrimBuffer_fueled.
Qed.

(** One call of [addParticle] is one entry of the history, at its own
    position argument; scheduling state is left alone. *)
Lemma spawn_logged (tail : option nat -> M unit) pos m :
  (forall p, steps (viewEq bodyView) (tail p)) -> (forall p, fueled (tail p)) ->
  wp (bind allocParticle (fun pNew => bind (emit (EvSpawn pos)) (fun _ => tail pNew))) m
     (fun _ m' => schedView m' = schedView m /\ spawnView m' = spawnView m ++ [pos])
     (fun _ m' => schedView m' = schedView m) (fun _ => False).
Proof.
  intros Hs Hf. apply wp_bind.
  pose proof (allocParticle_side m) as Hside. pose proof (allocParticle_fueled m) as Hfa.
  unfold wp. destruct (allocParticle m) as [p m1|f m1|m1]; simpl in Hside.
  - apply pair_equal_spec in Hside as [Hsched Hspawn].
    pose proof (Hs p (set_console (console m1 ++ [EvSpawn pos]) m1)) as Hv.
    pose proof (Hf p (set_console (console m1 ++ [EvSpawn pos]) m1)) as Hnf.
    change (bind (emit (EvSpawn pos)) (fun _ => tail p) m1)
      with (tail p (set_console (console m1 ++ [EvSpawn pos]) m1)).
    assert (Hsp1 : spawnView (set_console (console m1 ++ [EvSpawn pos]) m1)
                   = spawnView m ++ [pos]).
    { unfold spawnView in *. cbn. rewrite spawnsOf_app, Hspawn. reflexivity. }
    destruct (tail p _) as [a m2|f m2|m2]; simpl in Hv.
    + apply pair_equal_spec in Hv as [Hv Hsp]. apply pair_equal_spec in Hv as [_ Hsch].
      split; [rewrite Hsch; exact Hsched | rewrite Hsp; exact Hsp1].
    + apply pair_equal_spec in Hv as [Hv Hsp]. apply pair_equal_spec in Hv as [_ Hsch].
      rewrite Hsch. exact Hsched.
    + discriminate.
  - apply pair_equal_spec in Hside as [Hsched _]. exact Hsched.
  - discriminate.
Qed.

Lemma addParticle_node_logged pos axis vel axisx n m :
  wp (addParticle_node pos axis vel axisx n) m
     (fun _ m' => schedView m' = schedView m /\ spawnView m' = spawnView m ++ [pos])
     (fun _ m' => schedView m' = schedView m) (fun _ => False).
Proof.
  unfold addParticle_node.
  apply (spawn_logged (fun pNew => launch_node pNew pos axis vel axisx n)).
  - intros p. apply launch_node_body.
  - intros p. apply launch_node_fueled.
Qed.

Lemma addParticle_logged pos axis vel axisx m :
  wp (addParticle pos axis vel axisx) m
     (fun _ m' => schedView m' = schedView m /\ spawnView m' = spawnView m ++ [pos])
     (fun _ m' => schedView m' = schedView m) (fun _ => False).
Proof.
  unfold addParticle. eapply wp_bind_done; [reflexivity|].
  set (m0 := set_console _ m).
  assert (Hs0 : schedView m0 = schedView m) by reflexivity.
  assert (Hp0 : spawnView m0 = spawnView m).
  { unfold spawnView, m0. cbn. apply spawnsOf_snoc. reflexivity. }
  eapply wp_mono;
    [apply (spawn_logged (fun pNew => launch pNew pos axis vel axisx) pos m0) | | | ].
  - intros p. apply launch_body.
  - intros p. apply launch_fueled.
  - intros u m' [H1 H2]. split; congruence.
  - intros f m' H1. cbv beta in H1 |- *. congruence.
  - auto.
Qed.

Ltac split_pairs :=
  repeat match goal with
         | H : (_, _) = (_, _) |- _ => apply pair_equal_spec in H; destruct H
         end.

Lemma schedView_period m m' :
  schedView m' = schedView m ->
  periodOf m' = periodOf m /\ varianceOf m' = varianceOf m /\
  overrideAdvance (datablock m') = overrideAdvance (datablock m) /\
  mNextParticleTime (emitter m') = mNextParticleTime (emitter m) /\
  mInternalClock (emitter m') = mInternalClock (emitter m).
Proof.
  unfold schedView, periodOf, varianceOf, nodeConfig. intros H. split_pairs.
  match goal with
  | Hd : set_partListInitSize 0 (datablock m') = set_partListInitSize 0 (datablock m) |- _ =>
      pose proof (f_equal ejectionPeriodMS Hd) as Hp;
      pose proof (f_equal periodVarianceMS Hd) as Hv;
      pose proof (f_equal overrideAdvance Hd) as Ho; clear Hd
  end.
  cbn in Hp, Hv, Ho.
  repeat match goal with
         | H : ?l = _ |- context [?l] => rewrite H; clear H
         end.
  auto.
Qed.

Lemma choosePeriod_const m :
  varianceOf m = 0 -> choosePeriod NodeObj m = Done (periodOf m) m.
Proof.
  unfold varianceOf, periodOf, choosePeriod. intros Hv.
  cbv [bind derefNode getN getD ret]. rewrite Hv. reflexivity.
Qed.

Lemma assertFatal_true c msg m : c = true -> assertFatal c msg m = Done tt m.
Proof. intros ->. unfold assertFatal. rewrite andb_false_r. reflexivity. Qed.

Lemma u32_small z : 0 <= z < 2 ^ 32 -> u32 z = z.
Proof. intros H. unfold u32. apply Z.mod_small. exact H. Qed.

Lemma wp_side {A} (c : M A) m (QD : A -> Machine -> Prop) :
  steps (viewEq sideView) c -> fueled c ->
  (forall a m', sideView m' = sideView m -> QD a m') ->
  wp c m QD (fun _ _ => True) (fun _ => False).
Proof. apply wp_body. Qed.

Lemma emitLoop_count start end_ axis vel axisx D P :
  0 < P -> D + P < 2 ^ 32 ->
  forall fuel c added m,
  0 <= c -> c <= D -> periodOf m = P -> varianceOf m = 0 ->
  wp (emitLoop fuel start end_ axis vel axisx D NodeObj c added) m
     (fun _ m' =>
        spawnCount m' = spawnCount m + (D - c) / P /\
        mNextParticleTime (emitter m') =
          (if (D - c) mod P =? 0 then mNextParticleTime (emitter m)
           else P - (D - c) mod P) /\
        periodOf m' = P /\ varianceOf m' = 0)
     (fun _ _ => True)
     (fun _ => Z.of_nat fuel <= (D - c) / P).
Proof.
  intros HP Hwrap. induction fuel as [|fuel IH]; intros c added m Hc0 HcD Hper Hvar.
  - cbn [emitLoop]. destruct (c <? D) eqn:Hlt.
    + unfold wp, outOfFuel. simpl. apply Z.div_pos; lia.
    + apply Z.ltb_ge in Hlt. assert (c = D) as -> by lia.
      unfold wp, ret. rewrite Z.sub_diag, Z.div_0_l, Z.mod_0_l by lia.
      simpl. split; [lia | auto].
  - cbn [emitLoop]. destruct (c <? D) eqn:Hlt.
    2:{ apply Z.ltb_ge in Hlt. assert (c = D) as -> by lia.
        unfold wp, ret. rewrite Z.sub_diag, Z.div_0_l, Z.mod_0_l by lia.
        simpl. split; [lia | auto]. }
    apply Z.ltb_lt in Hlt.
    eapply wp_bind_done; [apply choosePeriod_const; exact Hvar|]. rewrite Hper.
    eapply wp_bind_done; [apply assertFatal_true; apply Z.ltb_lt; exact HP|].
    rewrite (u32_small (c + P)) by lia.
    destruct (c + P >? D) eqn:Hcross.
    + rewrite Z.gtb_ltb in Hcross. apply Z.ltb_lt in Hcross.
      wp_prim. wp_prim. wp_prim.
      rewrite (u32_small (c + P - D)) by lia.
      eapply wp_bind_done.
      { apply assertFatal_true. cbn. apply Z.ltb_lt. lia. }
      unfold wp, ret. cbn [emitter set_emitter mNextParticleTime set_mNextParticleTime
                           set_mInternalClock].
      rewrite (Z.div_small (D - c) P) by lia. rewrite (Z.mod_small (D - c) P) by lia.
      replace (D - c =? 0) with false by (symmetry; apply Z.eqb_neq; lia).
      split; [unfold spawnCount, spawnView; cbn; lia|].
      split; [lia|]. split; [exact Hper | exact Hvar].
    + rewrite Z.gtb_ltb in Hcross. apply Z.ltb_ge in Hcross.
      wp_prim.
      set (m1 := set_emitter _ m).
      assert (Hper1 : periodOf m1 = P) by exact Hper.
      assert (Hvar1 : varianceOf m1 = 0) by exact Hvar.
      assert (Hcnt1 : spawnCount m1 = spawnCount m) by reflexivity.
      assert (Hnext1 : mNextParticleTime (emitter m1) = mNextParticleTime (emitter m))
        by reflexivity.
      clearbody m1.
      apply wp_bind.
      eapply wp_mono; [apply addParticle_node_logged | | auto | intros ? []].
      intros u2 m2 [Hsch2 Hsp2]. cbv beta.
      destruct (schedView_period _ _ Hsch2) as (Hp2 & Hv2 & Ho2 & Hn2 & _).
      wp_prim.
      apply wp_bind.
      eapply wp_mono;
        [apply (wp_side (when _ (advanceNewest _)) m2
                  (fun _ m3 => sideView m3 = sideView m2)) | | auto | intros ? []].
      { apply steps_when; [apply _ | apply advanceNewest_side]. }
      { apply never_when. apply advanceNewest_fueled. }
      { auto. }
      intros u3 m3 Hside3. cbv beta in Hside3 |- *.
      apply pair_equal_spec in Hside3 as [Hsch3 Hsp3].
      destruct (schedView_period _ _ Hsch3) as (Hp3 & Hv3 & Ho3 & Hn3 & _).
      eapply wp_mono; [apply (IH (c + P) true m3); try lia; congruence | | auto | ].
      * intros u4 m' (H1 & H2 & H3 & H4). cbv beta.
        assert (Hdiv : (D - c) / P = 1 + (D - (c + P)) / P).
        { replace (D - c) with (1 * P + (D - (c + P))) by lia.
          rewrite Z.div_add_l by lia. lia. }
        assert (Hmod : (D - c) mod P = (D - (c + P)) mod P).
        { replace (D - c) with ((D - (c + P)) + 1 * P) by lia.
          apply Z.mod_add. lia. }
        rewrite Hdiv, Hmod. split; [|split; [|auto]].
        -- rewrite H1. unfold spawnCount in *. rewrite Hsp3, Hsp2, length_app in *.
           simpl length. lia.
        -- rewrite H2. rewrite Hn3, Hn2, Hnext1. reflexivity.
      * intros m' Hf. cbv beta in Hf |- *.
        replace (D - c) with (1 * P + (D - (c + P))) by lia.
        rewrite Z.div_add_l by lia. lia.
Qed.

Lemma schedView_config m m' : schedView m' = schedView m -> configView m' = configView m.
Proof. unfold schedView, configView. intros H. split_pairs. congruence. Qed.

Lemma configView_period m m' :
  configView m' = configView m ->
  periodOf m' = periodOf m /\ varianceOf m' = varianceOf m /\
  mDead (emitter m') = mDead (emitter m) /\ timeBoxed (emitter m') = timeBoxed (emitter m) /\
  particleDataBlocks (datablock m') = particleDataBlocks (datablock m).
Proof.
  unfold configView, periodOf, varianceOf, nodeConfig, timeBoxed. intros H. split_pairs.
  match goal with
  | Hd : set_partListInitSize 0 (datablock m') = set_partListInitSize 0 (datablock m) |- _ =>
      pose proof (f_equal ejectionPeriodMS Hd) as Hp;
      pose proof (f_equal periodVarianceMS Hd) as Hv;
      pose proof (f_equal particleDataBlocks Hd) as Ho; clear Hd
  end.
  cbn in Hp, Hv, Ho.
  repeat match goal with
         | H : ?l = _ |- context [?l] => rewrite H; clear H
         end.
  auto.
Qed.

Lemma emitTail_view added end_ :
  steps (viewEq tailView)
    (bind (when added updateBBox) (fun _ =>
     bind joinScene (fun _ =>
     bind (modE (set_mLastPosition end_)) (fun _ => modE (set_mHasLastPosition true))))).
Proof.
  unfold updateBBox, joinScene. repeat (steps_step ltac:(intros; unfold viewEq, tailView, configView, spawnView; cbn; rewrite ?spawnsOf_snoc by reflexivity; reflexivity)).
Qed.

Lemma emitTail_fueled added end_ :
  fueled
    (bind (when added updateBBox) (fun _ =>
     bind joinScene (fun _ =>
     bind (modE (set_mLastPosition end_)) (fun _ => modE (set_mHasLastPosition true))))).
Proof. unfold updateBBox, joinScene. fueled_go. Qed.

Lemma emitFrom_count start end_ axis vel axisx D P fuel c added m :
  0 < P -> D + P < 2 ^ 32 -> 0 <= c -> c <= D ->
  periodOf m = P -> varianceOf m = 0 -> mNextParticleTime (emitter m) = 0 ->
  wp (emitFrom fuel start end_ axis vel axisx D NodeObj c added) m
     (fun _ m' =>
        spawnCount m' = spawnCount m + (D - c) / P /\
        mNextParticleTime (emitter m') = pendingAfter D P c)
     (fun _ _ => True)
     (fun _ => Z.of_nat fuel <= (D - c) / P).
Proof.
  intros HP Hw Hc0 HcD Hper Hvar Hnext. unfold emitFrom. apply wp_bind.
  eapply wp_mono; [apply (emitLoop_count start end_ axis vel axisx D P HP Hw fuel c added m);
                   assumption | | auto | auto].
  intros b m1 (H1 & H2 & H3 & H4). cbv beta.
  eapply wp_mono; [apply (wp_body _ tailView _ m1
                            (fun _ m' => tailView m' = tailView m1));
                   [apply emitTail_view | apply emitTail_fueled | auto] | | auto | intros ? []].
  intros u m' Hv. cbv beta in Hv |- *. unfold tailView in Hv. split_pairs.
  unfold spawnCount in *. unfold pendingAfter. rewrite Hnext in H2.
  split; congruence.
Qed.

Lemma spawnPending_count start end_ axis vel axisx D n m :
  0 <= mNextParticleTime (emitter m) < 2 ^ 32 ->
  wp (spawnPending start end_ axis vel axisx D n) m
     (fun c m' =>
        c = mNextParticleTime (emitter m) /\
        spawnView m' = spawnView m ++
          [interpolate start end_
             (f_div (f_of_int (mNextParticleTime (emitter m))) (f_of_int D))] /\
        mNextParticleTime (emitter m') = 0 /\
        mInternalClock (emitter m') =
          u32 (mInternalClock (emitter m) + mNextParticleTime (emitter m)) /\
        configView m' = configView m)
     (fun _ _ => True) (fun _ => False).
Proof.
  intros Hr. unfold spawnPending. wp_prim. wp_prim.
  rewrite Z.add_0_l, (u32_small _ Hr).
  set (m1 := set_emitter _ m).
  apply wp_bind.
  eapply wp_mono; [apply addParticle_node_logged | | auto | auto].
  intros u m2 [Hsch Hsp]. cbv beta. wp_prim.
  unfold wp, ret.
  destruct (schedView_period _ _ Hsch) as (_ & _ & _ & _ & Hclk).
  apply schedView_config in Hsch.
  split; [reflexivity|]. split; [exact Hsp|]. split; [reflexivity|].
  split; [exact Hclk | exact Hsch].
Qed.

(** ** The pool invariant through every entry point *)

Lemma keeps_ret {A} (a : A) : keeps (ret a).
Proof. intros m H. exact H. Qed.

Lemma keeps_bind {A B} (c : M A) (k : A -> M B) :
  keeps c -> (forall a, keeps (k a)) -> keeps (bind c k).
Proof.
  intros Hc Hk m H. apply wp_bind. eapply wp_mono; [apply Hc; exact H | | auto | auto].
  intros a m' H'. apply Hk. exact H'.
Qed.

Lemma keeps_links {A} (c : M A) : steps (viewEq linksView) c -> keeps c.
Proof.
  intros Hs m (live & free & Hp). eapply wp_steps; [exact Hs | | auto | auto].
  intros a m' Hv. exists live, free. eapply pool_at_links; eauto.
Qed.

Lemma keeps_when (b : bool) (c : M unit) : keeps c -> keeps (when b c).
Proof. intros H. unfold when. destruct b; [exact H | apply keeps_ret]. Qed.

Lemma keeps_forEach {A} (l : list A) (f : A -> M unit) :
  (forall a, keeps (f a)) -> keeps (forEach l f).
Proof.
  intros H. induction l as [|a l IH]; simpl.
  - apply keeps_ret.
  - apply keeps_bind; [apply H | intros _; exact IH].
Qed.

Lemma keeps_addParticle pos axis vel axisx : keeps (addParticle pos axis vel axisx).
Proof.
  intros m (live & free & Hp).
  eapply wp_mono; [apply (addParticle_spec pos axis vel axisx m live free Hp) | | auto | auto].
  intros u m' ((i & free' & Hp' & _) & _). exists (i :: live), free'. exact Hp'.
Qed.

Lemma choosePeriod_links n : steps (viewEq linksView) (choosePeriod n).
Proof. unfold choosePeriod, variance. steps_go. Qed.

Lemma joinScene_links : steps (viewEq linksView) joinScene.
Proof. unfold joinScene. steps_go. Qed.

Lemma updateKeyData_links part : steps (viewEq linksView) (updateKeyData part).
Proof.
  eapply steps_view_map; [|apply updateKeyData_body].
  unfold bodyView. intros m m' H. congruence.
Qed.

(** The override-advance block on the newest particle [i]: the particle
    stays at the head of the live list, or it moves to the head of the
    free list and the count drops by one. *)
Lemma advanceNewest_spec ms m i live free :
  pool_at m (i :: live) free ->
  wp (advanceNewest ms) m
     (fun _ m' =>
        exists x, part_store (emitter m) !! i = Some x /\
          if ms >? totalLifetime x
          then pool_at m' live (i :: free)
          else pool_at m' (i :: live) free)
     (fun _ _ => True) (fun _ => False).
Proof.
  intros Hp. assert (Hp0 := Hp). destruct Hp as (Hs & Hn & Hc).
  assert (Hs0 := Hs). destruct Hs as ((Hhd & nx & Hnx & Hrest) & _).
  destruct (nexts_lookup m i nx Hnx) as (x & Hx & Hnext).
  unfold advanceNewest. wp_prim. rewrite Hhd.
  eapply wp_bind_done; [apply (deref_done m i x Hx)|].
  destruct (ms >? totalLifetime x) eqn:Hgt.
  - wp_prim. wp_prim. wp_prim. unfold wp. mrun. rewrite Hx. cbn.
    exists x. split; [reflexivity|]. rewrite Hgt.
    split; [|split].
    + unfold nexts. cbn. rewrite list_fmap_insert. cbn. rewrite Hnext.
      rewrite Hhd in Hs0. apply shape_release; [exact Hs0 | exact Hnx].
    + cbn. rewrite Hn. rewrite length_cons. lia.
    + cbn. rewrite Hc. rewrite !length_cons. f_equal. lia.
  - eapply wp_mono;
      [apply (wp_body _ linksView _ m (fun _ m' => linksView m' = linksView m)) | | auto | auto].
    + unfold when. steps_go. apply updateKeyData_links.
    + fueled_go. apply updateKeyData_fueled.
    + auto.
    + intros u m' Hv. cbv beta in Hv |- *. exists x. split; [exact Hx|]. rewrite Hgt.
      eapply pool_at_links; eauto.
Qed.

Lemma keeps_emitLoop start end_ axis vel axisx D n : forall fuel c added,
  keeps (emitLoop fuel start end_ axis vel axisx D n c added).
Proof.
  induction fuel as [|fuel IH]; intros c added; cbn [emitLoop].
  - destruct (c <? D); [|apply keeps_ret]. intros m _. exact I.
  - destruct (c <? D); [|apply keeps_ret].
    apply keeps_bind; [apply keeps_links, choosePeriod_links|]. intros nextTime.
    apply keeps_bind; [apply keeps_links; steps_go|]. intros _.
    destruct (u32 (c + nextTime) >? D).
    + apply keeps_links. steps_go.
    + apply keeps_bind; [apply keeps_links; steps_go|]. intros _.
      intros m (live & free & Hp). apply wp_bind.
      eapply wp_mono; [apply (addParticle_node_spec _ axis vel axisx n m live free Hp)
                      | | auto | intros ? []].
      intros u m1 ((i & free' & Hp1 & Hh1) & _). cbv beta.
      wp_prim. apply wp_bind. unfold when.
      destruct (negb (overrideAdvance (datablock m1)) && negb (u32 (D - u32 (c + nextTime)) =? 0)).
      * eapply wp_mono; [apply (advanceNewest_spec _ m1 i live free' Hp1) | | auto | intros ? []].
        intros u1 m2 (x & _ & Hx). cbv beta. apply IH.
        destruct (_ >? _); eexists _, _; exact Hx.
      * unfold wp at 1, ret. apply IH. eexists _, _; exact Hp1.
Qed.

Lemma keeps_emitParticles fuel start end_ axis vel D n :
  keeps (emitParticles fuel start end_ axis vel D n).
Proof.
  unfold emitParticles, emitFrom, spawnPending, updateBBox.
  apply keeps_bind; [apply keeps_links; steps_go|]. intros e.
  destruct (mDead e); [apply keeps_ret|].
  apply keeps_bind; [apply keeps_links; steps_go|]. intros d.
  destruct (bool_decide _); [apply keeps_ret|].
  destruct (timeBoxed e); [apply keeps_ret|]. cbv zeta.
  destruct (negb (mNextParticleTime e =? 0) && (mNextParticleTime e >? D)).
  { apply keeps_links. steps_go. }
  apply keeps_bind.
  { destruct (negb (mNextParticleTime e =? 0)); [|apply keeps_ret].
    apply keeps_bind; [apply keeps_links; steps_go|]. intros e1.
    apply keeps_bind; [apply keeps_links; steps_go|]. intros _.
    apply keeps_bind.
    - intros m (live & free & Hp).
      eapply wp_mono; [apply (addParticle_node_spec _ axis vel _ n m live free Hp)
                      | | auto | auto].
      intros u m1 ((i & free' & Hp1 & _) & _). eexists _, _; exact Hp1.
    - intros _. apply keeps_links. steps_go. }
  intros c. apply keeps_bind; [apply keeps_emitLoop|]. intros added.
  apply keeps_links. unfold joinScene. steps_go.
Qed.

Lemma keeps_emitParticles_point fuel point useLast axis vel D :
  keeps (emitParticles_point fuel point useLast axis vel D).
Proof.
  unfold emitParticles_point.
  apply keeps_bind; [apply keeps_links; steps_go|]. intros _.
  apply keeps_bind; [apply keeps_links; steps_go|]. intros e.
  destruct (mDead e); [apply keeps_ret|].
  destruct (timeBoxed e); [apply keeps_ret|]. apply keeps_emitParticles.
Qed.

Lemma keeps_emitParticles_hemisphere rCenter rNormal radius vel count :
  keeps (emitParticles_hemisphere rCenter rNormal radius vel count).
Proof.
  unfold emitParticles_hemisphere.
  apply keeps_bind; [apply keeps_links; steps_go|]. intros _.
  apply keeps_bind; [apply keeps_links; steps_go|]. intros e.
  destruct (mDead e); [apply keeps_ret|].
  destruct (timeBoxed e); [apply keeps_ret|]. cbv zeta.
  apply keeps_bind.
  - apply keeps_forEach. intros k.
    apply keeps_bind; [apply keeps_links; steps_go|]. intros r1.
    apply keeps_bind; [apply keeps_links; steps_go|]. intros r2.
    apply keeps_bind; [apply keeps_links; steps_go|]. intros r3.
    apply keeps_addParticle.
  - intros _. apply keeps_links. unfold joinScene. steps_go.
Qed.

Lemma keeps_agePass ms : keeps (agePass ms).
Proof.
  intros m (live & free & Hp).
  destruct (agePass_spec ms m live free Hp) as (_ & Hp' & _).
  unfold wp. destruct (agePass ms m); simpl in Hp'; auto.
  eexists _, _; exact Hp'.
Qed.

Lemma keeps_advanceTime dt : keeps (advanceTime dt).
Proof.
  unfold advanceTime, tick. destruct (f_ltb dt _); [apply keeps_ret|].
  apply keeps_bind; [apply keeps_links; steps_go|]. intros _.
  apply keeps_bind; [apply keeps_links; steps_go|]. intros e.
  destruct (mDead e); [apply keeps_ret|].
  apply keeps_bind; [apply keeps_links; steps_go|]. intros _. cbv zeta.
  destruct (_ =? 0); [apply keeps_ret | apply keeps_agePass].
Qed.

Lemma collectParts_links : forall fuel part, steps (viewEq linksView) (collectParts fuel part).
Proof.
  induction fuel as [|fuel IH]; intros part; cbn [collectParts]; destruct part; steps_go.
  apply IH.
Qed.

Lemma copyToVB_links : steps (viewEq linksView) copyToVB.
Proof. unfold copyToVB, walkFuel. steps_go; apply collectParts_links. Qed.

Lemma keeps_prepRenderImage r s : keeps (prepRenderImage r s).
Proof.
  apply keeps_links. unfold prepRenderImage. steps_go. apply copyToVB_links.
Qed.

(** ** Sessions: any sequence of calls into the emitter *)

Lemma pool_ok_sound m : pool_ok m = true -> pool_inv m.
Proof.
  unfold pool_ok.
  destruct (listFrom _ _ (part_list_head _)) as [live|] eqn:El; [|discriminate].
  destruct (listFrom _ _ (part_freelist _)) as [free|] eqn:Ef; [|discriminate].
  rewrite !andb_true_iff. intros [[[Hnd Hlen] Hn] Hc].
  apply bool_decide_eq_true in Hnd. apply Nat.eqb_eq in Hlen.
  apply Z.eqb_eq in Hn. apply Z.eqb_eq in Hc.
  exists live, free. split; [|split; assumption].
  split; [eapply listFrom_lseg; eauto|]. split; [eapply listFrom_lseg; eauto|].
  split; [exact Hnd|]. unfold nexts. rewrite length_map. exact Hlen.
Qed.

Lemma keeps_call c : keeps (call c).
Proof.
  destruct c as [p a v ax|p a v ax n| | | | |]; simpl.
  - apply keeps_addParticle.
  - intros m (live & free & Hp).
    eapply wp_mono; [apply (addParticle_node_spec p a v ax n m live free Hp)
                    | | auto | auto].
    intros u m' ((i & free' & Hp' & _) & _). exists (i :: live), free'. exact Hp'.
  - apply keeps_emitParticles.
  - apply keeps_emitParticles_point.
  - apply keeps_emitParticles_hemisphere.
  - apply keeps_advanceTime.
  - apply keeps_prepRenderImage.
Qed.

Lemma keeps_session cs : keeps (session cs).
Proof. apply keeps_forEach. apply keeps_call. Qed.

(** The pool that [onNewDataBlock] creates *)




Lemma forEach_app {A} (l1 l2 : list A) (f : A -> M unit) m :
  forEach (l1 ++ l2) f m = bind (forEach l1 f) (fun _ => forEach l2 f) m.
Proof.
  revert m. induction l1 as [|a l1 IH]; intros m; simpl.
  - reflexivity.
  - unfold bind. destruct (f a m) as [[] m1| |]; [|reflexivity|reflexivity].
    rewrite IH. reflexivity.
Qed.

(** C1.  Pool conservation and disjointness.  From a machine whose pool
    is well formed, take any sequence of calls into the emitter
    (addParticle in both overloads, the three emitParticles overloads with
    their advance-collapse block, advanceTime with its eviction walk,
    prepRenderImage) that returns, and any point between two of its
    calls.  The calls before that point have returned, and in the machine
    they leave the live list and the free list are two walks [live] and
    [free] over the slots such that n_parts is the length of [live],
    n_parts plus the length of [free] is n_part_capacity, no slot is twice
    in [free], and no slot is in both. *)
Theorem pool_conservation (before after : list Call) (m m' : Machine) :
  pool_inv m ->
  session (before ++ after) m = Done tt m' ->
  exists m1,
    session before m = Done tt m1 /\
    exists live free,
      lseg (nexts m1) (part_list_head (emitter m1)) live /\
      lseg (nexts m1) (part_freelist (emitter m1)) free /\
      n_parts (emitter m1) = Z.of_nat (length live) /\
      n_parts (emitter m1) + Z.of_nat (length free) = n_part_capacity (emitter m1) /\
      NoDup free /\
      (forall i, i ∈ live -> i ∉ free).
Proof.
  intros Hinv Hrun. unfold session in Hrun. rewrite forEach_app in Hrun.
  unfold bind in Hrun. fold (session before) in Hrun.
  pose proof (keeps_session before m Hinv) as H. unfold wp in H.
  destruct (session before m) as [[] m1| |]; try discriminate.
  exists m1. split; [reflexivity|].
  destruct H as (live & free & (Hl & Hf & Hnd & _) & Hn & Hc).
  exists live, free. split; [exact Hl|]. split; [exact Hf|]. split; [exact Hn|].
  split; [rewrite Hn, Hc, Nat2Z.inj_add; reflexivity|].
  apply NoDup_app in Hnd as (_ & Hdis & Hndf). split; assumption.
Qed.

(** ** advanceTime as one ageing pass *)

Lemma advanceTime_small dt m :
  f_ltb dt (f_dec 1 (-5)) = true -> advanceTime dt m = Done tt m.
Proof. intros H. unfold advanceTime. rewrite H. reflexivity. Qed.

Lemma advanceTime_tick dt m :
  f_ltb dt (f_dec 1 (-5)) = false ->
  advanceTime dt m = tick (clampDt dt) (logged (EvParentAdvanceTime dt) m).
Proof. intros H. unfold advanceTime. rewrite H. reflexivity. Qed.

Lemma tick_dead dt m : mDead (emitter m) = true -> tick dt m = Done tt m.
Proof. intros H. unfold tick. cbv [bind getE]. rewrite H. reflexivity. Qed.

Lemma advanceTime_pass dt m :
  f_ltb dt (f_dec 1 (-5)) = false -> mDead (emitter m) = false ->
  advanceTime dt m =
    if msOf dt =? 0 then Done tt (ticked dt m) else agePass (msOf dt) (ticked dt m).
Proof.
  intros H Hd. rewrite (advanceTime_tick dt m H). unfold tick.
  cbv [bind getE modE logged]. cbn [emitter set_console]. rewrite Hd.
  fold (msOf dt). destruct (msOf dt =? 0); reflexivity.
Qed.

Lemma ticked_pool dt m live free : pool_at m live free -> pool_at (ticked dt m) live free.
Proof. apply pool_at_links. reflexivity. Qed.

(** A call that reaches the ageing pass ends, leaves the slots that did
    not expire on the live list in their order, has pushed the others on
    the free list, and has advanced the age of every live slot. *)
Lemma advanceTime_ages dt m live free :
  pool_at m live free ->
  f_ltb dt (f_dec 1 (-5)) = false -> mDead (emitter m) = false -> msOf dt <> 0 ->
  ~ ranOut (advanceTime dt m) /\
  pool_at (stateOf (advanceTime dt m))
    (keptOf m (msOf dt) live) (rev (goneOf m (msOf dt) live) ++ free) /\
  agedStore (msOf dt) live (part_store (emitter m))
    (part_store (emitter (stateOf (advanceTime dt m)))) /\
  spawnView (stateOf (advanceTime dt m)) = spawnView m.
Proof.
  intros Hp He Hd Hms. rewrite (advanceTime_pass dt m He Hd).
  apply Z.eqb_neq in Hms. rewrite Hms.
  destruct (agePass_spec (msOf dt) (ticked dt m) live free (ticked_pool dt m live free Hp))
    as (H1 & H2 & H3 & H4).
  split; [exact H1|]. split; [exact H2|]. split; [exact H3|].
  rewrite H4. unfold spawnView, ticked, logged. cbn. apply spawnsOf_snoc. reflexivity.
Qed.

Lemma elem_of_keptOf m ms live i :
  i ∈ keptOf m ms live <->
  i ∈ live /\ expiresAt (part_store (emitter m)) ms i = false.
Proof.
  unfold keptOf. rewrite !list_elem_of_In, List.filter_In, negb_true_iff. reflexivity.
Qed.

Lemma elem_of_goneOf m ms live i :
  i ∈ goneOf m ms live <->
  i ∈ live /\ expiresAt (part_store (emitter m)) ms i = true.
Proof. unfold goneOf. rewrite !list_elem_of_In, List.filter_In. reflexivity. Qed.

Lemma lifeRel_le a b : lifeRel a b -> a <= b.
Proof. unfold lifeRel. lia. Qed.

(** C2.  Age eviction in the same pass.  After a call of advanceTime that
    reaches the ageing pass with [ms] = numMSToUpdate, the call has ended;
    the live list holds, in their old order, exactly the slots whose aged
    currentAge does not exceed their totalLifetime, and the free list
    holds the others (pushed in the order of the walk) before the old free
    list; every slot that was live has had its age advanced by [ms]; every
    slot on the live list has currentAge <= totalLifetime; and every slot
    whose aged currentAge exceeds its totalLifetime is off the live list
    and on the free list.  No slot is on both lists or twice on one. *)
Theorem eviction_same_pass dt m live free :
  pool_at m live free ->
  f_ltb dt (f_dec 1 (-5)) = false -> mDead (emitter m) = false -> msOf dt <> 0 ->
  let ms := msOf dt in
  let m' := stateOf (advanceTime dt m) in
  let live' := List.filter (fun i => negb (expiresAt (part_store (emitter m)) ms i)) live in
  let free' := rev (List.filter (expiresAt (part_store (emitter m)) ms) live) ++ free in
  ~ ranOut (advanceTime dt m) /\
  lseg (nexts m') (part_list_head (emitter m')) live' /\
  lseg (nexts m') (part_freelist (emitter m')) free' /\
  NoDup (live' ++ free') /\
  n_parts (emitter m') = Z.of_nat (length live') /\
  (forall i x, i ∈ live -> part_store (emitter m) !! i = Some x ->
     exists z, part_store (emitter m') !! i = Some z /\
               currentAge z = u32 (currentAge x + ms) /\
               (currentAge z > totalLifetime z -> (i ∉ live') /\ (i ∈ free')) /\
               (currentAge z <= totalLifetime x -> i ∈ live')) /\
  (forall i z, i ∈ live' -> part_store (emitter m') !! i = Some z ->
     currentAge z <= totalLifetime z).
Proof.
  intros Hp He Hd Hms ms m' live' free'.
  destruct (advanceTime_ages dt m live free Hp He Hd Hms) as (Hend & Hp' & Hst & _).
  fold ms m' in Hp', Hst. fold (keptOf m ms live) in live'. fold (goneOf m ms live) in free'.
  destruct Hp' as ((Hl & Hf & Hnd & _) & Hn & _). destruct Hst as [Hlen Hst].
  split; [exact Hend|]. split; [exact Hl|]. split; [exact Hf|]. split; [exact Hnd|].
  split; [exact Hn|]. split.
  - intros i x Hi Hx. destruct (Hst i x Hx) as (z & Hz & Ha & Hr).
    rewrite bool_decide_eq_true_2 in Ha by exact Hi.
    exists z. split; [exact Hz|]. split; [exact Ha|]. apply lifeRel_le in Hr. split.
    + intros Hgt.
      assert (Hexp : expiresAt (part_store (emitter m)) ms i = true).
      { unfold expiresAt, expires. rewrite Hx. apply Z.gtb_lt. lia. }
      assert (Hg : i ∈ goneOf m ms live) by (apply elem_of_goneOf; auto).
      split.
      * intros Hk. apply elem_of_keptOf in Hk as [_ Hk]. congruence.
      * unfold free'. rewrite elem_of_app. left.
        apply list_elem_of_In. apply -> in_rev. apply list_elem_of_In. exact Hg.
    + intros Hle. apply elem_of_keptOf. split; [exact Hi|].
      unfold expiresAt, expires. rewrite Hx.
      destruct (_ >? _) eqn:E; [|reflexivity]. apply Z.gtb_lt in E. lia.
  - intros i z Hi Hz. apply elem_of_keptOf in Hi as [Hi Hk].
    destruct (part_store (emitter m) !! i) as [x|] eqn:Hx.
    + destruct (Hst i x Hx) as (z' & Hz' & Ha & Hr).
      rewrite Hz in Hz'. injection Hz' as <-.
      rewrite bool_decide_eq_true_2 in Ha by exact Hi.
      apply lifeRel_le in Hr. unfold expiresAt, expires in Hk. rewrite Hx in Hk.
      destruct (_ >? _) eqn:E; [discriminate|].
      rewrite Z.gtb_ltb in E. apply Z.ltb_ge in E. lia.
    + apply lookup_ge_None in Hx. apply lookup_lt_Some in Hz. lia.
Qed.

(** ** The guards of the entry points *)

Lemma timeBoxed_true e :
  0 < mLifetimeMS e -> mLifetimeMS e < mElapsedTimeMS e -> timeBoxed e = true.
Proof.
  intros H1 H2. unfold timeBoxed.
  apply andb_true_iff. split; apply Z.ltb_lt; assumption.
Qed.

Lemma spawnView_logged ev m : isSpawn ev = false -> spawnView (logged ev m) = spawnView m.
Proof. intros H. unfold spawnView, logged. cbn. apply spawnsOf_snoc. exact H. Qed.

Lemma emitParticles_dead fuel s e a v D n m :
  mDead (emitter m) = true -> emitParticles fuel s e a v D n m = Done tt m.
Proof. intros H. unfold emitParticles. cbv [bind getE]. rewrite H. reflexivity. Qed.

Lemma emitParticles_empty fuel s e a v D n m :
  particleDataBlocks (datablock m) = [] -> emitParticles fuel s e a v D n m = Done tt m.
Proof.
  intros H. unfold emitParticles. cbv [bind getE getD].
  destruct (mDead (emitter m)); [reflexivity|].
  rewrite bool_decide_eq_true_2 by exact H. reflexivity.
Qed.

Lemma emitParticles_timeBoxed fuel s e a v D n m :
  timeBoxed (emitter m) = true -> emitParticles fuel s e a v D n m = Done tt m.
Proof.
  intros H. unfold emitParticles. cbv [bind getE getD].
  destruct (mDead (emitter m)); [reflexivity|].
  destruct (bool_decide _); [reflexivity|]. rewrite H. reflexivity.
Qed.

Lemma emitParticles_point_dead fuel p u a v D m :
  mDead (emitter m) = true ->
  emitParticles_point fuel p u a v D m = Done tt (logged (EvConsole "Noo!") m).
Proof.
  intros H. unfold emitParticles_point. cbv [bind getE emit]. cbn [emitter set_console].
  rewrite H. reflexivity.
Qed.

Lemma emitParticles_point_timeBoxed fuel p u a v D m :
  timeBoxed (emitter m) = true ->
  emitParticles_point fuel p u a v D m = Done tt (logged (EvConsole "Noo!") m).
Proof.
  intros H. unfold emitParticles_point. cbv [bind getE emit]. cbn [emitter set_console].
  destruct (mDead (emitter m)); [reflexivity|]. rewrite H. reflexivity.
Qed.

Lemma emitParticles_point_empty fuel p u a v D m :
  particleDataBlocks (datablock m) = [] ->
  emitParticles_point fuel p u a v D m = Done tt (logged (EvConsole "Noo!") m).
Proof.
  intros H. unfold emitParticles_point. cbv [bind getE emit]. cbn [emitter set_console].
  destruct (mDead (emitter m)); [reflexivity|].
  destruct (timeBoxed (emitter m)); [reflexivity|].
  apply emitParticles_empty. exact H.
Qed.

Lemma emitParticles_hemisphere_dead c n r v k m :
  mDead (emitter m) = true ->
  emitParticles_hemisphere c n r v k m = Done tt (logged (EvConsole "Nooo!") m).
Proof.
  intros H. unfold emitParticles_hemisphere. cbv [bind getE emit]. cbn [emitter set_console].
  rewrite H. reflexivity.
Qed.

Lemma emitParticles_hemisphere_timeBoxed c n r v k m :
  timeBoxed (emitter m) = true ->
  emitParticles_hemisphere c n r v k m = Done tt (logged (EvConsole "Nooo!") m).
Proof.
  intros H. unfold emitParticles_hemisphere. cbv [bind getE emit]. cbn [emitter set_console].
  destruct (mDead (emitter m)); [reflexivity|]. rewrite H. reflexivity.
Qed.

Lemma advanceTime_dead dt m :
  mDead (emitter m) = true ->
  advanceTime dt m =
    Done tt (if f_ltb dt (f_dec 1 (-5)) then m else logged (EvParentAdvanceTime dt) m).
Proof.
  intros H. destruct (f_ltb dt (f_dec 1 (-5))) eqn:E.
  - apply advanceTime_small. exact E.
  - rewrite (advanceTime_tick dt m E). apply tick_dead. exact H.
Qed.

Lemma prepRenderImage_dead r s m :
  mDead (emitter m) = true -> prepRenderImage r s m = Done tt m.
Proof.
  intros H. unfold prepRenderImage. cbv [bind getD getE].
  destruct (r && negb (renderReflection (datablock m))); [reflexivity|].
  destruct s; [reflexivity|]. rewrite H. reflexivity.
Qed.

(** C9.  Dead-flag short-circuit.  On an emitter whose mDead flag is set,
    each of the five entry points returns at its test of the flag: the
    emitter, its pool, the datablock, the node and the random generator
    are what they were.  What runs before the test is the console line of
    the point and hemisphere overloads, the parent's advanceTime (after
    the test of the delta against the epsilon), and the tests of the
    render pass; none of them touches the pool. *)
Theorem dead_short_circuit m :
  mDead (emitter m) = true ->
  (forall fuel s e a v D n, emitParticles fuel s e a v D n m = Done tt m) /\
  (forall fuel p u a v D,
     emitParticles_point fuel p u a v D m = Done tt (logged (EvConsole "Noo!") m)) /\
  (forall c n r v k,
     emitParticles_hemisphere c n r v k m = Done tt (logged (EvConsole "Nooo!") m)) /\
  (forall dt,
     advanceTime dt m =
       Done tt (if f_ltb dt (f_dec 1 (-5)) then m else logged (EvParentAdvanceTime dt) m)) /\
  (forall r s, prepRenderImage r s m = Done tt m).
Proof.
  intros H. split; [|split; [|split; [|split]]]; intros.
  - apply emitParticles_dead; exact H.
  - apply emitParticles_point_dead; exact H.
  - apply emitParticles_hemisphere_dead; exact H.
  - apply advanceTime_dead; exact H.
  - apply prepRenderImage_dead; exact H.
Qed.

(** C6.  Time-box.  With mLifetimeMS = L > 0 and mElapsedTimeMS > L, the
    three spawn entry points return without a spawn: the path-segment
    overload leaves the machine as it is, the point and hemisphere
    overloads add their console line only.  advanceTime does not read the
    emitter's lifetime: a call that reaches the ageing pass ends, ages
    every live slot by numMSToUpdate and keeps on the live list exactly
    the slots whose own lifetime has not expired. *)
Theorem time_box m :
  0 < mLifetimeMS (emitter m) ->
  mLifetimeMS (emitter m) < mElapsedTimeMS (emitter m) ->
  (forall fuel s e a v D n, emitParticles fuel s e a v D n m = Done tt m) /\
  (forall fuel p u a v D,
     emitParticles_point fuel p u a v D m = Done tt (logged (EvConsole "Noo!") m) /\
     spawnView (logged (EvConsole "Noo!") m) = spawnView m) /\
  (forall c n r v k,
     emitParticles_hemisphere c n r v k m = Done tt (logged (EvConsole "Nooo!") m) /\
     spawnView (logged (EvConsole "Nooo!") m) = spawnView m) /\
  (forall dt live free,
     pool_at m live free ->
     f_ltb dt (f_dec 1 (-5)) = false -> mDead (emitter m) = false -> msOf dt <> 0 ->
     ~ ranOut (advanceTime dt m) /\
     pool_at (stateOf (advanceTime dt m))
       (List.filter (fun i => negb (expiresAt (part_store (emitter m)) (msOf dt) i)) live)
       (rev (List.filter (expiresAt (part_store (emitter m)) (msOf dt)) live) ++ free) /\
     agedStore (msOf dt) live (part_store (emitter m))
       (part_store (emitter (stateOf (advanceTime dt m)))) /\
     spawnView (stateOf (advanceTime dt m)) = spawnView m).
Proof.
  intros H1 H2. pose proof (timeBoxed_true _ H1 H2) as Hb.
  split; [|split; [|split]]; intros.
  - apply emitParticles_timeBoxed; exact Hb.
  - split; [apply emitParticles_point_timeBoxed; exact Hb | apply spawnView_logged; reflexivity].
  - split; [apply emitParticles_hemisphere_timeBoxed; exact Hb
           | apply spawnView_logged; reflexivity].
  - apply advanceTime_ages; assumption.
Qed.

(** C8.  The delta of advanceTime.  Below the epsilon the call returns
    the machine it was given.  Otherwise the parent's advanceTime runs on
    the delta as passed and everything after it uses the delta clamped to
    0.5 s: the elapsed time grows by the milliseconds of the clamped
    delta, and if these are zero the call returns there, with the pool and
    every particle as they were; if not, the ageing pass runs with them. *)
Theorem advanceTime_delta dt m :
  (f_ltb dt (f_dec 1 (-5)) = true -> advanceTime dt m = Done tt m) /\
  (f_ltb dt (f_dec 1 (-5)) = false ->
     advanceTime dt m = tick (clampDt dt) (logged (EvParentAdvanceTime dt) m) /\
     (f_ltb (f_dec 5 (-1)) dt = true -> clampDt dt = f_dec 5 (-1)) /\
     (f_ltb (f_dec 5 (-1)) dt = false -> clampDt dt = dt) /\
     (mDead (emitter m) = false ->
        (msOf dt = 0 ->
           advanceTime dt m = Done tt (ticked dt m) /\
           part_store (emitter (ticked dt m)) = part_store (emitter m) /\
           linksView (ticked dt m) = linksView m) /\
        (msOf dt <> 0 ->
           advanceTime dt m = agePass (msOf dt) (ticked dt m) /\
           forall live free, pool_at m live free ->
             agedStore (msOf dt) live (part_store (emitter m))
               (part_store (emitter (stateOf (advanceTime dt m))))))).
Proof.
  split; [apply advanceTime_small|]. intros He.
  split; [apply advanceTime_tick; exact He|].
  split; [intros H; unfold clampDt; rewrite H; reflexivity|].
  split; [intros H; unfold clampDt; rewrite H; reflexivity|].
  intros Hd. pose proof (advanceTime_pass dt m He Hd) as Hpass. split.
  - intros H0. rewrite H0 in Hpass. split; [exact Hpass|]. split; reflexivity.
  - intros Hn. assert (Hn' := Hn). apply Z.eqb_neq in Hn'. rewrite Hn' in Hpass.
    split; [exact Hpass|]. intros live free Hp.
    apply (advanceTime_ages dt m live free Hp He Hd Hn).
Qed.

(** ** The path-segment overload past its guards *)

Lemma emitParticles_enter fuel s e a v D n m :
  mDead (emitter m) = false -> particleDataBlocks (datablock m) <> [] ->
  timeBoxed (emitter m) = false ->
  emitParticles fuel s e a v D n m =
    if negb (mNextParticleTime (emitter m) =? 0) && (mNextParticleTime (emitter m) >? D)
    then
      bind (modE (set_mNextParticleTime (u32 (mNextParticleTime (emitter m) - D)))) (fun _ =>
      bind (modE (fun e0 => set_mInternalClock (u32 (mInternalClock e0 + D)) e0)) (fun _ =>
      bind (modE (set_mLastPosition e)) (fun _ => modE (set_mHasLastPosition true)))) m
    else
      bind (if negb (mNextParticleTime (emitter m) =? 0)
            then spawnPending s e a v (axisxOf a) D n else ret 0)
           (fun c => emitFrom fuel s e a v (axisxOf a) D n c
                       (negb (mNextParticleTime (emitter m) =? 0))) m.
Proof.
  intros Hd Ht Hb. unfold emitParticles. cbv [bind getE getD]. rewrite Hd.
  rewrite bool_decide_eq_false_2 by exact Ht. rewrite Hb.
  destruct (negb (mNextParticleTime (emitter m) =? 0) && (mNextParticleTime (emitter m) >? D));
    reflexivity.
Qed.

Lemma emitParticles_defer fuel s e a v D n m :
  mDead (emitter m) = false -> particleDataBlocks (datablock m) <> [] ->
  timeBoxed (emitter m) = false ->
  0 <= D -> D < mNextParticleTime (emitter m) -> mNextParticleTime (emitter m) < 2 ^ 32 ->
  emitParticles fuel s e a v D n m = Done tt (deferred D e m).
Proof.
  intros Hd Ht Hb HD Hr Hr'. rewrite (emitParticles_enter fuel s e a v D n m Hd Ht Hb).
  replace (mNextParticleTime (emitter m) =? 0) with false by (symmetry; apply Z.eqb_neq; lia).
  replace (mNextParticleTime (emitter m) >? D) with true by (symmetry; apply Z.gtb_lt; lia).
  cbn [negb andb]. rewrite u32_small by lia. reflexivity.
Qed.

Lemma emitParticles_consume fuel s e a v D n m :
  mDead (emitter m) = false -> particleDataBlocks (datablock m) <> [] ->
  timeBoxed (emitter m) = false ->
  mNextParticleTime (emitter m) <> 0 -> mNextParticleTime (emitter m) <= D ->
  emitParticles fuel s e a v D n m =
    bind (spawnPending s e a v (axisxOf a) D n)
         (fun c => emitFrom fuel s e a v (axisxOf a) D n c true) m.
Proof.
  intros Hd Ht Hb Hr Hr'. rewrite (emitParticles_enter fuel s e a v D n m Hd Ht Hb).
  replace (mNextParticleTime (emitter m) =? 0) with false by (symmetry; apply Z.eqb_neq; lia).
  replace (mNextParticleTime (emitter m) >? D) with false
    by (symmetry; rewrite Z.gtb_ltb; apply Z.ltb_ge; lia).
  reflexivity.
Qed.

Lemma emitParticles_fresh fuel s e a v D n m :
  mDead (emitter m) = false -> particleDataBlocks (datablock m) <> [] ->
  timeBoxed (emitter m) = false -> mNextParticleTime (emitter m) = 0 ->
  emitParticles fuel s e a v D n m = emitFrom fuel s e a v (axisxOf a) D n 0 false m.
Proof.
  intros Hd Ht Hb Hr. rewrite (emitParticles_enter fuel s e a v D n m Hd Ht Hb).
  rewrite Hr. reflexivity.
Qed.

(** The number of spawns of a call with pending time [r] and constant
    period [P], and the pending time it leaves. *)
Lemma emitParticles_count fuel s e a v D P m :
  mDead (emitter m) = false -> particleDataBlocks (datablock m) <> [] ->
  timeBoxed (emitter m) = false ->
  periodOf m = P -> varianceOf m = 0 -> 0 < P -> D + P < 2 ^ 32 ->
  0 <= mNextParticleTime (emitter m) <= D ->
  wp (emitParticles fuel s e a v D NodeObj) m
     (fun _ m' =>
        spawnCount m' =
          spawnCount m + (if mNextParticleTime (emitter m) =? 0 then 0 else 1)
          + (D - mNextParticleTime (emitter m)) / P /\
        mNextParticleTime (emitter m') = pendingAfter D P (mNextParticleTime (emitter m)))
     (fun _ _ => True)
     (fun _ => Z.of_nat fuel <= (D - mNextParticleTime (emitter m)) / P).
Proof.
  intros Hd Ht Hb Hper Hvar HP Hw Hr.
  destruct (mNextParticleTime (emitter m) =? 0) eqn:E.
  - apply Z.eqb_eq in E. unfold wp.
    rewrite (emitParticles_fresh fuel s e a v D NodeObj m Hd Ht Hb E).
    pose proof (emitFrom_count s e a v (axisxOf a) D P fuel 0 false m HP Hw
                  ltac:(lia) ltac:(lia) Hper Hvar E) as H.
    unfold wp in H. rewrite E. rewrite Z.add_0_r.
    destruct (emitFrom _ _ _ _ _ _ _ _ _ _ m); exact H.
  - apply Z.eqb_neq in E. unfold wp at 1.
    rewrite (emitParticles_consume fuel s e a v D NodeObj m Hd Ht Hb E ltac:(lia)).
    change (wp (bind (spawnPending s e a v (axisxOf a) D NodeObj)
                  (fun c => emitFrom fuel s e a v (axisxOf a) D NodeObj c true)) m
              (fun _ m' =>
                 spawnCount m' = spawnCount m + 1 + (D - mNextParticleTime (emitter m)) / P /\
                 mNextParticleTime (emitter m') = pendingAfter D P (mNextParticleTime (emitter m)))
              (fun _ _ => True)
              (fun _ => Z.of_nat fuel <= (D - mNextParticleTime (emitter m)) / P)).
    apply wp_bind.
    eapply wp_mono; [apply (spawnPending_count s e a v (axisxOf a) D NodeObj m); lia
                    | | auto | intros ? []].
    intros c m1 (-> & Hsp & Hn & _ & Hcfg). cbv beta.
    destruct (configView_period _ _ Hcfg) as (Hp1 & Hv1 & _).
    eapply wp_mono;
      [apply (emitFrom_count s e a v (axisxOf a) D P fuel (mNextParticleTime (emitter m))
                true m1 HP Hw); try lia; congruence | | auto | auto].
    intros u m' [Hc Hn']. cbv beta in Hc, Hn' |- *. split; [|exact Hn'].
    rewrite Hc. unfold spawnCount. rewrite Hsp, length_app. simpl. lia.
Qed.

Lemma pendingAfter_bound D P r : 0 < P -> 0 <= pendingAfter D P r < P.
Proof.
  intros HP. unfold pendingAfter. pose proof (Z.mod_pos_bound (D - r) P HP) as H.
  destruct (_ =? 0) eqn:E; [lia|]. apply Z.eqb_neq in E. lia.
Qed.

(** ** The schedule's configuration is not touched by a call *)

Ltac config_leaf :=
  intros; unfold viewEq, configView, nodeConfig; cbn; try reflexivity.

Lemma side_config m m' : sideView m' = sideView m -> configView m' = configView m.
Proof.
  unfold sideView. intros H. apply pair_equal_spec in H as [H _].
  apply schedView_config. exact H.
Qed.

Lemma body_config m m' : bodyView m' = bodyView m -> configView m' = configView m.
Proof. intros H. apply side_config. apply bodyView_side. exact H. Qed.

Lemma addParticle_node_config pos axis vel axisx n :
  steps (viewEq configView) (addParticle_node pos axis vel axisx n).
Proof.
  unfold addParticle_node. apply steps_bind; [apply _| |intros pNew].
  - eapply steps_view_map; [apply side_config | apply allocParticle_side].
  - apply steps_bind; [apply _| |intros _].
    + repeat (steps_step config_leaf).
    + eapply steps_view_map; [apply body_config | apply launch_node_body].
Qed.

Lemma emitLoop_config s e a v axisx D n : forall fuel c added,
  steps (viewEq configView) (emitLoop fuel s e a v axisx D n c added).
Proof.
  induction fuel as [|fuel IH]; intros c added; cbn [emitLoop].
  - repeat (steps_step config_leaf).
  - destruct (c <? D); [|apply steps_ret; apply _].
    apply steps_bind; [apply _| |intros nextTime].
    { unfold choosePeriod, variance. repeat (steps_step config_leaf). }
    apply steps_bind; [apply _| |intros _].
    { repeat (steps_step config_leaf). }
    destruct (u32 (c + nextTime) >? D).
    { repeat (steps_step config_leaf). }
    apply steps_bind; [apply _| |intros _].
    { repeat (steps_step config_leaf). }
    apply steps_bind; [apply _| |intros _].
    { apply addParticle_node_config. }
    apply steps_bind; [apply _| |intros d].
    { repeat (steps_step config_leaf). }
    apply steps_bind; [apply _| |intros _].
    { apply steps_when; [apply _|].
      eapply steps_view_map; [apply side_config | apply advanceNewest_side]. }
    apply IH.
Qed.

Lemma emitParticles_config fuel s e a v D n :
  steps (viewEq configView) (emitParticles fuel s e a v D n).
Proof.
  unfold emitParticles, emitFrom, spawnPending, updateBBox, joinScene.
  apply steps_bind; [apply _| |intros e0]; [repeat (steps_step config_leaf)|].
  destruct (mDead e0); [apply steps_ret; apply _|].
  apply steps_bind; [apply _| |intros d]; [repeat (steps_step config_leaf)|].
  destruct (bool_decide _); [apply steps_ret; apply _|].
  destruct (timeBoxed e0); [apply steps_ret; apply _|]. cbv zeta.
  destruct (negb (mNextParticleTime e0 =? 0) && (mNextParticleTime e0 >? D)).
  { repeat (steps_step config_leaf). }
  apply steps_bind; [apply _| |intros c].
  { destruct (negb (mNextParticleTime e0 =? 0)); [|apply steps_ret; apply _].
    apply steps_bind; [apply _| |intros e1]; [repeat (steps_step config_leaf)|].
    apply steps_bind; [apply _| |intros _]; [repeat (steps_step config_leaf)|].
    apply steps_bind; [apply _| |intros _].
    - apply addParticle_node_config.
    - repeat (steps_step config_leaf). }
  apply steps_bind; [apply _| |intros added]; [apply emitLoop_config|].
  repeat (steps_step config_leaf).
Qed.

(** C3.  Spawn count with zero variance.  A path-segment call of
    duration [D] that passes its guards, with constant ejection period
    [P] (period variance 0, [D + P] within U32), does not run out of
    steps when given more than [D / P] of them, and when it returns:
    with no pending sub-period it has made exactly [D / P] (floor) calls
    of addParticle and leaves a pending time below [P], which is 0 or
    [P - D mod P]; with a pending time [r <= D] it has made one call for
    the pending spawn and [(D - r) / P] more.  The flags, the lifetime and
    the periods that the guards and the loop read are as before, so the
    following call meets the same conditions.  With P = 100: D = 250 and
    no pending time gives 2 spawns and pending 50; then D = 100 with
    pending 50 gives 1 spawn and pending 50. *)
Theorem spawn_count_zero_variance fuel s e a v D P m :
  mDead (emitter m) = false -> particleDataBlocks (datablock m) <> [] ->
  timeBoxed (emitter m) = false ->
  periodOf m = P -> varianceOf m = 0 -> 0 < P -> D + P < 2 ^ 32 ->
  0 <= mNextParticleTime (emitter m) <= D ->
  ((D - mNextParticleTime (emitter m)) / P < Z.of_nat fuel ->
     ~ ranOut (emitParticles fuel s e a v D NodeObj m)) /\
  forall m', emitParticles fuel s e a v D NodeObj m = Done tt m' ->
    (mNextParticleTime (emitter m) = 0 ->
       spawnCount m' - spawnCount m = D / P /\
       mNextParticleTime (emitter m') = (if D mod P =? 0 then 0 else P - D mod P)) /\
    (mNextParticleTime (emitter m) <> 0 ->
       spawnCount m' - spawnCount m = 1 + (D - mNextParticleTime (emitter m)) / P /\
       mNextParticleTime (emitter m') =
         (if (D - mNextParticleTime (emitter m)) mod P =? 0 then 0
          else P - (D - mNextParticleTime (emitter m)) mod P)) /\
    0 <= mNextParticleTime (emitter m') < P /\
    (P = 100 -> D = 250 -> mNextParticleTime (emitter m) = 0 ->
       spawnCount m' - spawnCount m = 2 /\ mNextParticleTime (emitter m') = 50) /\
    (P = 100 -> D = 100 -> mNextParticleTime (emitter m) = 50 ->
       spawnCount m' - spawnCount m = 1 /\ mNextParticleTime (emitter m') = 50) /\
    mDead (emitter m') = false /\ particleDataBlocks (datablock m') <> [] /\
    timeBoxed (emitter m') = false /\ periodOf m' = P /\ varianceOf m' = 0.
Proof.
  intros Hd Ht Hb Hper Hvar HP Hw Hr.
  pose proof (emitParticles_count fuel s e a v D P m Hd Ht Hb Hper Hvar HP Hw Hr) as H.
  pose proof (emitParticles_config fuel s e a v D NodeObj m) as Hcfg.
  unfold wp in H. split.
  - intros Hfuel Hout. destruct (emitParticles _ _ _ _ _ _ _ m); simpl in Hout; try tauto. lia.
  - intros m' E. rewrite E in H, Hcfg. simpl in Hcfg. destruct H as [Hc Hn].
    unfold pendingAfter in Hn.
    destruct (configView_period _ _ Hcfg) as (Hp' & Hv' & Hd' & Hb' & Ht').
    assert (Hfresh : mNextParticleTime (emitter m) = 0 ->
              spawnCount m' - spawnCount m = D / P /\
              mNextParticleTime (emitter m') = (if D mod P =? 0 then 0 else P - D mod P)).
    { intros E0. rewrite E0 in Hc, Hn. rewrite Z.sub_0_r in Hc, Hn. simpl in Hc.
      split; [lia | exact Hn]. }
    assert (Hpend : mNextParticleTime (emitter m) <> 0 ->
              spawnCount m' - spawnCount m = 1 + (D - mNextParticleTime (emitter m)) / P /\
              mNextParticleTime (emitter m') =
                (if (D - mNextParticleTime (emitter m)) mod P =? 0 then 0
                 else P - (D - mNextParticleTime (emitter m)) mod P)).
    { intros E0. apply Z.eqb_neq in E0. rewrite E0 in Hc. split; [lia | exact Hn]. }
    split; [exact Hfresh|]. split; [exact Hpend|]. split.
    { rewrite Hn. apply (pendingAfter_bound D P _ HP). }
    split; [|split].
    + intros -> -> E0. destruct (Hfresh E0) as [H1 H2]. split; [exact H1 | exact H2].
    + intros -> -> E0. assert (E1 : mNextParticleTime (emitter m) <> 0) by lia.
      destruct (Hpend E1) as [H1 H2]. rewrite E0 in H1, H2. split; [exact H1 | exact H2].
    + rewrite Hd', Ht', Hb', Hp', Hv'. auto.
Qed.

(** C4.  The pending sub-period at the start of a path-segment call that
    passes its guards, with 0 < mNextParticleTime = [r].  If [r] exceeds
    the duration [D], the call returns with no spawn: mNextParticleTime is
    [r - D], the internal clock is advanced by [D] (in U32), mLastPosition
    is the segment end and mHasLastPosition is set; nothing else changes.
    Otherwise the call is the pending spawn followed by the period loop
    entered at time [r]; the pending spawn is one call of addParticle, at
    the position that Point3F::interpolate gives for start, end and
    F32(r) / F32(D), after which mNextParticleTime is 0 and the internal
    clock has advanced by [r]. *)
Theorem pending_subperiod fuel s e a v D n m :
  mDead (emitter m) = false -> particleDataBlocks (datablock m) <> [] ->
  timeBoxed (emitter m) = false ->
  mNextParticleTime (emitter m) <> 0 ->
  0 <= mNextParticleTime (emitter m) < 2 ^ 32 -> 0 <= D ->
  (D < mNextParticleTime (emitter m) ->
     emitParticles fuel s e a v D n m = Done tt (deferred D e m) /\
     spawnView (deferred D e m) = spawnView m /\
     mNextParticleTime (emitter (deferred D e m)) = mNextParticleTime (emitter m) - D /\
     mInternalClock (emitter (deferred D e m)) = u32 (mInternalClock (emitter m) + D) /\
     mLastPosition (emitter (deferred D e m)) = e /\
     mHasLastPosition (emitter (deferred D e m)) = true) /\
  (mNextParticleTime (emitter m) <= D ->
     emitParticles fuel s e a v D n m =
       bind (spawnPending s e a v (axisxOf a) D n)
            (fun c => emitFrom fuel s e a v (axisxOf a) D n c true) m /\
     match spawnPending s e a v (axisxOf a) D n m with
     | Done c m1 =>
         c = mNextParticleTime (emitter m) /\
         spawnView m1 = spawnView m ++
           [interpolate s e (f_div (f_of_int (mNextParticleTime (emitter m))) (f_of_int D))] /\
         mNextParticleTime (emitter m1) = 0 /\
         mInternalClock (emitter m1) =
           u32 (mInternalClock (emitter m) + mNextParticleTime (emitter m))
     | Crash _ _ => True
     | OutOfFuel _ => False
     end).
Proof.
  intros Hd Ht Hb Hr Hr32 HD. split.
  - intros Hlt. split; [apply emitParticles_defer; auto; lia|].
    repeat split; reflexivity.
  - intros Hle. split; [apply emitParticles_consume; auto|].
    pose proof (spawnPending_count s e a v (axisxOf a) D n m Hr32) as H. unfold wp in H.
    destruct (spawnPending _ _ _ _ _ _ _ m); auto.
    destruct H as (H1 & H2 & H3 & H4 & _). auto.
Qed.

(** ** The assertion of updateKeyData during a pass *)

Lemma careful_bind m1 {A B} (c : M A) (k : A -> M B) :
  careful m1 c -> (forall a, careful m1 (k a)) -> careful m1 (bind c k).
Proof.
  intros Hc Hk m H. apply wp_bind. eapply wp_mono; [apply Hc; exact H | | auto | auto].
  intros a m' H'. apply Hk. exact H'.
Qed.

Lemma careful_of m1 {A} (c : M A) :
  steps agesKept c -> never isAssert false c -> careful m1 c.
Proof.
  intros Hs Hn m H. unfold wp. specialize (Hs m). specialize (Hn m).
  destruct (c m); simpl in *.
  - etransitivity; eauto.
  - exact Hn.
  - discriminate.
Qed.

Lemma keyLoop_noassert remaining i part t : never isAssert false (keyLoop remaining i part t).
Proof. revert i. induction remaining as [|r IH]; intros i; simpl; fueled_go. apply IH. Qed.

Lemma keyOK_ext x y :
  currentAge y = currentAge x -> totalLifetime y = totalLifetime x -> keyOK y = keyOK x.
Proof. unfold keyOK. intros -> ->. reflexivity. Qed.

Lemma careful_updateKeyData m1 j x :
  part_store (emitter m1) !! j = Some x -> keyOK x = true ->
  careful m1 (updateKeyData (Some j)).
Proof.
  intros Hx Hok m Hk. unfold updateKeyData.
  destruct (Forall2_lookup_l _ _ _ _ _ Hk Hx) as (y & Hy & Ha & Hl).
  eapply wp_bind_done; [apply (store_done m j y _ Hy)|].
  set (y' := if totalLifetime y <? 1 then set_totalLifetime 1 y else y).
  assert (Hy' : part_store (emitter (putSlot j y' m)) !! j = Some y').
  { unfold putSlot. cbn. apply list_lookup_insert_eq. eapply lookup_lt_Some; eauto. }
  assert (Hage : currentAge y' = currentAge x).
  { unfold y'. destruct (totalLifetime y <? 1); cbn; exact Ha. }
  assert (Hlife : totalLifetime y' = Z.max 1 (totalLifetime x)).
  { unfold y'. unfold lifeRel in Hl.
    destruct (Z.ltb_spec (totalLifetime y) 1); cbn; lia. }
  assert (Hk' : agesKept m1 (putSlot j y' m)).
  { etransitivity; [exact Hk|]. unfold agesKept, putSlot. cbn.
    eapply agesKept_insert; [exact Hy|]. split.
    - unfold y'. destruct (totalLifetime y <? 1); reflexivity.
    - unfold lifeRel, y'. destruct (Z.ltb_spec (totalLifetime y) 1); cbn; [right; auto | left; reflexivity]. }
  eapply wp_bind_done; [apply (deref_done _ j y' Hy')|].
  eapply wp_bind_done.
  { apply assertFatal_true. unfold normalizedAge. rewrite Hage, Hlife. exact Hok. }
  apply (careful_of m1); [apply keyLoop_agesKept | apply keyLoop_noassert | exact Hk'].
Qed.

Ltac careful_step j :=
  lazymatch goal with
  | |- careful _ (updateKeyData (Some j)) => eapply careful_updateKeyData; eassumption
  | |- careful _ (bind _ _) => apply careful_bind; [|intros ?]
  | |- careful _ (if ?b then _ else _) => destruct b
  | |- careful _ (match ?x with _ => _ end) => destruct x
  | |- careful _ _ => apply careful_of; [ages_go | fueled_go]
  end.

Lemma careful_updateParticle m1 ms j x :
  part_store (emitter m1) !! j = Some x -> keyOK x = true ->
  careful m1 (updateParticle ms (Some j)).
Proof.
  intros Hx Hok. unfold updateParticle, when. repeat (careful_step j).
Qed.

Lemma forParts_noassert m1 ms l :
  (forall j x, j ∈ l -> part_store (emitter m1) !! j = Some x -> keyOK x = true) ->
  forall fuel part m,
  lseg (nexts m) part l -> agesKept m1 m ->
  noAssert (forParts fuel part (updateParticle ms) m).
Proof.
  intros Hok. induction l as [|i l IH]; intros fuel part m Hl Hk.
  - unfold lseg in Hl. simpl in Hl. subst part. destruct fuel; exact I.
  - destruct Hl as (-> & nx & Hnx & Hrest). destruct fuel as [|fuel]; [exact I|].
    cbn [forParts]. unfold bind at 1.
    destruct (nexts_lookup m i nx Hnx) as (y & Hy & Hnext).
    destruct (Forall2_lookup_r _ _ _ _ _ Hk Hy) as (x & Hx & _).
    pose proof (careful_updateParticle m1 ms i x Hx
                  (Hok i x ltac:(left) Hx) m Hk) as Hc.
    pose proof (updateParticle_pool ms (Some i) m) as Hv.
    unfold wp in Hc.
    destruct (updateParticle ms (Some i) m) as [a m2|f m2|m2]; simpl in Hv.
    + apply pair_equal_spec in Hv as [Hv _].
      apply linksView_inv in Hv as (Hns & _).
      change (map next (part_store (emitter m))) with (nexts m) in Hns.
      rewrite <- Hns in Hnx, Hrest.
      destruct (nexts_lookup m2 i nx Hnx) as (y2 & Hy2 & <-).
      rewrite (bind_done _ _ _ _ _ (deref_done m2 i y2 Hy2)).
      apply IH; auto. intros j x' Hj. apply Hok. right. exact Hj.
    + destruct f; simpl in Hc; try exact I. discriminate.
    + exact I.
Qed.

Lemma agePass_noassert ms m live free :
  pool_at m live free ->
  (forall j x, j ∈ live -> part_store (emitter m) !! j = Some x ->
     expires ms x = false -> keyOK (ageBy ms x) = true) ->
  noAssert (agePass ms m).
Proof.
  intros (Hs & Hn & Hc) Hok. unfold agePass, walkFuel.
  rewrite (bind_done _ _ m (length (part_store (emitter m))) m) by reflexivity.
  rewrite (bind_done _ _ m (emitter m) m) by reflexivity.
  assert (Hhd : part_list_head (emitter m) = head live).
  { apply (lseg_head (nexts m)). apply Hs. }
  destruct (evictLoop_spec ms live [] free m (length (part_store (emitter m)))) as
    (m1 & E1 & [H1 H2 H3 H4 H5]).
  { exact Hs. }
  { destruct (shape_live_fuel _ _ _ _ _ Hs) as [Hle _]. unfold nexts in Hle.
    rewrite length_map in Hle. exact Hle. }
  change (lastRef []) with ListHead in E1. rewrite <- Hhd in E1.
  rewrite (bind_done _ _ _ _ _ E1).
  rewrite (bind_done _ _ m1 (emitter m1) m1) by reflexivity.
  simpl app in H1. fold (keptOf m ms live) in H1.
  assert (Hassert : assertFatal (0 <=? n_parts (emitter m1))
                      "GraphEmitter: negative part count!" m1 = Done tt m1).
  { apply assertFatal_true. apply Z.leb_le. rewrite H2, Hn.
    pose proof (List.filter_length_le (expiresAt (part_store (emitter m)) ms) live) as Hfl.
    lia. }
  rewrite (bind_done _ _ _ _ _ Hassert).
  destruct ((n_parts (emitter m1) <? 1) && mDeleteWhenEmpty (emitter m1)); [exact I|].
  unfold when. destruct (negb (ms =? 0) && (0 <? n_parts (emitter m1))); [|exact I].
  unfold update, walkFuel.
  rewrite (bind_done _ _ m1 (length (part_store (emitter m1))) m1) by reflexivity.
  rewrite (bind_done _ _ m1 (emitter m1) m1) by reflexivity.
  apply (forParts_noassert m1 ms (keptOf m ms live)).
  - intros j y Hj Hy. apply elem_of_keptOf in Hj as [Hj Hkeep].
    destruct H5 as [Hlen Hpt].
    destruct (part_store (emitter m) !! j) as [x|] eqn:Hx.
    + destruct (Hpt j x Hx) as (y' & Hy' & Hpay). rewrite Hy in Hy'. injection Hy' as <-.
      unfold agedSlots in Hpay. rewrite bool_decide_eq_true_2 in Hpay by exact Hj.
      rewrite (keyOK_ext (ageBy ms x) y).
      * apply (Hok j x Hj Hx). unfold expiresAt in Hkeep. rewrite Hx in Hkeep. exact Hkeep.
      * exact (f_equal currentAge Hpay).
      * exact (f_equal totalLifetime Hpay).
    + apply lookup_ge_None in Hx. apply lookup_lt_Some in Hy. lia.
  - apply H1.
  - reflexivity.
Qed.

Lemma advanceTime_noassert dt m live free :
  pool_at m live free ->
  (forall j x, j ∈ live -> part_store (emitter m) !! j = Some x ->
     expires (msOf dt) x = false -> keyOK (ageBy (msOf dt) x) = true) ->
  noAssert (advanceTime dt m).
Proof.
  intros Hp Hok. destruct (f_ltb dt (f_dec 1 (-5))) eqn:He.
  { rewrite (advanceTime_small dt m He). exact I. }
  destruct (mDead (emitter m)) eqn:Hd.
  { rewrite (advanceTime_dead dt m Hd). exact I. }
  rewrite (advanceTime_pass dt m He Hd). destruct (msOf dt =? 0); [exact I|].
  apply (agePass_noassert (msOf dt) (ticked dt m) live free).
  - apply ticked_pool. exact Hp.
  - exact Hok.
Qed.

(** C10.  The boundary of eviction.  A live slot [i] whose age after the
    ageing of a pass equals its totalLifetime [L >= 1] stays on the live
    list, with that age and that lifetime; its normalized age is
    F32(L) / F32(L), which is 1.0 when the division of a float by itself
    is; and, the test [t <= 1.0f] holding at 1.0 and for the other slots
    that the pass keeps, the call does not end in a failed assertion. *)
Theorem boundary_age_kept dt m live free i x :
  pool_at m live free ->
  f_ltb dt (f_dec 1 (-5)) = false -> mDead (emitter m) = false -> msOf dt <> 0 ->
  i ∈ live -> part_store (emitter m) !! i = Some x ->
  u32 (currentAge x + msOf dt) = totalLifetime x -> 1 <= totalLifetime x ->
  f_div (f_of_int (totalLifetime x)) (f_of_int (totalLifetime x)) = f_dec 1 0 ->
  f_leb (f_dec 1 0) (f_dec 1 0) = true ->
  othersOK (msOf dt) (part_store (emitter m)) i live = true ->
  let m' := stateOf (advanceTime dt m) in
  let live' :=
    List.filter (fun j => negb (expiresAt (part_store (emitter m)) (msOf dt) j)) live in
  ~ ranOut (advanceTime dt m) /\
  lseg (nexts m') (part_list_head (emitter m')) live' /\
  i ∈ live' /\
  (exists z, part_store (emitter m') !! i = Some z /\
             currentAge z = totalLifetime z /\ totalLifetime z = totalLifetime x /\
             normalizedAge z = f_dec 1 0) /\
  noAssert (advanceTime dt m).
Proof.
  intros Hp He Hd Hms Hi Hx Hage HL Hdiv Hleb Hothers m' live'.
  destruct (advanceTime_ages dt m live free Hp He Hd Hms) as (Hend & Hp' & Hst & _).
  fold m' in Hp', Hst. fold (keptOf m (msOf dt) live) in live'.
  assert (Hkeep : expires (msOf dt) x = false).
  { unfold expires. rewrite Hage. rewrite Z.gtb_ltb. apply Z.ltb_irrefl. }
  split; [exact Hend|]. split; [apply Hp'|]. split; [|split].
  - apply elem_of_keptOf. split; [exact Hi|]. unfold expiresAt. rewrite Hx. exact Hkeep.
  - destruct Hst as [_ Hst]. destruct (Hst i x Hx) as (z & Hz & Ha & Hl).
    rewrite bool_decide_eq_true_2 in Ha by exact Hi.
    assert (Hlz : totalLifetime z = totalLifetime x) by (unfold lifeRel in Hl; lia).
    exists z. split; [exact Hz|]. split; [congruence|]. split; [exact Hlz|].
    unfold normalizedAge. rewrite Ha, Hage, Hlz. exact Hdiv.
  - apply (advanceTime_noassert dt m live free Hp). intros j y Hj Hy Hexp.
    destruct (decide (j = i)) as [->|Hne].
    + rewrite Hx in Hy. injection Hy as <-. unfold keyOK, ageBy. cbn.
      rewrite Hage, Z.max_r by lia. rewrite Hdiv. exact Hleb.
    + unfold othersOK in Hothers. rewrite forallb_forall in Hothers.
      specialize (Hothers j ltac:(apply list_elem_of_In; exact Hj)).
      rewrite Hy, Hexp in Hothers. apply orb_true_iff in Hothers as [Hji|Hok].
      * apply Nat.eqb_eq in Hji. contradiction.
      * exact Hok.
Qed.

(** ** A spawn with no template to choose from *)

Ltac tpl_leaf := intros; unfold viewEq, tplView; cbn; try reflexivity.

Lemma dooms_bind {A B} (c : M A) (k : A -> M B) :
  steps (viewEq tplView) c -> fueled c -> (forall a, dooms (k a)) -> dooms (bind c k).
Proof.
  intros Hs Hf Hk m Hm. apply wp_bind. unfold wp at 1.
  specialize (Hs m). specialize (Hf m). destruct (c m) as [a m1|f m1|m1]; simpl in *.
  - assert (Hm1 : particleDataBlocks (datablock m1) = []).
    { unfold viewEq, tplView in Hs. apply pair_equal_spec in Hs as [Hs _]. congruence. }
    eapply wp_mono; [apply (Hk a m1 Hm1) | auto | | auto].
    intros f m' H. cbv beta in H |- *. unfold viewEq in Hs. congruence.
  - exact Hs.
  - discriminate.
Qed.

Lemma dooms_chooseDataBlock pNew vel : dooms (chooseDataBlock pNew vel).
Proof.
  intros m Hm. unfold chooseDataBlock, wp. cbv [bind rand_I getD crash].
  destruct (randI (gRandGen m)) as [r g]. cbn. rewrite Hm. reflexivity.
Qed.

Lemma dooms_launch pNew pos axis vel axisx : dooms (launch pNew pos axis vel axisx).
Proof.
  unfold launch.
  repeat lazymatch goal with
         | |- dooms (bind _ _) =>
             apply dooms_bind; [repeat (steps_step tpl_leaf) | fueled_go | intros ?]
         end.
  apply dooms_chooseDataBlock.
Qed.

Lemma allocRest_tpl :
  steps (viewEq tplView)
    (bind getE (fun e => bind getD (fun d =>
       bind (when ((n_parts e >? n_part_capacity e) || (u32 (n_parts e) >? partListInitSize d))
               growPool) (fun _ => takeSlot)))).
Proof.
  unfold growPool, takeSlot, pushFree, allocPrimBuffer, when. repeat (steps_step tpl_leaf).
Qed.

Lemma allocRest_fueled :
  fueled
    (bind getE (fun e => bind getD (fun d =>
       bind (when ((n_parts e >? n_part_capacity e) || (u32 (n_parts e) >? partListInitSize d))
               growPool) (fun _ => takeSlot)))).
Proof. unfold growPool, takeSlot, pushFree, allocPrimBuffer. fueled_go. Qed.

(** addParticle with no template: the count has grown by one and the
    call has ended in a fault. *)
Lemma addParticle_empty pos axis vel axisx m :
  particleDataBlocks (datablock m) = [] ->
  wp (addParticle pos axis vel axisx) m (fun _ _ => False)
     (fun _ m' => n_parts (emitter m') = n_parts (emitter m) + 1) (fun _ => False).
Proof.
  intros Hm. unfold addParticle, allocParticle.
  eapply wp_bind_done; [reflexivity|].
  set (m0 := set_console _ m).
  assert (H : dooms (bind (bind getE (fun e => bind getD (fun d =>
                 bind (when ((n_parts e >? n_part_capacity e)
                             || (u32 (n_parts e) >? partListInitSize d)) growPool)
                      (fun _ => takeSlot))))
               (fun pNew => bind (emit (EvSpawn pos))
                              (fun _ => launch pNew pos axis vel axisx)))).
  { apply dooms_bind; [apply allocRest_tpl | apply allocRest_fueled | intros pNew].
    apply dooms_bind; [repeat (steps_step tpl_leaf) | fueled_go | intros _].
    apply dooms_launch. }
  set (m1 := set_emitter (set_n_parts (n_parts (emitter m0) + 1) (emitter m0)) m0).
  specialize (H m1 Hm). unfold wp in *. unfold bind at 1. unfold bind at 1.
  change (modE (fun e => set_n_parts (n_parts e + 1) e) m0) with (Done tt m1).
  cbv beta iota. unfold bind at 1 in H.
  destruct (bind getE _ m1) as [p m2|f m2|m2]; auto.
  - destruct (bind (emit (EvSpawn pos)) _ m2); auto.
    apply pair_equal_spec in H as [_ H]. exact H.
  - apply pair_equal_spec in H as [_ H]. exact H.
Qed.

Lemma doomed_first {A B} (c : M A) (k : A -> M B) : doomed c -> doomed (bind c k).
Proof.
  intros H m Hm. specialize (H m Hm). unfold wp, bind in *.
  destruct (c m); try contradiction; auto.
Qed.

Lemma doomed_bind {A B} (c : M A) (k : A -> M B) :
  steps (viewEq tplView) c -> never (fun _ => true) false c ->
  (forall a, doomed (k a)) -> doomed (bind c k).
Proof.
  intros Hs Hf Hk m Hm. apply wp_bind. unfold wp at 1.
  specialize (Hs m). specialize (Hf m). destruct (c m) as [a m1|f m1|m1]; simpl in *;
    try discriminate.
  unfold viewEq, tplView in Hs. apply pair_equal_spec in Hs as [Hs1 Hs2].
  eapply wp_mono; [apply (Hk a m1); congruence | auto | | auto].
  intros f m' H. cbv beta in H |- *. congruence.
Qed.

Lemma emitParticles_hemisphere_empty c n r v k m :
  particleDataBlocks (datablock m) = [] ->
  mDead (emitter m) = false -> timeBoxed (emitter m) = false -> 0 < k ->
  exists f m', emitParticles_hemisphere c n r v k m = Crash f m' /\
               n_parts (emitter m') = n_parts (emitter m) + 1.
Proof.
  intros Hm Hd Hb Hk.
  assert (H : wp (emitParticles_hemisphere c n r v k) m (fun _ _ => False)
                (fun _ m' => n_parts (emitter m') = n_parts (emitter m) + 1)
                (fun _ => False)).
  { unfold emitParticles_hemisphere. wp_prim.
    set (m0 := set_console _ m).
    change (n_parts (emitter m)) with (n_parts (emitter m0)).
    assert (Hm0 : particleDataBlocks (datablock m0) = []) by exact Hm.
    assert (Hd0 : mDead (emitter m0) = false) by exact Hd.
    assert (Hb0 : timeBoxed (emitter m0) = false) by exact Hb.
    clearbody m0. wp_prim. rewrite Hd0, Hb0. cbv zeta.
    destruct (Z.to_nat k) as [|k'] eqn:E; [lia|]. cbn [seq forEach].
    refine (doomed_first _ _ _ m0 Hm0). apply doomed_first.
    repeat lazymatch goal with
           | |- doomed (bind _ _) =>
               apply doomed_bind; [repeat (steps_step tpl_leaf) | repeat never_step | intros ?]
           end.
    intros m1 Hm1. apply addParticle_empty. exact Hm1. }
  unfold wp in H. destruct (emitParticles_hemisphere c n r v k m) as [u m'|f m'|m'];
    try contradiction.
  exists f, m'. split; [reflexivity | exact H].
Qed.

(** C7.  Zero-template safety.  With an empty template list the
    path-segment overload returns the machine it was given and the point
    overload adds its console line only.  The hemisphere overload has no
    test of the template list: with a count of at least one, on an emitter
    that is neither dead nor time-boxed, it does not return; it ends in a
    fault inside its first addParticle, after n_parts has been
    incremented. *)
Theorem zero_template_entry_points m :
  particleDataBlocks (datablock m) = [] ->
  (forall fuel s e a v D n, emitParticles fuel s e a v D n m = Done tt m) /\
  (forall fuel p u a v D,
     emitParticles_point fuel p u a v D m = Done tt (logged (EvConsole "Noo!") m)) /\
  (forall c n r v k,
     mDead (emitter m) = false -> timeBoxed (emitter m) = false -> 0 < k ->
     exists f m', emitParticles_hemisphere c n r v k m = Crash f m' /\
                  n_parts (emitter m') = n_parts (emitter m) + 1).
Proof.
  intros H. split; [|split]; intros.
  - apply emitParticles_empty; exact H.
  - apply emitParticles_point_empty; exact H.
  - apply emitParticles_hemisphere_empty; assumption.
Qed.

(** ** The override-advance block *)

Lemma putSlot_twice i y z m : putSlot i z (putSlot i y m) = putSlot i z m.
Proof. unfold putSlot. cbn. rewrite list_insert_insert_eq. reflexivity. Qed.

Lemma putSlot_lookup i x y m :
  part_store (emitter m) !! i = Some x -> part_store (emitter (putSlot i y m)) !! i = Some y.
Proof.
  intros H. unfold putSlot. cbn. apply list_lookup_insert_eq. eapply lookup_lt_Some; eauto.
Qed.

(** What the block does to the head [i] of the live list. *)
Lemma advanceNewest_effect ms i x m :
  part_list_head (emitter m) = Some i -> part_store (emitter m) !! i = Some x ->
  (totalLifetime x < ms -> advanceNewest ms m = Done tt (collapsed i x m)) /\
  (ms <= totalLifetime x -> ms <> 0 -> forall pd, dataBlock x = Some pd ->
     advanceNewest ms m = updateKeyData (Some i) (putSlot i (integrated ms pd x) m)).
Proof.
  intros Hh Hx. split.
  - intros Hlt. unfold advanceNewest.
    rewrite (bind_done _ _ m (emitter m) m) by reflexivity. rewrite Hh.
    rewrite (bind_done _ _ _ _ _ (deref_done m i x Hx)).
    replace (ms >? totalLifetime x) with true by (symmetry; apply Z.gtb_lt; lia).
    cbv [bind modE getE store deref ret]. cbn. rewrite Hx. reflexivity.
  - intros Hle Hnz pd Hpd. unfold advanceNewest.
    rewrite (bind_done _ _ m (emitter m) m) by reflexivity. rewrite Hh.
    rewrite (bind_done _ _ _ _ _ (deref_done m i x Hx)).
    replace (ms >? totalLifetime x) with false
      by (symmetry; rewrite Z.gtb_ltb; apply Z.ltb_ge; lia).
    replace (ms =? 0) with false by (symmetry; apply Z.eqb_neq; exact Hnz).
    unfold when. cbn [negb]. rewrite Hpd.
    rewrite (bind_done _ _ _ _ _ (store_done m i x _ Hx)).
    rewrite (bind_done _ _ _ _ _
               (store_done _ i _ _ (putSlot_lookup i x _ m Hx))).
    rewrite putSlot_twice. reflexivity.
Qed.

(** One turn of the period loop that spawns (lines 1078-1132): the
    clock advances by the period, addParticle runs at the interpolated
    position, and the override-advance block runs on the leftover time
    unless the flag is set or the leftover is zero. *)
Lemma emitLoop_spawn fuel s e a v axisx D P c added m :
  0 <= c -> c < D -> c + P <= D -> D < 2 ^ 32 -> 0 < P ->
  periodOf m = P -> varianceOf m = 0 ->
  emitLoop (S fuel) s e a v axisx D NodeObj c added m =
    bind (addParticle_node (interpolate s e (f_div (f_of_int (c + P)) (f_of_int D)))
            a v axisx NodeObj) (fun _ =>
    bind getD (fun d =>
    bind (when (negb (overrideAdvance d) && negb (D - (c + P) =? 0))
            (advanceNewest (D - (c + P)))) (fun _ =>
    emitLoop fuel s e a v axisx D NodeObj (c + P) true)))
      (set_emitter (set_mInternalClock (u32 (mInternalClock (emitter m) + P)) (emitter m)) m).
Proof.
  intros Hc HcD HcP HD HP Hper Hvar. cbn [emitLoop].
  replace (c <? D) with true by (symmetry; apply Z.ltb_lt; lia).
  rewrite (bind_done _ _ _ _ _ (choosePeriod_const m Hvar)). rewrite Hper.
  rewrite (bind_done _ _ m tt m)
    by (apply assertFatal_true; apply Z.ltb_lt; exact HP).
  rewrite (u32_small (c + P)) by lia. rewrite (u32_small (D - (c + P))) by lia.
  replace (c + P >? D) with false by (symmetry; rewrite Z.gtb_ltb; apply Z.ltb_ge; lia).
  reflexivity.
Qed.

(** The turn of the period loop that defers (lines 1070-1076). *)
Lemma emitLoop_defer fuel s e a v axisx D P c added m :
  0 <= c -> c < D -> D < c + P -> c + P < 2 ^ 32 ->
  periodOf m = P -> varianceOf m = 0 ->
  emitLoop (S fuel) s e a v axisx D NodeObj c added m =
    Done added
      (set_emitter
         (set_mInternalClock (u32 (mInternalClock (emitter m) + (D - c)))
            (set_mNextParticleTime (c + P - D) (emitter m))) m).
Proof.
  intros Hc HcD HcP Hw Hper Hvar. cbn [emitLoop].
  replace (c <? D) with true by (symmetry; apply Z.ltb_lt; lia).
  rewrite (bind_done _ _ _ _ _ (choosePeriod_const m Hvar)). rewrite Hper.
  rewrite (bind_done _ _ m tt m)
    by (apply assertFatal_true; apply Z.ltb_lt; lia).
  rewrite (u32_small (c + P)) by lia. rewrite (u32_small (c + P - D)) by lia.
  replace (c + P >? D) with true by (symmetry; apply Z.gtb_lt; lia).
  cbv [bind modE getE]. cbn [emitter set_emitter mNextParticleTime set_mInternalClock set_mNextParticleTime].
  rewrite assertFatal_true by (apply Z.ltb_lt; lia). reflexivity.
Qed.

Lemma emitTail_store added end_ :
  steps (viewEq storeView)
    (bind (when added updateBBox) (fun _ =>
     bind joinScene (fun _ =>
     bind (modE (set_mLastPosition end_)) (fun _ => modE (set_mHasLastPosition true))))).
Proof.
  unfold updateBBox, joinScene.
  repeat (steps_step ltac:(intros; unfold viewEq, storeView, linksView; cbn; reflexivity)).
Qed.

Lemma emitTail_total added end_ :
  never (fun _ => true) false
    (bind (when added updateBBox) (fun _ =>
     bind joinScene (fun _ =>
     bind (modE (set_mLastPosition end_)) (fun _ => modE (set_mHasLastPosition true))))).
Proof. unfold updateBBox, joinScene. repeat never_step. Qed.

(** C5.  The advance-collapse rule and the spawn it misses.  In a
    path-segment call that passes its guards with a pending time [r],
    0 < r < D, and a constant period [P] with D < r + P, the particle of
    the pending spawn is the only one the call makes, and the leftover
    time D - r is not zero.  Whatever overrideAdvance is, and whatever
    that particle's totalLifetime, the call returns with every slot and
    both lists exactly as addParticle left them: the override-advance
    block of the period loop, which integrates or collapses the newest
    particle, is not reached for the particle spawned from the pending
    time. *)
Theorem pending_spawn_not_advanced fuel s e a v D P m :
  mDead (emitter m) = false -> particleDataBlocks (datablock m) <> [] ->
  timeBoxed (emitter m) = false ->
  periodOf m = P -> varianceOf m = 0 ->
  0 < mNextParticleTime (emitter m) -> mNextParticleTime (emitter m) < D ->
  D < mNextParticleTime (emitter m) + P -> mNextParticleTime (emitter m) + P < 2 ^ 32 ->
  match spawnPending s e a v (axisxOf a) D NodeObj m with
  | Done c m1 =>
      exists m', emitParticles (S fuel) s e a v D NodeObj m = Done tt m' /\
                 part_store (emitter m') = part_store (emitter m1) /\
                 part_list_head (emitter m') = part_list_head (emitter m1) /\
                 part_freelist (emitter m') = part_freelist (emitter m1) /\
                 n_parts (emitter m') = n_parts (emitter m1) /\
                 spawnView m' = spawnView m ++
                   [interpolate s e
                      (f_div (f_of_int (mNextParticleTime (emitter m))) (f_of_int D))]
  | Crash f m1 => emitParticles (S fuel) s e a v D NodeObj m = Crash f m1
  | OutOfFuel _ => False
  end.
Proof.
  intros Hd Ht Hb Hper Hvar Hr HrD HDP Hw.
  rewrite (emitParticles_consume (S fuel) s e a v D NodeObj m Hd Ht Hb) by lia.
  pose proof (spawnPending_count s e a v (axisxOf a) D NodeObj m ltac:(lia)) as H.
  unfold wp in H. unfold bind.
  destruct (spawnPending s e a v (axisxOf a) D NodeObj m) as [c m1|f m1|m1];
    [|reflexivity|exact H].
  destruct H as (-> & Hsp & Hn & _ & Hcfg).
  destruct (configView_period _ _ Hcfg) as (Hp1 & Hv1 & _).
  unfold emitFrom.
  change (match emitLoop (S fuel) s e a v (axisxOf a) D NodeObj
                  (mNextParticleTime (emitter m)) true m1 with
          | Done a0 m'0 => ?k a0 m'0
          | Crash f m'0 => Crash f m'0
          | OutOfFuel m'0 => OutOfFuel m'0
          end)
    with (bind (emitLoop (S fuel) s e a v (axisxOf a) D NodeObj
                  (mNextParticleTime (emitter m)) true) k m1).
  rewrite (bind_done _ _ _ _ _
             (emitLoop_defer fuel s e a v (axisxOf a) D P (mNextParticleTime (emitter m))
                true m1 ltac:(lia) HrD HDP Hw ltac:(congruence) ltac:(congruence))).
  set (m2 := set_emitter _ m1).
  pose proof (emitTail_store true e m2) as Hst.
  pose proof (emitTail_view true e m2) as Hvw.
  pose proof (emitTail_total true e m2) as Hfu.
  destruct (bind (when true updateBBox) _ m2) as [[] m'|f m'|m']; simpl in Hst, Hvw, Hfu;
    try discriminate.
  exists m'. split; [reflexivity|].
  unfold viewEq, storeView in Hst. apply pair_equal_spec in Hst as [Hst Hl].
  apply linksView_inv in Hl as (_ & Hfl & Hhd & Hnp & _).
  unfold viewEq, tailView in Hvw. split_pairs.
  split; [rewrite Hst; reflexivity|]. split; [rewrite Hhd; reflexivity|].
  split; [rewrite Hfl; reflexivity|]. split; [rewrite Hnp; reflexivity|].
  match goal with Hs : spawnView m' = spawnView m2 |- _ => rewrite Hs end.
  exact Hsp.
Qed.

(** ** Running the emitter on a concrete machine *)

Lemma done_state (o : Outcome unit) : isDone o = true -> o = Done tt (stateOf o).
Proof. destruct o as [[] m| |]; simpl; intros H; try discriminate; reflexivity. Qed.

Lemma pool_ok_lists m : pool_ok m = true -> pool_at m (liveOf m) (freeOf m).
Proof.
  unfold pool_ok, liveOf, freeOf.
  destruct (listFrom _ _ (part_list_head _)) as [live|] eqn:El; [|discriminate].
  destruct (listFrom _ _ (part_freelist _)) as [free|] eqn:Ef; [|discriminate].
  rewrite !andb_true_iff. intros [[[Hnd Hlen] Hn] Hc].
  apply bool_decide_eq_true in Hnd. apply Nat.eqb_eq in Hlen.
  apply Z.eqb_eq in Hn. apply Z.eqb_eq in Hc. simpl.
  split; [|split; assumption].
  split; [eapply listFrom_lseg; eauto|]. split; [eapply listFrom_lseg; eauto|].
  split; [exact Hnd|]. unfold nexts. rewrite length_map. exact Hlen.
Qed.

(** * Beyond the ten properties: more of what the code shows *)

(** ** The draws of a period and of a lifetime *)

Lemma u32_s32 z : u32 (s32 z) = u32 z.
Proof.
  unfold u32, s32. rewrite Zminus_mod_idemp_l.
  replace (z + 2 ^ 31 - 2 ^ 31) with z by lia. reflexivity.
Qed.

Lemma s32_small z : - 2 ^ 31 <= z < 2 ^ 31 -> s32 z = z.
Proof. intros H. unfold s32. rewrite Z.mod_small by lia. lia. Qed.

(** The modulus [2 * v + 1] of a draw is odd: as a U32 it is not zero. *)
Lemma odd_modulus v : u32 (s32 (2 * v + 1)) <> 0.
Proof.
  rewrite u32_s32. unfold u32. intros H.
  apply Z.mod_divide in H; [|lia].
  assert (H2 : (2 | 2 * v + 1)).
  { eapply Z.divide_trans; [|exact H]. exists (2 ^ 31). reflexivity. }
  destruct H2 as [k Hk]. lia.
Qed.

Lemma variance_done v m :
  exists dv g, variance v m = Done dv (set_gRandGen g m) /\
    (0 <= v < 2 ^ 30 -> - v <= dv <= v).
Proof.
  unfold variance. cbv [bind rand_I]. destruct (randI (gRandGen m)) as [r g].
  pose proof (odd_modulus v) as Hodd. apply Z.eqb_neq in Hodd. rewrite Hodd.
  eexists _, g. split; [reflexivity|]. intros Hv.
  rewrite u32_s32. rewrite (u32_small (2 * v + 1)) by lia.
  pose proof (Z.mod_pos_bound (u32 r) (2 * v + 1) ltac:(lia)) as Hb.
  rewrite (s32_small (u32 r mod (2 * v + 1))) by lia.
  rewrite s32_small by lia. lia.
Qed.

Lemma set_gRandGen_same m : set_gRandGen (gRandGen m) m = m.
Proof. destruct m; reflexivity. Qed.

Lemma when_false (body : M unit) m : when false body m = Done tt m.
Proof. reflexivity. Qed.


Lemma choosePeriod_draw m :
  choosePeriod NodeNull m = Crash NullDereference m /\
  exists t g,
    choosePeriod NodeObj m = Done t (set_gRandGen g m) /\
    (varianceOf m = 0 -> t = periodOf m /\ g = gRandGen m) /\
    (0 <= varianceOf m < 2 ^ 30 -> - 2 ^ 30 < periodOf m < 2 ^ 30 ->
       periodOf m - varianceOf m <= t <= periodOf m + varianceOf m).
Proof.
  split; [reflexivity|].
  unfold choosePeriod, periodOf, varianceOf. cbv [bind derefNode getN getD].
  set (p := if standAloneEmitter (node m) then sa_ejectionPeriodMS (node m)
            else ejectionPeriodMS (datablock m)).
  set (v := if standAloneEmitter (node m) then sa_periodVarianceMS (node m)
            else periodVarianceMS (datablock m)).
  destruct (v =? 0) eqn:E.
  - apply Z.eqb_eq in E. exists p, (gRandGen m). rewrite set_gRandGen_same.
    split; [reflexivity|]. split; [auto|]. intros. lia.
  - apply Z.eqb_neq in E.
    destruct (variance_done v m) as (dv & g & -> & Hr).
    exists (s32 (p + dv)), g. split; [reflexivity|]. split; [intros; contradiction|].
    intros Hv Hp. specialize (Hr Hv). rewrite s32_small by lia. lia.
Qed.

(** X2.  The ejection period of one spawn (lines 1057-1076).  With a
    node, the draw always returns and only advances the random generator;
    with the NULL node it is a NULL dereference.  Without variance the
    period is the configured one and no random number is drawn; with a
    variance [v] the period lies in [period - v, period + v], so a
    variance below the period gives a period of at least 1. *)
Theorem choosePeriod_range m :
  choosePeriod NodeNull m = Crash NullDereference m /\
  exists t g,
    choosePeriod NodeObj m = Done t (set_gRandGen g m) /\
    (varianceOf m = 0 -> t = periodOf m /\ g = gRandGen m) /\
    (0 <= varianceOf m < 2 ^ 30 -> - 2 ^ 30 < periodOf m < 2 ^ 30 ->
       periodOf m - varianceOf m <= t <= periodOf m + varianceOf m).
Proof. apply choosePeriod_draw. Qed.

(** ** The internal clock of the scheduler *)

Lemma u32_range z : 0 <= u32 z < 2 ^ 32.
Proof. unfold u32. apply Z.mod_pos_bound. lia. Qed.

Lemma u32_shift x y d : u32 (u32 x + (d - u32 y)) = u32 (x + (d - y)).
Proof.
  unfold u32. rewrite (Z.mod_eq x (2 ^ 32)), (Z.mod_eq y (2 ^ 32)) by lia.
  replace (x - 2 ^ 32 * (x / 2 ^ 32) + (d - (y - 2 ^ 32 * (y / 2 ^ 32))))
    with (x + (d - y) + (y / 2 ^ 32 - x / 2 ^ 32) * 2 ^ 32) by ring.
  apply Z_mod_plus_full.
Qed.

Lemma u32_add_l x d : u32 (u32 x + d) = u32 (x + d).
Proof. unfold u32. apply Zplus_mod_idemp_l. Qed.

Lemma choosePeriod_sched n : steps (viewEq schedView) (choosePeriod n).
Proof. unfold choosePeriod, variance. steps_go. Qed.

Lemma emitTail_clock added end_ :
  steps (viewEq clockView)
    (bind (when added updateBBox) (fun _ =>
     bind joinScene (fun _ =>
     bind (modE (set_mLastPosition end_)) (fun _ => modE (set_mHasLastPosition true))))).
Proof.
  unfold updateBBox, joinScene.
  repeat (steps_step ltac:(intros; unfold viewEq, clockView; cbn; reflexivity)).
Qed.

Lemma emitLoop_clock s e a v axisx D n : forall fuel c added m,
  c <= D -> 0 <= mInternalClock (emitter m) < 2 ^ 32 ->
  wp (emitLoop fuel s e a v axisx D n c added) m
     (fun _ m' => mInternalClock (emitter m') = u32 (mInternalClock (emitter m) + (D - c)))
     (fun _ _ => True) (fun _ => True).
Proof.
  induction fuel as [|fuel IH]; intros c added m HcD Hclk.
  - cbn [emitLoop]. destruct (c <? D) eqn:Hlt; [exact I|].
    apply Z.ltb_ge in Hlt. assert (c = D) as -> by lia.
    unfold wp, ret. rewrite Z.sub_diag, Z.add_0_r, u32_small by lia. reflexivity.
  - cbn [emitLoop]. destruct (c <? D) eqn:Hlt.
    2:{ apply Z.ltb_ge in Hlt. assert (c = D) as -> by lia.
        unfold wp, ret. rewrite Z.sub_diag, Z.add_0_r, u32_small by lia. reflexivity. }
    apply wp_bind.
    eapply (wp_steps (viewEq schedView)); [apply choosePeriod_sched | | auto | auto].
    intros t m0 H0. destruct (schedView_period _ _ H0) as (_ & _ & _ & _ & Hc0).
    apply wp_bind.
    eapply (wp_steps (viewEq schedView)); [apply steps_assertFatal; apply _ | | auto | auto].
    intros _ m1 H1. destruct (schedView_period _ _ H1) as (_ & _ & _ & _ & Hc1).
    destruct (u32 (c + t) >? D) eqn:Hcross.
    + wp_prim. wp_prim. wp_prim.
      apply wp_bind.
      eapply (wp_steps (viewEq clockView));
        [apply steps_assertFatal; apply _ | | auto | auto].
      intros _ m2 H2. unfold wp, ret. unfold viewEq, clockView in H2. rewrite H2. cbn.
      rewrite Hc1, Hc0. reflexivity.
    + rewrite Z.gtb_ltb in Hcross. apply Z.ltb_ge in Hcross.
      wp_prim.
      set (m2 := set_emitter _ m1).
      assert (Hc2 : mInternalClock (emitter m2) = u32 (mInternalClock (emitter m) + t)).
      { unfold m2. cbn. rewrite Hc1, Hc0. reflexivity. }
      clearbody m2.
      apply wp_bind.
      eapply wp_mono; [apply addParticle_node_logged | | auto | auto].
      intros u3 m3 [Hsch3 _]. cbv beta.
      destruct (schedView_period _ _ Hsch3) as (_ & _ & _ & _ & Hc3).
      wp_prim.
      apply wp_bind.
      eapply wp_mono;
        [apply (wp_side (when _ (advanceNewest _)) m3
                  (fun _ m4 => sideView m4 = sideView m3)) | | auto | auto].
      { apply steps_when; [apply _ | apply advanceNewest_side]. }
      { apply never_when. apply advanceNewest_fueled. }
      { auto. }
      intros u4 m4 Hside4. cbv beta in Hside4 |- *.
      apply pair_equal_spec in Hside4 as [Hsch4 _].
      destruct (schedView_period _ _ Hsch4) as (_ & _ & _ & _ & Hc4).
      eapply wp_mono; [apply (IH (u32 (c + t)) true m4) | | auto | auto].
      * exact Hcross.
      * rewrite Hc4, Hc3, Hc2. apply u32_range.
      * intros u5 m' H5. cbv beta in H5 |- *.
        rewrite H5, Hc4, Hc3, Hc2. rewrite u32_shift. f_equal. lia.
Qed.

Lemma emitFrom_clock fuel s e a v axisx D n c added m :
  c <= D -> 0 <= mInternalClock (emitter m) < 2 ^ 32 ->
  wp (emitFrom fuel s e a v axisx D n c added) m
     (fun _ m' => mInternalClock (emitter m') = u32 (mInternalClock (emitter m) + (D - c)))
     (fun _ _ => True) (fun _ => True).
Proof.
  intros HcD Hclk. unfold emitFrom. apply wp_bind.
  eapply wp_mono; [apply emitLoop_clock; assumption | | auto | auto].
  intros b m1 H1. cbv beta.
  eapply (wp_steps (viewEq clockView)); [apply emitTail_clock | | auto | auto].
  intros _ m' H'. unfold viewEq, clockView in H'. rewrite H'. exact H1.
Qed.

(** X3.  The internal clock of the emitter.  A call of the path-segment
    overload that passes its guards and returns has advanced
    mInternalClock by exactly the duration of the call (as a U32),
    whatever node drives it, whatever periods were drawn, however many
    particles it added and whether it deferred or consumed a pending
    spawn. *)
Theorem internal_clock_advance fuel s e a v D n m m' :
  mDead (emitter m) = false -> particleDataBlocks (datablock m) <> [] ->
  timeBoxed (emitter m) = false ->
  0 <= D ->
  0 <= mNextParticleTime (emitter m) < 2 ^ 32 ->
  0 <= mInternalClock (emitter m) < 2 ^ 32 ->
  emitParticles fuel s e a v D n m = Done tt m' ->
  mInternalClock (emitter m') = u32 (mInternalClock (emitter m) + D).
Proof.
  intros Hd Ht Hb HD Hr Hclk Hrun.
  destruct (mNextParticleTime (emitter m) =? 0) eqn:E.
  - apply Z.eqb_eq in E.
    rewrite (emitParticles_fresh fuel s e a v D n m Hd Ht Hb E) in Hrun.
    pose proof (emitFrom_clock fuel s e a v (axisxOf a) D n 0 false m HD Hclk) as H.
    unfold wp in H. rewrite Hrun in H. rewrite H. f_equal. lia.
  - apply Z.eqb_neq in E.
    destruct (Z_lt_le_dec D (mNextParticleTime (emitter m))) as [Hlt|Hle].
    + rewrite (emitParticles_defer fuel s e a v D n m Hd Ht Hb HD Hlt ltac:(lia)) in Hrun.
      injection Hrun as <-. reflexivity.
    + rewrite (emitParticles_consume fuel s e a v D n m Hd Ht Hb E Hle) in Hrun.
      pose proof (spawnPending_count s e a v (axisxOf a) D n m Hr) as Hsp.
      unfold wp in Hsp. unfold bind in Hrun.
      destruct (spawnPending s e a v (axisxOf a) D n m) as [c m1| |]; try discriminate.
      destruct Hsp as (-> & _ & _ & Hc1 & _).
      pose proof (emitFrom_clock fuel s e a v (axisxOf a) D n
                    (mNextParticleTime (emitter m)) true m1 Hle) as H.
      rewrite Hc1 in H. specialize (H (u32_range _)).
      unfold wp in H. rewrite Hrun in H. rewrite H.
      rewrite u32_add_l. f_equal. lia.
Qed.

(** ** The scheduler under a period variance *)

Lemma wp_never {A} bad (c : M A) m (QD : A -> Machine -> Prop) QC (QF : Machine -> Prop) :
  never bad false c -> wp c m QD QC QF ->
  wp c m QD (fun f m' => bad f = false /\ QC f m') QF.
Proof. intros Hn. specialize (Hn m). unfold wp. destruct (c m); auto. Qed.

Lemma keyLoop_sched remaining i part t :
  never schedulerAssert false (keyLoop remaining i part t).
Proof. revert i. induction remaining as [|r IH]; intros i; simpl; fueled_go. apply IH. Qed.

Lemma updateKeyData_sched part : never schedulerAssert false (updateKeyData part).
Proof. unfold updateKeyData. fueled_go. apply keyLoop_sched. Qed.

Lemma chooseDataBlock_sched pNew vel : never schedulerAssert false (chooseDataBlock pNew vel).
Proof.
  unfold chooseDataBlock. fueled_go.
  - intros m. cbv zeta. apply never_store; reflexivity.
  - apply updateKeyData_sched.
Qed.

Lemma allocParticle_sched : never schedulerAssert false allocParticle.
Proof. unfold allocParticle, growPool, takeSlot, pushFree, allocPrimBuffer. fueled_go. Qed.

Lemma addParticle_node_sched pos axis vel axisx n :
  never schedulerAssert false (addParticle_node pos axis vel axisx n).
Proof.
  unfold addParticle_node. apply never_bind; [apply allocParticle_sched | intros pNew].
  unfold launch_node, placeOnGraph. fueled_go. apply chooseDataBlock_sched.
Qed.

Lemma advanceNewest_sched ms : never schedulerAssert false (advanceNewest ms).
Proof. unfold advanceNewest. fueled_go. apply updateKeyData_sched. Qed.

Lemma emitTail_sched added end_ :
  never schedulerAssert false
    (bind (when added updateBBox) (fun _ =>
     bind joinScene (fun _ =>
     bind (modE (set_mLastPosition end_)) (fun _ => modE (set_mHasLastPosition true))))).
Proof. unfold updateBBox, joinScene. fueled_go. Qed.

Lemma div_step_lower a q t : 0 < q -> t <= q -> a / q <= 1 + (a - t) / q.
Proof.
  intros Hq Ht.
  assert (H : (a - q) / q <= (a - t) / q) by (apply Z.div_le_mono; lia).
  replace (a - q) with (a + (-1) * q) in H by ring.
  rewrite Z.div_add in H by lia. lia.
Qed.

Lemma div_step_upper a q t : 0 < q -> q <= t -> 1 + (a - t) / q <= a / q.
Proof.
  intros Hq Ht.
  assert (H : (a - t) / q <= (a - q) / q) by (apply Z.div_le_mono; lia).
  replace (a - q) with (a + (-1) * q) in H by ring.
  rewrite Z.div_add in H by lia. lia.
Qed.

Lemma emitLoop_between s e a vel axisx D p v :
  0 <= v -> v < p -> p + v < 2 ^ 30 -> D + p + v < 2 ^ 32 ->
  forall fuel c added m,
  0 <= c -> c <= D -> periodOf m = p -> varianceOf m = v ->
  wp (emitLoop fuel s e a vel axisx D NodeObj c added) m
     (fun _ m' =>
        (D - c) / (p + v) <= spawnCount m' - spawnCount m <= (D - c) / (p - v) /\
        (mNextParticleTime (emitter m') = mNextParticleTime (emitter m) \/
         0 < mNextParticleTime (emitter m') < p + v) /\
        periodOf m' = p /\ varianceOf m' = v)
     (fun f _ => schedulerAssert f = false)
     (fun _ => Z.of_nat fuel <= (D - c) / (p - v)).
Proof.
  intros Hv0 Hvp Hp30 Hwrap.
  induction fuel as [|fuel IH]; intros c added m Hc0 HcD Hper Hvar.
  - cbn [emitLoop]. destruct (c <? D) eqn:Hlt.
    + unfold wp, outOfFuel. simpl. apply Z.div_pos; lia.
    + apply Z.ltb_ge in Hlt. assert (c = D) as -> by lia.
      unfold wp, ret. rewrite Z.sub_diag, !Z.div_0_l by lia.
      split; [lia|]. split; [left; reflexivity | auto].
  - cbn [emitLoop]. destruct (c <? D) eqn:Hlt.
    2:{ apply Z.ltb_ge in Hlt. assert (c = D) as -> by lia.
        unfold wp, ret. rewrite Z.sub_diag, !Z.div_0_l by lia.
        split; [lia|]. split; [left; reflexivity | auto]. }
    apply Z.ltb_lt in Hlt.
    destruct (choosePeriod_draw m) as (_ & t & g & Hcp & _ & Hrange).
    rewrite Hper, Hvar in Hrange. specialize (Hrange ltac:(lia) ltac:(lia)).
    eapply wp_bind_done; [exact Hcp|].
    set (m0 := set_gRandGen g m).
    assert (Hper0 : periodOf m0 = p) by exact Hper.
    assert (Hvar0 : varianceOf m0 = v) by exact Hvar.
    assert (Hcnt0 : spawnCount m0 = spawnCount m) by reflexivity.
    assert (Hnext0 : mNextParticleTime (emitter m0) = mNextParticleTime (emitter m))
      by reflexivity.
    clearbody m0.
    eapply wp_bind_done; [apply assertFatal_true; apply Z.ltb_lt; lia|].
    rewrite (u32_small (c + t)) by lia.
    destruct (c + t >? D) eqn:Hcross.
    + rewrite Z.gtb_ltb in Hcross. apply Z.ltb_lt in Hcross.
      wp_prim. wp_prim. wp_prim.
      rewrite (u32_small (c + t - D)) by lia.
      eapply wp_bind_done.
      { apply assertFatal_true. cbn. apply Z.ltb_lt. lia. }
      unfold wp, ret. cbn [emitter set_emitter mNextParticleTime set_mNextParticleTime
                           set_mInternalClock].
      rewrite (Z.div_small (D - c) (p + v)) by lia.
      split; [split; [unfold spawnCount, spawnView in *; cbn; lia|]|].
      * assert (0 <= (D - c) / (p - v)) by (apply Z.div_pos; lia).
        unfold spawnCount, spawnView in *. cbn. lia.
      * split; [right; lia|]. split; [exact Hper0 | exact Hvar0].
    + rewrite Z.gtb_ltb in Hcross. apply Z.ltb_ge in Hcross.
      wp_prim.
      set (m1 := set_emitter _ m0).
      assert (Hper1 : periodOf m1 = p) by exact Hper0.
      assert (Hvar1 : varianceOf m1 = v) by exact Hvar0.
      assert (Hcnt1 : spawnCount m1 = spawnCount m) by exact Hcnt0.
      assert (Hnext1 : mNextParticleTime (emitter m1) = mNextParticleTime (emitter m))
        by exact Hnext0.
      clearbody m1.
      apply wp_bind.
      eapply wp_mono;
        [apply (wp_never schedulerAssert); [apply addParticle_node_sched
                                           | apply addParticle_node_logged]
        | | intros f m' [Hf _]; exact Hf | intros ? []].
      intros u2 m2 [Hsch2 Hsp2]. cbv beta.
      destruct (schedView_period _ _ Hsch2) as (Hp2 & Hv2 & Ho2 & Hn2 & _).
      wp_prim.
      apply wp_bind.
      eapply wp_mono;
        [apply (wp_never schedulerAssert);
         [|apply (wp_side (when _ (advanceNewest _)) m2
                    (fun _ m3 => sideView m3 = sideView m2))]
        | | intros f m' [Hf _]; exact Hf | intros ? []].
      { apply never_when. apply advanceNewest_sched. }
      { apply steps_when; [apply _ | apply advanceNewest_side]. }
      { apply never_when. apply advanceNewest_fueled. }
      { auto. }
      intros u3 m3 Hside3. cbv beta in Hside3 |- *.
      apply pair_equal_spec in Hside3 as [Hsch3 Hsp3].
      destruct (schedView_period _ _ Hsch3) as (Hp3 & Hv3 & Ho3 & Hn3 & _).
      eapply wp_mono; [apply (IH (c + t) true m3); try lia; congruence | | auto | ].
      * intros u4 m' (H1 & H2 & H3 & H4). cbv beta.
        pose proof (div_step_lower (D - c) (p + v) t ltac:(lia) ltac:(lia)) as Hlo.
        pose proof (div_step_upper (D - c) (p - v) t ltac:(lia) ltac:(lia)) as Hhi.
        replace (D - c - t) with (D - (c + t)) in Hlo, Hhi by ring.
        assert (Hcnt : spawnCount m3 = spawnCount m + 1).
        { unfold spawnCount in *. rewrite Hsp3, Hsp2, length_app. simpl length.
          rewrite Nat2Z.inj_add. lia. }
        split; [lia|]. split; [|auto].
        rewrite Hn3, Hn2, Hnext1 in H2. exact H2.
      * intros m' Hf. cbv beta in Hf |- *.
        pose proof (div_step_upper (D - c) (p - v) t ltac:(lia) ltac:(lia)) as Hhi.
        replace (D - c - t) with (D - (c + t)) in Hhi by ring. lia.
Qed.

Lemma emitFrom_between s e a vel axisx D p v fuel c added m :
  0 <= v -> v < p -> p + v < 2 ^ 30 -> D + p + v < 2 ^ 32 ->
  0 <= c -> c <= D -> periodOf m = p -> varianceOf m = v ->
  mNextParticleTime (emitter m) = 0 ->
  wp (emitFrom fuel s e a vel axisx D NodeObj c added) m
     (fun _ m' =>
        (D - c) / (p + v) <= spawnCount m' - spawnCount m <= (D - c) / (p - v) /\
        0 <= mNextParticleTime (emitter m') < p + v)
     (fun f _ => schedulerAssert f = false)
     (fun _ => Z.of_nat fuel <= (D - c) / (p - v)).
Proof.
  intros Hv0 Hvp Hp30 Hw Hc0 HcD Hper Hvar Hnext. unfold emitFrom. apply wp_bind.
  eapply wp_mono;
    [apply (emitLoop_between s e a vel axisx D p v Hv0 Hvp Hp30 Hw fuel c added m);
     assumption | | auto | auto].
  intros b m1 (H1 & H2 & _). cbv beta.
  eapply wp_mono;
    [apply (wp_never schedulerAssert);
     [apply emitTail_sched
     |apply (wp_body _ tailView _ m1 (fun _ m' => tailView m' = tailView m1));
      [apply emitTail_view | apply emitTail_fueled | auto]]
    | | intros f m' [Hf _]; exact Hf | intros ? []].
  intros u m' Hv. cbv beta in Hv |- *. unfold tailView in Hv. split_pairs.
  unfold spawnCount in *. rewrite Hnext in H2.
  split; [congruence | lia].
Qed.

(** X4.  The spawn count of a call under a period variance.  Let the
    period be [p] and its variance [v] with [0 <= v < p], the pending
    time [r] at most the duration [D] of the call.  Every period drawn is
    at least [p - v >= 1]: neither assertion of the period loop can fail,
    and more than [(D - r) / (p - v)] units of fuel are enough for the
    loop to end.  A call that returns has added the owed particle, if one
    was pending, and between [(D - r) / (p + v)] and [(D - r) / (p - v)]
    more, and leaves a pending time below [p + v]. *)
Theorem spawn_count_with_variance fuel s e a vel D p v m :
  mDead (emitter m) = false -> particleDataBlocks (datablock m) <> [] ->
  timeBoxed (emitter m) = false ->
  periodOf m = p -> varianceOf m = v ->
  0 <= v -> v < p -> p + v < 2 ^ 30 -> D + p + v < 2 ^ 32 ->
  0 <= mNextParticleTime (emitter m) <= D ->
  let r := mNextParticleTime (emitter m) in
  let owed := if r =? 0 then 0 else 1 in
  ((D - r) / (p - v) < Z.of_nat fuel ->
     ~ ranOut (emitParticles fuel s e a vel D NodeObj m)) /\
  (forall f m', emitParticles fuel s e a vel D NodeObj m = Crash f m' ->
     schedulerAssert f = false) /\
  (forall m', emitParticles fuel s e a vel D NodeObj m = Done tt m' ->
     owed + (D - r) / (p + v) <= spawnCount m' - spawnCount m <= owed + (D - r) / (p - v) /\
     0 <= mNextParticleTime (emitter m') < p + v).
Proof.
  intros Hd Ht Hb Hper Hvar Hv0 Hvp Hp30 Hw Hr r owed.
  assert (H : wp (emitParticles fuel s e a vel D NodeObj) m
                (fun _ m' =>
                   owed + (D - r) / (p + v) <= spawnCount m' - spawnCount m
                     <= owed + (D - r) / (p - v) /\
                   0 <= mNextParticleTime (emitter m') < p + v)
                (fun f _ => schedulerAssert f = false)
                (fun _ => Z.of_nat fuel <= (D - r) / (p - v))).
  { unfold owed, r. destruct (mNextParticleTime (emitter m) =? 0) eqn:E.
    - apply Z.eqb_eq in E. unfold wp.
      rewrite (emitParticles_fresh fuel s e a vel D NodeObj m Hd Ht Hb E).
      pose proof (emitFrom_between s e a vel (axisxOf a) D p v fuel 0 false m Hv0 Hvp Hp30 Hw
                    ltac:(lia) ltac:(lia) Hper Hvar E) as H.
      unfold wp in H. rewrite E. rewrite !Z.add_0_l.
      destruct (emitFrom _ _ _ _ _ _ _ _ _ _ m); exact H.
    - apply Z.eqb_neq in E. unfold wp at 1.
      rewrite (emitParticles_consume fuel s e a vel D NodeObj m Hd Ht Hb E ltac:(lia)).
      change (wp (bind (spawnPending s e a vel (axisxOf a) D NodeObj)
                    (fun c => emitFrom fuel s e a vel (axisxOf a) D NodeObj c true)) m
                (fun _ m' =>
                   1 + (D - mNextParticleTime (emitter m)) / (p + v)
                     <= spawnCount m' - spawnCount m
                     <= 1 + (D - mNextParticleTime (emitter m)) / (p - v) /\
                   0 <= mNextParticleTime (emitter m') < p + v)
                (fun f _ => schedulerAssert f = false)
                (fun _ => Z.of_nat fuel <= (D - mNextParticleTime (emitter m)) / (p - v))).
      apply wp_bind.
      eapply wp_mono;
        [apply (wp_never schedulerAssert);
         [|apply (spawnPending_count s e a vel (axisxOf a) D NodeObj m); lia]
        | | intros f m' [Hf _]; exact Hf | intros ? []].
      { unfold spawnPending. fueled_go. apply addParticle_node_sched. }
      intros c m1 (-> & Hsp & Hn & _ & Hcfg). cbv beta.
      destruct (configView_period _ _ Hcfg) as (Hp1 & Hv1 & _).
      eapply wp_mono;
        [apply (emitFrom_between s e a vel (axisxOf a) D p v fuel
                  (mNextParticleTime (emitter m)) true m1 Hv0 Hvp Hp30 Hw);
         try lia; congruence | | auto | auto].
      intros u m' [Hc Hn']. cbv beta in Hc, Hn' |- *. split; [|exact Hn'].
      assert (Hcnt : spawnCount m1 = spawnCount m + 1).
      { unfold spawnCount. rewrite Hsp, length_app. simpl length.
        rewrite Nat2Z.inj_add. lia. }
      lia. }
  unfold wp in H. unfold ranOut.
  destruct (emitParticles fuel s e a vel D NodeObj m) as [[] m1|f m1|m1].
  - split; [intros _ []|]. split; [intros ? ? [=]|]. intros m' [= <-]. exact H.
  - split; [intros _ []|]. split; [|intros ? [=]]. intros f' m' [= <- <-]. exact H.
  - split; [intros Hlt _; fold r in H; lia|]. split; [intros ? ? [=] | intros ? [=]].
Qed.

(** ** Where the scheduler places its particles *)

Lemma spawnsFrom_none s e D P c : 0 <= D - c < P -> spawnsFrom s e D P c = [].
Proof. intros H. unfold spawnsFrom. rewrite Z.div_small by exact H. reflexivity. Qed.

Lemma spawnsFrom_step s e D P c :
  0 < P -> c + P <= D ->
  spawnsFrom s e D P c = spawnAt s e D (c + P) :: spawnsFrom s e D P (c + P).
Proof.
  intros HP Hle. unfold spawnsFrom.
  replace (D - c) with (1 * P + (D - (c + P))) by ring.
  rewrite Z.div_add_l by lia.
  assert (H0 : 0 <= (D - (c + P)) / P) by (apply Z.div_pos; lia).
  rewrite Z2Nat.inj_add by lia. change (Z.to_nat 1) with 1%nat.
  cbn [Nat.add seq map]. f_equal.
  - f_equal. lia.
  - rewrite <- seq_shift, map_map. apply map_ext. intros k. f_equal. lia.
Qed.

Lemma emitLoop_positions s e a vel axisx D P :
  0 < P -> D + P < 2 ^ 32 ->
  forall fuel c added m,
  0 <= c -> c <= D -> periodOf m = P -> varianceOf m = 0 ->
  wp (emitLoop fuel s e a vel axisx D NodeObj c added) m
     (fun _ m' => spawnView m' = spawnView m ++ spawnsFrom s e D P c)
     (fun _ _ => True) (fun _ => True).
Proof.
  intros HP Hwrap. induction fuel as [|fuel IH]; intros c added m Hc0 HcD Hper Hvar.
  - cbn [emitLoop]. destruct (c <? D) eqn:Hlt; [exact I|].
    apply Z.ltb_ge in Hlt. unfold wp, ret.
    rewrite spawnsFrom_none by lia. rewrite app_nil_r. reflexivity.
  - cbn [emitLoop]. destruct (c <? D) eqn:Hlt.
    2:{ apply Z.ltb_ge in Hlt. unfold wp, ret.
        rewrite spawnsFrom_none by lia. rewrite app_nil_r. reflexivity. }
    apply Z.ltb_lt in Hlt.
    eapply wp_bind_done; [apply choosePeriod_const; exact Hvar|]. rewrite Hper.
    eapply wp_bind_done; [apply assertFatal_true; apply Z.ltb_lt; exact HP|].
    rewrite (u32_small (c + P)) by lia.
    destruct (c + P >? D) eqn:Hcross.
    + rewrite Z.gtb_ltb in Hcross. apply Z.ltb_lt in Hcross.
      wp_prim. wp_prim. wp_prim.
      rewrite (u32_small (c + P - D)) by lia.
      eapply wp_bind_done.
      { apply assertFatal_true. cbn. apply Z.ltb_lt. lia. }
      unfold wp, ret. rewrite spawnsFrom_none by lia. rewrite app_nil_r. reflexivity.
    + rewrite Z.gtb_ltb in Hcross. apply Z.ltb_ge in Hcross.
      wp_prim.
      set (m1 := set_emitter _ m).
      assert (Hper1 : periodOf m1 = P) by exact Hper.
      assert (Hvar1 : varianceOf m1 = 0) by exact Hvar.
      assert (Hsp1 : spawnView m1 = spawnView m) by reflexivity.
      clearbody m1.
      apply wp_bind.
      eapply wp_mono; [apply addParticle_node_logged | | auto | auto].
      intros u2 m2 [Hsch2 Hsp2]. cbv beta.
      destruct (schedView_period _ _ Hsch2) as (Hp2 & Hv2 & _).
      wp_prim.
      apply wp_bind.
      eapply wp_mono;
        [apply (wp_side (when _ (advanceNewest _)) m2
                  (fun _ m3 => sideView m3 = sideView m2)) | | auto | auto].
      { apply steps_when; [apply _ | apply advanceNewest_side]. }
      { apply never_when. apply advanceNewest_fueled. }
      { auto. }
      intros u3 m3 Hside3. cbv beta in Hside3 |- *.
      apply pair_equal_spec in Hside3 as [Hsch3 Hsp3].
      destruct (schedView_period _ _ Hsch3) as (Hp3 & Hv3 & _).
      eapply wp_mono; [apply (IH (c + P) true m3); try lia; congruence | | auto | auto].
      intros u4 m' H. cbv beta in H |- *.
      rewrite H, Hsp3, Hsp2, Hsp1. rewrite (spawnsFrom_step s e D P c HP Hcross).
      rewrite <- app_assoc. reflexivity.
Qed.

Lemma emitFrom_positions s e a vel axisx D P fuel c added m :
  0 < P -> D + P < 2 ^ 32 -> 0 <= c -> c <= D -> periodOf m = P -> varianceOf m = 0 ->
  wp (emitFrom fuel s e a vel axisx D NodeObj c added) m
     (fun _ m' => spawnView m' = spawnView m ++ spawnsFrom s e D P c)
     (fun _ _ => True) (fun _ => True).
Proof.
  intros HP Hw Hc0 HcD Hper Hvar. unfold emitFrom. apply wp_bind.
  eapply wp_mono; [apply (emitLoop_positions s e a vel axisx D P HP Hw fuel c added m);
                   assumption | | auto | auto].
  intros b m1 H1. cbv beta.
  eapply (wp_steps (viewEq tailView)); [apply emitTail_view | | auto | auto].
  intros _ m' Hv. unfold viewEq, tailView in Hv. split_pairs. congruence.
Qed.

(** X5.  Where a call with a constant period places its particles.  With
    period [P] and no variance, a call of duration [D] that starts with
    the pending time [r <= D] and returns has called addParticle first at
    the fraction [r / D] of the segment, if a spawn was pending, and then
    at the fractions [(r + P) / D], [(r + 2 P) / D], ... for every
    multiple that does not pass [D], in this order and nowhere else. *)
Theorem spawn_positions fuel s e a vel D P m m' :
  mDead (emitter m) = false -> particleDataBlocks (datablock m) <> [] ->
  timeBoxed (emitter m) = false ->
  periodOf m = P -> varianceOf m = 0 -> 0 < P -> D + P < 2 ^ 32 ->
  0 <= mNextParticleTime (emitter m) <= D ->
  emitParticles fuel s e a vel D NodeObj m = Done tt m' ->
  let r := mNextParticleTime (emitter m) in
  spawnView m' =
    spawnView m ++ (if r =? 0 then [] else [spawnAt s e D r]) ++ spawnsFrom s e D P r.
Proof.
  intros Hd Ht Hb Hper Hvar HP Hw Hr Hrun r. unfold r.
  destruct (mNextParticleTime (emitter m) =? 0) eqn:E.
  - apply Z.eqb_eq in E.
    rewrite (emitParticles_fresh fuel s e a vel D NodeObj m Hd Ht Hb E) in Hrun.
    pose proof (emitFrom_positions s e a vel (axisxOf a) D P fuel 0 false m HP Hw
                  ltac:(lia) ltac:(lia) Hper Hvar) as H.
    unfold wp in H. rewrite Hrun in H. rewrite E. exact H.
  - apply Z.eqb_neq in E.
    rewrite (emitParticles_consume fuel s e a vel D NodeObj m Hd Ht Hb E ltac:(lia)) in Hrun.
    pose proof (spawnPending_count s e a vel (axisxOf a) D NodeObj m ltac:(lia)) as Hsp.
    unfold wp in Hsp. unfold bind in Hrun.
    destruct (spawnPending s e a vel (axisxOf a) D NodeObj m) as [c m1| |]; try discriminate.
    destruct Hsp as (-> & Hsp & _ & _ & Hcfg).
    destruct (configView_period _ _ Hcfg) as (Hp1 & Hv1 & _).
    pose proof (emitFrom_positions s e a vel (axisxOf a) D P fuel
                  (mNextParticleTime (emitter m)) true m1 HP Hw
                  ltac:(lia) ltac:(lia) ltac:(congruence) ltac:(congruence)) as H.
    unfold wp in H. rewrite Hrun in H. rewrite H, Hsp. rewrite <- app_assoc. reflexivity.
Qed.

(** ** What a spawn writes *)

Section StoreAt.

Context (R : Machine -> Machine -> Prop) {HR : PreOrder R}.

Lemma steps_store_at i f :
  (forall m x, part_store (emitter m) !! i = Some x ->
     R m (set_emitter (set_part_store (<[i := f x]> (part_store (emitter m))) (emitter m)) m)) ->
  steps R (store (Some i) f).
Proof.
  intros H m. cbv [store bind deref getE ret crash modE].
  destruct (part_store (emitter m) !! i) as [x|] eqn:E; simpl; [|reflexivity].
  apply H. exact E.
Qed.

End StoreAt.

Ltac except_leaf :=
  intros; unfold viewEq, exceptView; cbn; rewrite ?list_insert_insert_eq; reflexivity.

Ltac except_step :=
  lazymatch goal with
  | |- steps _ (store (Some _) _) => apply steps_store_at; [apply _ .. | except_leaf]
  | |- _ => steps_step except_leaf
  end.

Lemma keyLoop_except i remaining k t :
  steps (viewEq (exceptView i)) (keyLoop remaining k (Some i) t).
Proof.
  revert k. induction remaining as [|r IH]; intros k; simpl; repeat except_step. apply IH.
Qed.

Lemma updateKeyData_except i : steps (viewEq (exceptView i)) (updateKeyData (Some i)).
Proof. unfold updateKeyData. repeat except_step. apply keyLoop_except. Qed.

Lemma chooseDataBlock_except i vel :
  steps (viewEq (exceptView i)) (chooseDataBlock (Some i) vel).
Proof.
  unfold chooseDataBlock. repeat except_step.
  - apply initialize_store; [reflexivity | intros g; repeat except_step].
  - apply updateKeyData_except.
Qed.

Lemma launch_except i pos axis vel axisx :
  steps (viewEq (exceptView i)) (launch (Some i) pos axis vel axisx).
Proof. unfold launch. repeat except_step. apply chooseDataBlock_except. Qed.

Lemma launch_node_except i pos axis vel axisx n :
  steps (viewEq (exceptView i)) (launch_node (Some i) pos axis vel axisx n).
Proof.
  unfold launch_node, placeOnGraph. repeat except_step. apply chooseDataBlock_except.
Qed.

Lemma insert_except {A} (l1 l2 : list A) i u z :
  <[i := u]> l1 = <[i := u]> l2 -> l1 !! i = Some z -> l1 = <[i := z]> l2.
Proof.
  intros H Hz. apply list_eq. intros k.
  assert (Hlen : length l1 = length l2).
  { rewrite <- (length_insert l1 i u), H. apply length_insert. }
  destruct (decide (k = i)) as [->|Hne].
  - rewrite Hz. symmetry. apply list_lookup_insert_eq.
    rewrite <- Hlen. eapply lookup_lt_Some. exact Hz.
  - rewrite list_lookup_insert_ne by auto.
    rewrite <- (list_lookup_insert_ne l1 i k u), H by auto.
    apply list_lookup_insert_ne. auto.
Qed.

Lemma wp_returns {A} (c : M A) m (QD : A -> Machine -> Prop) :
  wp c m QD (fun _ _ => True) (fun _ => False) ->
  ~ ranOut (c m) /\ forall a m', c m = Done a m' -> QD a m'.
Proof.
  unfold wp, ranOut. destruct (c m) as [a m1|f m1|m1]; intros H.
  - split; [auto|]. intros a' m' [= <- <-]. exact H.
  - split; [auto|]. intros ? ? [=].
  - contradiction.
Qed.

Lemma wp_conj {A} (c : M A) m (Q1 Q2 : A -> Machine -> Prop)
    (C1 C2 : Fault -> Machine -> Prop) (F1 F2 : Machine -> Prop) :
  wp c m Q1 C1 F1 -> wp c m Q2 C2 F2 ->
  wp c m (fun a m' => Q1 a m' /\ Q2 a m') (fun f m' => C1 f m' /\ C2 f m')
     (fun m' => F1 m' /\ F2 m').
Proof. unfold wp. destruct (c m); auto. Qed.

Lemma takeSlot_store m i x :
  part_freelist (emitter m) = Some i -> part_store (emitter m) !! i = Some x ->
  exists m', takeSlot m = Done (Some i) m' /\
    part_store (emitter m') =
      <[i := set_next (part_list_head (emitter m)) x]> (part_store (emitter m)) /\
    datablock m' = datablock m /\ sideView m' = sideView m.
Proof.
  intros Hf Hx. unfold takeSlot. mrun. rewrite Hf. cbn. rewrite Hx. cbn. rewrite Hx. cbn.
  eexists. split; [reflexivity|]. cbn. auto.
Qed.

(** The head of addParticle when the pool does not grow. *)
Lemma allocParticle_reuse m live i free :
  pool_at m live (i :: free) ->
  u32 (n_parts (emitter m) + 1) <= partListInitSize (datablock m) ->
  exists m' x,
    allocParticle m = Done (Some i) m' /\
    part_store (emitter m) !! i = Some x /\
    pool_at m' (i :: live) free /\
    part_list_head (emitter m') = Some i /\
    part_store (emitter m') =
      <[i := set_next (part_list_head (emitter m)) x]> (part_store (emitter m)) /\
    datablock m' = datablock m /\ sideView m' = sideView m.
Proof.
  intros (Hs & Hn & Hc) Hinit. unfold allocParticle.
  cbv [bind modE getE getD].
  set (m1 := set_emitter (set_n_parts (n_parts (emitter m) + 1) (emitter m)) m).
  assert (Hs1 : shape (nexts m1) (part_list_head (emitter m1)) (part_freelist (emitter m1))
                      live (i :: free)) by exact Hs.
  assert (Hgrow : (n_parts (emitter m1) >? n_part_capacity (emitter m1))
                  || (u32 (n_parts (emitter m1)) >? partListInitSize (datablock m1)) = false).
  { apply orb_false_iff. split; rewrite Z.gtb_ltb; apply Z.ltb_ge.
    - unfold m1. cbn. rewrite Hn, Hc. simpl length. lia.
    - exact Hinit. }
  rewrite Hgrow. rewrite when_false.
  pose proof Hs1 as (_ & Hf & _).
  destruct Hf as (Hfl & nx & Hnx & _).
  destruct (nexts_lookup m1 i nx Hnx) as (x & Hx & _).
  destruct (takeSlot_spec m1 live i free Hs1) as (m3 & E & Hs3 & Hh3 & Hn3 & Hc3).
  destruct (takeSlot_store m1 i x Hfl Hx) as (m3' & E' & Hst & Hd & Hside).
  rewrite E in E'. injection E' as <-.
  exists m3, x. split; [exact E|]. split; [exact Hx|]. split.
  { split; [exact Hs3|]. rewrite Hn3, Hc3. unfold m1. cbn. rewrite Hn, Hc.
    simpl length. lia. }
  split; [exact Hh3|]. split; [exact Hst|]. split; [exact Hd | exact Hside].
Qed.

Lemma spawn_reuse (tail : option nat -> M unit) pos m live i free :
  pool_at m live (i :: free) ->
  u32 (n_parts (emitter m) + 1) <= partListInitSize (datablock m) ->
  (forall p, steps (viewEq bodyView) (tail p)) -> (forall p, fueled (tail p)) ->
  steps (viewEq (exceptView i)) (tail (Some i)) ->
  wp (bind allocParticle (fun pNew => bind (emit (EvSpawn pos)) (fun _ => tail pNew))) m
     (fun _ m' =>
        pool_at m' (i :: live) free /\ part_list_head (emitter m') = Some i /\
        (exists z, part_store (emitter m') = <[i := z]> (part_store (emitter m))) /\
        datablock m' = datablock m)
     (fun _ _ => True) (fun _ => False).
Proof.
  intros Hp Hinit Hbody Hfuel Hexc.
  destruct (allocParticle_reuse m live i free Hp Hinit)
    as (m1 & x & E & Hx & Hp1 & Hh1 & Hst1 & Hd1 & _).
  eapply wp_bind_done; [exact E|]. wp_prim.
  set (m2 := set_console _ m1).
  pose proof (Hbody (Some i) m2) as Hb. pose proof (Hfuel (Some i) m2) as Hf.
  pose proof (Hexc m2) as He. unfold wp.
  destruct (tail (Some i) m2) as [u m'|f m'|m']; simpl in Hb, He; [|exact I|discriminate].
  unfold viewEq in Hb, He. unfold bodyView in Hb. unfold exceptView in He.
  split_pairs.
  match goal with H : linksView m' = linksView m2 |- _ => rename H into Hlinks end.
  match goal with H : datablock m' = datablock m2 |- _ => rename H into Hdata end.
  match goal with H : <[i:=_]> _ = <[i:=_]> _ |- _ => rename H into Hrest end.
  split; [eapply pool_at_links; [exact Hlinks | exact Hp1]|].
  split; [apply linksView_inv in Hlinks as (_ & _ & -> & _); exact Hh1|].
  split; [|rewrite Hdata; exact Hd1].
  assert (Hlt : (i < length (part_store (emitter m')))%nat).
  { rewrite <- (length_insert _ i uninitialized), Hrest, length_insert.
    change (part_store (emitter m2)) with (part_store (emitter m1)).
    rewrite Hst1, length_insert. eapply lookup_lt_Some. exact Hx. }
  destruct (lookup_lt_is_Some_2 _ _ Hlt) as [z Hz].
  exists z. rewrite (insert_except _ _ i uninitialized z Hrest Hz).
  change (part_store (emitter m2)) with (part_store (emitter m1)).
  rewrite Hst1. apply list_insert_insert_eq.
Qed.

(** X6.  A spawn that finds a free slot.  When the free list is not empty
    and the particle count stays within the datablock's partListInitSize,
    addParticle (either overload) allocates nothing: it takes the head of
    the free list, which becomes the head of the live list; the rest of
    the free list and the order of the live list are kept, the store
    differs from the old one in that single slot, and the datablock is
    not touched.  The call may fail inside the particle's initialisation,
    but it never runs out of steps. *)
Theorem spawn_takes_free_head pos axis vel axisx n m live i free :
  pool_at m live (i :: free) ->
  u32 (n_parts (emitter m) + 1) <= partListInitSize (datablock m) ->
  let taken m' :=
    pool_at m' (i :: live) free /\ part_list_head (emitter m') = Some i /\
    (exists z, part_store (emitter m') = <[i := z]> (part_store (emitter m))) /\
    datablock m' = datablock m in
  (~ ranOut (addParticle pos axis vel axisx m) /\
   forall m', addParticle pos axis vel axisx m = Done tt m' -> taken m') /\
  (~ ranOut (addParticle_node pos axis vel axisx n m) /\
   forall m', addParticle_node pos axis vel axisx n m = Done tt m' -> taken m').
Proof.
  intros Hp Hinit taken. split.
  - assert (H : wp (addParticle pos axis vel axisx) m (fun _ m' => taken m')
                  (fun _ _ => True) (fun _ => False)).
    { unfold addParticle. eapply wp_bind_done; [reflexivity|].
      set (m0 := set_console _ m).
      apply (spawn_reuse (fun pNew => launch pNew pos axis vel axisx) pos m0 live i free Hp Hinit).
      - intros p. apply launch_body.
      - intros p. apply launch_fueled.
      - apply launch_except. }
    apply wp_returns in H as [H1 H2]. split; [exact H1|]. intros m' E. exact (H2 tt m' E).
  - assert (H : wp (addParticle_node pos axis vel axisx n) m (fun _ m' => taken m')
                  (fun _ _ => True) (fun _ => False)).
    { unfold addParticle_node.
      apply (spawn_reuse (fun pNew => launch_node pNew pos axis vel axisx n) pos m live i free
               Hp Hinit).
      - intros p. apply launch_node_body.
      - intros p. apply launch_node_fueled.
      - apply launch_node_except. }
    apply wp_returns in H as [H1 H2]. split; [exact H1|]. intros m' E. exact (H2 tt m' E).
Qed.

(** ** When the pool grows *)

Lemma pushFree_prefix base k : steps (viewEq (prefixView base)) (pushFree (base + k)).
Proof.
  unfold pushFree.
  repeat lazymatch goal with
  | |- steps _ (store (Some _) _) =>
      apply steps_store_at; [apply _ .. |];
      intros; unfold viewEq, prefixView; cbn;
      rewrite take_insert_ge by lia; rewrite length_insert; reflexivity
  | |- _ => steps_step ltac:(intros; unfold viewEq, prefixView; cbn; reflexivity)
  end.
Qed.

Lemma growPool_store m :
  0 <= n_part_capacity (emitter m) ->
  wp growPool m
     (fun _ m' =>
        take (length (part_store (emitter m))) (part_store (emitter m'))
          = part_store (emitter m) /\
        length (part_store (emitter m')) = (length (part_store (emitter m)) + 16)%nat /\
        partListInitSize (datablock m') = u32 (n_part_capacity (emitter m) + 16) /\
        console m' = console m ++ [EvAllocPrimBuffer (u32 (n_part_capacity (emitter m) + 16))])
     (fun _ _ => True) (fun _ => True).
Proof.
  intros Hcap. unfold growPool. wp_prim. wp_prim. wp_prim.
  set (base := length (part_store (emitter m))).
  set (m2 := set_emitter _ _).
  assert (H2 : prefixView base m2 =
               (part_store (emitter m), (base + 16)%nat, n_part_capacity (emitter m) + 16,
                datablock m, console m)).
  { unfold prefixView, m2, base. cbn. rewrite take_app_length.
    rewrite length_app. reflexivity. }
  clearbody m2.
  apply wp_bind.
  eapply (wp_steps (viewEq (prefixView base)));
    [apply steps_forEach; [apply _ | intros k; apply pushFree_prefix] | | auto | auto].
  intros _ m3 H3. unfold viewEq in H3. rewrite H2 in H3. clear H2.
  unfold prefixView in H3. split_pairs.
  wp_prim. unfold wp, allocPrimBuffer. mrun.
  destruct (TORQUE_ENABLE_ASSERTS && _); cbn; [exact I|].
  destruct (particleDataBlocks (datablock m3)) eqn:Et; cbn; [exact I|].
  destruct (u32 _ =? 0); cbn; [exact I|].
  repeat match goal with H : _ = _ |- _ => rewrite H end.
  replace (n_part_capacity (emitter m) + 16 =? -1) with false
    by (symmetry; apply Z.eqb_neq; lia).
  auto.
Qed.

Lemma allocParticle_grow m live free :
  pool_at m live free ->
  free = [] \/ partListInitSize (datablock m) < u32 (n_parts (emitter m) + 1) ->
  let base := length (part_store (emitter m)) in
  wp allocParticle m
     (fun p m' =>
        p = Some (base + 15)%nat /\
        pool_at m' ((base + 15)%nat :: live) (rev (seq base 15) ++ free) /\
        part_list_head (emitter m') = Some (base + 15)%nat /\
        take base (part_store (emitter m')) = part_store (emitter m) /\
        length (part_store (emitter m')) = (base + 16)%nat /\
        partListInitSize (datablock m') = u32 (n_part_capacity (emitter m) + 16) /\
        spawnView m' = spawnView m)
     (fun _ _ => True) (fun _ => False).
Proof.
  intros (Hs & Hn & Hc) Hfull base. unfold allocParticle.
  wp_prim. wp_prim. wp_prim.
  set (m1 := set_emitter (set_n_parts (n_parts (emitter m) + 1) (emitter m)) m).
  assert (Hs1 : shape (nexts m1) (part_list_head (emitter m1)) (part_freelist (emitter m1))
                      live free) by exact Hs.
  assert (Hn1 : n_parts (emitter m1) = Z.of_nat (length live) + 1).
  { unfold m1. cbn. rewrite Hn. reflexivity. }
  assert (Hc1 : n_part_capacity (emitter m1) = Z.of_nat (length live + length free))
    by exact Hc.
  assert (Hst1 : part_store (emitter m1) = part_store (emitter m)) by reflexivity.
  assert (Hcon1 : console m1 = console m) by reflexivity.
  assert (Hgrow : (n_parts (emitter m1) >? n_part_capacity (emitter m1))
                  || (u32 (n_parts (emitter m1)) >? partListInitSize (datablock m1)) = true).
  { apply orb_true_iff. destruct Hfull as [->|Hlt].
    - left. rewrite Hn1, Hc1. apply Z.gtb_lt. simpl length. lia.
    - right. apply Z.gtb_lt. exact Hlt. }
  cbn [emitter set_emitter datablock]. fold m1. rewrite Hgrow.
  assert (Hbase : length (nexts m1) = base).
  { unfold nexts. rewrite length_map. reflexivity. }
  clearbody m1. unfold when. apply wp_bind.
  eapply wp_mono;
    [apply wp_conj; [apply (growPool_spec m1 live free Hs1) | apply (growPool_store m1); lia]
    | | auto | intros ? [[] _]].
  intros _ m2 ((Hs2 & Hn2 & Hc2) & Ht2 & Hl2 & Hd2 & Hcon2). cbv beta.
  rewrite Hbase in Hs2.
  replace (seq base 16) with (seq base 15 ++ [(base + 15)%nat]) in Hs2
    by (symmetry; apply (seq_S 15 base)).
  rewrite rev_app_distr in Hs2. cbn [rev app] in Hs2.
  destruct (takeSlot_spec m2 live (base + 15)%nat (rev (seq base 15) ++ free) Hs2)
    as (m3 & E & Hs3 & Hh3 & Hn3 & Hc3).
  pose proof Hs2 as (_ & Hf2 & _). destruct Hf2 as (Hfl2 & nx & Hnx & _).
  destruct (nexts_lookup m2 _ nx Hnx) as (x & Hx & _).
  destruct (takeSlot_store m2 _ x Hfl2 Hx) as (m3' & E' & Hst3 & Hd3 & Hside3).
  rewrite E in E'. injection E' as <-.
  eapply wp_done; [exact E|].
  split; [reflexivity|]. split.
  { split; [exact Hs3|]. rewrite Hn3, Hc3, Hn2, Hc2, Hn1, Hc1.
    rewrite !length_app, length_rev, length_seq. simpl length. lia. }
  split; [exact Hh3|].
  rewrite Hst3. rewrite take_insert_ge by lia. rewrite length_insert.
  rewrite Hst1 in Ht2, Hl2. fold base in Ht2, Hl2.
  split; [exact Ht2|]. split; [exact Hl2|]. split.
  - rewrite Hd3, Hd2, Hc1, Hc. reflexivity.
  - unfold sideView in Hside3. split_pairs.
    match goal with H : spawnView m3 = spawnView m2 |- _ => rewrite H end.
    unfold spawnView. rewrite Hcon2, Hcon1. apply spawnsOf_snoc. reflexivity.
Qed.

Lemma spawn_grow (tail : option nat -> M unit) pos m live free :
  pool_at m live free ->
  free = [] \/ partListInitSize (datablock m) < u32 (n_parts (emitter m) + 1) ->
  (forall p, steps (viewEq bodyView) (tail p)) -> (forall p, fueled (tail p)) ->
  (forall i, steps (viewEq (exceptView i)) (tail (Some i))) ->
  let base := length (part_store (emitter m)) in
  wp (bind allocParticle (fun pNew => bind (emit (EvSpawn pos)) (fun _ => tail pNew))) m
     (fun _ m' =>
        pool_at m' ((base + 15)%nat :: live) (rev (seq base 15) ++ free) /\
        part_list_head (emitter m') = Some (base + 15)%nat /\
        take base (part_store (emitter m')) = part_store (emitter m) /\
        length (part_store (emitter m')) = (base + 16)%nat /\
        n_part_capacity (emitter m') = n_part_capacity (emitter m) + 16 /\
        partListInitSize (datablock m') = u32 (n_part_capacity (emitter m) + 16))
     (fun _ _ => True) (fun _ => False).
Proof.
  intros Hp Hfull Hbody Hfuel Hexc base.
  apply wp_bind.
  eapply wp_mono; [apply (allocParticle_grow m live free Hp Hfull) | | auto | auto].
  intros p m1 (-> & Hp1 & Hh1 & Ht1 & Hl1 & Hd1 & _). cbv beta. fold base.
  wp_prim. set (m2 := set_console _ m1).
  pose proof (Hbody (Some (base + 15)%nat) m2) as Hb.
  pose proof (Hfuel (Some (base + 15)%nat) m2) as Hf.
  pose proof (Hexc (base + 15)%nat m2) as He. unfold wp.
  destruct (tail (Some (base + 15)%nat) m2) as [u m'|f m'|m']; simpl in Hb, He;
    [|exact I|discriminate].
  unfold viewEq in Hb, He. unfold bodyView in Hb. unfold exceptView in He.
  split_pairs.
  match goal with H : linksView m' = linksView m2 |- _ => rename H into Hlinks end.
  match goal with H : datablock m' = datablock m2 |- _ => rename H into Hdata end.
  match goal with H : <[_:=_]> _ = <[_:=_]> _ |- _ => rename H into Hrest end.
  change (part_store (emitter m2)) with (part_store (emitter m1)) in Hrest.
  change (datablock m2) with (datablock m1) in Hdata.
  split; [eapply pool_at_links; [exact Hlinks | exact Hp1]|].
  split; [apply linksView_inv in Hlinks as (_ & _ & -> & _); exact Hh1|].
  split.
  { rewrite <- (take_insert_ge _ base (base + 15) uninitialized) by lia.
    rewrite Hrest. rewrite take_insert_ge by lia. exact Ht1. }
  split.
  { rewrite <- (length_insert _ (base + 15) uninitialized), Hrest, length_insert.
    exact Hl1. }
  split.
  { destruct Hp as (_ & _ & Hc). destruct Hp1 as (_ & _ & Hc1).
    apply linksView_inv in Hlinks as (_ & _ & _ & _ & ->).
    change (n_part_capacity (emitter m2)) with (n_part_capacity (emitter m1)).
    rewrite Hc1, Hc. rewrite !length_app, length_rev, length_seq. simpl length. lia. }
  rewrite Hdata. exact Hd1.
Qed.

(** X7.  A spawn that has to grow the pool.  When the free list is empty,
    or the new particle count exceeds the datablock's partListInitSize,
    addParticle (either overload) appends one block of 16 slots behind
    the existing ones, which it leaves as they are; the new particle
    takes the last slot of the block and the other 15 go in front of the
    free list, last slot first.  The capacity is 16 more than before,
    and the datablock's partListInitSize is set to the new capacity.  The
    call may fail (allocPrimBuffer asserts that there is a template), but
    it never runs out of steps. *)
Theorem spawn_grows_pool pos axis vel axisx n m live free :
  pool_at m live free ->
  free = [] \/ partListInitSize (datablock m) < u32 (n_parts (emitter m) + 1) ->
  let base := length (part_store (emitter m)) in
  let grown m' :=
    pool_at m' ((base + 15)%nat :: live) (rev (seq base 15) ++ free) /\
    part_list_head (emitter m') = Some (base + 15)%nat /\
    take base (part_store (emitter m')) = part_store (emitter m) /\
    length (part_store (emitter m')) = (base + 16)%nat /\
    n_part_capacity (emitter m') = n_part_capacity (emitter m) + 16 /\
    partListInitSize (datablock m') = u32 (n_part_capacity (emitter m) + 16) in
  (~ ranOut (addParticle pos axis vel axisx m) /\
   forall m', addParticle pos axis vel axisx m = Done tt m' -> grown m') /\
  (~ ranOut (addParticle_node pos axis vel axisx n m) /\
   forall m', addParticle_node pos axis vel axisx n m = Done tt m' -> grown m').
Proof.
  intros Hp Hfull base grown. split.
  - assert (H : wp (addParticle pos axis vel axisx) m (fun _ m' => grown m')
                  (fun _ _ => True) (fun _ => False)).
    { unfold addParticle. eapply wp_bind_done; [reflexivity|].
      set (m0 := set_console _ m).
      apply (spawn_grow (fun pNew => launch pNew pos axis vel axisx) pos m0 live free Hp Hfull).
      - intros p. apply launch_body.
      - intros p. apply launch_fueled.
      - intros i. apply launch_except. }
    apply wp_returns in H as [H1 H2]. split; [exact H1|]. intros m' E. exact (H2 tt m' E).
  - assert (H : wp (addParticle_node pos axis vel axisx n) m (fun _ m' => grown m')
                  (fun _ _ => True) (fun _ => False)).
    { unfold addParticle_node.
      apply (spawn_grow (fun pNew => launch_node pNew pos axis vel axisx n) pos m live free
               Hp Hfull).
      - intros p. apply launch_node_body.
      - intros p. apply launch_node_fueled.
      - intros i. apply launch_node_except. }
    apply wp_returns in H as [H1 H2]. split; [exact H1|]. intros m' E. exact (H2 tt m' E).
Qed.

(** ** What a pass leaves of the schedule *)

Lemma hostView_unmarked m m' : hostView m' = hostView m -> hostView (unmarked m') = hostView (unmarked m).
Proof.
  unfold hostView, schedView, unmarked. intros H. split_pairs. cbn. congruence.
Qed.

Lemma hostView_fields m m' :
  hostView m' = hostView m ->
  mDeleteOnTick (emitter m') = mDeleteOnTick (emitter m) /\
  mDeleteWhenEmpty (emitter m') = mDeleteWhenEmpty (emitter m).
Proof. unfold hostView, schedView. intros H. split_pairs. auto. Qed.

Lemma kept_nil_forallb {A} (f : A -> bool) l :
  List.filter (fun i => negb (f i)) l = [] <-> forallb f l = true.
Proof.
  induction l as [|x l IH]; simpl; [tauto|].
  destruct (f x); simpl; [exact IH|]. split; discriminate.
Qed.

Lemma agePass_mark ms m live free :
  pool_at m live free ->
  hostView (unmarked (stateOf (agePass ms m))) = hostView (unmarked m) /\
  mDeleteOnTick (emitter (stateOf (agePass ms m))) =
    mDeleteOnTick (emitter m)
    || (mDeleteWhenEmpty (emitter m) && forallb (expiresAt (part_store (emitter m)) ms) live).
Proof.
  intros (Hs & Hn & Hc). unfold agePass, walkFuel.
  rewrite (bind_done _ _ m (length (part_store (emitter m))) m) by reflexivity.
  rewrite (bind_done _ _ m (emitter m) m) by reflexivity.
  assert (Hhd : part_list_head (emitter m) = head live).
  { apply (lseg_head (nexts m)). apply Hs. }
  destruct (evictLoop_spec ms live [] free m (length (part_store (emitter m)))) as
    (m1 & E1 & [H1 H2 H3 H4 H5]).
  { exact Hs. }
  { destruct (shape_live_fuel _ _ _ _ _ Hs) as [Hle _]. unfold nexts in Hle.
    rewrite length_map in Hle. exact Hle. }
  change (lastRef []) with ListHead in E1. rewrite <- Hhd in E1.
  rewrite (bind_done _ _ _ _ _ E1).
  rewrite (bind_done _ _ m1 (emitter m1) m1) by reflexivity.
  simpl app in H1.
  set (kept := List.filter (fun i => negb (expiresAt (part_store (emitter m)) ms i)) live)
    in *.
  set (gone := List.filter (expiresAt (part_store (emitter m)) ms) live) in *.
  assert (Hn1 : n_parts (emitter m1) = Z.of_nat (length kept)).
  { rewrite H2, Hn. unfold kept, gone.
    pose proof (List.filter_length (expiresAt (part_store (emitter m)) ms) live) as Hfl.
    lia. }
  assert (Hassert : assertFatal (0 <=? n_parts (emitter m1))
                      "GraphEmitter: negative part count!" m1 = Done tt m1).
  { apply assertFatal_true. apply Z.leb_le. lia. }
  rewrite (bind_done _ _ _ _ _ Hassert).
  destruct (hostView_fields _ _ H4) as [Ht1 Hw1].
  assert (Hall : forallb (expiresAt (part_store (emitter m)) ms) live
                 = (n_parts (emitter m1) <? 1)).
  { destruct (n_parts (emitter m1) <? 1) eqn:E.
    - apply Z.ltb_lt in E. apply kept_nil_forallb. fold kept.
      destruct kept; [reflexivity | simpl in Hn1; lia].
    - apply Z.ltb_ge in E. apply not_true_is_false. intros Hf.
      apply kept_nil_forallb in Hf. fold kept in Hf. rewrite Hf in Hn1. simpl in Hn1. lia. }
  rewrite Hall, <- Hw1, (andb_comm (mDeleteWhenEmpty (emitter m1))).
  destruct ((n_parts (emitter m1) <? 1) && mDeleteWhenEmpty (emitter m1)) eqn:Ec.
  { cbv [modE stateOf]. split.
    - apply (hostView_unmarked m m1) in H4. exact H4.
    - cbn. rewrite orb_true_r. reflexivity. }
  rewrite orb_false_r.
  unfold when. destruct (negb (ms =? 0) && (0 <? n_parts (emitter m1))).
  2:{ cbv [ret stateOf]. split; [apply hostView_unmarked; exact H4 | exact Ht1]. }
  pose proof (update_pool ms m1) as Hv.
  unfold viewEq in Hv. apply pair_equal_spec in Hv as [_ Hhost].
  split.
  - apply hostView_unmarked. rewrite Hhost. exact H4.
  - destruct (hostView_fields _ _ Hhost) as [-> _]. exact Ht1.
Qed.

Lemma advanceTime_host dt m live free :
  pool_at m live free ->
  f_ltb dt (f_dec 1 (-5)) = false -> mDead (emitter m) = false ->
  hostView (unmarked (stateOf (advanceTime dt m))) = hostView (unmarked (ticked dt m)) /\
  mDeleteOnTick (emitter (stateOf (advanceTime dt m))) =
    mDeleteOnTick (emitter m)
    || (negb (msOf dt =? 0) && mDeleteWhenEmpty (emitter m)
        && forallb (expiresAt (part_store (emitter m)) (msOf dt)) live).
Proof.
  intros Hp He Hd. rewrite (advanceTime_pass dt m He Hd).
  destruct (msOf dt =? 0).
  - split; [reflexivity|]. cbn. rewrite orb_false_r. reflexivity.
  - apply (agePass_mark (msOf dt) (ticked dt m) live free).
    apply ticked_pool. exact Hp.
Qed.

(** X8.  What advanceTime does to the schedule.  A call with a delta of
    at least 0.00001 s on a live emitter adds the clamped delta, in
    milliseconds, to mElapsedTimeMS, and leaves the spawn scheduler
    alone: mInternalClock, mNextParticleTime, the last position and the
    datablock are those of before, whether the pass returns or fails in
    the physics.  mDeleteOnTick is set exactly when the pass runs (the
    delta is at least 1 ms), mDeleteWhenEmpty is set and every live
    particle expires in this pass; otherwise the mark is left as it
    was. *)
Theorem advanceTime_schedule dt m live free :
  pool_at m live free ->
  f_ltb dt (f_dec 1 (-5)) = false -> mDead (emitter m) = false ->
  let m' := stateOf (advanceTime dt m) in
  mElapsedTimeMS (emitter m') =
    s32 (mElapsedTimeMS (emitter m) + s32 (f_to_int (f_mul (clampDt dt) (f_dec 1000 0)))) /\
  mInternalClock (emitter m') = mInternalClock (emitter m) /\
  mNextParticleTime (emitter m') = mNextParticleTime (emitter m) /\
  mLastPosition (emitter m') = mLastPosition (emitter m) /\
  mHasLastPosition (emitter m') = mHasLastPosition (emitter m) /\
  mLifetimeMS (emitter m') = mLifetimeMS (emitter m) /\
  mDead (emitter m') = false /\
  datablock m' = datablock m /\
  mDeleteOnTick (emitter m') =
    mDeleteOnTick (emitter m)
    || (negb (msOf dt =? 0) && mDeleteWhenEmpty (emitter m)
        && forallb (expiresAt (part_store (emitter m)) (msOf dt)) live).
Proof.
  intros Hp He Hd m'.
  pose proof (advanceTime_host dt m live free Hp He Hd) as H. fold m' in H.
  destruct H as [Hhost Hmark]. clearbody m'.
  unfold hostView, schedView, unmarked, ticked, logged in Hhost. cbn in Hhost.
  split_pairs.
  repeat match goal with |- _ /\ _ => split end; try assumption; congruence.
Qed.

(** ** Slots are reused last in, first out *)

Lemma agePass_data ms m live free :
  pool_at m live free -> datablock (stateOf (agePass ms m)) = datablock m.
Proof.
  intros Hp. destruct (agePass_mark ms m live free Hp) as [H _].
  unfold hostView, unmarked in H. cbn in H. split_pairs. assumption.
Qed.

(** X9.  The slot of the particle that a pass evicts last is the first
    to be reused.  When the particles that expire in a pass are, in the
    order of the live list, [early ++ [j]], the pass leaves [j] at the
    head of the free list; a spawn that follows and does not grow the
    pool puts the new particle in slot [j], in front of the particles the
    pass kept, and leaves the other evicted slots on the free list, the
    latest evicted first. *)
Theorem evicted_slot_reused dt m live free early j pos axis vel axisx n :
  pool_at m live free ->
  f_ltb dt (f_dec 1 (-5)) = false -> mDead (emitter m) = false -> msOf dt <> 0 ->
  List.filter (expiresAt (part_store (emitter m)) (msOf dt)) live = early ++ [j] ->
  let kept := List.filter (fun i => negb (expiresAt (part_store (emitter m)) (msOf dt) i)) live in
  u32 (Z.of_nat (length kept) + 1) <= partListInitSize (datablock m) ->
  let m1 := stateOf (advanceTime dt m) in
  ~ ranOut (advanceTime dt m) /\
  part_freelist (emitter m1) = Some j /\
  forall m2, addParticle_node pos axis vel axisx n m1 = Done tt m2 ->
    part_list_head (emitter m2) = Some j /\
    pool_at m2 (j :: kept) (rev early ++ free).
Proof.
  intros Hp He Hd Hms Hgone kept Hinit m1.
  destruct (advanceTime_ages dt m live free Hp He Hd Hms) as (Hend & Hp1 & _ & _).
  fold m1 in Hp1. unfold keptOf, goneOf in Hp1. fold kept in Hp1.
  rewrite Hgone, rev_app_distr in Hp1. cbn [rev app] in Hp1.
  assert (Hd1 : datablock m1 = datablock m).
  { unfold m1. rewrite (advanceTime_pass dt m He Hd).
    apply Z.eqb_neq in Hms. rewrite Hms.
    rewrite (agePass_data (msOf dt) (ticked dt m) live free); [reflexivity|].
    apply ticked_pool. exact Hp. }
  clearbody m1.
  split; [exact Hend|]. split.
  { destruct Hp1 as ((_ & Hf & _) & _). apply lseg_head in Hf. exact Hf. }
  intros m2 Hrun.
  assert (Hinit1 : u32 (n_parts (emitter m1) + 1) <= partListInitSize (datablock m1)).
  { rewrite Hd1. destruct Hp1 as (_ & -> & _). exact Hinit. }
  pose proof (spawn_reuse (fun pNew => launch_node pNew pos axis vel axisx n) pos m1 kept j
                (rev early ++ free) Hp1 Hinit1
                (fun p => launch_node_body p pos axis vel axisx n)
                (fun p => launch_node_fueled p pos axis vel axisx n)
                (launch_node_except j pos axis vel axisx n)) as H.
  unfold wp in H. fold (addParticle_node pos axis vel axisx n) in H.
  change (bind allocParticle _) with (addParticle_node pos axis vel axisx n) in H.
  rewrite Hrun in H. destruct H as (H1 & H2 & _). auto.
Qed.

(** ** A spawn while the node shuts down *)

Lemma rand_F_done m : exists r g, rand_F m = Done r (set_gRandGen g m).
Proof. unfold rand_F. destruct (randF (gRandGen m)) as [r g]. eauto. Qed.

Lemma allocParticle_keeps_node : steps (viewEq node) allocParticle.
Proof.
  unfold allocParticle, growPool, takeSlot, pushFree, allocPrimBuffer.
  repeat (steps_step ltac:(intros; reflexivity)).
Qed.

(** X10.  A spawn while the node is shutting down.  The node overload of
    addParticle initialises the new particle only inside
    [if(!nodeDat->currentlyShuttingDown())].  While the node shuts down,
    a spawn that finds a free slot still returns, counts the particle
    and links the slot in front of the live list, but writes nothing
    except the position: velocity, age, lifetime, template, colour and
    size of the slot are those of its previous occupant. *)
Theorem spawn_while_shutting_down pos axis vel axisx m live i free x :
  pool_at m live (i :: free) ->
  u32 (n_parts (emitter m) + 1) <= partListInitSize (datablock m) ->
  part_store (emitter m) !! i = Some x ->
  shuttingDown (node m) = true ->
  exists m' p,
    addParticle_node pos axis vel axisx NodeObj m = Done tt m' /\
    pool_at m' (i :: live) free /\
    part_list_head (emitter m') = Some i /\
    part_store (emitter m') =
      <[i := set_pos p (set_next (part_list_head (emitter m)) x)]> (part_store (emitter m)) /\
    spawnView m' = spawnView m ++ [pos] /\
    node m' = node m.
Proof.
  intros Hp Hinit Hx Hsh.
  destruct (allocParticle_reuse m live i free Hp Hinit)
    as (m1 & x' & E & Hx' & Hp1 & Hh1 & Hst1 & Hd1 & Hside1).
  rewrite Hx in Hx'. injection Hx' as <-.
  assert (Hn1 : node m1 = node m).
  { pose proof (allocParticle_keeps_node m) as H. rewrite E in H. exact H. }
  unfold addParticle_node. rewrite (bind_done _ _ _ _ _ E).
  rewrite (bind_done _ _ m1 tt (set_console (console m1 ++ [EvSpawn pos]) m1)) by reflexivity.
  set (m2 := set_console _ m1).
  unfold launch_node.
  rewrite (bind_done _ _ m2 (datablock m2) m2) by reflexivity.
  rewrite (bind_done _ _ m2 (emitter m2) m2) by reflexivity.
  rewrite (bind_done _ _ m2 (node m2) m2) by reflexivity.
  destruct (rand_F_done m2) as (r1 & g1 & E1). rewrite (bind_done _ _ _ _ _ E1).
  destruct (rand_F_done (set_gRandGen g1 m2)) as (r2 & g2 & E2).
  rewrite (bind_done _ _ _ _ _ E2).
  destruct (rand_F_done (set_gRandGen g2 (set_gRandGen g1 m2))) as (r3 & g3 & E3).
  rewrite (bind_done _ _ _ _ _ E3).
  set (m5 := set_gRandGen g3 _).
  assert (Hx5 : part_store (emitter m5) !! i = Some (set_next (part_list_head (emitter m)) x)).
  { change (part_store (emitter m5)) with (part_store (emitter m1)).
    rewrite Hst1. apply list_lookup_insert_eq. eapply lookup_lt_Some. exact Hx. }
  rewrite (bind_done _ _ _ _ _ (store_done m5 i _ _ Hx5)).
  change (node m2) with (node m1). rewrite Hn1, Hsh. cbn [negb]. rewrite when_false.
  eexists _, _. split; [reflexivity|].
  split.
  { eapply pool_at_links; [|exact Hp1]. unfold linksView, putSlot. cbn.
    rewrite list_fmap_insert. f_equal. f_equal. f_equal. f_equal.
    apply list_insert_id. rewrite list_lookup_fmap, Hst1.
    rewrite list_lookup_insert_eq by (eapply lookup_lt_Some; exact Hx). reflexivity. }
  split; [exact Hh1|]. split.
  { unfold putSlot. cbn. rewrite Hst1. apply list_insert_insert_eq. }
  split.
  { unfold sideView in Hside1. split_pairs. unfold spawnView, putSlot. cbn.
    rewrite spawnsOf_app.
    match goal with H : spawnView m1 = spawnView m |- _ => unfold spawnView in H; rewrite H end.
    reflexivity. }
  exact Hn1.
Qed.

(** ** The hemisphere overload *)

Lemma rand_F_body : steps (viewEq bodyView) rand_F.
Proof. steps_go. Qed.

Lemma rand_F_fueled : fueled rand_F.
Proof. fueled_go. Qed.

Lemma hemisphere_loop (P A : F32 -> F32 -> F32 -> Point3F) vel axisz :
  forall (l : list nat) m live free,
  pool_at m live free ->
  wp (forEach l (fun _ =>
        bind rand_F (fun r1 => bind rand_F (fun r2 => bind rand_F (fun r3 =>
          addParticle (P r1 r2 r3) (A r1 r2 r3) vel axisz))))) m
     (fun _ m' =>
        (exists new free', length new = length l /\ pool_at m' (new ++ live) free') /\
        schedView m' = schedView m /\
        length (spawnView m') = (length (spawnView m) + length l)%nat)
     (fun _ _ => True) (fun _ => False).
Proof.
  induction l as [|k l IH]; intros m live free Hp.
  - unfold wp. cbn. split; [exists [], free; auto|]. split; [reflexivity | lia].
  - cbn [forEach]. apply wp_bind.
    assert (Hdraw : forall (B : Type) (kont : F32 -> M B) m0 live0 free0 (Q : B -> Machine -> Prop),
              pool_at m0 live0 free0 ->
              (forall r m1, pool_at m1 live0 free0 -> schedView m1 = schedView m0 ->
                 spawnView m1 = spawnView m0 ->
                 wp (kont r) m1 Q (fun _ _ => True) (fun _ => False)) ->
              wp (bind rand_F kont) m0 Q (fun _ _ => True) (fun _ => False)).
    { intros B kont m0 live0 free0 Q Hp0 Hk. apply wp_bind.
      eapply wp_mono;
        [apply (wp_body _ bodyView rand_F m0 (fun _ m1 => bodyView m1 = bodyView m0));
         [apply rand_F_body | apply rand_F_fueled | auto] | | auto | auto].
      intros r m1 Hv. cbv beta in Hv |- *. unfold bodyView in Hv. split_pairs.
      apply Hk; try assumption. eapply pool_at_links; eauto. }
    apply (Hdraw _ _ m live free _ Hp). intros r1 m1 Hp1 Hs1 Hv1.
    apply (Hdraw _ _ m1 live free _ Hp1). intros r2 m2 Hp2 Hs2 Hv2.
    apply (Hdraw _ _ m2 live free _ Hp2). intros r3 m3 Hp3 Hs3 Hv3.
    eapply wp_mono; [apply (addParticle_spec _ _ vel axisz m3 live free Hp3)
                    | | auto | auto].
    intros _ m4 ((i & free4 & Hp4 & _) & Hs4 & Hv4). cbv beta.
    eapply wp_mono; [apply (IH m4 (i :: live) free4 Hp4) | | auto | auto].
    intros _ m' ((new & free' & Hlen & Hp') & Hsched' & Hspawn'). cbv beta.
    split; [|split].
    + exists (new ++ [i]), free'. split.
      * rewrite length_app. simpl. lia.
      * rewrite <- app_assoc. exact Hp'.
    + congruence.
    + rewrite Hspawn', Hv4, length_app, Hv3, Hv2, Hv1. simpl. lia.
Qed.

(** X11.  The hemisphere overload.  On a live emitter whose lifetime is
    not over it calls addParticle [count] times (never, for a count that
    is not positive): a call that returns has added exactly that many
    entries to the spawn history and that many particles in front of the
    live list, has cleared mHasLastPosition, and has left the internal
    clock and the pending time of the period scheduler alone.  It never
    runs out of steps. *)
Theorem hemisphere_count c nrm r v k m live free :
  pool_at m live free ->
  mDead (emitter m) = false -> timeBoxed (emitter m) = false ->
  ~ ranOut (emitParticles_hemisphere c nrm r v k m) /\
  forall m', emitParticles_hemisphere c nrm r v k m = Done tt m' ->
    spawnCount m' = spawnCount m + Z.max 0 k /\
    n_parts (emitter m') = n_parts (emitter m) + Z.max 0 k /\
    (exists new free', length new = Z.to_nat k /\ pool_at m' (new ++ live) free') /\
    mHasLastPosition (emitter m') = false /\
    mInternalClock (emitter m') = mInternalClock (emitter m) /\
    mNextParticleTime (emitter m') = mNextParticleTime (emitter m).
Proof.
  intros Hp Hd Hb.
  assert (H : wp (emitParticles_hemisphere c nrm r v k) m
           (fun _ m' =>
              spawnCount m' = spawnCount m + Z.max 0 k /\
              n_parts (emitter m') = n_parts (emitter m) + Z.max 0 k /\
              (exists new free', length new = Z.to_nat k /\ pool_at m' (new ++ live) free') /\
              mHasLastPosition (emitter m') = false /\
              mInternalClock (emitter m') = mInternalClock (emitter m) /\
              mNextParticleTime (emitter m') = mNextParticleTime (emitter m))
           (fun _ _ => True) (fun _ => False)).
  2:{ apply wp_returns in H as [H1 H2]. split; [exact H1|]. intros m' E. exact (H2 tt m' E). }
  unfold emitParticles_hemisphere. wp_prim. wp_prim.
  cbn [emitter set_console]. rewrite Hd, Hb. cbv zeta.
  set (m0 := set_console _ m).
  assert (Hp0 : pool_at m0 live free) by exact Hp.
  assert (Hs0 : schedView m0 = schedView m) by reflexivity.
  assert (Hc0 : length (spawnView m0) = length (spawnView m)).
  { unfold spawnView, m0. cbn. rewrite spawnsOf_snoc by reflexivity. reflexivity. }
  clearbody m0.
  apply wp_bind.
  eapply wp_mono; [eapply hemisphere_loop; exact Hp0 | | auto | auto].
  intros _ m1 ((new & free' & Hlen & Hp1) & Hs1 & Hc1). cbv beta.
  rewrite length_seq in Hlen, Hc1.
  assert (Hfin : forall m2,
            linksView m2 = linksView m1 ->
            mInternalClock (emitter m2) = mInternalClock (emitter m1) ->
            mNextParticleTime (emitter m2) = mNextParticleTime (emitter m1) ->
            spawnView m2 = spawnView m1 ->
            let m' := set_emitter (set_mHasLastPosition false (emitter m2)) m2 in
            spawnCount m' = spawnCount m + Z.max 0 k /\
            n_parts (emitter m') = n_parts (emitter m) + Z.max 0 k /\
            (exists new free', length new = Z.to_nat k /\ pool_at m' (new ++ live) free') /\
            mHasLastPosition (emitter m') = false /\
            mInternalClock (emitter m') = mInternalClock (emitter m) /\
            mNextParticleTime (emitter m') = mNextParticleTime (emitter m)).
  { intros m2 Hl2 Hk2 Hn2 Hv2 m'.
    assert (Hl' : linksView m' = linksView m1) by (rewrite <- Hl2; reflexivity).
    pose proof (pool_at_links _ _ _ _ Hl' Hp1) as Hp'.
    destruct (schedView_period _ _ Hs1) as (_ & _ & _ & Hn1 & Hk1).
    destruct (schedView_period _ _ Hs0) as (_ & _ & _ & Hn0 & Hk0).
    split.
    { unfold spawnCount. change (spawnView m') with (spawnView m2).
      rewrite Hv2, Hc1, Hc0. lia. }
    split.
    { destruct Hp' as (_ & -> & _). destruct Hp as (_ & -> & _).
      rewrite length_app, Hlen. lia. }
    split; [exists new, free'; split; [exact Hlen | exact Hp']|].
    split; [reflexivity|].
    split; [change (mInternalClock (emitter m')) with (mInternalClock (emitter m2));
            congruence|].
    change (mNextParticleTime (emitter m')) with (mNextParticleTime (emitter m2)).
    congruence. }
  wp_prim. set (m2 := set_console _ m1).
  assert (H2 : hemiView m2 = hemiView m1).
  { unfold hemiView, spawnView, m2. cbn. rewrite spawnsOf_snoc by reflexivity.
    reflexivity. }
  clearbody m2.
  apply wp_bind.
  eapply wp_mono;
    [apply (wp_body _ hemiView joinScene m2 (fun _ m3 => hemiView m3 = hemiView m2));
     [unfold joinScene;
      repeat (steps_step ltac:(intros; unfold viewEq, hemiView, spawnView; cbn;
                               rewrite ?spawnsOf_snoc by reflexivity; reflexivity))
     | unfold joinScene; fueled_go | auto]
    | | auto | auto].
  intros u3 m3 Hv. cbv beta in Hv |- *. rewrite H2 in Hv. unfold hemiView in Hv.
  split_pairs. unfold wp, modE. apply Hfin; assumption.
Qed.

(** ** The last position *)

Lemma emitTail_last added end_ m m' :
  bind (when added updateBBox) (fun _ =>
    bind joinScene (fun _ =>
    bind (modE (set_mLastPosition end_)) (fun _ => modE (set_mHasLastPosition true)))) m
  = Done tt m' ->
  mLastPosition (emitter m') = end_ /\ mHasLastPosition (emitter m') = true.
Proof.
  unfold updateBBox, joinScene. mrun.
  destruct added; cbn;
    match goal with |- context [if ?b then _ else _] => destruct b end; cbn;
    intros [= <-]; split; reflexivity.
Qed.

Lemma emitParticles_last fuel s e a v D n m m' :
  mDead (emitter m) = false -> particleDataBlocks (datablock m) <> [] ->
  timeBoxed (emitter m) = false ->
  emitParticles fuel s e a v D n m = Done tt m' ->
  mLastPosition (emitter m') = e /\ mHasLastPosition (emitter m') = true.
Proof.
  intros Hd Ht Hb. rewrite (emitParticles_enter fuel s e a v D n m Hd Ht Hb).
  destruct (negb (mNextParticleTime (emitter m) =? 0) && (mNextParticleTime (emitter m) >? D)).
  - cbv [bind modE]. intros [= <-]. split; reflexivity.
  - unfold bind at 1.
    destruct ((if negb (mNextParticleTime (emitter m) =? 0)
               then spawnPending s e a v (axisxOf a) D n else ret 0) m) as [c m1| |];
      try discriminate.
    unfold emitFrom, bind at 1.
    destruct (emitLoop fuel s e a v (axisxOf a) D n c _ m1) as [added m2| |];
      try discriminate.
    apply emitTail_last.
Qed.

(** X12.  Consecutive calls of the point overload trace a path.  The
    point overload logs its console line and, on a live emitter whose
    lifetime is not over, is the path-segment overload from the last
    position (if asked to use it and there is one) or else from the point
    itself, to the point, with the default node.  A call that passes the
    guards and returns records its point as the last position, so the
    next call with useLastPosition emits along the segment from this
    point to its own.  A call of the hemisphere overload forgets the last
    position. *)
Theorem point_calls_chain fuel p u a v D m m1 :
  mDead (emitter m) = false -> particleDataBlocks (datablock m) <> [] ->
  timeBoxed (emitter m) = false ->
  emitParticles_point fuel p u a v D m = Done tt m1 ->
  emitParticles_point fuel p u a v D m =
    emitParticles fuel
      (if u && mHasLastPosition (emitter m) then mLastPosition (emitter m) else p)
      p a v D defaultNode (logged (EvConsole "Noo!") m) /\
  mLastPosition (emitter m1) = p /\ mHasLastPosition (emitter m1) = true /\
  (forall fuel' q a' v' D',
     emitParticles_point fuel' q true a' v' D' m1 =
       emitParticles fuel' p q a' v' D' defaultNode (logged (EvConsole "Noo!") m1)) /\
  (forall c nrm r v' k m2,
     emitParticles_hemisphere c nrm r v' k m1 = Done tt m2 ->
     mHasLastPosition (emitter m2) = false).
Proof.
  intros Hd Ht Hb Hrun.
  assert (Hpoint : forall fuel0 q u0 a0 v0 D0 m0,
            emitParticles_point fuel0 q u0 a0 v0 D0 m0 =
              emitParticles fuel0
                (if u0 && mHasLastPosition (emitter m0) then mLastPosition (emitter m0) else q)
                q a0 v0 D0 defaultNode (logged (EvConsole "Noo!") m0)).
  { intros fuel0 q u0 a0 v0 D0 m0. unfold emitParticles_point.
    rewrite (bind_done _ _ m0 tt (logged (EvConsole "Noo!") m0)) by reflexivity.
    cbv [bind getE]. cbn [emitter logged set_console].
    destruct (mDead (emitter m0)) eqn:E1.
    { symmetry. apply emitParticles_dead. exact E1. }
    destruct (timeBoxed (emitter m0)) eqn:E2.
    { symmetry. apply emitParticles_timeBoxed. exact E2. }
    reflexivity. }
  split; [apply Hpoint|].
  rewrite Hpoint in Hrun.
  destruct (emitParticles_last _ _ _ _ _ _ _ (logged (EvConsole "Noo!") m) _ Hd Ht Hb Hrun)
    as [Hl Hh].
  split; [exact Hl|]. split; [exact Hh|]. split.
  - intros fuel' q a' v' D'. rewrite Hpoint. rewrite Hh, Hl. reflexivity.
  - intros c nrm r v' k m2 Hrun2.
    pose proof (emitParticles_config fuel
                  (if u && mHasLastPosition (emitter m) then mLastPosition (emitter m) else p)
                  p a v D defaultNode (logged (EvConsole "Noo!") m)) as Hcfg.
    rewrite Hrun in Hcfg. simpl in Hcfg.
    destruct (configView_period _ _ Hcfg) as (_ & _ & Hd1 & Hb1 & _).
    change (emitter (logged (EvConsole "Noo!") m)) with (emitter m) in Hd1, Hb1.
    rewrite Hd in Hd1. rewrite Hb in Hb1.
    revert Hrun2. unfold emitParticles_hemisphere.
    rewrite (bind_done _ _ m1 tt (logged (EvConsole "Nooo!") m1)) by reflexivity.
    rewrite (bind_done _ _ _ (emitter (logged (EvConsole "Nooo!") m1))
               (logged (EvConsole "Nooo!") m1)) by reflexivity.
    cbn [emitter logged set_console]. rewrite Hd1, Hb1. cbv zeta.
    unfold bind at 1. destruct (forEach _ _ _) as [u1 m3| |]; try discriminate.
    unfold bind at 1. destruct (emit EvResetWorldBox m3) as [u2 m4| |]; try discriminate.
    unfold bind at 1. destruct (joinScene m4) as [u3 m5| |]; try discriminate.
    cbv [modE]. intros [= <-]. reflexivity.
Qed.

(** ** The vertex buffer of a pass without sorting *)




(** ** The size of the primitive buffer *)

Lemma maxPartLife_fold (life : ParticleData -> Z) rest : forall acc,
  let L := fold_left (fun a p => if life p >? a then life p else a) rest acc in
  acc <= L /\ (forall t, t ∈ rest -> life t <= L) /\
  (L = acc \/ exists t, t ∈ rest /\ L = life t).
Proof.
  induction rest as [|p rest IH]; intros acc; cbn.
  - split; [lia|]. split; [intros t Ht; inversion Ht | left; reflexivity].
  - destruct (IH (if life p >? acc then life p else acc)) as (H1 & H2 & H3).
    destruct (Z.gtb_spec (life p) acc) as [Hgt|Hle].
    + split; [lia|]. split.
      * intros t Ht. apply elem_of_cons in Ht as [->|Ht]; [exact H1 | apply H2; exact Ht].
      * right. destruct H3 as [->|(t & Ht & ->)].
        -- exists p. split; [left | reflexivity].
        -- exists t. split; [right; exact Ht | reflexivity].
    + split; [exact H1|]. split.
      * intros t Ht. apply elem_of_cons in Ht as [->|Ht]; [lia | apply H2; exact Ht].
      * destruct H3 as [->|(t & Ht & ->)]; [left; reflexivity|].
        right. exists t. split; [right; exact Ht | reflexivity].
Qed.

(** X14.  GraphEmitterData::allocPrimBuffer.  Without a template the
    call fails (on the assertion, or out of bounds in a build without
    assertions) and changes nothing.  With templates, and a period
    variance below the period as GraphEmitterData::onAdd leaves it, the
    call returns and never divides by zero; it sets partListInitSize to
    the override when one is given and otherwise to
    [L / (period - variance) + 8], where [L] is the longest particle life
    of any template: no template lives longer and one lives exactly that
    long.  It logs the new size and touches nothing else. *)
Theorem allocPrimBuffer_size o m :
  (particleDataBlocks (datablock m) = [] ->
     exists f, allocPrimBuffer o m = Crash f m) /\
  (particleDataBlocks (datablock m) <> [] ->
   periodVarianceMS (datablock m) < ejectionPeriodMS (datablock m) ->
   ejectionPeriodMS (datablock m) - periodVarianceMS (datablock m) < 2 ^ 32 ->
   exists L,
     (forall t, t ∈ particleDataBlocks (datablock m) -> lifeOf t <= L) /\
     (exists t, t ∈ particleDataBlocks (datablock m) /\ L = lifeOf t) /\
     let size :=
       if o =? -1
       then u32 (L / (ejectionPeriodMS (datablock m) - periodVarianceMS (datablock m)) + 8)
       else u32 o in
     allocPrimBuffer o m =
       Done tt (logged (EvAllocPrimBuffer size)
                  (set_datablock (set_partListInitSize size (datablock m)) m))).
Proof.
  split.
  - intros Hnil. unfold allocPrimBuffer. cbv [bind getD]. rewrite Hnil.
    unfold assertFatal. rewrite bool_decide_eq_true_2 by reflexivity. cbn [negb].
    rewrite andb_true_r. destruct TORQUE_ENABLE_ASSERTS; eexists; reflexivity.
  - intros Hne Hvar Hwrap.
    destruct (particleDataBlocks (datablock m)) as [|p0 rest] eqn:Et; [contradiction|].
    exists (maxPartLife p0 rest).
    destruct (maxPartLife_fold lifeOf rest (lifeOf p0)) as (H1 & H2 & H3).
    change (fold_left _ rest (lifeOf p0)) with (maxPartLife p0 rest) in H1, H2, H3.
    split; [|split].
    + intros t Ht. apply elem_of_cons in Ht as [->|Ht]; [exact H1 | apply H2; exact Ht].
    + destruct H3 as [->|(t & Ht & ->)].
      * exists p0. split; [left | reflexivity].
      * exists t. split; [right; exact Ht | reflexivity].
    + unfold allocPrimBuffer. cbv [bind getD]. rewrite Et.
      rewrite assertFatal_true by (rewrite bool_decide_eq_false_2 by discriminate; reflexivity).
      rewrite (u32_small (ejectionPeriodMS (datablock m) - periodVarianceMS (datablock m)))
        by lia.
      replace (ejectionPeriodMS (datablock m) - periodVarianceMS (datablock m) =? 0)
        with false by (symmetry; apply Z.eqb_neq; lia).
      reflexivity.
Qed.

(** ** What the physics pass and the key data leave alone *)

(** X15.  The physics pass.  On a well-formed pool GraphEmitter::update
    ends (its walk over the live list is finite), whether it returns or
    fails at a particle; it changes no link, no list head and no counter,
    so the live and free lists are the same; it changes no age, and a
    lifetime only from below 1 to 1; and it leaves the scheduler, the
    datablock, the node, the random generator and the event history
    alone. *)
Theorem update_frame ms m live free :
  pool_at m live free ->
  let m' := stateOf (update ms m) in
  ~ ranOut (update ms m) /\
  pool_at m' live free /\
  linksView m' = linksView m /\
  hostView m' = hostView m /\
  length (part_store (emitter m')) = length (part_store (emitter m)) /\
  (forall i x, part_store (emitter m) !! i = Some x ->
     exists z, part_store (emitter m') !! i = Some z /\
               currentAge z = currentAge x /\
               (totalLifetime z = totalLifetime x \/
                (totalLifetime x < 1 /\ totalLifetime z = 1))).
Proof.
  intros Hp m'.
  pose proof (update_pool ms m) as Hv. pose proof (update_agesKept ms m) as Ha.
  fold m' in Hv, Ha. unfold viewEq, poolView in Hv. apply pair_equal_spec in Hv as [Hl Hh].
  split.
  { unfold update, walkFuel.
    rewrite (bind_done _ _ m (length (part_store (emitter m))) m) by reflexivity.
    rewrite (bind_done _ _ m (emitter m) m) by reflexivity.
    destruct Hp as (Hs & _). apply (forParts_ends _ live).
    - apply Hs.
    - destruct (shape_live_fuel _ _ _ _ _ Hs) as [Hle _]. unfold nexts in Hle.
      rewrite length_map in Hle. exact Hle.
    - intros p. apply updateParticle_pool.
    - intros p. apply updateParticle_fueled. }
  split; [eapply pool_at_links; eauto|].
  split; [exact Hl|]. split; [exact Hh|].
  unfold agesKept in Ha. split.
  - symmetry. eapply Forall2_length. exact Ha.
  - intros i x Hx. destruct (Forall2_lookup_l _ _ _ _ _ Ha Hx) as (z & Hz & Hage & Hlife).
    exists z. split; [exact Hz|]. split; [exact Hage | exact Hlife].
Qed.

Lemma keyRel_refl x : keyRel x x.
Proof. unfold keyRel. auto 10. Qed.

Lemma keyRel_trans x y z : keyRel x y -> keyRel y z -> keyRel x z.
Proof. unfold keyRel. intuition congruence. Qed.

#[local] Instance keysOnly_preorder : PreOrder keysOnly.
Proof.
  split.
  - intros m. unfold keysOnly. apply Forall2_same_length_lookup_2; [reflexivity|].
    intros i x y Hx Hy. rewrite Hx in Hy. injection Hy as <-. apply keyRel_refl.
  - intros a b c H1 H2. unfold keysOnly in *.
    eapply Forall2_trans; [|exact H1|exact H2]. intros x y z. apply keyRel_trans.
Qed.

Lemma keysOnly_insert (st : list Particle) i x y :
  st !! i = Some x -> keyRel x y -> Forall2 keyRel st (<[i := y]> st).
Proof.
  intros Hx Hr. apply Forall2_same_length_lookup_2; [rewrite length_insert; reflexivity|].
  intros k a b Ha Hb. destruct (decide (k = i)) as [->|Hne].
  - rewrite list_lookup_insert_eq in Hb by (eapply lookup_lt_Some; eauto).
    rewrite Hx in Ha. injection Ha as <-. injection Hb as <-. exact Hr.
  - rewrite list_lookup_insert_ne in Hb by congruence.
    rewrite Ha in Hb. injection Hb as <-. apply keyRel_refl.
Qed.

Ltac keys_leaf :=
  intros; unfold keysOnly; cbn;
  first [ apply keysOnly_preorder
        | eapply keysOnly_insert; [eassumption|]; unfold keyRel; cbn; auto 10 ].

Lemma keyLoop_keysOnly remaining i part t : steps keysOnly (keyLoop remaining i part t).
Proof.
  revert i. induction remaining as [|r IH]; intros i; simpl;
    repeat (steps_step keys_leaf). apply IH.
Qed.

(** X16.  GraphEmitter::updateKeyData.  Called on a slot of the store,
    it first raises a total lifetime below 1 to 1, so that the normalised
    age never divides by zero.  Whether it then returns or fails (the
    assertion on the normalised age, a NULL template), it has written to
    that slot only, and in that slot only the colour, the size and the
    clamped lifetime: position, velocity, age, template and link are the
    old ones.  The pool's shape and everything outside the store are
    untouched. *)
Theorem updateKeyData_frame i x m :
  part_store (emitter m) !! i = Some x ->
  let m' := stateOf (updateKeyData (Some i) m) in
  exists z,
    part_store (emitter m') = <[i := z]> (part_store (emitter m)) /\
    totalLifetime z = Z.max 1 (totalLifetime x) /\
    pos z = pos x /\ vel z = vel x /\ acc z = acc x /\ orientDir z = orientDir x /\
    relPos z = relPos x /\ dataBlock z = dataBlock x /\ currentAge z = currentAge x /\
    spinSpeed z = spinSpeed x /\ next z = next x /\
    poolView m' = poolView m.
Proof.
  intros Hx m'.
  pose proof (updateKeyData_pool (Some i) m) as Hpool. fold m' in Hpool.
  pose proof (updateKeyData_except i m) as Hexc. fold m' in Hexc.
  unfold viewEq, exceptView in Hexc. apply pair_equal_spec in Hexc as [Hrest _].
  set (x1 := if totalLifetime x <? 1 then set_totalLifetime 1 x else x).
  assert (Hkeys : exists z, part_store (emitter m') !! i = Some z /\ keyRel x1 z).
  { unfold m', updateKeyData.
    rewrite (bind_done _ _ _ _ _ (store_done m i x _ Hx)). fold x1.
    set (m1 := putSlot i x1 m).
    assert (Hx1 : part_store (emitter m1) !! i = Some x1).
    { apply (putSlot_lookup i x x1 m Hx). }
    assert (Hs : steps keysOnly
                   (bind (deref (Some i)) (fun p =>
                      bind (assertFatal (f_leb (normalizedAge p) (f_dec 1 0))
                              "Out out bounds filter function for particle.")
                           (fun _ => keyLoop (PDC_NUM_KEYS - 1) 1 (Some i) (normalizedAge p))))).
    { repeat (steps_step keys_leaf). apply keyLoop_keysOnly. }
    specialize (Hs m1). unfold keysOnly in Hs.
    destruct (Forall2_lookup_l _ _ _ _ _ Hs Hx1) as (z & Hz & Hr).
    exists z. split; [exact Hz | exact Hr]. }
  destruct Hkeys as (z & Hz & Hr). exists z.
  split; [apply (insert_except _ _ i uninitialized z Hrest Hz)|].
  unfold keyRel in Hr. destruct Hr as (H1 & H2 & H3 & H4 & H5 & H6 & H7 & H8 & H9 & H10).
  assert (Hlife : totalLifetime x1 = Z.max 1 (totalLifetime x)).
  { unfold x1. destruct (Z.ltb_spec (totalLifetime x) 1); cbn; lia. }
  assert (Hsame : (pos x1, vel x1, acc x1, orientDir x1, relPos x1, dataBlock x1,
                   currentAge x1, spinSpeed x1, next x1)
                  = (pos x, vel x, acc x, orientDir x, relPos x, dataBlock x,
                     currentAge x, spinSpeed x, next x)).
  { unfold x1. destruct (totalLifetime x <? 1); reflexivity. }
  injection Hsame as E1 E2 E3 E4 E5 E6 E7 E8 E9.
  repeat split; congruence.
Qed.

(** ** The end of an emitter's life *)

Lemma deleteWhenEmpty_run sim m :
  isProperlyAdded sim = true -> isDeleted sim = false -> isRemoved sim = false ->
  mDead (emitter m) = false ->
  deleteWhenEmpty sim m =
    let m1 := set_emitter (set_mDeleteWhenEmpty true (emitter m)) m in
    if n_parts (emitter m) =? 0
    then Done true (set_emitter (set_mDead true (emitter m1)) m1)
    else bind (assertFatal (inScene (emitter m))
                 "GraphEmitter not on process list and won't get ticked to death")
              (fun _ => ret false) m1.
Proof.
  intros H1 H2 H3 Hd. unfold deleteWhenEmpty.
  rewrite (bind_done _ _ m (emitter m) m) by reflexivity.
  rewrite H1, H2, H3, Hd. cbn [negb andb].
  do 4 rewrite (bind_done _ _ m tt m) by (apply assertFatal_true; reflexivity).
  cbv zeta. cbv [bind modE ret].
  destruct (n_parts (emitter m) =? 0); reflexivity.
Qed.

(** X21.  How an emitter ends.  GraphEmitter::deleteWhenEmpty, on an
    emitter that is registered, not deleted, not removed and not dead:
    with no live particle it deletes the object at once and marks the
    emitter dead, after which emitParticles does nothing; with live
    particles, on an emitter in a scene, it deletes nothing and the
    emitter stays alive with its pool as it was.  The processTick that
    follows the next advanceTime then deletes the object, and marks the
    emitter dead, exactly when the pass ran (the delta was at least 1 ms)
    and every live particle expired in it, or the mark was already
    set. *)
Theorem deleteWhenEmpty_then_tick sim dt m live free :
  pool_at m live free ->
  isProperlyAdded sim = true -> isDeleted sim = false -> isRemoved sim = false ->
  mDead (emitter m) = false ->
  (live = [] ->
     exists m', deleteWhenEmpty sim m = Done true m' /\ mDead (emitter m') = true /\
       forall fuel s e a v D n, emitParticles fuel s e a v D n m' = Done tt m') /\
  (live <> [] -> inScene (emitter m) = true -> f_ltb dt (f_dec 1 (-5)) = false ->
     exists m1, deleteWhenEmpty sim m = Done false m1 /\
       mDead (emitter m1) = false /\ pool_at m1 live free /\
       let emptied :=
         mDeleteOnTick (emitter m)
         || (negb (msOf dt =? 0)
             && forallb (expiresAt (part_store (emitter m)) (msOf dt)) live) in
       exists m3, processTick (stateOf (advanceTime dt m1)) = Done emptied m3 /\
         mDead (emitter m3) = emptied).
Proof.
  intros Hp H1 H2 H3 Hd.
  pose proof (deleteWhenEmpty_run sim m H1 H2 H3 Hd) as Hrun. cbv zeta in Hrun.
  destruct Hp as (Hs & Hn & Hc). split.
  - intros ->. rewrite Hn in Hrun. cbn [length Z.of_nat Z.eqb] in Hrun.
    eexists. split; [exact Hrun|]. split; [reflexivity|].
    intros fuel s e a v D n. apply emitParticles_dead. reflexivity.
  - intros Hne Hscene He.
    replace (n_parts (emitter m) =? 0) with false in Hrun.
    2:{ symmetry. apply Z.eqb_neq. rewrite Hn. destruct live; [contradiction|]. simpl. lia. }
    rewrite Hscene in Hrun.
    set (m1 := set_emitter (set_mDeleteWhenEmpty true (emitter m)) m) in *.
    rewrite (bind_done _ _ m1 tt m1) in Hrun by (apply assertFatal_true; reflexivity).
    exists m1. split; [exact Hrun|]. split; [exact Hd|].
    assert (Hp1 : pool_at m1 live free).
    { apply (pool_at_links m); [reflexivity|]. split; [exact Hs|]. split; assumption. }
    split; [exact Hp1|]. cbv zeta.
    destruct (advanceTime_host dt m1 live free Hp1 He Hd) as [Hhost Hmark].
    change (mDeleteWhenEmpty (emitter m1)) with true in Hmark.
    change (mDeleteOnTick (emitter m1)) with (mDeleteOnTick (emitter m)) in Hmark.
    change (part_store (emitter m1)) with (part_store (emitter m)) in Hmark.
    rewrite andb_true_r in Hmark. rewrite <- Hmark.
    set (m2 := stateOf (advanceTime dt m1)) in *.
    assert (Hd2 : mDead (emitter m2) = false).
    { clearbody m2. unfold hostView, schedView, unmarked, ticked, logged in Hhost.
      cbn in Hhost. split_pairs. congruence. }
    unfold processTick. cbv [bind getE modE ret].
    destruct (mDeleteOnTick (emitter m2)); eexists; (split; [reflexivity|]);
      [reflexivity | exact Hd2].
Qed.

End Proofs.

Section Loading.

Context {ET : EngineTypes} {EH : EngineHost} {ES : EngineSim}.

(** ** The validation of a datablock *)

Lemma inOrder_cons {S : Type} (f : S -> S) steps s : inOrder (f :: steps) s = inOrder steps (f s).
Proof. reflexivity. Qed.

Lemma inOrder_keeps {S V : Type} (view : S -> V) (steps : list (S -> S)) :
  Forall (fun step => forall s, view (step s) = view s) steps ->
  forall s, view (inOrder steps s) = view s.
Proof.
  induction 1 as [|f steps Hf _ IH]; intros s; [reflexivity|].
  rewrite inOrder_cons, IH. apply Hf.
Qed.

Lemma check_keeps {V : Type} (view : GraphEmitterData * DataMembers -> V) c msg assign :
  (forall d x, view (assign d, report (Warnf msg) x) = view (d, x)) ->
  forall s, view (check c msg assign s) = view s.
Proof. intros H [d x]. unfold check. cbn. destruct (c d); [apply H | reflexivity]. Qed.

Lemma validate_spec d x :
  let s := validate (d, x) in
  ejectionPeriodMS (fst s) = Z.max 1 (ejectionPeriodMS d) /\
  periodVarianceMS (fst s) =
    (if Z.max 1 (ejectionPeriodMS d) <=? periodVarianceMS d
     then s32 (Z.max 1 (ejectionPeriodMS d) - 1) else periodVarianceMS d) /\
  (lifetimeMS (fst s), lifetimeVarianceMS (fst s), particleDataBlocks (fst s),
   partListInitSize (fst s)) =
  (lifetimeMS d, lifetimeVarianceMS d, particleDataBlocks d, partListInitSize d) /\
  sourcesOf (snd s) = sourcesOf x.
Proof.
  unfold validate. do 2 rewrite inOrder_cons.
  match goal with |- context [inOrder ?l ?s0] => set (steps := l); set (s1 := s0) end.
  assert (Hrest : loadView (inOrder steps s1) = loadView s1).
  { apply inOrder_keeps. unfold steps.
    repeat (apply Forall_cons; split; [apply check_keeps; intros; reflexivity|]).
    apply Forall_cons. split; [|apply List.Forall_nil].
    intros [d0 x0]. unfold checkSoftness. cbn. destruct (f_ltb _ _); reflexivity. }
  cbv zeta. set (s2 := inOrder steps s1) in *. clearbody s2. clear steps.
  unfold loadView, countsOf in Hrest.
  apply pair_equal_spec in Hrest as [Hc Hs]. rewrite Hs.
  injection Hc as -> -> -> -> -> ->.
  unfold s1, check. cbn [fst snd].
  destruct (Z.ltb_spec (ejectionPeriodMS d) 1) as [Hp|Hp]; cbn [fst snd].
  - replace (Z.max 1 (ejectionPeriodMS d)) with 1 by lia.
    change (ejectionPeriodMS (set_ejectionPeriodMS 1 d)) with 1.
    change (periodVarianceMS (set_ejectionPeriodMS 1 d)) with (periodVarianceMS d).
    destruct (1 <=? periodVarianceMS d); cbn; auto.
  - replace (Z.max 1 (ejectionPeriodMS d)) with (ejectionPeriodMS d) by lia.
    destruct (ejectionPeriodMS d <=? periodVarianceMS d); cbn; auto.
Qed.

Lemma validateLifetime_spec d x :
  let s := validateLifetime (d, x) in
  lifetimeMS (fst s) = Z.max 0 (lifetimeMS d) /\
  lifetimeVarianceMS (fst s) = Z.min (lifetimeVarianceMS d) (Z.max 0 (lifetimeMS d)) /\
  (ejectionPeriodMS (fst s), periodVarianceMS (fst s), particleDataBlocks (fst s),
   partListInitSize (fst s)) =
  (ejectionPeriodMS d, periodVarianceMS d, particleDataBlocks d, partListInitSize d) /\
  sourcesOf (snd s) = sourcesOf x.
Proof.
  unfold validateLifetime, inOrder, check. cbn [fold_left fst snd].
  destruct (Z.ltb_spec (lifetimeMS d) 0) as [Hl|Hl]; cbn [fst snd].
  - change (lifetimeMS (set_lifetimeMS 0 d)) with 0.
    change (lifetimeVarianceMS (set_lifetimeMS 0 d)) with (lifetimeVarianceMS d).
    destruct (Z.ltb_spec 0 (lifetimeVarianceMS d)); cbn; repeat split; lia.
  - destruct (Z.ltb_spec (lifetimeMS d) (lifetimeVarianceMS d)); cbn; repeat split; lia.
Qed.

Lemma resolveNames_spec rep names : forall s,
  let s' := resolveNames rep names s in
  particleDataBlocks (fst s') = particleDataBlocks (fst s) ++ omap findObjectByName names /\
  dataBlockIds (snd s') =
    dataBlockIds (snd s) ++ map dataBlockId (omap findObjectByName names) /\
  set_particleDataBlocks [] (fst s') = set_particleDataBlocks [] (fst s) /\
  particleString (snd s') = particleString (snd s).
Proof.
  unfold resolveNames. induction names as [|name names IH]; intros s; cbn [fold_left].
  - cbn. rewrite !app_nil_r. auto.
  - cbn [omap list_omap].
    destruct (findObjectByName name) as [pData|] eqn:E.
    + destruct (IH (set_particleDataBlocks (particleDataBlocks (fst s) ++ [pData]) (fst s),
                    set_dataBlockIds (dataBlockIds (snd s) ++ [dataBlockId pData]) (snd s)))
        as (H1 & H2 & H3 & H4).
      cbv zeta in *. cbn [fst snd] in *. rewrite H1, H2, H3, H4. cbn.
      rewrite <- !app_assoc. auto.
    + destruct (IH (fst s, report (rep name) (snd s))) as (H1 & H2 & H3 & H4).
      cbv zeta in *. cbn [fst snd] in *. rewrite H1, H2, H3, H4. auto.
Qed.

Lemma sourcesOf_fields x x' :
  sourcesOf x' = sourcesOf x ->
  particleString x' = particleString x /\ dataBlockIds x' = dataBlockIds x.
Proof. unfold sourcesOf. intros [= -> -> _ _ _]. auto. Qed.

Lemma onAdd_body_spec d x :
  let r := onAdd_body d x in
  let s := validate (d, x) in
  fst r = accepted x /\
  ejectionPeriodMS (fst (snd r)) = ejectionPeriodMS (fst s) /\
  periodVarianceMS (fst (snd r)) = periodVarianceMS (fst s) /\
  (accepted x = true ->
     0 <= lifetimeMS (fst (snd r)) /\
     lifetimeVarianceMS (fst (snd r)) <= lifetimeMS (fst (snd r)) /\
     match particleString x with
     | Some _ =>
         particleDataBlocks (fst (snd r)) = namedParticles x /\
         dataBlockIds (snd (snd r)) = map dataBlockId (namedParticles x) /\
         particleDataBlocks (fst (snd r)) <> []
     | None =>
         particleDataBlocks (fst (snd r)) = particleDataBlocks d /\
         dataBlockIds (snd (snd r)) = dataBlockIds x
     end).
Proof.
  cbv zeta. unfold onAdd_body.
  destruct (validate_spec d x) as (_ & _ & Hkeep & Hsrc). cbv zeta in Hkeep, Hsrc.
  destruct (sourcesOf_fields _ _ Hsrc) as [Hstr Hids].
  destruct (validate (d, x)) as [d1 x1] eqn:Ev. cbn [fst snd] in *.
  injection Hkeep as Hl Hlv Ht Hsz.
  pose proof (validateLifetime_spec d1 x1) as (Hl2 & Hlv2 & Hkeep2 & Hsrc2).
  cbv zeta in Hl2, Hlv2, Hkeep2, Hsrc2.
  destruct (sourcesOf_fields _ _ Hsrc2) as [Hstr2 Hids2].
  destruct (validateLifetime (d1, x1)) as [d2 x2] eqn:Ev2. cbn [fst snd] in *.
  injection Hkeep2 as Hp2 Hv2 Ht2 Hsz2.
  unfold accepted, namedParticles. rewrite Hstr.
  destruct (particleString x) as [str|] eqn:Es.
  - destruct (String.eqb str EmptyString) eqn:Eempty; cbn [negb andb fst snd].
    { split; [reflexivity|]. split; [reflexivity|]. split; [reflexivity | discriminate]. }
    rewrite (Z.leb_antisym 255).
    destruct (255 <? Z.of_nat (String.length str)) eqn:Elong; cbn [negb andb fst snd].
    { split; [reflexivity|]. split; [reflexivity|]. split; [reflexivity | discriminate]. }
    destruct (dStrtok str) as [|name names] eqn:Etok.
    { cbn [omap list_omap fst snd]. rewrite bool_decide_eq_true_2 by reflexivity.
      cbn [negb]. split; [reflexivity|]. split; [congruence|]. split; [congruence|].
      discriminate. }
    destruct (resolveNames_spec
                (fun _ => Warnf "GraphEmitterData(%s) unable to find particle datablock: %s")
                (name :: names) (clearParticles (d2, x2))) as (H1 & H2 & H3 & H4).
    cbv zeta in H1, H2, H3, H4.
    destruct (resolveNames _ (name :: names) (clearParticles (d2, x2))) as [d3 x3] eqn:Er.
    cbn [fst snd clearParticles] in *.
    change (particleDataBlocks (set_particleDataBlocks [] d2)) with (@nil ParticleData) in H1.
    change (dataBlockIds (set_dataBlockIds [] x2)) with (@nil Z) in H2.
    cbn [app] in H1, H2.
    pose proof (f_equal ejectionPeriodMS H3) as Hp3.
    pose proof (f_equal periodVarianceMS H3) as Hv3.
    pose proof (f_equal lifetimeMS H3) as Hl3.
    pose proof (f_equal lifetimeVarianceMS H3) as Hlv3.
    cbn in Hp3, Hv3, Hl3, Hlv3.
    rewrite <- H1.
    destruct (bool_decide (particleDataBlocks d3 = [])) eqn:Enil; cbn [negb fst snd].
    { split; [reflexivity|]. split; [congruence|]. split; [congruence | discriminate]. }
    apply bool_decide_eq_false_1 in Enil.
    split; [reflexivity|]. split; [congruence|]. split; [congruence|]. intros _.
    split; [lia|]. split; [lia|]. split; [reflexivity|]. split; [congruence | exact Enil].
  - rewrite Hids.
    destruct (bool_decide (dataBlockIds x = [])); cbn [negb fst snd].
    { split; [reflexivity|]. split; [reflexivity|]. split; [reflexivity | discriminate]. }
    split; [reflexivity|]. split; [congruence|]. split; [congruence|]. intros _.
    split; [lia|]. split; [lia|]. split; congruence.
Qed.

(** X17.  GraphEmitterData::onAdd, once Parent::onAdd has succeeded.  It
    always returns and does not touch the emitter.  Whatever it answers,
    the period is then at least 1 ms and the period variance below the
    period (a variance that was not is set to the period minus 1; a
    negative variance is left as it is), so that the divisor
    [period - variance] of allocPrimBuffer is not zero.  It answers true
    exactly when the datablock names its particles: by ids when there is
    no particles string, or by a string of at most 255 characters of
    which at least one token names a ParticleData.  When it answers true
    the lifetime is not negative and its variance not above it, and with
    a particles string the templates are the datablocks that its tokens
    resolve to, in the order of the tokens, the ids their ids. *)
Theorem GraphEmitterData_onAdd_validates x m :
  - 2 ^ 31 <= ejectionPeriodMS (datablock m) < 2 ^ 31 ->
  - 2 ^ 31 <= periodVarianceMS (datablock m) < 2 ^ 31 ->
  exists x' m',
    GraphEmitterData_onAdd true x m = Done (accepted x, x') m' /\
    emitter m' = emitter m /\
    let d := datablock m in
    let d' := datablock m' in
    ejectionPeriodMS d' = Z.max 1 (ejectionPeriodMS d) /\
    periodVarianceMS d' =
      (if ejectionPeriodMS d' <=? periodVarianceMS d
       then ejectionPeriodMS d' - 1 else periodVarianceMS d) /\
    periodVarianceMS d' < ejectionPeriodMS d' /\
    u32 (ejectionPeriodMS d' - periodVarianceMS d') <> 0 /\
    (accepted x = true ->
       0 <= lifetimeMS d' /\ lifetimeVarianceMS d' <= lifetimeMS d' /\
       match particleString x with
       | Some _ =>
           particleDataBlocks d' = namedParticles x /\
           dataBlockIds x' = map dataBlockId (namedParticles x) /\
           particleDataBlocks d' <> []
       | None =>
           particleDataBlocks d' = particleDataBlocks d /\
           dataBlockIds x' = dataBlockIds x
       end).
Proof.
  intros Hp Hv. unfold GraphEmitterData_onAdd. cbn [negb]. cbv [bind getD modD ret].
  destruct (onAdd_body_spec (datablock m) x) as (Hb & Hp' & Hv' & Hacc).
  cbv zeta in Hb, Hp', Hv', Hacc.
  destruct (validate_spec (datablock m) x) as (Hp1 & Hv1 & _). cbv zeta in Hp1, Hv1.
  rewrite Hp1 in Hp'. rewrite Hv1 in Hv'.
  destruct (onAdd_body (datablock m) x) as [b [d' x']]. cbn [fst snd] in *. subst b.
  exists x'. eexists. split; [reflexivity|]. cbn [emitter datablock set_datablock].
  split; [reflexivity|].
  assert (Hvar : periodVarianceMS d' =
                 (if ejectionPeriodMS d' <=? periodVarianceMS (datablock m)
                  then ejectionPeriodMS d' - 1 else periodVarianceMS (datablock m))).
  { rewrite Hv', Hp'.
    destruct (Z.max 1 (ejectionPeriodMS (datablock m)) <=? periodVarianceMS (datablock m));
      [apply s32_small; lia | reflexivity]. }
  split; [exact Hp'|]. split; [exact Hvar|].
  assert (Hlt : periodVarianceMS d' < ejectionPeriodMS d').
  { rewrite Hvar.
    destruct (Z.leb_spec (ejectionPeriodMS d') (periodVarianceMS (datablock m))); lia. }
  split; [exact Hlt|]. split.
  { assert (Hlow : - 2 ^ 31 <= periodVarianceMS d').
    { rewrite Hvar.
      destruct (Z.leb_spec (ejectionPeriodMS d') (periodVarianceMS (datablock m))); lia. }
    rewrite u32_small by lia. lia. }
  exact Hacc.
Qed.

(** ** Reloading the templates *)

Lemma set_particleDataBlocks_same d :
  set_particleDataBlocks (particleDataBlocks d) d = d.
Proof. destruct d; reflexivity. Qed.

Lemma resolveNames_fst rep names : forall s,
  fst (resolveNames rep names s) =
    set_particleDataBlocks (particleDataBlocks (fst s) ++ omap findObjectByName names) (fst s).
Proof.
  unfold resolveNames. induction names as [|name names IH]; intros s; cbn [fold_left].
  - cbn. rewrite app_nil_r, set_particleDataBlocks_same. reflexivity.
  - cbn [omap list_omap].
    destruct (findObjectByName name) as [pData|] eqn:E.
    + rewrite IH. cbn. rewrite <- app_assoc. reflexivity.
    + rewrite IH. reflexivity.
Qed.

Lemma last_report ev x : last (dataLog (report ev x)) = Some ev.
Proof. unfold report. cbn. apply last_snoc. Qed.

(** X18.  GraphEmitterData::reload.  It always returns.  It replaces the
    templates by the datablocks that the units of the particles string
    resolve to, in the order of the units, and the ids by their ids; a
    datablock without a string, with the empty string or with no unit
    ends with no template and no id.  It answers true exactly when a
    template was found, triggers the reload signal last in every case and
    changes no other field of the datablock and nothing of the emitter.
    After a reload that found nothing, a call of emitParticles on
    this datablock emits nothing and changes nothing. *)
Theorem reload_resolves x m :
  let found := omap findObjectByName (reloadNames x) in
  let m' := set_datablock (set_particleDataBlocks found (datablock m)) m in
  exists x',
    GraphEmitterData_reload x m = Done (negb (bool_decide (found = [])), x') m' /\
    dataBlockIds x' = map dataBlockId found /\
    particleString x' = particleString x /\
    last (dataLog x') = Some ReloadSignal /\
    (found = [] ->
     forall fuel s e a v D n, emitParticles fuel s e a v D n m' = Done tt m').
Proof.
  intros found m'.
  assert (Hemit : found = [] ->
            forall fuel s e a v D n, emitParticles fuel s e a v D n m' = Done tt m').
  { intros Hnil fuel s e a v D n. apply emitParticles_empty. unfold m'. cbn. exact Hnil. }
  unfold GraphEmitterData_reload. cbv [bind getD modD ret].
  unfold reload_body. cbv zeta. unfold clearParticles. cbn [fst snd].
  unfold m', found, reloadNames in *.
  destruct (particleString x) as [str|] eqn:Es.
  2:{ cbn [orb omap list_omap fst snd]. rewrite bool_decide_eq_true_2 by reflexivity.
      eexists. split; [reflexivity|]. split; [reflexivity|].
      split; [exact Es|]. split; [apply last_report | exact Hemit]. }
  destruct (String.eqb str EmptyString) eqn:Eempty.
  { cbn [orb omap list_omap fst snd]. rewrite bool_decide_eq_true_2 by reflexivity.
    eexists. split; [reflexivity|]. split; [reflexivity|].
    split; [exact Es|]. split; [apply last_report | exact Hemit]. }
  cbn [orb].
  destruct (u32 (getUnitCount str) =? 0) eqn:Ez.
  { apply Z.eqb_eq in Ez. rewrite Ez in Hemit |- *.
    cbn [Z.to_nat seq map omap list_omap fst snd] in Hemit |- *.
    rewrite bool_decide_eq_true_2 by reflexivity.
    eexists. split; [reflexivity|]. split; [reflexivity|].
    split; [exact Es|]. split; [apply last_report | exact Hemit]. }
  set (names := map (fun i => getUnit str (Z.of_nat i))
                    (seq 0 (Z.to_nat (u32 (getUnitCount str))))) in *.
  set (s0 := (set_particleDataBlocks [] (datablock m), set_dataBlockIds [] x)).
  set (rep := fun _ : string =>
                Errorf "GraphEmitterData(%s) unable to find particle datablock: %s").
  destruct (resolveNames_spec rep names s0) as (H1 & H2 & _ & H4).
  pose proof (resolveNames_fst rep names s0) as Hfst.
  cbv zeta in H1, H2, H4. cbn [fst snd s0 app] in H1, H2, H4, Hfst.
  change (particleDataBlocks (set_particleDataBlocks [] (datablock m)))
    with (@nil ParticleData) in H1, Hfst.
  change (dataBlockIds (set_dataBlockIds [] x)) with (@nil Z) in H2.
  change (particleString (set_dataBlockIds [] x)) with (particleString x) in H4.
  cbn [app] in H1, H2, Hfst.
  change (set_particleDataBlocks (omap findObjectByName names)
            (set_particleDataBlocks [] (datablock m)))
    with (set_particleDataBlocks (omap findObjectByName names) (datablock m)) in Hfst.
  rewrite H1.
  destruct (bool_decide (omap findObjectByName names = [])) eqn:Enil; cbn [negb fst snd];
    rewrite Hfst; eexists; (split; [reflexivity|]); rewrite ?last_report;
    cbn [report set_dataLog dataBlockIds particleString]; rewrite H2, H4, Es; auto.
Qed.

(** ** GraphEmitterData::preload *)

Lemma resolveIds_spec ids : forall s,
  let s' := resolveIds ids s in
  fst s' = set_particleDataBlocks (particleDataBlocks (fst s) ++ omap findObjectById ids) (fst s) /\
  sourcesOf (snd s') = sourcesOf (snd s).
Proof.
  unfold resolveIds. induction ids as [|id ids IH]; intros s; cbn [fold_left].
  - cbn. rewrite app_nil_r, set_particleDataBlocks_same. auto.
  - cbn [omap list_omap].
    destruct (findObjectById id) as [pData|] eqn:E.
    + destruct (IH (set_particleDataBlocks (particleDataBlocks (fst s) ++ [pData]) (fst s), snd s))
        as (H1 & H2).
      cbv zeta in *. cbn [fst snd] in *. rewrite H1, H2. cbn. rewrite <- app_assoc. auto.
    + destruct (IH (fst s, report (Warnf "GraphEmitterData(%s) unable to find particle datablock: %d")
                              (snd s))) as (H1 & H2).
      cbv zeta in *. cbn [fst snd] in *. rewrite H1, H2. auto.
Qed.

Lemma checkTextures_sources d x : sourcesOf (checkTextures d x) = sourcesOf x.
Proof.
  unfold checkTextures. destruct (particleDataBlocks d); [reflexivity|].
  destruct (existsb _ _); reflexivity.
Qed.

Lemma legacyBlend_sources d x :
  (particleString (legacyBlend d x), dataBlockIds (legacyBlend d x),
   textureName (legacyBlend d x), textureHandle (legacyBlend d x)) =
  (particleString x, dataBlockIds x, textureName x, textureHandle x).
Proof.
  unfold legacyBlend. destruct (particleDataBlocks d); [reflexivity|].
  destruct (blendIsUndefined _); [|reflexivity].
  destruct (existsb _ _); reflexivity.
Qed.

(** X19.  GraphEmitterData::preload, once Parent::preload has succeeded.
    It replaces the templates by the datablocks that the ids resolve to,
    in the order of the ids, and keeps the ids.  On the server it then
    returns true, whatever was found, and leaves partListInitSize alone.
    On a client a named texture that does not load makes it return
    false, with an invalid handle and the error string set last, before
    any buffer is sized.  Otherwise a client ends with allocPrimBuffer
    at its default size, on the datablock with the new templates; so a
    client's preload of a datablock of which no id resolves fails there
    instead of returning. *)
Theorem preload_resolves x m :
  let found := omap findObjectById (dataBlockIds x) in
  let m1 := set_datablock (set_particleDataBlocks found (datablock m)) m in
  (exists x', GraphEmitterData_preload true true x m = Done (true, x') m1 /\
              dataBlockIds x' = dataBlockIds x /\ textureHandle x' = textureHandle x) /\
  (textureOk x = false ->
   exists x', GraphEmitterData_preload true false x m = Done (false, x') m1 /\
              dataBlockIds x' = dataBlockIds x /\ textureHandle x' = false /\
              last (dataLog x') = Some (ErrorStr "Missing particle emitter texture: %s")) /\
  (textureOk x = true ->
   exists x', GraphEmitterData_preload true false x m =
                bind (allocPrimBuffer defaultOverrideSize) (fun _ => ret (true, x')) m1 /\
              dataBlockIds x' = dataBlockIds x /\
              (found = [] ->
               exists f, GraphEmitterData_preload true false x m = Crash f m1)).
Proof.
  intros found m1.
  destruct (resolveIds_spec (dataBlockIds x) (set_particleDataBlocks [] (datablock m), x))
    as (Hfst & Hsrc).
  cbv zeta in Hfst, Hsrc. cbn [fst snd] in Hfst, Hsrc.
  change (particleDataBlocks (set_particleDataBlocks [] (datablock m)))
    with (@nil ParticleData) in Hfst.
  cbn [app] in Hfst.
  change (set_particleDataBlocks (omap findObjectById (dataBlockIds x))
            (set_particleDataBlocks [] (datablock m)))
    with (set_particleDataBlocks found (datablock m)) in Hfst.
  unfold GraphEmitterData_preload. cbn [negb]. cbv [bind getD modD ret].
  set (s := resolveIds (dataBlockIds x) (set_particleDataBlocks [] (datablock m), x)) in *.
  clearbody s. destruct s as [d1 x1]. cbn [fst snd] in *. subst d1.
  fold m1.
  unfold sourcesOf in Hsrc. injection Hsrc as Hstr Hids Htex Hhandle Hblend.
  pose proof (legacyBlend_sources (set_particleDataBlocks found (datablock m)) x1) as Hleg.
  split; [|split].
  - cbn [fst snd negb]. eexists. split; [reflexivity|].
    injection Hleg as _ -> _ ->. auto.
  - unfold textureOk. rewrite <- Htex. intros Hbad.
    destruct (textureName x1) as [name|]; [|discriminate].
    apply orb_false_iff in Hbad as [-> ->]. cbn [fst snd negb].
    eexists. split; [reflexivity|]. rewrite last_report. auto.
  - unfold textureOk. rewrite <- Htex. intros Hok.
    set (x2 := match textureName x1 with
               | Some name =>
                   if String.eqb name EmptyString
                   then checkTextures (set_particleDataBlocks found (datablock m)) x1
                   else set_textureHandle true x1
               | None => checkTextures (set_particleDataBlocks found (datablock m)) x1
               end).
    assert (Hx2 : dataBlockIds x2 = dataBlockIds x).
    { unfold x2. destruct (textureName x1) as [name|].
      - destruct (String.eqb name EmptyString); [|exact Hids].
        pose proof (checkTextures_sources (set_particleDataBlocks found (datablock m)) x1) as Hc.
        unfold sourcesOf in Hc. injection Hc as _ -> _ _ _. exact Hids.
      - pose proof (checkTextures_sources (set_particleDataBlocks found (datablock m)) x1) as Hc.
        unfold sourcesOf in Hc. injection Hc as _ -> _ _ _. exact Hids. }
    exists (legacyBlend (set_particleDataBlocks found (datablock m)) x2).
    assert (Hrun : (let texture :=
                      match textureName x1 with
                      | Some name =>
                          if String.eqb name EmptyString
                          then (true, checkTextures (set_particleDataBlocks found (datablock m)) x1)
                          else if loadTexture name then (true, set_textureHandle true x1)
                          else (false, report (ErrorStr "Missing particle emitter texture: %s")
                                         (set_textureHandle false x1))
                      | None => (true, checkTextures (set_particleDataBlocks found (datablock m)) x1)
                      end in texture) = (true, x2)).
    { unfold x2. destruct (textureName x1) as [name|]; [|reflexivity].
      destruct (String.eqb name EmptyString); [reflexivity|].
      cbn [orb] in Hok. rewrite Hok. reflexivity. }
    cbv zeta in Hrun. rewrite Hrun. cbn [fst snd negb].
    split; [reflexivity|]. split.
    { pose proof (legacyBlend_sources (set_particleDataBlocks found (datablock m)) x2) as Hl2.
      injection Hl2 as _ -> _ _. exact Hx2. }
    intros Hnil.
    assert (Hm1 : m1 = set_datablock (set_particleDataBlocks [] (datablock m)) m).
    { unfold m1. rewrite Hnil. reflexivity. }
    rewrite Hm1. unfold allocPrimBuffer. cbv [bind getD].
    cbn [datablock set_datablock].
    change (particleDataBlocks (set_particleDataBlocks [] (datablock m)))
      with (@nil ParticleData).
    unfold assertFatal. rewrite bool_decide_eq_true_2 by reflexivity.
    cbn [negb]. rewrite andb_true_r. destruct TORQUE_ENABLE_ASSERTS; eexists; reflexivity.
Qed.

(** ** The index buffer *)

Lemma writeIndex_at j k v pre l :
  length pre = (j * 6)%nat -> Z.of_nat j * 6 < 2 ^ 32 -> 0 <= k ->
  (Z.to_nat k < length l)%nat ->
  writeIndex (Z.of_nat j) k v (pre ++ l) = Some (pre ++ <[Z.to_nat k := u16 v]> l).
Proof.
  intros Hpre Hj Hk Hl. unfold writeIndex. cbv zeta.
  rewrite u32_small by lia.
  replace (Z.to_nat (Z.of_nat j * 6 + k)) with (length pre + Z.to_nat k)%nat by lia.
  rewrite bool_decide_eq_true_2 by (rewrite length_app; lia).
  rewrite insert_app_r. reflexivity.
Qed.

Lemma u16_u32 c y : u16 (c + u32 y) = u16 (c + y).
Proof.
  unfold u16, u32. rewrite (Z.mod_eq y (2 ^ 32)) by lia.
  replace (c + (y - 2 ^ 32 * (y / 2 ^ 32)))
    with (c + y + (- (y / 2 ^ 32) * 2 ^ 16) * 2 ^ 16) by lia.
  apply Z.mod_add. lia.
Qed.

Lemma mbind_Some {A B} (f : A -> option B) (x : A) : (Some x ≫= f) = f x.
Proof. reflexivity. Qed.

Lemma writeQuad_at j pre a0 a1 a2 a3 a4 a5 rest :
  length pre = (j * 6)%nat -> Z.of_nat j * 6 < 2 ^ 32 ->
  writeQuad (Z.of_nat j) (pre ++ a0 :: a1 :: a2 :: a3 :: a4 :: a5 :: rest) =
    Some (pre ++ map (fun c => u16 (c + 4 * Z.of_nat j)) quadOrder ++ rest).
Proof.
  intros Hpre Hj. unfold writeQuad. cbv zeta.
  rewrite (writeIndex_at j 0) by (simpl; lia). rewrite mbind_Some.
  rewrite (writeIndex_at j 1) by (simpl; lia). rewrite mbind_Some.
  rewrite (writeIndex_at j 2) by (simpl; lia). rewrite mbind_Some.
  rewrite (writeIndex_at j 3) by (simpl; lia). rewrite mbind_Some.
  rewrite (writeIndex_at j 4) by (simpl; lia). rewrite mbind_Some.
  rewrite (writeIndex_at j 5) by (simpl; lia).
  rewrite !u16_u32. replace (Z.of_nat j * 4) with (4 * Z.of_nat j) by lia.
  reflexivity.
Qed.

Lemma indexLoop_quads junk : forall todo j pre,
  length pre = (j * 6)%nat -> Z.of_nat (j + todo) * 6 < 2 ^ 32 ->
  indexLoop todo (Z.of_nat j) (pre ++ replicate (todo * 6) junk) =
    Some (pre ++ flat_map (fun i => map (fun c => u16 (c + 4 * Z.of_nat i)) quadOrder)
                          (seq j todo)).
Proof.
  induction todo as [|todo IH]; intros j pre Hpre Hj.
  - reflexivity.
  - cbn [indexLoop Nat.mul Nat.add replicate].
    rewrite writeQuad_at by (try exact Hpre; lia). rewrite mbind_Some.
    rewrite u32_small by lia.
    replace (Z.of_nat j + 1) with (Z.of_nat (S j)) by lia.
    rewrite app_assoc. rewrite IH.
    + cbn [seq flat_map]. rewrite <- app_assoc. reflexivity.
    + rewrite length_app, Hpre. cbn. lia.
    + lia.
Qed.

Lemma writeIndex_length i k v l l' :
  writeIndex i k v l = Some l' -> length l' = length l.
Proof.
  unfold writeIndex. cbv zeta. destruct (bool_decide _); [|discriminate].
  intros [= <-]. apply length_insert.
Qed.

Lemma writeQuad_length i l l' : writeQuad i l = Some l' -> length l' = length l.
Proof.
  unfold writeQuad. cbv zeta. intros H.
  destruct (writeIndex i 0 _ l) as [l0|] eqn:E0; [|discriminate]. simpl in H.
  destruct (writeIndex i 1 _ l0) as [l1|] eqn:E1; [|discriminate]. simpl in H.
  destruct (writeIndex i 2 _ l1) as [l2|] eqn:E2; [|discriminate]. simpl in H.
  destruct (writeIndex i 3 _ l2) as [l3|] eqn:E3; [|discriminate]. simpl in H.
  destruct (writeIndex i 4 _ l3) as [l4|] eqn:E4; [|discriminate]. simpl in H.
  apply writeIndex_length in E0, E1, E2, E3, E4, H. congruence.
Qed.

Lemma writeQuad_overrun l :
  Z.of_nat (length l) < 2 ^ 32 -> writeQuad lastQuad l = None.
Proof.
  intros Hl. destruct (writeQuad lastQuad l) as [l'|] eqn:E; [|reflexivity]. exfalso.
  unfold writeQuad in E. cbv zeta in E.
  destruct (writeIndex lastQuad 0 _ l) as [l0|] eqn:E0; [|discriminate]. simpl in E.
  destruct (writeIndex lastQuad 1 _ l0) as [l1|] eqn:E1; [|discriminate]. simpl in E.
  destruct (writeIndex lastQuad 2 _ l1) as [l2|] eqn:E2; [|discriminate]. simpl in E.
  destruct (writeIndex lastQuad 3 _ l2) as [l3|] eqn:E3; [|discriminate]. simpl in E.
  destruct (writeIndex lastQuad 4 _ l3) as [l4|] eqn:E4; [|discriminate]. simpl in E.
  apply writeIndex_length in E0, E1, E2, E3, E4.
  unfold writeIndex in E. cbv zeta in E.
  change (u32 (lastQuad * 6)) with 4294967292 in E.
  rewrite bool_decide_eq_false_2 in E; [discriminate|]. lia.
Qed.

Lemma indexLoop_overrun : forall todo i l,
  0 <= i <= lastQuad -> lastQuad < i + Z.of_nat todo ->
  Z.of_nat (length l) < 2 ^ 32 ->
  indexLoop todo i l = None.
Proof.
  induction todo as [|todo IH]; intros i l Hi Hlast Hl; [lia|].
  cbn [indexLoop].
  destruct (Z.eq_dec i lastQuad) as [->|Hne].
  { rewrite writeQuad_overrun by exact Hl. reflexivity. }
  destruct (writeQuad i l) as [l'|] eqn:E; [|reflexivity]. rewrite mbind_Some.
  apply writeQuad_length in E.
  unfold lastQuad in *. rewrite u32_small by lia.
  apply IH; unfold lastQuad; lia.
Qed.

Lemma quadIndices_length n : length (quadIndices n) = (n * 6)%nat.
Proof.
  unfold quadIndices. induction n as [|n IH]; [reflexivity|].
  rewrite seq_S, flat_map_app, length_app, IH. cbn. lia.
Qed.

Lemma quadIndices_lookup n : forall i k c,
  (i < n)%nat -> quadOrder !! k = Some c ->
  quadIndices n !! (i * 6 + k)%nat = Some (u16 (c + 4 * Z.of_nat i)).
Proof.
  induction n as [|n IH]; intros i k c Hi Hk; [lia|].
  assert (Hk6 : (k < 6)%nat) by (apply lookup_lt_Some in Hk; exact Hk).
  unfold quadIndices. rewrite seq_S, flat_map_app. fold (quadIndices n).
  destruct (decide (i < n)%nat) as [Hlt|Hge].
  - rewrite lookup_app_l by (rewrite quadIndices_length; lia). apply IH; assumption.
  - assert (i = n) by lia. subst i.
    rewrite lookup_app_r by (rewrite quadIndices_length; lia).
    rewrite quadIndices_length. replace (n * 6 + k - n * 6)%nat with k by lia.
    cbn [flat_map Nat.add]. rewrite app_nil_r, list_lookup_fmap, Hk. reflexivity.
Qed.

(** X20.  The index buffer of allocPrimBuffer for [n] particles.  While
    6 n fits 32 bits the loop stays inside the array and fills it
    completely: the six indices of particle [i] are the corners 0 1 3 1 3
    2 of its quad, [4 i + corner], cut to 16 bits; so the quad of
    particle [i + 16384] gets the indices of particle [i].  When 6 n
    does not fit 32 bits the array is allocated too short and the loop
    writes past its end. *)
Theorem primIndices_quads n :
  0 <= n < 2 ^ 32 ->
  (n * 6 < 2 ^ 32 ->
     primIndices n = Some (quadIndices (Z.to_nat n)) /\
     length (quadIndices (Z.to_nat n)) = Z.to_nat (n * 6) /\
     (forall i k c, 0 <= i < n -> quadOrder !! k = Some c ->
        quadIndices (Z.to_nat n) !! (Z.to_nat (i * 6) + k)%nat = Some (u16 (c + 4 * i)) /\
        (i < 16384 -> u16 (c + 4 * i) = c + 4 * i) /\
        (i + 16384 < n ->
         quadIndices (Z.to_nat n) !! (Z.to_nat ((i + 16384) * 6) + k)%nat =
         quadIndices (Z.to_nat n) !! (Z.to_nat (i * 6) + k)%nat))) /\
  (2 ^ 32 <= n * 6 -> primIndices n = None).
Proof.
  intros Hn. split.
  - intros H6. split; [|split].
    + unfold primIndices. cbv zeta. rewrite u32_small by lia.
      replace (Z.to_nat (n * 6)) with (Z.to_nat n * 6)%nat by lia.
      change 0 with (Z.of_nat 0).
      apply (indexLoop_quads freshIndex (Z.to_nat n) 0%nat []); [reflexivity | lia].
    + rewrite quadIndices_length. lia.
    + intros i k c Hi Hk.
      assert (Hat : forall i', 0 <= i' < n ->
                quadIndices (Z.to_nat n) !! (Z.to_nat (i' * 6) + k)%nat
                = Some (u16 (c + 4 * i'))).
      { intros i' Hi'.
        replace (Z.to_nat (i' * 6)) with (Z.to_nat i' * 6)%nat by lia.
        rewrite (quadIndices_lookup (Z.to_nat n) (Z.to_nat i') k c) by (try exact Hk; lia).
        rewrite Z2Nat.id by lia. reflexivity. }
      assert (Hc : 0 <= c <= 3).
      { unfold quadOrder in Hk.
        do 6 (destruct k as [|k]; [injection Hk as <-; lia|]). discriminate. }
      split; [apply Hat; exact Hi|]. split.
      * intros Hsmall. unfold u16. apply Z.mod_small. lia.
      * intros Hfar. rewrite !Hat by lia. f_equal. unfold u16.
        replace (c + 4 * (i + 16384)) with (c + 4 * i + 1 * 2 ^ 16) by lia.
        apply Z.mod_add. lia.
  - intros Hbig. unfold primIndices. cbv zeta.
    apply indexLoop_overrun.
    + unfold lastQuad. lia.
    + unfold lastQuad. lia.
    + rewrite length_replicate. pose proof (u32_range (n * 6)). lia.
Qed.

(** ** The colour of an emitter *)

Lemma sumColors_spec l : forall fuel part acc m,
  lseg (nexts m) part l -> (length l <= fuel)%nat ->
  sumColors fuel part acc m = Done (fold_left c_add (map color (particlesOf m l)) acc) m.
Proof.
  induction l as [|i l IH]; intros fuel part acc m Hl Hf; unfold lseg in Hl.
  - simpl in Hl. subst part. destruct fuel; reflexivity.
  - destruct Hl as (-> & n & Hn & Hrest).
    destruct fuel as [|fuel]; [simpl in Hf; lia|].
    destruct (nexts_lookup m i n Hn) as (x & Hx & Hnext).
    cbn [sumColors]. rewrite (bind_done _ _ _ _ _ (deref_done m i x Hx)).
    rewrite Hnext, (IH fuel n (c_add acc (color x)) m Hrest) by (simpl in Hf; lia).
    unfold particlesOf. cbn [omap list_omap]. rewrite Hx. reflexivity.
Qed.

(** X22.  GraphEmitter::getCollectiveColor.  On a well-formed pool the
    call returns and changes nothing.  Its result is the sum of the
    colours of the live particles, added to black in the order of the
    live list, divided by their number; for an emitter without a live
    particle it is black, and nothing is divided. *)
Theorem getCollectiveColor_mean m live free :
  pool_at m live free -> Z.of_nat (length live) < 2 ^ 32 ->
  getCollectiveColor m =
    Done (if bool_decide (live = []) then c_black
          else c_div (fold_left c_add (map color (particlesOf m live)) c_black)
                     (f_of_int (Z.of_nat (length live))))
         m.
Proof.
  intros (Hs & Hn & Hc) Hlen. unfold getCollectiveColor, walkFuel.
  cbv [bind getE ret].
  destruct (shape_live_fuel _ _ _ _ _ Hs) as [Hle _]. unfold nexts in Hle.
  rewrite length_map in Hle.
  rewrite (sumColors_spec live) by (try exact Hle; apply Hs).
  rewrite Hn, u32_small by lia.
  destruct live as [|i live].
  - rewrite bool_decide_eq_true_2 by reflexivity. reflexivity.
  - rewrite bool_decide_eq_false_2 by discriminate.
    replace (0 <? Z.of_nat (length (i :: live))) with true
      by (symmetry; apply Z.ltb_lt; simpl length; lia).
    reflexivity.
Qed.

End Loading.

(** * The emitter on the concrete engine *)

#[local] Existing Instance Sample.binary32.
#[local] Existing Instance Sample.host.

Lemma pool_conservation_witness :
  exists m1,
    session (take 5 Scenario.demo) Scenario.fresh = Done tt m1 /\
    exists live free,
      lseg (nexts m1) (part_list_head (emitter m1)) live /\
      lseg (nexts m1) (part_freelist (emitter m1)) free /\
      n_parts (emitter m1) = Z.of_nat (length live) /\
      n_parts (emitter m1) + Z.of_nat (length free) = n_part_capacity (emitter m1) /\
      NoDup free /\
      (forall i, i ∈ live -> i ∉ free).
Proof.
  apply (pool_conservation (take 5 Scenario.demo) (drop 5 Scenario.demo) Scenario.fresh
           (stateOf (session (take 5 Scenario.demo ++ drop 5 Scenario.demo) Scenario.fresh))).
  - apply pool_ok_sound. vm_compute. reflexivity.
  - apply done_state. vm_compute. reflexivity.
Defined.

Lemma eviction_same_pass_witness :
  let m := Scenario.mixed in
  let m' := stateOf (advanceTime Scenario.half m) in
  let live' :=
    List.filter (fun i => negb (expiresAt (part_store (emitter m)) (msOf Scenario.half) i))
      (liveOf m) in
  ~ ranOut (advanceTime Scenario.half m) /\
  lseg (nexts m') (part_list_head (emitter m')) live' /\
  (forall i z, i ∈ live' -> part_store (emitter m') !! i = Some z ->
     currentAge z <= totalLifetime z).
Proof.
  intros m m' live'.
  pose proof (eviction_same_pass Scenario.half m (liveOf m) (freeOf m)
                ltac:(apply pool_ok_lists; vm_compute; reflexivity)
                ltac:(vm_compute; reflexivity)
                ltac:(vm_compute; reflexivity)
                ltac:(vm_compute; discriminate)) as (A & B & _ & _ & _ & _ & C).
  exact (conj A (conj B C)).
Defined.

Ltac run := vm_compute; first [reflexivity | discriminate].
Ltac has_templates :=
  let H := fresh in intros H; apply (f_equal length) in H; vm_compute in H; discriminate.

Lemma spawn_count_zero_variance_witness :
  let m1 :=
    stateOf (emitParticles 8 Scenario.origin Scenario.ex Scenario.ez Scenario.origin
               250 NodeObj Scenario.fresh) in
  let m2 :=
    stateOf (emitParticles 8 Scenario.ex Scenario.origin Scenario.ez Scenario.origin
               100 NodeObj m1) in
  (spawnCount m1 - spawnCount Scenario.fresh = 2 /\ mNextParticleTime (emitter m1) = 50) /\
  (spawnCount m2 - spawnCount m1 = 1 /\ mNextParticleTime (emitter m2) = 50).
Proof.
  intros m1 m2. subst m2 m1.
  lazymatch goal with
  | |- (spawnCount (stateOf ?o1) - _ = _ /\ _) /\ (spawnCount (stateOf ?o2) - _ = _ /\ _) =>
      assert (E1 : isDone o1 = true) by run;
      assert (E2 : isDone o2 = true) by run
  end.
  pose proof (spawn_count_zero_variance 8 Scenario.origin Scenario.ex Scenario.ez
                Scenario.origin 250 100 Scenario.fresh
                ltac:(run) ltac:(has_templates) ltac:(run) ltac:(run) ltac:(run)
                ltac:(run) ltac:(run) ltac:(split; run)) as [_ H1].
  pose proof (H1 _ (done_state _ E1)) as (_ & _ & _ & A & _ & Hd & Ht & Hb & Hp & Hv).
  pose proof (spawn_count_zero_variance 8 Scenario.ex Scenario.origin Scenario.ez
                Scenario.origin 100 100 _ Hd Ht Hb Hp Hv
                ltac:(run) ltac:(run) ltac:(split; run)) as [_ H2].
  pose proof (H2 _ (done_state _ E2)) as (_ & _ & _ & _ & B & _).
  exact (conj (A eq_refl eq_refl ltac:(run)) (B eq_refl eq_refl ltac:(run))).
Defined.

Lemma pending_subperiod_witness :
  emitParticles 8 Scenario.ex Scenario.origin Scenario.ez Scenario.origin 20 NodeObj
    Scenario.first = Done tt (deferred 20 Scenario.origin Scenario.first) /\
  mNextParticleTime (emitter (deferred 20 Scenario.origin Scenario.first)) =
    mNextParticleTime (emitter Scenario.first) - 20 /\
  emitParticles 8 Scenario.ex Scenario.origin Scenario.ez Scenario.origin 100 NodeObj
    Scenario.first =
    bind (spawnPending Scenario.ex Scenario.origin Scenario.ez Scenario.origin
            (axisxOf Scenario.ez) 100 NodeObj)
         (fun c => emitFrom 8 Scenario.ex Scenario.origin Scenario.ez Scenario.origin
                     (axisxOf Scenario.ez) 100 NodeObj c true) Scenario.first.
Proof.
  pose proof (pending_subperiod 8 Scenario.ex Scenario.origin Scenario.ez Scenario.origin
                20 NodeObj Scenario.first
                ltac:(run) ltac:(has_templates) ltac:(run) ltac:(run) ltac:(split; run)
                ltac:(run)) as [A _].
  pose proof (pending_subperiod 8 Scenario.ex Scenario.origin Scenario.ez Scenario.origin
                100 NodeObj Scenario.first
                ltac:(run) ltac:(has_templates) ltac:(run) ltac:(run) ltac:(split; run)
                ltac:(run)) as [_ B].
  pose proof (A ltac:(run)) as (A1 & _ & A2 & _).
  pose proof (B ltac:(run)) as (B1 & _).
  exact (conj A1 (conj A2 B1)).
Defined.

Lemma pending_spawn_not_advanced_witness :
  match spawnPending Scenario.ex Scenario.origin Scenario.ez Scenario.origin
          (axisxOf Scenario.ez) 100 NodeObj Scenario.first with
  | Done c m1 =>
      exists m',
        emitParticles 8 Scenario.ex Scenario.origin Scenario.ez Scenario.origin 100 NodeObj
          Scenario.first = Done tt m' /\
        part_store (emitter m') = part_store (emitter m1) /\
        part_list_head (emitter m') = part_list_head (emitter m1) /\
        part_freelist (emitter m') = part_freelist (emitter m1) /\
        n_parts (emitter m') = n_parts (emitter m1) /\
        spawnView m' = spawnView Scenario.first ++
          [interpolate Scenario.ex Scenario.origin
             (f_div (f_of_int (mNextParticleTime (emitter Scenario.first))) (f_of_int 100))]
  | Crash f m1 =>
      emitParticles 8 Scenario.ex Scenario.origin Scenario.ez Scenario.origin 100 NodeObj
        Scenario.first = Crash f m1
  | OutOfFuel _ => False
  end.
Proof.
  exact (pending_spawn_not_advanced 7 Scenario.ex Scenario.origin Scenario.ez Scenario.origin
           100 100 Scenario.first
           ltac:(run) ltac:(has_templates) ltac:(run) ltac:(run) ltac:(run)
           ltac:(run) ltac:(run) ltac:(run) ltac:(run)).
Defined.

Lemma time_box_witness :
  emitParticles 8 Scenario.origin Scenario.ex Scenario.ez Scenario.origin 250 NodeObj
    Scenario.boxed = Done tt Scenario.boxed /\
  emitParticles_hemisphere Scenario.origin Scenario.ez (f_dec 1 0) Scenario.origin 3
    Scenario.boxed = Done tt (logged (EvConsole "Nooo!") Scenario.boxed) /\
  ~ ranOut (advanceTime Scenario.half Scenario.boxed) /\
  agedStore (msOf Scenario.half) (liveOf Scenario.boxed)
    (part_store (emitter Scenario.boxed))
    (part_store (emitter (stateOf (advanceTime Scenario.half Scenario.boxed)))).
Proof.
  pose proof (time_box Scenario.boxed ltac:(run) ltac:(run)) as (A & _ & B & C).
  pose proof (C Scenario.half (liveOf Scenario.boxed) (freeOf Scenario.boxed)
                ltac:(apply pool_ok_lists; run) ltac:(run) ltac:(run) ltac:(run))
    as (C1 & _ & C2 & _).
  exact (conj (A _ _ _ _ _ _ _) (conj (proj1 (B _ _ _ _ _)) (conj C1 C2))).
Defined.

Lemma zero_template_entry_points_witness :
  emitParticles 8 Scenario.origin Scenario.ex Scenario.ez Scenario.origin 250 NodeObj
    Scenario.bare = Done tt Scenario.bare /\
  exists f m',
    emitParticles_hemisphere Scenario.origin Scenario.ez (f_dec 1 0) Scenario.origin 3
      Scenario.bare = Crash f m' /\
    n_parts (emitter m') = n_parts (emitter Scenario.bare) + 1.
Proof.
  pose proof (zero_template_entry_points Scenario.bare ltac:(reflexivity)) as (A & _ & B).
  exact (conj (A _ _ _ _ _ _ _) (B _ _ _ _ 3 ltac:(run) ltac:(run) ltac:(run))).
Defined.

(** The fault of the hemisphere overload on the emitter with no template. *)
Example hemisphere_without_template :
  match emitParticles_hemisphere Scenario.origin Scenario.ez (f_dec 1 0) Scenario.origin 3
          Scenario.bare with
  | Crash DivisionByZero m' =>
      n_parts (emitter m') = 1 /\ spawnCount m' = 1 /\ part_list_head (emitter m') = Some 0%nat
  | _ => False
  end.
Proof. vm_compute. repeat split; reflexivity. Qed.

Lemma advanceTime_delta_witness :
  advanceTime (f_dec 1 (-6)) Scenario.second = Done tt Scenario.second /\
  advanceTime (f_dec 5 (-4)) Scenario.second =
    Done tt (ticked (f_dec 5 (-4)) Scenario.second) /\
  clampDt (f_dec 12 (-1)) = f_dec 5 (-1) /\
  advanceTime (f_dec 12 (-1)) Scenario.second =
    agePass (msOf (f_dec 12 (-1))) (ticked (f_dec 12 (-1)) Scenario.second).
Proof.
  pose proof (advanceTime_delta (f_dec 1 (-6)) Scenario.second) as [A _].
  pose proof (advanceTime_delta (f_dec 5 (-4)) Scenario.second) as [_ B].
  pose proof (advanceTime_delta (f_dec 12 (-1)) Scenario.second) as [_ C].
  pose proof (B ltac:(run)) as (_ & _ & _ & B1).
  pose proof (C ltac:(run)) as (_ & C1 & _ & C2).
  pose proof (proj1 (B1 ltac:(run)) ltac:(run)) as (B2 & _).
  pose proof (proj2 (C2 ltac:(run)) ltac:(run)) as (C3 & _).
  exact (conj (A ltac:(run)) (conj B2 (conj (C1 ltac:(run)) C3))).
Defined.

Lemma dead_short_circuit_witness :
  emitParticles 8 Scenario.origin Scenario.ex Scenario.ez Scenario.origin 250 NodeObj
    Scenario.dead = Done tt Scenario.dead /\
  advanceTime Scenario.half Scenario.dead =
    Done tt (if f_ltb Scenario.half (f_dec 1 (-5)) then Scenario.dead
             else logged (EvParentAdvanceTime Scenario.half) Scenario.dead) /\
  prepRenderImage false false Scenario.dead = Done tt Scenario.dead.
Proof.
  pose proof (dead_short_circuit Scenario.dead ltac:(run)) as (A & _ & _ & B & C).
  exact (conj (A _ _ _ _ _ _ _) (conj (B _) (C _ _))).
Defined.

Lemma lookup_default {A} (d : A) (o : option A) :
  match o with Some _ => true | None => false end = true -> o = Some (default d o).
Proof. destruct o; [reflexivity | discriminate]. Qed.

Lemma boundary_age_kept_witness :
  let m := Scenario.halfway in
  let m' := stateOf (advanceTime Scenario.half m) in
  ~ ranOut (advanceTime Scenario.half m) /\
  (exists z, part_store (emitter m') !! 2%nat = Some z /\
             currentAge z = totalLifetime z /\ normalizedAge z = f_dec 1 0) /\
  noAssert (advanceTime Scenario.half m).
Proof.
  intros m m'. subst m' m.
  pose proof (boundary_age_kept Scenario.half Scenario.halfway
                (liveOf Scenario.halfway) (freeOf Scenario.halfway) 2%nat
                (default Sample.blank (part_store (emitter Scenario.halfway) !! 2%nat))
                ltac:(apply pool_ok_lists; run) ltac:(run) ltac:(run) ltac:(run)
                ltac:(apply (bool_decide_eq_true_1 (2%nat ∈ liveOf Scenario.halfway)); run)
                ltac:(apply lookup_default; run)
                ltac:(run) ltac:(run) ltac:(run) ltac:(run) ltac:(run))
    as (A & _ & _ & (z & Hz & Ha & _ & Ht) & B).
  exact (conj A (conj (ex_intro _ z (conj Hz (conj Ha Ht))) B)).
Defined.

(** The particle of the pending spawn, in slot 2, after the call: where
    addParticle put it, not where the override-advance block would. *)
Example pending_particle_where_spawned :
  let m' :=
    stateOf (emitParticles 8 Scenario.ex Scenario.origin Scenario.ez Scenario.origin
               100 NodeObj Scenario.first) in
  overrideAdvance (datablock m') = false /\
  part_list_head (emitter m') = Some 2%nat /\
  Scenario.samePos (part_store (emitter m') !! 2%nat)
    (part_store (emitter (stateOf (advanceNewest 50 m'))) !! 2%nat) = false.
Proof. vm_compute. repeat split; reflexivity. Qed.

#[local] Existing Instance Sample.sim.


Lemma choosePeriod_range_witness :
  choosePeriod NodeNull Scenario2.varied = Crash NullDereference Scenario2.varied /\
  exists t g,
    choosePeriod NodeObj Scenario2.varied = Done t (set_gRandGen g Scenario2.varied) /\
    80 <= t <= 120.
Proof.
  destruct (choosePeriod_range Scenario2.varied) as (A & t & g & E & _ & B).
  split; [exact A|]. exists t, g. split; [exact E|].
  exact (B ltac:(split; run) ltac:(split; run)).
Defined.

Lemma internal_clock_advance_witness :
  mInternalClock
    (emitter (stateOf (emitParticles 8 Scenario.origin Scenario.ex Scenario.ez Scenario.origin
                         250 NodeObj Scenario.fresh))) = 250.
Proof.
  assert (E : isDone (emitParticles 8 Scenario.origin Scenario.ex Scenario.ez Scenario.origin
                        250 NodeObj Scenario.fresh) = true) by run.
  exact (internal_clock_advance 8 Scenario.origin Scenario.ex Scenario.ez Scenario.origin
           250 NodeObj Scenario.fresh _
           ltac:(run) ltac:(has_templates) ltac:(run) ltac:(run) ltac:(split; run)
           ltac:(split; run) (done_state _ E)).
Defined.

Lemma spawn_count_with_variance_witness :
  let call := emitParticles 8 Scenario.origin Scenario.ex Scenario.ez Scenario.origin
                250 NodeObj Scenario2.varied in
  ~ ranOut call /\
  2 <= spawnCount (stateOf call) - spawnCount Scenario2.varied <= 3 /\
  0 <= mNextParticleTime (emitter (stateOf call)) < 120.
Proof.
  intros call.
  assert (E : isDone call = true) by run.
  pose proof (spawn_count_with_variance 8 Scenario.origin Scenario.ex Scenario.ez
                Scenario.origin 250 100 20 Scenario2.varied
                ltac:(run) ltac:(has_templates) ltac:(run) ltac:(run) ltac:(run)
                ltac:(run) ltac:(run) ltac:(run) ltac:(run) ltac:(split; run)) as H.
  cbv zeta in H. destruct H as (A & _ & B).
  exact (conj (A ltac:(run)) (B _ (done_state _ E))).
Defined.

Lemma spawn_positions_witness :
  spawnView (stateOf (emitParticles 8 Scenario.origin Scenario.ex Scenario.ez Scenario.origin
                        250 NodeObj Scenario.fresh)) =
    [spawnAt Scenario.origin Scenario.ex 250 100; spawnAt Scenario.origin Scenario.ex 250 200].
Proof.
  assert (E : isDone (emitParticles 8 Scenario.origin Scenario.ex Scenario.ez Scenario.origin
                        250 NodeObj Scenario.fresh) = true) by run.
  exact (spawn_positions 8 Scenario.origin Scenario.ex Scenario.ez Scenario.origin 250 100
           Scenario.fresh _
           ltac:(run) ltac:(has_templates) ltac:(run) ltac:(run) ltac:(run) ltac:(run)
           ltac:(run) ltac:(split; run) (done_state _ E)).
Defined.

Lemma spawn_takes_free_head_witness :
  let call := addParticle Scenario.origin Scenario.ez Scenario.origin Scenario.ex
                Scenario.second in
  ~ ranOut call /\
  pool_at (stateOf call) [3; 2; 1; 0]%nat (seq 4 14) /\
  part_list_head (emitter (stateOf call)) = Some 3%nat.
Proof.
  intros call.
  assert (E : isDone call = true) by run.
  assert (Hp : pool_at Scenario.second (liveOf Scenario.second) (3%nat :: seq 4 14)).
  { assert (Ef : freeOf Scenario.second = 3%nat :: seq 4 14) by run.
    rewrite <- Ef. apply pool_ok_lists; run. }
  pose proof (spawn_takes_free_head Scenario.origin Scenario.ez Scenario.origin Scenario.ex
                NodeObj Scenario.second _ _ _ Hp ltac:(run)) as H.
  cbv zeta in H. destruct H as ((A & B) & _).
  destruct (B _ (done_state _ E)) as (B1 & B2 & _).
  exact (conj A (conj B1 B2)).
Defined.

Lemma spawn_grows_pool_witness :
  let call := addParticle Scenario.origin Scenario.ez Scenario.origin Scenario.ex
                Scenario2.unbound in
  ~ ranOut call /\
  pool_at (stateOf call) [15%nat] (rev (seq 0 15)) /\
  length (part_store (emitter (stateOf call))) = 16%nat /\
  partListInitSize (datablock (stateOf call)) = 16.
Proof.
  intros call.
  assert (E : isDone call = true) by run.
  pose proof (spawn_grows_pool Scenario.origin Scenario.ez Scenario.origin Scenario.ex
                NodeObj Scenario2.unbound [] []
                ltac:(apply (pool_ok_lists Scenario2.unbound); run)
                ltac:(left; reflexivity)) as H.
  cbv zeta in H. destruct H as ((A & B) & _).
  destruct (B _ (done_state _ E)) as (B1 & _ & _ & B2 & _ & B3).
  exact (conj A (conj B1 (conj B2 B3))).
Defined.

Lemma advanceTime_schedule_witness :
  let m' := stateOf (advanceTime (f_dec 12 (-1)) Scenario.second) in
  mInternalClock (emitter m') = mInternalClock (emitter Scenario.second) /\
  mNextParticleTime (emitter m') = mNextParticleTime (emitter Scenario.second) /\
  mDead (emitter m') = false /\
  mDeleteOnTick (emitter m') = false.
Proof.
  intros m'.
  pose proof (advanceTime_schedule (f_dec 12 (-1)) Scenario.second
                (liveOf Scenario.second) (freeOf Scenario.second)
                ltac:(apply pool_ok_lists; run) ltac:(run) ltac:(run)) as H.
  cbv zeta in H. destruct H as (_ & A & B & _ & _ & _ & C & _ & D).
  exact (conj A (conj B (conj C D))).
Defined.

Lemma evicted_slot_reused_witness :
  let m1 := stateOf (advanceTime Scenario.half Scenario.mixed) in
  ~ ranOut (advanceTime Scenario.half Scenario.mixed) /\
  part_freelist (emitter m1) = Some 0%nat /\
  forall m2,
    addParticle_node Scenario.origin Scenario.ez Scenario.origin Scenario.ex NodeObj m1
      = Done tt m2 ->
    part_list_head (emitter m2) = Some 0%nat /\
    pool_at m2 [0; 3]%nat ([1; 2]%nat ++ seq 4 14).
Proof.
  intros m1.
  assert (Hp : pool_at Scenario.mixed [3; 2; 1; 0]%nat (seq 4 14)).
  { assert (El : liveOf Scenario.mixed = [3; 2; 1; 0]%nat) by run.
    assert (Ef : freeOf Scenario.mixed = seq 4 14) by run.
    rewrite <- El, <- Ef. apply pool_ok_lists; run. }
  exact (evicted_slot_reused Scenario.half Scenario.mixed [3; 2; 1; 0]%nat (seq 4 14)
           [2; 1]%nat 0%nat Scenario.origin Scenario.ez Scenario.origin Scenario.ex NodeObj
           Hp ltac:(run) ltac:(run) ltac:(run) ltac:(run) ltac:(run)).
Defined.

Lemma spawn_while_shutting_down_witness :
  exists m',
    addParticle_node Scenario.origin Scenario.ez Scenario.origin Scenario.ex NodeObj
      Scenario2.closing = Done tt m' /\
    pool_at m' [3; 2; 1; 0]%nat (seq 4 14) /\
    spawnView m' = spawnView Scenario2.closing ++ [Scenario.origin] /\
    node m' = node Scenario2.closing.
Proof.
  assert (Hp : pool_at Scenario2.closing [2; 1; 0]%nat (3%nat :: seq 4 14)).
  { assert (El : liveOf Scenario2.closing = [2; 1; 0]%nat) by run.
    assert (Ef : freeOf Scenario2.closing = 3%nat :: seq 4 14) by run.
    rewrite <- El, <- Ef. apply pool_ok_lists; run. }
  destruct (spawn_while_shutting_down Scenario.origin Scenario.ez Scenario.origin Scenario.ex
              Scenario2.closing _ _ _
              (default Sample.blank (part_store (emitter Scenario2.closing) !! 3%nat))
              Hp ltac:(run) ltac:(apply lookup_default; run) ltac:(run))
    as (m' & p & E & A & _ & _ & B & C).
  exists m'. exact (conj E (conj A (conj B C))).
Defined.

Lemma hemisphere_count_witness :
  let call := emitParticles_hemisphere Scenario.origin Scenario.ez (f_dec 1 0)
                Scenario.origin 3 Scenario.second in
  ~ ranOut call /\
  spawnCount (stateOf call) = spawnCount Scenario.second + 3 /\
  n_parts (emitter (stateOf call)) = 6 /\
  mHasLastPosition (emitter (stateOf call)) = false.
Proof.
  intros call.
  assert (E : isDone call = true) by run.
  destruct (hemisphere_count Scenario.origin Scenario.ez (f_dec 1 0) Scenario.origin 3
              Scenario.second (liveOf Scenario.second) (freeOf Scenario.second)
              ltac:(apply pool_ok_lists; run) ltac:(run) ltac:(run)) as (A & B).
  destruct (B _ (done_state _ E)) as (B1 & B2 & _ & B3 & _).
  exact (conj A (conj B1 (conj B2 B3))).
Defined.

Lemma point_calls_chain_witness :
  let call := emitParticles_point 8 Scenario.ex true Scenario.ez Scenario.origin 20
                Scenario.first in
  call = emitParticles 8 (mLastPosition (emitter Scenario.first)) Scenario.ex Scenario.ez
           Scenario.origin 20 defaultNode (logged (EvConsole "Noo!") Scenario.first) /\
  mLastPosition (emitter (stateOf call)) = Scenario.ex /\
  mHasLastPosition (emitter (stateOf call)) = true.
Proof.
  intros call.
  assert (E : isDone call = true) by run.
  destruct (point_calls_chain 8 Scenario.ex true Scenario.ez Scenario.origin 20
              Scenario.first _
              ltac:(run) ltac:(has_templates) ltac:(run) (done_state _ E))
    as (A & B & C & _).
  exact (conj A (conj B C)).
Defined.


Lemma allocPrimBuffer_size_witness :
  (exists f, allocPrimBuffer (-1) Scenario.bare = Crash f Scenario.bare) /\
  allocPrimBuffer (-1) Scenario.fresh =
    Done tt (logged (EvAllocPrimBuffer 18)
               (set_datablock (set_partListInitSize 18 (datablock Scenario.fresh))
                  Scenario.fresh)).
Proof.
  split.
  - exact (proj1 (allocPrimBuffer_size (-1) Scenario.bare) eq_refl).
  - destruct (proj2 (allocPrimBuffer_size (-1) Scenario.fresh)
                ltac:(has_templates) ltac:(run) ltac:(run)) as (L & _ & (t & Ht & EL) & E).
    change (t ∈ [Sample.smoke]) in Ht. apply list_elem_of_singleton in Ht.
    subst t L. exact E.
Defined.

Lemma update_frame_witness :
  let m' := stateOf (update 100 Scenario.second) in
  ~ ranOut (update 100 Scenario.second) /\
  pool_at m' [2; 1; 0]%nat (seq 3 15) /\
  length (part_store (emitter m')) = 18%nat.
Proof.
  intros m'.
  assert (Hp : pool_at Scenario.second [2; 1; 0]%nat (seq 3 15)).
  { assert (El : liveOf Scenario.second = [2; 1; 0]%nat) by run.
    assert (Ef : freeOf Scenario.second = seq 3 15) by run.
    rewrite <- El, <- Ef. apply pool_ok_lists; run. }
  pose proof (update_frame 100 Scenario.second _ _ Hp) as H.
  cbv zeta in H. destruct H as (A & B & _ & _ & C & _).
  exact (conj A (conj B C)).
Defined.

Lemma updateKeyData_frame_witness :
  let m' := stateOf (updateKeyData (Some 2%nat) Scenario.second) in
  exists z,
    part_store (emitter m') = <[2%nat := z]> (part_store (emitter Scenario.second)) /\
    totalLifetime z = 1000 /\
    poolView m' = poolView Scenario.second.
Proof.
  intros m'.
  pose proof (updateKeyData_frame 2%nat
                (default Sample.blank (part_store (emitter Scenario.second) !! 2%nat))
                Scenario.second ltac:(apply lookup_default; run)) as H.
  cbv zeta in H. destruct H as (z & A & B & _ & _ & _ & _ & _ & _ & _ & _ & _ & C).
  exists z. exact (conj A (conj B C)).
Defined.

Lemma GraphEmitterData_onAdd_validates_witness :
  exists x' m',
    GraphEmitterData_onAdd true (Sample.members (Some "smoke ghost"%string) [])
      Scenario2.sloppy = Done (true, x') m' /\
    ejectionPeriodMS (datablock m') = 1 /\
    periodVarianceMS (datablock m') = 0 /\
    particleDataBlocks (datablock m') = [Sample.smoke] /\
    dataBlockIds x' = [1].
Proof.
  assert (Ea : accepted (Sample.members (Some "smoke ghost"%string) []) = true) by run.
  destruct (GraphEmitterData_onAdd_validates
              (Sample.members (Some "smoke ghost"%string) []) Scenario2.sloppy
              ltac:(split; run) ltac:(split; run))
    as (x' & m' & E & _ & H).
  cbv zeta in H. destruct H as (A & B & _ & _ & C).
  destruct (C Ea) as (_ & _ & C1 & C2 & _).
  rewrite Ea in E. rewrite A in B.
  exists x', m'. exact (conj E (conj A (conj B (conj C1 C2)))).
Defined.

Lemma reload_resolves_witness :
  (exists x',
     GraphEmitterData_reload (Sample.members (Some "ghost smoke"%string) [7]) Scenario.fresh
       = Done (true, x') (Scenario2.bound [Sample.smoke]) /\
     dataBlockIds x' = [1] /\ last (dataLog x') = Some ReloadSignal) /\
  (exists x',
     GraphEmitterData_reload (Sample.members None [1]) Scenario.fresh
       = Done (false, x') (Scenario2.bound []) /\
     dataBlockIds x' = [] /\
     emitParticles 8 Scenario.origin Scenario.ex Scenario.ez Scenario.origin 250 NodeObj
       (Scenario2.bound []) = Done tt (Scenario2.bound [])).
Proof.
  split.
  - pose proof (reload_resolves (Sample.members (Some "ghost smoke"%string) [7])
                  Scenario.fresh) as H.
    cbv zeta in H. destruct H as (x' & E & A & _ & B & _).
    exists x'. exact (conj E (conj A B)).
  - pose proof (reload_resolves (Sample.members None [1]) Scenario.fresh) as H.
    cbv zeta in H. destruct H as (x' & E & A & _ & _ & B).
    exists x'. exact (conj E (conj A (B eq_refl _ _ _ _ _ _ _))).
Defined.

Lemma preload_resolves_witness :
  (exists x',
     GraphEmitterData_preload true true (Sample.members None [7; 1]) Scenario.fresh
       = Done (true, x') (Scenario2.bound [Sample.smoke]) /\
     dataBlockIds x' = [7; 1]) /\
  (exists x',
     GraphEmitterData_preload true false Scenario2.fogged Scenario.fresh
       = Done (false, x') (Scenario2.bound [Sample.smoke]) /\
     textureHandle x' = false) /\
  (exists f,
     GraphEmitterData_preload true false (Sample.members None [7]) Scenario.fresh
       = Crash f (Scenario2.bound [])).
Proof.
  split; [|split].
  - pose proof (preload_resolves (Sample.members None [7; 1]) Scenario.fresh) as H.
    cbv zeta in H. destruct H as ((x' & E & A & _) & _).
    exists x'. exact (conj E A).
  - pose proof (preload_resolves Scenario2.fogged Scenario.fresh) as H.
    cbv zeta in H. destruct H as (_ & H & _).
    destruct (H ltac:(run)) as (x' & E & _ & A & _).
    exists x'. exact (conj E A).
  - pose proof (preload_resolves (Sample.members None [7]) Scenario.fresh) as H.
    cbv zeta in H. destruct H as (_ & _ & H).
    destruct (H ltac:(run)) as (x' & _ & _ & A).
    exact (A eq_refl).
Defined.

Lemma primIndices_quads_witness :
  primIndices 3 = Some [0; 1; 3; 1; 3; 2; 4; 5; 7; 5; 7; 6; 8; 9; 11; 9; 11; 10] /\
  primIndices 715827883 = None.
Proof.
  split.
  - exact (proj1 (proj1 (primIndices_quads 3 ltac:(split; run)) ltac:(run))).
  - exact (proj2 (primIndices_quads 715827883 ltac:(split; run)) ltac:(run)).
Defined.

Lemma deleteWhenEmpty_then_tick_witness :
  (exists m', deleteWhenEmpty Scenario2.registered Scenario.fresh = Done true m' /\
              mDead (emitter m') = true) /\
  (exists m1, deleteWhenEmpty Scenario2.registered Scenario2.aged = Done false m1 /\
     mDead (emitter m1) = false /\
     exists m3, processTick (stateOf (advanceTime Scenario.half m1)) = Done true m3 /\
                mDead (emitter m3) = true).
Proof.
  assert (Hf : pool_at Scenario.fresh [] (seq 0 18)).
  { assert (Ef : freeOf Scenario.fresh = seq 0 18) by run.
    rewrite <- Ef. apply (pool_ok_lists Scenario.fresh); run. }
  assert (Ha : pool_at Scenario2.aged [2; 1; 0]%nat (seq 3 15)).
  { assert (El : liveOf Scenario2.aged = [2; 1; 0]%nat) by run.
    assert (Ef : freeOf Scenario2.aged = seq 3 15) by run.
    rewrite <- El, <- Ef. apply pool_ok_lists; run. }
  assert (Ee : mDeleteOnTick (emitter Scenario2.aged)
               || (negb (msOf Scenario.half =? 0)
                   && forallb (expiresAt (part_store (emitter Scenario2.aged))
                                 (msOf Scenario.half)) [2; 1; 0]%nat) = true) by run.
  split.
  - destruct (proj1 (deleteWhenEmpty_then_tick Scenario2.registered Scenario.half
                       Scenario.fresh [] (seq 0 18) Hf eq_refl eq_refl eq_refl
                       ltac:(run)) eq_refl) as (m' & E & A & _).
    exists m'. exact (conj E A).
  - pose proof (proj2 (deleteWhenEmpty_then_tick Scenario2.registered Scenario.half
                         Scenario2.aged [2; 1; 0]%nat (seq 3 15) Ha eq_refl eq_refl eq_refl
                         ltac:(run)) ltac:(discriminate) ltac:(run) ltac:(run)) as H.
    cbv zeta in H. destruct H as (m1 & E & A & _ & B). rewrite Ee in B.
    exists m1. exact (conj E (conj A B)).
Defined.

Lemma getCollectiveColor_mean_witness :
  getCollectiveColor Scenario.second =
    Done (c_div (fold_left c_add (map color (particlesOf Scenario.second [2; 1; 0]%nat)) c_black)
                (f_of_int 3))
         Scenario.second.
Proof.
  assert (Hp : pool_at Scenario.second [2; 1; 0]%nat (seq 3 15)).
  { assert (El : liveOf Scenario.second = [2; 1; 0]%nat) by run.
    assert (Ef : freeOf Scenario.second = seq 3 15) by run.
    rewrite <- El, <- Ef. apply pool_ok_lists; run. }
  exact (getCollectiveColor_mean Scenario.second [2; 1; 0]%nat (seq 3 15) Hp ltac:(run)).
Defined.
